(** * A shallow embedding of the two platformer programs

    [clientv0sml.py] (the base variant) and [deltamarioland4k.py] (the
    extended variant) share most of their simulation code word for word.
    The shared classes ([Platform], [Coin], [Goal], [Enemy]), the overlap
    test and the camera are embedded once; the two [Player] classes, the
    two level builders and the two [Game.run] frame bodies, which differ,
    live in the modules [SML] and [Delta].  The definitions come first,
    then the concrete inputs of the examples (module [Ex]), then the
    properties.

    Numbers.  Positions and velocities are Python floats; they are embedded
    as exact rationals ([Q]), so every comparison and every assignment of the
    source is kept, and rounding is not modelled.  Counters ([lives],
    [coins], [invincible], [death_timer], level numbers) are Python ints and
    are embedded as [Z].

    Effects.  A method that updates its object returns the updated object.
    [Player.move] also returns the enemy collection, whose members it
    deactivates, and the coin collection, from which it removes entries; the
    coins themselves are compared by identity and live in a store.  Sound
    and rendering are left out, except for the countdown that [Player.draw]
    performs on the player. *)

From Stdlib Require Import QArith Qabs ZArith List Bool Lia Lqa.
Import ListNotations.

Local Open Scope Q_scope.
Local Coercion inject_Z : Z >-> Q.

(** ** Comparisons of the source, as boolean functions *)

Definition Qlt_bool (a b : Q) : bool :=
  (Qnum a * QDen b <? Qnum b * QDen a)%Z.

Definition Qgt_bool (a b : Q) : bool := Qlt_bool b a.
Definition Qge_bool (a b : Q) : bool := Qle_bool b a.

(** ** Module constants (identical in both files) *)

Definition GB_WIDTH : Z := 160.
Definition GB_HEIGHT : Z := 144.
Definition GRAVITY : Q := 3 # 10.
Definition PLAYER_SPEED : Q := 15 # 10.
Definition JUMP_STRENGTH : Q := 45 # 10.
Definition SCROLL_THRESH : Z := (GB_WIDTH / 3)%Z.   (* GB_WIDTH // 3 *)

(** ** Objects with a rectangle

    [Player.collision(self, obj)] reads [x], [y], [width] and [height] of
    both objects, whatever their class.  The class [Rect] is that
    interface. *)

Class Rect (A : Type) := {
  x_of : A -> Q;
  y_of : A -> Q;
  width_of : A -> Q;
  height_of : A -> Q
}.

(** [Player.collision], lines 121-125 of clientv0sml.py and 241-245 of
    deltamarioland4k.py. *)
Definition collision {A B : Type} `{Rect A} `{Rect B} (self : A) (obj : B) : bool :=
  Qlt_bool (x_of self) (x_of obj + width_of obj) &&
  Qgt_bool (x_of self + width_of self) (x_of obj) &&
  Qlt_bool (y_of self) (y_of obj + height_of obj) &&
  Qgt_bool (y_of self + height_of self) (y_of obj).

Module Platform.
Record t := mk { x : Q; y : Q; width : Q; height : Q }.
End Platform.

Module Coin.
Record t := mk { x : Q; y : Q; width : Q; height : Q; animation_frame : Q }.
(** [Coin.__init__] *)
Definition init (x0 y0 : Q) : t := mk x0 y0 8 8 0.
End Coin.

Module Goal.
Record t := mk { x : Q; y : Q; width : Q; height : Q }.
(** [Goal.__init__]; the extended variant's [animation] attribute is only
    read and written by [Goal.draw]. *)
Definition init (x0 y0 : Q) : t := mk x0 y0 16 32.
End Goal.

Module Enemy.
Record t := mk {
  x : Q; y : Q; width : Q; height : Q;
  direction : Z; speed : Q; active : bool; animation_frame : Q;
  enemy_type : Z   (* deltamarioland4k.py only *)
}.
(** [Enemy.__init__(x, y, enemy_type=0)] of deltamarioland4k.py;
    [Enemy.__init__(x, y)] of clientv0sml.py is the case [ty = 0]
    (speed 0.5). *)
Definition init (x0 y0 : Q) (ty : Z) : t :=
  mk x0 y0 8 8 (-1) ((5 # 10) + ty * (2 # 10)) true 0 ty.
Definition set_x (e : t) (v : Q) : t :=
  mk v (y e) (width e) (height e) (direction e) (speed e) (active e)
     (animation_frame e) (enemy_type e).
Definition set_direction (e : t) (v : Z) : t :=
  mk (x e) (y e) (width e) (height e) v (speed e) (active e)
     (animation_frame e) (enemy_type e).
Definition set_active (e : t) (v : bool) : t :=
  mk (x e) (y e) (width e) (height e) (direction e) (speed e) v
     (animation_frame e) (enemy_type e).
Definition set_animation_frame (e : t) (v : Q) : t :=
  mk (x e) (y e) (width e) (height e) (direction e) (speed e) (active e)
     v (enemy_type e).

(** The test of the edge-detection loop: the enemy stands on [platform]. *)
Definition on (e : t) (platform : Platform.t) : bool :=
  Qgt_bool (x e + width e) (Platform.x platform) &&
  Qlt_bool (x e) (Platform.x platform + Platform.width platform) &&
  Qlt_bool (Qabs ((y e + height e) - Platform.y platform)) 2.

(** The inner test: the enemy is about to leave [platform] on the side it
    walks to. *)
Definition at_edge (e : t) (platform : Platform.t) : bool :=
  ((direction e <? 0)%Z && Qle_bool (x e) (Platform.x platform)) ||
  ((direction e >? 0)%Z &&
   Qge_bool (x e + width e) (Platform.x platform + Platform.width platform)).

(** One iteration of [for platform in platforms]; the loop state is the
    enemy and the local [on_platform]. *)
Definition edge_step (st : t * bool) (platform : Platform.t) : t * bool :=
  let '(e, on_platform) := st in
  if on e platform then
    (if at_edge e platform then set_direction e (direction e * -1)%Z else e,
     true)
  else (e, on_platform).

(** Line 239 (396): the step along the walking direction. *)
Definition advance (e : t) : t := set_x e (x e + direction e * speed e).

(** Lines 240-242 (397-399): the animation phase. *)
Definition animate (e : t) : t :=
  let e := set_animation_frame e (animation_frame e + (1 # 10)) in
  if Qge_bool (animation_frame e) 2 then set_animation_frame e 0 else e.

(** [Enemy.move], lines 235-257 of clientv0sml.py and 392-414 of
    deltamarioland4k.py (the same text). *)
Definition move (e : t) (platforms : list Platform.t) : t :=
  if negb (active e) then e
  else
    let e := advance e in
    let e := animate e in
    let '(e, on_platform) := fold_left edge_step platforms (e, false) in
    if negb on_platform then set_direction e (direction e * -1)%Z else e.
End Enemy.

#[global] Instance Rect_Platform : Rect Platform.t :=
  {| x_of := Platform.x; y_of := Platform.y;
     width_of := Platform.width; height_of := Platform.height |}.
#[global] Instance Rect_Coin : Rect Coin.t :=
  {| x_of := Coin.x; y_of := Coin.y;
     width_of := Coin.width; height_of := Coin.height |}.
#[global] Instance Rect_Goal : Rect Goal.t :=
  {| x_of := Goal.x; y_of := Goal.y;
     width_of := Goal.width; height_of := Goal.height |}.
#[global] Instance Rect_Enemy : Rect Enemy.t :=
  {| x_of := Enemy.x; y_of := Enemy.y;
     width_of := Enemy.width; height_of := Enemy.height |}.


(** Two rectangles are edge-adjacent when a side of one lies exactly on the
    opposite side of the other. *)
Definition edge_adjacent {A B : Type} `{Rect A} `{Rect B} (a : A) (b : B) : Prop :=
  x_of a + width_of a == x_of b \/ x_of b + width_of b == x_of a \/
  y_of a + height_of a == y_of b \/ y_of b + height_of b == y_of a.

(** ** Python built-ins used by the game loop *)

(** [min(a, b)] returns [a] unless [b < a]; [max(a, b)] returns [a] unless
    [b > a]. *)
Definition py_min (a b : Q) : Q := if Qlt_bool b a then b else a.
Definition py_max (a b : Q) : Q := if Qgt_bool b a then b else a.

(** Coins are objects compared by identity ([Coin] defines no [__eq__]): the
    level's coin collection is a list of references into a store of coin
    objects. *)
Definition CoinRef := nat.
Definition CoinStore := CoinRef -> Coin.t.

(** [list.remove(v)]: drops the first occurrence of [v]; [None] stands for
    the [ValueError] raised when there is none. *)
Fixpoint list_remove (v : CoinRef) (l : list CoinRef) : option (list CoinRef) :=
  match l with
  | [] => None
  | r :: rest =>
      if Nat.eqb r v then Some rest
      else match list_remove v rest with
           | Some rest' => Some (r :: rest')
           | None => None
           end
  end.

Fixpoint replace_nth {A : Type} (n : nat) (v : A) (l : list A) : list A :=
  match l, n with
  | [], _ => []
  | _ :: rest, O => v :: rest
  | a :: rest, S n' => a :: replace_nth n' v rest
  end.

(** [l[i] = v] on a Python list: indices [-len(l) <= i < 0] count from the
    end, and [None] stands for the [IndexError] outside [-len(l) <= i <
    len(l)]. *)
Definition list_setitem {A : Type} (l : list A) (i : Z) (v : A) : option (list A) :=
  let n := Z.of_nat (length l) in
  if ((0 <=? i) && (i <? n))%Z then Some (replace_nth (Z.to_nat i) v l)
  else if ((- n <=? i) && (i <? 0))%Z then Some (replace_nth (Z.to_nat (i + n)) v l)
  else None.

(** [l[i]] read, same index rules. *)
Definition list_getitem {A : Type} (l : list A) (i : Z) : option A :=
  let n := Z.of_nat (length l) in
  if ((0 <=? i) && (i <? n))%Z then nth_error l (Z.to_nat i)
  else if ((- n <=? i) && (i <? 0))%Z then nth_error l (Z.to_nat (i + n))
  else None.

Inductive GameState := menu | level_select | playing | game_over | victory.

(** The camera lines of [Game.run] (550-556 of clientv0sml.py, 761-767 of
    deltamarioland4k.py, the same text): the new [scroll_x] from the
    player's [x], the old [scroll_x] and the level's width. *)
Definition camera (player_x scroll_x : Q) (level_width : Z) : Q :=
  let scroll_x :=
    if Qgt_bool (player_x - scroll_x) (GB_WIDTH - SCROLL_THRESH)%Z
    then player_x - (GB_WIDTH - SCROLL_THRESH)%Z else scroll_x in
  let scroll_x :=
    if Qlt_bool (player_x - scroll_x) SCROLL_THRESH
    then player_x - SCROLL_THRESH else scroll_x in
  py_max 0 (py_min scroll_x (level_width - GB_WIDTH)%Z).

(** [dx] from the pressed keys, lines 538-542 / 749-753. *)
Definition dx_of_keys (left right : bool) : Q :=
  let dx := 0 in
  let dx := if left then - PLAYER_SPEED else dx in
  if right then PLAYER_SPEED else dx.

(** [range(0, stop, 16)] for [stop >= 0]. *)
Definition range16 (stop : Z) : list Z :=
  map (fun i => (16 * Z.of_nat i)%Z) (seq 0 (Z.to_nat ((stop + 15) / 16))).

(** ** Notions used to state the properties *)

(** The first, and the last, platform of the collection, in collection
    order, that overlaps the rectangle of [self]. *)
Definition first_overlap {A : Type} `{Rect A} (self : A) (platforms : list Platform.t)
    : option Platform.t :=
  find (fun platform => collision self platform) platforms.
Definition last_overlap {A : Type} `{Rect A} (self : A) (platforms : list Platform.t)
    : option Platform.t :=
  find (fun platform => collision self platform) (rev platforms).

(** * clientv0sml.py *)

Module SML.

Module Player.
Record t := mk {
  x : Q; y : Q; width : Q; height : Q; vel_y : Q;
  jumping : bool; direction : Z; animation_frame : Q;
  invincible : Z; lives : Z; coins : Z; active : bool
}.
(** [Player.__init__] *)
Definition init (x0 y0 : Q) : t := mk x0 y0 8 8 0 false 1 0 0 3 0 true.

Definition set_x (p : t) (v : Q) : t :=
  mk v (y p) (width p) (height p) (vel_y p) (jumping p) (direction p)
     (animation_frame p) (invincible p) (lives p) (coins p) (active p).
Definition set_y (p : t) (v : Q) : t :=
  mk (x p) v (width p) (height p) (vel_y p) (jumping p) (direction p)
     (animation_frame p) (invincible p) (lives p) (coins p) (active p).
Definition set_vel_y (p : t) (v : Q) : t :=
  mk (x p) (y p) (width p) (height p) v (jumping p) (direction p)
     (animation_frame p) (invincible p) (lives p) (coins p) (active p).
Definition set_jumping (p : t) (v : bool) : t :=
  mk (x p) (y p) (width p) (height p) (vel_y p) v (direction p)
     (animation_frame p) (invincible p) (lives p) (coins p) (active p).
Definition set_direction (p : t) (v : Z) : t :=
  mk (x p) (y p) (width p) (height p) (vel_y p) (jumping p) v
     (animation_frame p) (invincible p) (lives p) (coins p) (active p).
Definition set_animation_frame (p : t) (v : Q) : t :=
  mk (x p) (y p) (width p) (height p) (vel_y p) (jumping p) (direction p)
     v (invincible p) (lives p) (coins p) (active p).
Definition set_invincible (p : t) (v : Z) : t :=
  mk (x p) (y p) (width p) (height p) (vel_y p) (jumping p) (direction p)
     (animation_frame p) v (lives p) (coins p) (active p).
Definition set_lives (p : t) (v : Z) : t :=
  mk (x p) (y p) (width p) (height p) (vel_y p) (jumping p) (direction p)
     (animation_frame p) (invincible p) v (coins p) (active p).
Definition set_coins (p : t) (v : Z) : t :=
  mk (x p) (y p) (width p) (height p) (vel_y p) (jumping p) (direction p)
     (animation_frame p) (invincible p) (lives p) v (active p).
Definition set_active (p : t) (v : bool) : t :=
  mk (x p) (y p) (width p) (height p) (vel_y p) (jumping p) (direction p)
     (animation_frame p) (invincible p) (lives p) (coins p) v.

#[global] Instance Rect_Player : Rect t :=
  {| x_of := x; y_of := y; width_of := width; height_of := height |}.

(** Lines 63-69: horizontal movement. *)
Definition move_horizontal (dx : Q) (p : t) : t :=
  let p := set_x p (x p + dx) in
  if negb (Qeq_bool dx 0) then
    let p := set_direction p (if Qgt_bool dx 0 then 1 else -1)%Z in
    let p := set_animation_frame p (animation_frame p + (2 # 10)) in
    if Qge_bool (animation_frame p) 2 then set_animation_frame p 0 else p
  else p.

(** Lines 72-77: one iteration of the horizontal platform loop. *)
Definition horizontal_step (dx : Q) (p : t) (platform : Platform.t) : t :=
  if collision p platform then
    if Qgt_bool dx 0 then set_x p (Platform.x platform - width p)
    else set_x p (Platform.x platform + Platform.width platform)
  else p.

(** Lines 80-81: gravity. *)
Definition apply_gravity (p : t) : t :=
  let p := set_vel_y p (vel_y p + GRAVITY) in
  set_y p (y p + vel_y p).

(** Lines 85-94: one iteration of the vertical platform loop; the loop
    state is the player and the local [on_ground]. *)
Definition vertical_step (st : t * bool) (platform : Platform.t) : t * bool :=
  let '(p, on_ground) := st in
  if collision p platform then
    if Qgt_bool (vel_y p) 0 then
      let p := set_y p (Platform.y platform - height p) in
      let p := set_vel_y p 0 in
      let p := set_jumping p false in
      (p, true)
    else if Qlt_bool (vel_y p) 0 then
      let p := set_y p (Platform.y platform + Platform.height platform) in
      let p := set_vel_y p 0 in
      (p, on_ground)
    else (p, on_ground)
  else (p, on_ground).

(** Lines 88-90: what landing on [platform] does to a falling player. *)
Definition landed (p : t) (platform : Platform.t) : t :=
  set_jumping (set_vel_y (set_y p (Platform.y platform - height p)) 0) false.

(** [p'] has the rectangle and the [jumping] flag of [p]. *)
Definition same_place (p p' : t) : Prop :=
  x p' = x p /\ y p' = y p /\ width p' = width p /\ height p' = height p /\
  jumping p' = jumping p.

(** Lines 100-103: the stomp branch, on the player. *)
Definition stomp (p : t) : t :=
  let p := set_vel_y p (- JUMP_STRENGTH * (6 # 10)) in
  set_coins p (coins p + 1)%Z.

(** Lines 105-109: the damage branch. *)
Definition take_damage (p : t) : t :=
  let p := set_invincible p 60 in
  let p := set_lives p (lives p - 1)%Z in
  if (lives p <=? 0)%Z then set_active p false else p.

(** Lines 98-109: one iteration of the enemy loop. *)
Definition enemy_contact (p : t) (enemy : Enemy.t) : t * Enemy.t :=
  if Enemy.active enemy && collision p enemy then
    if Qgt_bool (vel_y p) 0 && Qlt_bool (y p) (Enemy.y enemy) then
      (stomp p, Enemy.set_active enemy false)
    else if (invincible p <=? 0)%Z then (take_damage p, enemy)
    else (p, enemy)
  else (p, enemy).

(** Lines 97-109: [for enemy in enemies], each enemy updated in place. *)
Fixpoint enemy_loop (p : t) (enemies : list Enemy.t) : t * list Enemy.t :=
  match enemies with
  | [] => (p, [])
  | enemy :: rest =>
      let '(p, enemy) := enemy_contact p enemy in
      let '(p, rest) := enemy_loop p rest in
      (p, enemy :: rest)
  end.

(** Line 115: the player's side of one coin pickup. *)
Definition pickup (p : t) : t := set_coins p (coins p + 1)%Z.

(** Lines 112-115: [for coin in coins[:]] runs over [snapshot], a copy of
    the collection taken before the loop, and removes from the live
    collection [coins]. *)
Fixpoint coin_loop (store : CoinStore) (snapshot : list CoinRef)
    (p : t) (coins : list CoinRef) : option (t * list CoinRef) :=
  match snapshot with
  | [] => Some (p, coins)
  | coin :: rest =>
      if collision p (store coin) then
        match list_remove coin coins with
        | Some coins => coin_loop store rest (pickup p) coins
        | None => None
        end
      else coin_loop store rest p coins
  end.

(** Lines 118-119. *)
Definition check_bounds (p : t) : t :=
  if Qgt_bool (y p) GB_HEIGHT then set_active p false else p.

(** The player as the vertical platform loop meets it: lines 63-81. *)
Definition move_to_gravity (p : t) (dx : Q) (platforms : list Platform.t) : t :=
  let p := move_horizontal dx p in
  let p := fold_left (horizontal_step dx) platforms p in
  apply_gravity p.

(** The player as the coin loop meets it: lines 63-109 for an active
    player. *)
Definition move_to_enemies (p : t) (dx : Q) (platforms : list Platform.t)
    (enemies : list Enemy.t) : t * list Enemy.t :=
  let p := move_to_gravity p dx platforms in
  let '(p, _) := fold_left vertical_step platforms (p, false) in
  enemy_loop p enemies.

(** [Player.move], lines 59-119.  The result is the player, the enemy
    collection and the coin collection after the call. *)
Definition move (store : CoinStore) (p : t) (dx : Q) (platforms : list Platform.t)
    (enemies : list Enemy.t) (coins : list CoinRef)
    : option (t * list Enemy.t * list CoinRef) :=
  if negb (active p) then Some (p, enemies, coins)
  else
    let '(p, enemies) := move_to_enemies p dx platforms enemies in
    match coin_loop store coins p coins with
    | Some (p, coins) => Some (check_bounds p, enemies, coins)
    | None => None
    end.

(** The coin collections that later calls of [Player.move] can be given:
    [passes store cs cs'] when [cs'] is what some sequence of calls, each
    run on the collection the previous one left, leaves of [cs]. *)
Inductive passes (store : CoinStore) : list CoinRef -> list CoinRef -> Prop :=
| passes_nil (cs : list CoinRef) : passes store cs cs
| passes_cons (cs cs' cs'' : list CoinRef) (p p' : t) (dx : Q)
    (platforms : list Platform.t) (enemies es : list Enemy.t) :
    move store p dx platforms enemies cs = Some (p', es, cs') ->
    passes store cs' cs'' ->
    passes store cs cs''.

(** [Player.jump], lines 127-130. *)
Definition jump (p : t) : t :=
  if negb (jumping p) then set_jumping (set_vel_y p (- JUMP_STRENGTH)) true
  else p.

(** [Player.draw], lines 132-187, as far as it touches the player: the
    countdown of [invincible].  The boolean tells whether the sprite is
    rendered; rendering itself writes to the surface only. *)
Definition draw (p : t) : t * bool :=
  if negb (active p) then (p, false)
  else if (invincible p >? 0)%Z then
    if (invincible p mod 6 <? 3)%Z then (p, false)
    else (set_invincible p (invincible p - 1)%Z, true)
  else (p, true).

(** The player over the frames of the game loop: in each frame a jump when
    the key event came, then [Player.move], then [Player.draw].
    [after_ticks store n p p'] when [n] such frames can take [p] to [p']. *)
Inductive after_ticks (store : CoinStore) : nat -> t -> t -> Prop :=
| ticks_zero (p : t) : after_ticks store O p p
| ticks_succ (n : nat) (p p1 p' : t) (jump_key : bool) (dx : Q)
    (platforms : list Platform.t) (enemies es : list Enemy.t)
    (coins cs : list CoinRef) :
    move store (if jump_key then jump p else p) dx platforms enemies coins
      = Some (p1, es, cs) ->
    after_ticks store n (fst (draw p1)) p' ->
    after_ticks store (S n) p p'.
End Player.

Module Level.
Record t := mk {
  level_num : Z;
  platforms : list Platform.t;
  enemies : list Enemy.t;
  coins : list CoinRef;
  store : CoinStore;
  goal : Goal.t;
  level_width : Z;
  player_start : Q * Q
}.

Definition set_enemies (l : t) (v : list Enemy.t) : t :=
  mk (level_num l) (platforms l) v (coins l) (store l) (goal l)
     (level_width l) (player_start l).
Definition set_coins (l : t) (v : list CoinRef) : t :=
  mk (level_num l) (platforms l) (enemies l) v (store l) (goal l)
     (level_width l) (player_start l).

(** Lines 376-377: the ground tiles. *)
Definition ground (level_width : Z) : list Platform.t :=
  map (fun x : Z => Platform.mk x (GB_HEIGHT - 16)%Z 16 16) (range16 level_width).

(** Lines 379-428: the raised platforms, enemies and coins of each level. *)
Definition layout (num : Z) : list Platform.t * list Enemy.t * list Coin.t :=
  if (num =? 1)%Z then
    ([Platform.mk 80 100 32 8; Platform.mk 140 80 24 8;
      Platform.mk 200 100 40 8; Platform.mk 280 90 32 8],
     [Enemy.init 100 92 0; Enemy.init 220 92 0],
     [Coin.init 90 85; Coin.init 150 65; Coin.init 210 85])
  else if (num =? 2)%Z then
    ([Platform.mk 60 110 24 8; Platform.mk 100 90 32 8;
      Platform.mk 150 100 24 8; Platform.mk 190 70 40 8;
      Platform.mk 250 90 32 8; Platform.mk 300 110 40 8],
     [Enemy.init 70 102 0; Enemy.init 160 92 0; Enemy.init 200 62 0;
      Enemy.init 310 102 0],
     map (fun i => let i := Z.of_nat i in
                   Coin.init (70 + i * 40)%Z (50 + (i mod 2) * 20)%Z) (seq 0 6))
  else if (num =? 3)%Z then
    ([Platform.mk 50 100 24 8; Platform.mk 90 80 24 8;
      Platform.mk 130 110 32 8; Platform.mk 180 70 24 8;
      Platform.mk 220 90 40 8; Platform.mk 280 60 32 8;
      Platform.mk 340 100 48 8],
     [Enemy.init 60 92 0; Enemy.init 140 102 0; Enemy.init 190 62 0;
      Enemy.init 230 82 0; Enemy.init 290 52 0; Enemy.init 350 92 0],
     map (fun i => let i := Z.of_nat i in
                   Coin.init (60 + i * 35)%Z (40 + (i mod 3) * 15)%Z) (seq 0 8))
  else ([], [], []).

(** [Level.__init__] with [create_level], lines 363-431.  The coin objects
    are allocated in the store in the order in which they are appended. *)
Definition init (level_num : Z) : t :=
  let level_width := 640%Z in
  let '(raised, enemies, coin_objects) := layout level_num in
  mk level_num
     (ground level_width ++ raised)
     enemies
     (seq 0 (length coin_objects))
     (fun r => nth r coin_objects (Coin.init 0 0))
     (Goal.init (level_width - 40)%Z (GB_HEIGHT - 48)%Z)
     level_width
     (20, 100).
End Level.

Module Game.
Record t := mk {
  state : GameState;
  current_level : Z;
  player : option Player.t;
  level : option Level.t;
  scroll_x : Q;
  level_unlocked : list bool
}.
(** [Game.__init__] *)
Definition init : t := mk menu 1 None None 0 [true; false; false].

Definition set_state (g : t) (v : GameState) : t :=
  mk v (current_level g) (player g) (level g) (scroll_x g) (level_unlocked g).
Definition set_level_unlocked (g : t) (v : list bool) : t :=
  mk (state g) (current_level g) (player g) (level g) (scroll_x g) v.

(** [Game.start_level], lines 443-448. *)
Definition start_level (g : t) (level_num : Z) : t :=
  let l := Level.init level_num in
  mk playing level_num
     (Some (Player.init (fst (Level.player_start l)) (snd (Level.player_start l))))
     (Some l) 0 (level_unlocked g).

(** Lines 558-563: the victory check. *)
Definition check_victory (g : t) (p : Player.t) (goal : Goal.t) : option t :=
  if collision p goal then
    match list_setitem (level_unlocked g) (current_level g - 1) true with
    | None => None
    | Some unlocked =>
        let g := set_level_unlocked g unlocked in
        if (current_level g <? 3)%Z then
          match list_setitem (level_unlocked g) (current_level g) true with
          | None => None
          | Some unlocked => Some (set_state (set_level_unlocked g unlocked) victory)
          end
        else Some (set_state g victory)
    end
  else Some g.

(** Lines 565-567: the game-over check. *)
Definition check_game_over (g : t) (p : Player.t) : t :=
  if negb (Player.active p) then set_state g game_over else g.

(** Lines 536-570: the body of [if self.state == "playing"], with the keys
    held in this frame.  [None] stands for an exception ([player] or
    [level] still [None], an index out of range).  Of [draw_game] only
    [Player.draw]'s effect on the player is kept. *)
Definition playing_frame (left right : bool) (g : t) : option t :=
  match player g, level g with
  | Some p, Some l =>
      let dx := dx_of_keys left right in
      match Player.move (Level.store l) p dx (Level.platforms l)
                        (Level.enemies l) (Level.coins l) with
      | None => None
      | Some (p, enemies, coins) =>
          let enemies := map (fun enemy => Enemy.move enemy (Level.platforms l)) enemies in
          let l := Level.set_coins (Level.set_enemies l enemies) coins in
          let scroll_x := camera (Player.x p) (scroll_x g) (Level.level_width l) in
          let g := mk (state g) (current_level g) (Some p) (Some l) scroll_x
                      (level_unlocked g) in
          match check_victory g p (Level.goal l) with
          | None => None
          | Some g =>
              let g := check_game_over g p in
              let p := fst (Player.draw p) in
              Some (mk (state g) (current_level g) (Some p) (level g)
                       (Game.scroll_x g) (level_unlocked g))
          end
      end
  | _, _ => None
  end.
End Game.

End SML.

(** * deltamarioland4k.py *)

Module Delta.

Module Player.
Record t := mk {
  x : Q; y : Q; width : Q; height : Q; vel_y : Q;
  jumping : bool; direction : Z; animation_frame : Q;
  invincible : Z; lives : Z; coins : Z; active : bool;
  power_up : bool; dying : bool; death_timer : Z
}.
(** [Player.__init__] *)
Definition init (x0 y0 : Q) : t :=
  mk x0 y0 8 8 0 false 1 0 0 3 0 true false false 0.

Definition set_x (p : t) (v : Q) : t :=
  mk v (y p) (width p) (height p) (vel_y p) (jumping p) (direction p)
     (animation_frame p) (invincible p) (lives p) (coins p) (active p)
     (power_up p) (dying p) (death_timer p).
Definition set_y (p : t) (v : Q) : t :=
  mk (x p) v (width p) (height p) (vel_y p) (jumping p) (direction p)
     (animation_frame p) (invincible p) (lives p) (coins p) (active p)
     (power_up p) (dying p) (death_timer p).
Definition set_vel_y (p : t) (v : Q) : t :=
  mk (x p) (y p) (width p) (height p) v (jumping p) (direction p)
     (animation_frame p) (invincible p) (lives p) (coins p) (active p)
     (power_up p) (dying p) (death_timer p).
Definition set_jumping (p : t) (v : bool) : t :=
  mk (x p) (y p) (width p) (height p) (vel_y p) v (direction p)
     (animation_frame p) (invincible p) (lives p) (coins p) (active p)
     (power_up p) (dying p) (death_timer p).
Definition set_direction (p : t) (v : Z) : t :=
  mk (x p) (y p) (width p) (height p) (vel_y p) (jumping p) v
     (animation_frame p) (invincible p) (lives p) (coins p) (active p)
     (power_up p) (dying p) (death_timer p).
Definition set_animation_frame (p : t) (v : Q) : t :=
  mk (x p) (y p) (width p) (height p) (vel_y p) (jumping p) (direction p)
     v (invincible p) (lives p) (coins p) (active p)
     (power_up p) (dying p) (death_timer p).
Definition set_invincible (p : t) (v : Z) : t :=
  mk (x p) (y p) (width p) (height p) (vel_y p) (jumping p) (direction p)
     (animation_frame p) v (lives p) (coins p) (active p)
     (power_up p) (dying p) (death_timer p).
Definition set_lives (p : t) (v : Z) : t :=
  mk (x p) (y p) (width p) (height p) (vel_y p) (jumping p) (direction p)
     (animation_frame p) (invincible p) v (coins p) (active p)
     (power_up p) (dying p) (death_timer p).
Definition set_coins (p : t) (v : Z) : t :=
  mk (x p) (y p) (width p) (height p) (vel_y p) (jumping p) (direction p)
     (animation_frame p) (invincible p) (lives p) v (active p)
     (power_up p) (dying p) (death_timer p).
Definition set_active (p : t) (v : bool) : t :=
  mk (x p) (y p) (width p) (height p) (vel_y p) (jumping p) (direction p)
     (animation_frame p) (invincible p) (lives p) (coins p) v
     (power_up p) (dying p) (death_timer p).
Definition set_power_up (p : t) (v : bool) : t :=
  mk (x p) (y p) (width p) (height p) (vel_y p) (jumping p) (direction p)
     (animation_frame p) (invincible p) (lives p) (coins p) (active p)
     v (dying p) (death_timer p).
Definition set_dying (p : t) (v : bool) : t :=
  mk (x p) (y p) (width p) (height p) (vel_y p) (jumping p) (direction p)
     (animation_frame p) (invincible p) (lives p) (coins p) (active p)
     (power_up p) v (death_timer p).
Definition set_death_timer (p : t) (v : Z) : t :=
  mk (x p) (y p) (width p) (height p) (vel_y p) (jumping p) (direction p)
     (animation_frame p) (invincible p) (lives p) (coins p) (active p)
     (power_up p) (dying p) v.

#[global] Instance Rect_Player : Rect t :=
  {| x_of := x; y_of := y; width_of := width; height_of := height |}.

(** Lines 159-170: the death animation of a dying player. *)
Definition move_dying (p : t) : t :=
  let p := set_death_timer p (death_timer p + 1)%Z in
  let p := set_vel_y p (vel_y p + GRAVITY * (5 # 10)) in
  let p := set_y p (y p + vel_y p) in
  let p := set_animation_frame p (animation_frame p + (5 # 10)) in
  if (death_timer p >? 60)%Z || Qgt_bool (y p) (GB_HEIGHT + 20)%Z
  then set_active p false else p.

(** Lines 173-179: horizontal movement. *)
Definition move_horizontal (dx : Q) (p : t) : t :=
  let speed_mult := if power_up p then 15 # 10 else 1 in
  let p := set_x p (x p + dx * speed_mult) in
  if negb (Qeq_bool dx 0) then
    let p := set_direction p (if Qgt_bool dx 0 then 1 else -1)%Z in
    let p := set_animation_frame p (animation_frame p + (2 # 10)) in
    if Qge_bool (animation_frame p) 2 then set_animation_frame p 0 else p
  else p.

(** Lines 182-187: one iteration of the horizontal platform loop. *)
Definition horizontal_step (dx : Q) (p : t) (platform : Platform.t) : t :=
  if collision p platform then
    if Qgt_bool dx 0 then set_x p (Platform.x platform - width p)
    else set_x p (Platform.x platform + Platform.width platform)
  else p.

(** Lines 190-191: gravity. *)
Definition apply_gravity (p : t) : t :=
  let p := set_vel_y p (vel_y p + GRAVITY) in
  set_y p (y p + vel_y p).

(** Lines 195-204: one iteration of the vertical platform loop; the loop
    state is the player and the local [on_ground]. *)
Definition vertical_step (st : t * bool) (platform : Platform.t) : t * bool :=
  let '(p, on_ground) := st in
  if collision p platform then
    if Qgt_bool (vel_y p) 0 then
      let p := set_y p (Platform.y platform - height p) in
      let p := set_vel_y p 0 in
      let p := set_jumping p false in
      (p, true)
    else if Qlt_bool (vel_y p) 0 then
      let p := set_y p (Platform.y platform + Platform.height platform) in
      let p := set_vel_y p 0 in
      (p, on_ground)
    else (p, on_ground)
  else (p, on_ground).

(** Lines 198-200: what landing on [platform] does to a falling player. *)
Definition landed (p : t) (platform : Platform.t) : t :=
  set_jumping (set_vel_y (set_y p (Platform.y platform - height p)) 0) false.

(** [p'] has the rectangle and the [jumping] flag of [p]. *)
Definition same_place (p p' : t) : Prop :=
  x p' = x p /\ y p' = y p /\ width p' = width p /\ height p' = height p /\
  jumping p' = jumping p.

(** The player is at rest vertically, or has just been given the death
    hop of lines 221-222. *)
Definition rest_or_hop (p : t) : Prop :=
  vel_y p = 0 \/
  (dying p = true /\ invincible p = 60%Z /\ (lives p <= 0)%Z /\
   vel_y p = - JUMP_STRENGTH * (5 # 10)).

(** Lines 210-214: the stomp branch, on the player. *)
Definition stomp (p : t) : t :=
  let p := set_vel_y p (- JUMP_STRENGTH * (6 # 10)) in
  set_coins p (coins p + 1)%Z.

(** Lines 216-223: the damage branch. *)
Definition take_damage (p : t) : t :=
  let p := set_invincible p 60 in
  let p := set_lives p (lives p - 1)%Z in
  if (lives p <=? 0)%Z then
    let p := set_dying p true in
    set_vel_y p (- JUMP_STRENGTH * (5 # 10))
  else p.

(** Lines 208-223: one iteration of the enemy loop. *)
Definition enemy_contact (p : t) (enemy : Enemy.t) : t * Enemy.t :=
  if Enemy.active enemy && collision p enemy then
    if Qgt_bool (vel_y p) 0 && Qlt_bool (y p) (Enemy.y enemy) then
      (stomp p, Enemy.set_active enemy false)
    else if (invincible p <=? 0)%Z then (take_damage p, enemy)
    else (p, enemy)
  else (p, enemy).

(** Lines 207-223: [for enemy in enemies], each enemy updated in place. *)
Fixpoint enemy_loop (p : t) (enemies : list Enemy.t) : t * list Enemy.t :=
  match enemies with
  | [] => (p, [])
  | enemy :: rest =>
      let '(p, enemy) := enemy_contact p enemy in
      let '(p, rest) := enemy_loop p rest in
      (p, enemy :: rest)
  end.

(** Lines 229-233: the player's side of one coin pickup. *)
Definition pickup (p : t) : t :=
  let p := set_coins p (coins p + 1)%Z in
  if (coins p mod 10 =? 0)%Z then set_power_up p true else p.

(** Lines 226-233: [for coin in coins[:]] runs over [snapshot], a copy of
    the collection taken before the loop, and removes from the live
    collection [coins]. *)
Fixpoint coin_loop (store : CoinStore) (snapshot : list CoinRef)
    (p : t) (coins : list CoinRef) : option (t * list CoinRef) :=
  match snapshot with
  | [] => Some (p, coins)
  | coin :: rest =>
      if collision p (store coin) then
        match list_remove coin coins with
        | Some coins => coin_loop store rest (pickup p) coins
        | None => None
        end
      else coin_loop store rest p coins
  end.

(** Lines 236-239. *)
Definition check_bounds (p : t) : t :=
  if Qgt_bool (y p) GB_HEIGHT then
    if negb (dying p) then set_dying p true else p
  else p.

(** The player as the vertical platform loop meets it: lines 173-191. *)
Definition move_to_gravity (p : t) (dx : Q) (platforms : list Platform.t) : t :=
  let p := move_horizontal dx p in
  let p := fold_left (horizontal_step dx) platforms p in
  apply_gravity p.

(** The player as the coin loop meets it: lines 173-223 for an active
    player that is not dying. *)
Definition move_to_enemies (p : t) (dx : Q) (platforms : list Platform.t)
    (enemies : list Enemy.t) : t * list Enemy.t :=
  let p := move_to_gravity p dx platforms in
  let '(p, _) := fold_left vertical_step platforms (p, false) in
  enemy_loop p enemies.

(** [Player.move], lines 154-239.  The result is the player, the enemy
    collection and the coin collection after the call. *)
Definition move (store : CoinStore) (p : t) (dx : Q) (platforms : list Platform.t)
    (enemies : list Enemy.t) (coins : list CoinRef)
    : option (t * list Enemy.t * list CoinRef) :=
  if negb (active p) then Some (p, enemies, coins)
  else if dying p then Some (move_dying p, enemies, coins)
  else
    let '(p, enemies) := move_to_enemies p dx platforms enemies in
    match coin_loop store coins p coins with
    | Some (p, coins) => Some (check_bounds p, enemies, coins)
    | None => None
    end.

(** The coin collections that later calls of [Player.move] can be given:
    [passes store cs cs'] when [cs'] is what some sequence of calls, each
    run on the collection the previous one left, leaves of [cs]. *)
Inductive passes (store : CoinStore) : list CoinRef -> list CoinRef -> Prop :=
| passes_nil (cs : list CoinRef) : passes store cs cs
| passes_cons (cs cs' cs'' : list CoinRef) (p p' : t) (dx : Q)
    (platforms : list Platform.t) (enemies es : list Enemy.t) :
    move store p dx platforms enemies cs = Some (p', es, cs') ->
    passes store cs' cs'' ->
    passes store cs cs''.

(** [Player.jump], lines 247-252. *)
Definition jump (p : t) : t :=
  if negb (jumping p) && negb (dying p) then
    let jump_mult := if power_up p then 12 # 10 else 1 in
    set_jumping (set_vel_y p (- JUMP_STRENGTH * jump_mult)) true
  else p.

(** [Player.draw], lines 254-343, as far as it touches the player: the
    countdown of [invincible].  The boolean tells whether a sprite is
    rendered; rendering itself writes to the surface only. *)
Definition draw (p : t) : t * bool :=
  if negb (active p) && negb (dying p) then (p, false)
  else if (invincible p >? 0)%Z && negb (dying p) then
    if (invincible p mod 6 <? 3)%Z then (p, false)
    else (set_invincible p (invincible p - 1)%Z, true)
  else (p, true).

(** The player over the frames of the game loop: in each frame a jump when
    the key event came, then [Player.move], then [Player.draw].
    [after_ticks store n p p'] when [n] such frames can take [p] to [p']. *)
Inductive after_ticks (store : CoinStore) : nat -> t -> t -> Prop :=
| ticks_zero (p : t) : after_ticks store O p p
| ticks_succ (n : nat) (p p1 p' : t) (jump_key : bool) (dx : Q)
    (platforms : list Platform.t) (enemies es : list Enemy.t)
    (coins cs : list CoinRef) :
    move store (if jump_key then jump p else p) dx platforms enemies coins
      = Some (p1, es, cs) ->
    after_ticks store n (fst (draw p1)) p' ->
    after_ticks store (S n) p p'.
End Player.

Module Level.
Record t := mk {
  level_num : Z;
  platforms : list Platform.t;
  enemies : list Enemy.t;
  coins : list CoinRef;
  store : CoinStore;
  goal : Goal.t;
  level_width : Z;
  player_start : Q * Q
}.

Definition set_enemies (l : t) (v : list Enemy.t) : t :=
  mk (level_num l) (platforms l) v (coins l) (store l) (goal l)
     (level_width l) (player_start l).
Definition set_coins (l : t) (v : list CoinRef) : t :=
  mk (level_num l) (platforms l) (enemies l) v (store l) (goal l)
     (level_width l) (player_start l).

(** Line 548: [640 + (level_num * 160)]. *)
Definition width_of_level (level_num : Z) : Z := (640 + level_num * 160)%Z.

(** Lines 555-558: the ground tiles, with gaps. *)
Definition ground (num level_width : Z) : list Platform.t :=
  let gap_freq := Z.max 1 (6 - num) in
  map (fun x : Z => Platform.mk x (GB_HEIGHT - 16)%Z 16 16)
      (filter (fun x => negb (x mod (gap_freq * 16) =? 0)%Z || (x <? 32)%Z)
              (range16 level_width)).

Definition Layout : Type := list Platform.t * list Enemy.t * list Coin.t.

(** Lines 560-622: the raised platforms, enemies and coins of each level.
    Levels 4 and 5 place entities with [math.sin] and [math.cos]; their
    layout is the parameter [trig]. *)
Definition layout (num : Z) (trig : Layout) : Layout :=
  if (num =? 1)%Z then
    ([Platform.mk 80 100 32 8; Platform.mk 140 80 24 8;
      Platform.mk 200 100 40 8; Platform.mk 280 90 32 8],
     [Enemy.init 100 92 0; Enemy.init 220 92 0],
     map (fun i => Coin.init (80 + Z.of_nat i * 40)%Z 65) (seq 0 5))
  else if (num =? 2)%Z then
    (map (fun i => let i := Z.of_nat i in
                   Platform.mk (60 + i * 45)%Z (110 - (i mod 3) * 20)%Z 30 8)
         (seq 0 8),
     map (fun i => let i := Z.of_nat i in
                   Enemy.init (65 + i * 45)%Z (110 - (i mod 3) * 20 - 8)%Z 0)
         (filter (fun i => (Z.of_nat i mod 2 =? 0)%Z) (seq 0 8)),
     map (fun i => let i := Z.of_nat i in
                   Coin.init (70 + i * 35)%Z (50 + (i mod 3) * 20)%Z) (seq 0 10))
  else if (num =? 3)%Z then
    (map (fun i => let i := Z.of_nat i in
                   Platform.mk (50 + i * 50)%Z (100 - (i mod 2) * 30)%Z 35 8)
         (seq 0 10),
     map (fun i => let i := Z.of_nat i in
                   Enemy.init (55 + i * 50)%Z (92 - (i mod 2) * 30)%Z (i mod 2))
         (seq 0 10),
     map (fun i => let i := Z.of_nat i in
                   Coin.init (60 + i * 30)%Z (40 + (i mod 4) * 15)%Z) (seq 0 15))
  else if ((num =? 4) || (num =? 5))%Z then trig
  else ([], [], []).

(** [Level.__init__] with [create_level], lines 542-625.  The coin objects
    are allocated in the store in the order in which they are appended. *)
Definition init (level_num : Z) (trig : Layout) : t :=
  let level_width := width_of_level level_num in
  let '(raised, enemies, coin_objects) := layout level_num trig in
  mk level_num
     (ground level_num level_width ++ raised)
     enemies
     (seq 0 (length coin_objects))
     (fun r => nth r coin_objects (Coin.init 0 0))
     (Goal.init (level_width - 40)%Z (GB_HEIGHT - 48)%Z)
     level_width
     (20, 100).
End Level.

Module Game.
Record t := mk {
  state : GameState;
  current_level : Z;
  player : option Player.t;
  level : option Level.t;
  scroll_x : Q;
  level_unlocked : list bool
}.
(** [Game.__init__]; [frame_count], [show_fps] and [clock] only serve
    rendering. *)
Definition init : t := mk menu 1 None None 0 [true; false; false; false; false].

Definition set_state (g : t) (v : GameState) : t :=
  mk v (current_level g) (player g) (level g) (scroll_x g) (level_unlocked g).
Definition set_level_unlocked (g : t) (v : list bool) : t :=
  mk (state g) (current_level g) (player g) (level g) (scroll_x g) v.

(** [Game.start_level], lines 640-648. *)
Definition start_level (g : t) (level_num : Z) (trig : Level.Layout) : t :=
  let l := Level.init level_num trig in
  let p := Player.init (fst (Level.player_start l)) (snd (Level.player_start l)) in
  let p := Player.set_dying p false in
  let p := Player.set_death_timer p 0 in
  mk playing level_num (Some p) (Some l) 0 (level_unlocked g).

(** Lines 769-775: the victory check. *)
Definition check_victory (g : t) (p : Player.t) (goal : Goal.t) : option t :=
  if collision p goal then
    match list_setitem (level_unlocked g) (current_level g - 1) true with
    | None => None
    | Some unlocked =>
        let g := set_level_unlocked g unlocked in
        if (current_level g <? 5)%Z then
          match list_setitem (level_unlocked g) (current_level g) true with
          | None => None
          | Some unlocked => Some (set_state (set_level_unlocked g unlocked) victory)
          end
        else Some (set_state g victory)
    end
  else Some g.

(** Lines 777-779: the game-over check. *)
Definition check_game_over (g : t) (p : Player.t) : t :=
  if negb (Player.active p) && negb (Player.dying p)
  then set_state g game_over else g.

(** Lines 747-782: the body of [if self.state == "playing"], with the keys
    held in this frame.  [None] stands for an exception ([player] or
    [level] still [None], an index out of range).  Of [draw_game] only
    [Player.draw]'s effect on the player is kept. *)
Definition playing_frame (left right : bool) (g : t) : option t :=
  match player g, level g with
  | Some p, Some l =>
      let dx := dx_of_keys left right in
      match Player.move (Level.store l) p dx (Level.platforms l)
                        (Level.enemies l) (Level.coins l) with
      | None => None
      | Some (p, enemies, coins) =>
          let enemies := map (fun enemy => Enemy.move enemy (Level.platforms l)) enemies in
          let l := Level.set_coins (Level.set_enemies l enemies) coins in
          let scroll_x := camera (Player.x p) (scroll_x g) (Level.level_width l) in
          let g := mk (state g) (current_level g) (Some p) (Some l) scroll_x
                      (level_unlocked g) in
          match check_victory g p (Level.goal l) with
          | None => None
          | Some g =>
              let g := check_game_over g p in
              let p := fst (Player.draw p) in
              Some (mk (state g) (current_level g) (Some p) (level g)
                       (Game.scroll_x g) (level_unlocked g))
          end
      end
  | _, _ => None
  end.
End Game.

End Delta.

(** * The game loop, the sprite and the text

    The rest of the embedding: notions to state how enemies patrol, the
    frame of the sprite that [Player.draw] selects, [Game.draw_text] (of
    its rendering, the positions of the [set_at] calls in order), the key
    handler and the loop of [Game.run], and what holds of every game that
    the loop can reach from [Game.__init__]. *)

(** ** Numbers that the floats of the source hold exactly *)

(** [q] is a whole number of magnitude at most 2^52.  Python's floats hold
    such numbers, and the sum and the difference of two of them, exactly,
    so on them the arithmetic of the source is the exact arithmetic of the
    embedding.  Every platform that the levels build has whole coordinates
    and sizes, and the players and the enemies are 8 wide and 8 high. *)
Definition whole (q : Q) : Prop :=
  exists n : Z, q == inject_Z n /\ (Z.abs n <= 2 ^ 52)%Z.

(** [q] is a multiple of 1/2 of magnitude at most 2^51, held exactly in the
    same way: the [x] of an enemy of type 0, which starts at a whole number
    and walks in steps of 0.5, and its speed. *)
Definition halves (q : Q) : Prop :=
  exists n : Z, q == n # 2 /\ (Z.abs n <= 2 ^ 52)%Z.

(** ** Enemy patrol *)

Module Patrol.
(** The enemy [e] patrols the platform [p]: it is active, walks left or
    right, stands on [p] within the tolerance of the edge test, is no
    faster than it is wide and no wider than [p], is at most one step
    outside [p] on either side, and walks inwards when it is outside. *)
Definition patrolling (p : Platform.t) (e : Enemy.t) : Prop :=
  Enemy.active e = true /\
  (Enemy.direction e = 1%Z \/ Enemy.direction e = (-1)%Z) /\
  Qabs ((Enemy.y e + Enemy.height e) - Platform.y p) < 2 /\
  0 <= Enemy.speed e /\ Enemy.speed e < Enemy.width e /\
  Enemy.width e <= Platform.width p /\
  Platform.x p - Enemy.speed e <= Enemy.x e /\
  Enemy.x e <= Platform.x p + Platform.width p - Enemy.width e + Enemy.speed e /\
  (Enemy.x e < Platform.x p -> Enemy.direction e = 1%Z) /\
  (Platform.x p + Platform.width p < Enemy.x e + Enemy.width e ->
   Enemy.direction e = (-1)%Z).

(** The platform [q] is out of the way of an enemy that patrols [p]: too
    far above or below for the edge test, or beyond the reach of the
    patrol on the right or on the left. *)
Definition clear_of (p : Platform.t) (e : Enemy.t) (q : Platform.t) : Prop :=
  2 <= Qabs ((Enemy.y e + Enemy.height e) - Platform.y q) \/
  Platform.x p + Platform.width p + Enemy.speed e <= Platform.x q \/
  Platform.x q + Platform.width q <= Platform.x p - Enemy.speed e.

(** [n] update ticks of an enemy on the same platform collection. *)
Definition ticks (n : nat) (e : Enemy.t) (platforms : list Platform.t) : Enemy.t :=
  Nat.iter n (fun e => Enemy.move e platforms) e.

(** The two notions decided, to check them on the levels of the game. *)
Definition patrollingb (p : Platform.t) (e : Enemy.t) : bool :=
  Enemy.active e &&
  ((Enemy.direction e =? 1)%Z || (Enemy.direction e =? -1)%Z) &&
  Qlt_bool (Qabs ((Enemy.y e + Enemy.height e) - Platform.y p)) 2 &&
  Qle_bool 0 (Enemy.speed e) &&
  Qlt_bool (Enemy.speed e) (Enemy.width e) &&
  Qle_bool (Enemy.width e) (Platform.width p) &&
  Qle_bool (Platform.x p - Enemy.speed e) (Enemy.x e) &&
  Qle_bool (Enemy.x e)
    (Platform.x p + Platform.width p - Enemy.width e + Enemy.speed e) &&
  (Qle_bool (Platform.x p) (Enemy.x e) || (Enemy.direction e =? 1)%Z) &&
  (Qle_bool (Enemy.x e + Enemy.width e) (Platform.x p + Platform.width p)
   || (Enemy.direction e =? -1)%Z).

Definition clear_ofb (p : Platform.t) (e : Enemy.t) (q : Platform.t) : bool :=
  Qle_bool 2 (Qabs ((Enemy.y e + Enemy.height e) - Platform.y q)) ||
  Qle_bool (Platform.x p + Platform.width p + Enemy.speed e) (Platform.x q) ||
  Qle_bool (Platform.x q + Platform.width q) (Platform.x p - Enemy.speed e).

(** [e] patrols the platform number [i] of the collection, and every other
    platform of the collection is out of its way. *)
Definition patrols_alone (e : Enemy.t) (platforms : list Platform.t) (i : nat)
    : bool :=
  match nth_error platforms i with
  | Some p =>
      if patrollingb p e
      then forallb (clear_ofb p e) (firstn i platforms ++ skipn (S i) platforms)
      else false
  | None => false
  end.

Definition has_patrol (e : Enemy.t) (platforms : list Platform.t) : bool :=
  existsb (patrols_alone e platforms) (seq 0 (length platforms)).
End Patrol.

(** ** The sprite of the player *)

(** [int(q)] of a float: truncation towards zero. *)
Definition py_int (q : Q) : Z := (Qnum q ÷ QDen q)%Z.

(** [mario_pixels], lines 139-162 of clientv0sml.py and 296-319 of
    deltamarioland4k.py: the two frames of the sprite. *)
Definition mario_pixels : list (list (list Z)) :=
  [ [ [0;0;1;1;1;0;0;0];
      [0;1;1;1;1;1;0;0];
      [0;1;2;2;2;1;0;0];
      [0;2;2;2;2;2;0;0];
      [0;0;1;1;1;0;0;0];
      [0;1;1;1;1;1;0;0];
      [0;1;0;0;0;1;0;0];
      [0;1;0;0;0;1;0;0] ];
    [ [0;0;1;1;1;0;0;0];
      [0;1;1;1;1;1;0;0];
      [0;1;2;2;2;1;0;0];
      [0;2;2;2;2;2;0;0];
      [0;0;1;1;1;0;0;0];
      [0;1;1;1;1;1;0;0];
      [0;0;1;0;1;0;0;0];
      [0;1;0;0;0;1;0;0] ] ]%Z.

(** Lines 165-166 (322-323) of [Player.draw]: the frame chosen from the
    player's [animation_frame] and [vel_y], and [mario_pixels[frame]];
    [None] stands for the [IndexError]. *)
Definition sprite_frame (animation_frame vel_y : Q) : Z :=
  if Qlt_bool (Qabs vel_y) (1 # 10) then py_int animation_frame else 0%Z.
Definition sprite_pixels (animation_frame vel_y : Q) : option (list (list Z)) :=
  list_getitem mario_pixels (sprite_frame animation_frame vel_y).

From Stdlib Require Ascii String.

(** ** Text rendering *)

Module Text.
Import Ascii String.

(** A character of the pixel font: rows of cells. *)
Definition Glyph : Type := list (list Z).

(** [str.upper()] on a character of an ASCII text (code below 128), where
    it maps a-z to A-Z and nothing else.  On other characters
    [str.upper()] does more, and can lengthen the text: those are outside
    the embedding.  The texts that the programs draw are ASCII. *)
Definition upper (c : ascii) : ascii :=
  let n := nat_of_ascii c in
  if ((97 <=? n) && (n <=? 122))%nat then ascii_of_nat (n - 32) else c.

(** The characters and the texts on which [upper] is [str.upper()]. *)
Definition is_ascii (c : ascii) : bool := (nat_of_ascii c <? 128)%nat.
Definition ascii_text (text : string) : Prop :=
  Forall (fun c => is_ascii c = true) (list_ascii_of_string text).

(** [char_map] of [draw_text], lines 453-486 of clientv0sml.py. *)
Definition sml_char_map : list (ascii * Glyph) :=
  [
    ("A"%char, [[1; 1; 1]; [1; 0; 1]; [1; 1; 1]; [1; 0; 1]]);
    ("B"%char, [[1; 1; 0]; [1; 0; 1]; [1; 1; 0]; [1; 1; 1]]);
    ("C"%char, [[1; 1; 1]; [1; 0; 0]; [1; 0; 0]; [1; 1; 1]]);
    ("D"%char, [[1; 1; 0]; [1; 0; 1]; [1; 0; 1]; [1; 1; 0]]);
    ("E"%char, [[1; 1; 1]; [1; 0; 0]; [1; 1; 0]; [1; 1; 1]]);
    ("F"%char, [[1; 1; 1]; [1; 0; 0]; [1; 1; 0]; [1; 0; 0]]);
    ("G"%char, [[1; 1; 1]; [1; 0; 0]; [1; 0; 1]; [1; 1; 1]]);
    ("H"%char, [[1; 0; 1]; [1; 0; 1]; [1; 1; 1]; [1; 0; 1]]);
    ("I"%char, [[1; 1; 1]; [0; 1; 0]; [0; 1; 0]; [1; 1; 1]]);
    ("J"%char, [[0; 0; 1]; [0; 0; 1]; [1; 0; 1]; [1; 1; 1]]);
    ("K"%char, [[1; 0; 1]; [1; 1; 0]; [1; 1; 0]; [1; 0; 1]]);
    ("L"%char, [[1; 0; 0]; [1; 0; 0]; [1; 0; 0]; [1; 1; 1]]);
    ("M"%char, [[1; 0; 1]; [1; 1; 1]; [1; 0; 1]; [1; 0; 1]]);
    ("N"%char, [[1; 0; 1]; [1; 1; 1]; [1; 1; 1]; [1; 0; 1]]);
    ("O"%char, [[1; 1; 1]; [1; 0; 1]; [1; 0; 1]; [1; 1; 1]]);
    ("P"%char, [[1; 1; 1]; [1; 0; 1]; [1; 1; 1]; [1; 0; 0]]);
    ("Q"%char, [[1; 1; 0]; [1; 0; 1]; [1; 1; 0]; [0; 0; 1]]);
    ("R"%char, [[1; 1; 0]; [1; 0; 1]; [1; 1; 0]; [1; 0; 1]]);
    ("S"%char, [[1; 1; 1]; [1; 0; 0]; [0; 1; 0]; [1; 1; 1]]);
    ("T"%char, [[1; 1; 1]; [0; 1; 0]; [0; 1; 0]; [0; 1; 0]]);
    ("U"%char, [[1; 0; 1]; [1; 0; 1]; [1; 0; 1]; [1; 1; 1]]);
    ("V"%char, [[1; 0; 1]; [1; 0; 1]; [1; 0; 1]; [0; 1; 0]]);
    ("W"%char, [[1; 0; 1]; [1; 0; 1]; [1; 1; 1]; [1; 0; 1]]);
    ("X"%char, [[1; 0; 1]; [0; 1; 0]; [0; 1; 0]; [1; 0; 1]]);
    ("Y"%char, [[1; 0; 1]; [1; 0; 1]; [0; 1; 0]; [0; 1; 0]]);
    ("Z"%char, [[1; 1; 1]; [0; 0; 1]; [0; 1; 0]; [1; 1; 1]]);
    ("0"%char, [[1; 1; 1]; [1; 0; 1]; [1; 0; 1]; [1; 1; 1]]);
    ("1"%char, [[0; 1; 0]; [1; 1; 0]; [0; 1; 0]; [1; 1; 1]]);
    ("2"%char, [[1; 1; 1]; [0; 0; 1]; [0; 1; 0]; [1; 1; 1]]);
    ("3"%char, [[1; 1; 1]; [0; 0; 1]; [0; 1; 1]; [1; 1; 1]]);
    (" "%char, [[0; 0; 0]; [0; 0; 0]; [0; 0; 0]; [0; 0; 0]]);
    (":"%char, [[0; 1; 0]; [0; 0; 0]; [0; 1; 0]; [0; 0; 0]])
  ]%Z.

(** [char_map] of [draw_text], lines 653-690 of deltamarioland4k.py. *)
Definition delta_char_map : list (ascii * Glyph) :=
  [
    ("A"%char, [[1; 1; 1]; [1; 0; 1]; [1; 1; 1]; [1; 0; 1]]);
    ("B"%char, [[1; 1; 0]; [1; 0; 1]; [1; 1; 0]; [1; 1; 1]]);
    ("C"%char, [[1; 1; 1]; [1; 0; 0]; [1; 0; 0]; [1; 1; 1]]);
    ("D"%char, [[1; 1; 0]; [1; 0; 1]; [1; 0; 1]; [1; 1; 0]]);
    ("E"%char, [[1; 1; 1]; [1; 0; 0]; [1; 1; 0]; [1; 1; 1]]);
    ("F"%char, [[1; 1; 1]; [1; 0; 0]; [1; 1; 0]; [1; 0; 0]]);
    ("G"%char, [[1; 1; 1]; [1; 0; 0]; [1; 0; 1]; [1; 1; 1]]);
    ("H"%char, [[1; 0; 1]; [1; 0; 1]; [1; 1; 1]; [1; 0; 1]]);
    ("I"%char, [[1; 1; 1]; [0; 1; 0]; [0; 1; 0]; [1; 1; 1]]);
    ("J"%char, [[0; 0; 1]; [0; 0; 1]; [1; 0; 1]; [1; 1; 1]]);
    ("K"%char, [[1; 0; 1]; [1; 1; 0]; [1; 1; 0]; [1; 0; 1]]);
    ("L"%char, [[1; 0; 0]; [1; 0; 0]; [1; 0; 0]; [1; 1; 1]]);
    ("M"%char, [[1; 0; 1]; [1; 1; 1]; [1; 0; 1]; [1; 0; 1]]);
    ("N"%char, [[1; 0; 1]; [1; 1; 1]; [1; 1; 1]; [1; 0; 1]]);
    ("O"%char, [[1; 1; 1]; [1; 0; 1]; [1; 0; 1]; [1; 1; 1]]);
    ("P"%char, [[1; 1; 1]; [1; 0; 1]; [1; 1; 1]; [1; 0; 0]]);
    ("Q"%char, [[1; 1; 0]; [1; 0; 1]; [1; 1; 0]; [0; 0; 1]]);
    ("R"%char, [[1; 1; 0]; [1; 0; 1]; [1; 1; 0]; [1; 0; 1]]);
    ("S"%char, [[1; 1; 1]; [1; 0; 0]; [0; 1; 0]; [1; 1; 1]]);
    ("T"%char, [[1; 1; 1]; [0; 1; 0]; [0; 1; 0]; [0; 1; 0]]);
    ("U"%char, [[1; 0; 1]; [1; 0; 1]; [1; 0; 1]; [1; 1; 1]]);
    ("V"%char, [[1; 0; 1]; [1; 0; 1]; [1; 0; 1]; [0; 1; 0]]);
    ("W"%char, [[1; 0; 1]; [1; 0; 1]; [1; 1; 1]; [1; 0; 1]]);
    ("X"%char, [[1; 0; 1]; [0; 1; 0]; [0; 1; 0]; [1; 0; 1]]);
    ("Y"%char, [[1; 0; 1]; [1; 0; 1]; [0; 1; 0]; [0; 1; 0]]);
    ("Z"%char, [[1; 1; 1]; [0; 0; 1]; [0; 1; 0]; [1; 1; 1]]);
    ("0"%char, [[1; 1; 1]; [1; 0; 1]; [1; 0; 1]; [1; 1; 1]]);
    ("1"%char, [[0; 1; 0]; [1; 1; 0]; [0; 1; 0]; [1; 1; 1]]);
    ("2"%char, [[1; 1; 1]; [0; 0; 1]; [0; 1; 0]; [1; 1; 1]]);
    ("3"%char, [[1; 1; 1]; [0; 0; 1]; [0; 1; 1]; [1; 1; 1]]);
    ("4"%char, [[1; 0; 1]; [1; 0; 1]; [1; 1; 1]; [0; 0; 1]]);
    ("5"%char, [[1; 1; 1]; [1; 0; 0]; [0; 1; 1]; [1; 1; 0]]);
    ("6"%char, [[1; 1; 1]; [1; 0; 0]; [1; 1; 1]; [1; 1; 1]]);
    (" "%char, [[0; 0; 0]; [0; 0; 0]; [0; 0; 0]; [0; 0; 0]]);
    (":"%char, [[0; 1; 0]; [0; 0; 0]; [0; 1; 0]; [0; 0; 0]]);
    ("!"%char, [[0; 1; 0]; [0; 1; 0]; [0; 0; 0]; [0; 1; 0]])
  ]%Z.

(** [char in char_map] and [char_map[char]]. *)
Fixpoint lookup (char_map : list (ascii * Glyph)) (c : ascii) : option Glyph :=
  match char_map with
  | [] => None
  | (k, v) :: rest => if Ascii.eqb c k then Some v else lookup rest c
  end.

(** The glyph has four rows of three cells. *)
Definition four_by_three (pixels : Glyph) : bool :=
  (List.length pixels =? 4)%nat &&
  forallb (fun row : list Z => (List.length row =? 3)%nat) pixels.

(** Loops whose bodies make [set_at] calls: the calls in order, [None] when
    a body raises. *)
Fixpoint for_each {A : Type} (body : A -> option (list (Z * Z))) (l : list A)
    : option (list (Z * Z)) :=
  match l with
  | [] => Some []
  | a :: rest =>
      match body a with
      | None => None
      | Some calls =>
          match for_each body rest with
          | None => None
          | Some more => Some (calls ++ more)
          end
      end
  end.

(** Lines 492-495 (696-699): the body of the two inner loops for the cell
    [(cy, cx)] of the character number [i]; [char_width] is 4.  [None]
    stands for the [IndexError] of [pixels[cy][cx]]. *)
Definition draw_cell (pixels : Glyph) (x y i cy cx : Z) : option (list (Z * Z)) :=
  match list_getitem pixels cy with
  | None => None
  | Some row =>
      match list_getitem row cx with
      | None => None
      | Some v =>
          Some (if (v =? 1)%Z then
                  if ((0 <=? x + i * 4 + cx) && (x + i * 4 + cx <? GB_WIDTH) &&
                      (0 <=? y + cy) && (y + cy <? GB_HEIGHT))%Z
                  then [((x + i * 4 + cx)%Z, (y + cy)%Z)] else []
                else [])
      end
  end.

(** Lines 490-491 (694-695): [for cy in range(4): for cx in range(3)]. *)
Definition draw_glyph (pixels : Glyph) (x y i : Z) : option (list (Z * Z)) :=
  for_each (fun cy => for_each (fun cx => draw_cell pixels x y i cy cx)
                               [0; 1; 2]%Z)
           [0; 1; 2; 3]%Z.

(** Lines 488-495 (692-699): the loop over the characters, [i] counting
    from the first one. *)
Fixpoint draw_chars (char_map : list (ascii * Glyph)) (chars : list ascii)
    (x y i : Z) : option (list (Z * Z)) :=
  match chars with
  | [] => Some []
  | c :: rest =>
      match (match lookup char_map c with
             | Some pixels => draw_glyph pixels x y i
             | None => Some []
             end) with
      | None => None
      | Some calls =>
          match draw_chars char_map rest x y (i + 1) with
          | None => None
          | Some more => Some (calls ++ more)
          end
      end
  end.

(** [Game.draw_text], lines 450-495 (650-699): the positions of the
    [set_at] calls, in order; the colour is the same for all. *)
Definition draw_text (char_map : list (ascii * Glyph)) (text : string) (x y : Z)
    : option (list (Z * Z)) :=
  draw_chars char_map (map upper (list_ascii_of_string text)) x y 0.
End Text.

(** ** The event loop of [Game.run] *)

(** The keys that [Game.run] tells apart; [K_other] is any other key. *)
Inductive Key :=
| K_ESCAPE | K_SPACE | K_UP | K_RETURN | K_1 | K_2 | K_3 | K_4 | K_5 | K_F1
| K_other.

Definition Key_eqb (a b : Key) : bool :=
  match a, b with
  | K_ESCAPE, K_ESCAPE | K_SPACE, K_SPACE | K_UP, K_UP | K_RETURN, K_RETURN
  | K_1, K_1 | K_2, K_2 | K_3, K_3 | K_4, K_4 | K_5, K_5 | K_F1, K_F1
  | K_other, K_other => true
  | _, _ => false
  end.

Definition GameState_eqb (a b : GameState) : bool :=
  match a, b with
  | menu, menu | level_select, level_select | playing, playing
  | game_over, game_over | victory, victory => true
  | _, _ => false
  end.

Module SMLRun.
Import SML.

Definition set_player (g : Game.t) (v : option Player.t) : Game.t :=
  Game.mk (Game.state g) (Game.current_level g) v (Game.level g)
    (Game.scroll_x g) (Game.level_unlocked g).

(** [event.key == k and self.level_unlocked[i]]: the flag is read only
    when the key matches. *)
Definition key_and_unlocked (key k : Key) (g : Game.t) (i : Z) : option bool :=
  if Key_eqb key k then list_getitem (Game.level_unlocked g) i else Some false.

(** Lines 521-526: the level keys of the level-select screen. *)
Definition select_level (key : Key) (g : Game.t) : option Game.t :=
  match key_and_unlocked key K_1 g 0 with
  | None => None
  | Some true => Some (Game.start_level g 1)
  | Some false =>
  match key_and_unlocked key K_2 g 1 with
  | None => None
  | Some true => Some (Game.start_level g 2)
  | Some false =>
  match key_and_unlocked key K_3 g 2 with
  | None => None
  | Some true => Some (Game.start_level g 3)
  | Some false => Some g
  end end end.

(** Lines 507-530: one [KEYDOWN] event.  The tests run one after the other,
    each on the state the previous ones left.  [None] stands for an
    exception ([self.player] still [None], an index out of range). *)
Definition keydown (key : Key) (g : Game.t) : option Game.t :=
  let g :=
    if Key_eqb key K_ESCAPE then
      if GameState_eqb (Game.state g) playing then Game.set_state g menu else g
    else g in
  match
    (if GameState_eqb (Game.state g) playing then
       if Key_eqb key K_SPACE || Key_eqb key K_UP then
         match Game.player g with
         | Some p => Some (set_player g (Some (Player.jump p)))
         | None => None
         end
       else Some g
     else Some g)
  with
  | None => None
  | Some g =>
      let g :=
        if GameState_eqb (Game.state g) menu then
          if Key_eqb key K_RETURN then Game.set_state g level_select else g
        else g in
      match
        (if GameState_eqb (Game.state g) level_select
         then select_level key g else Some g)
      with
      | None => None
      | Some g =>
          Some (if GameState_eqb (Game.state g) game_over
                   || GameState_eqb (Game.state g) victory then
                  if Key_eqb key K_RETURN then Game.set_state g level_select
                  else g
                else g)
      end
  end.

(** Lines 502-530: the key events of one iteration, in order.  A [QUIT]
    event ends the program and is not part of a run. *)
Fixpoint handle_events (events : list Key) (g : Game.t) : option Game.t :=
  match events with
  | [] => Some g
  | key :: rest =>
      match keydown key g with
      | Some g => handle_events rest g
      | None => None
      end
  end.

(** Lines 619-621 of [draw_level_select]: the flags read for the three
    rows of the screen. *)
Definition level_rows (g : Game.t) : option (list bool) :=
  match list_getitem (Game.level_unlocked g) 0,
        list_getitem (Game.level_unlocked g) 1,
        list_getitem (Game.level_unlocked g) 2 with
  | Some a, Some b, Some c => Some [a; b; c]
  | _, _, _ => None
  end.

(** Lines 536-581: the logic of one iteration after the events.  In the
    states game over and victory [draw_game] still calls [Player.draw];
    the level-select screen reads the level flags. *)
Definition frame (left right : bool) (g : Game.t) : option Game.t :=
  match Game.state g with
  | playing => Game.playing_frame left right g
  | game_over | victory =>
      match Game.player g, Game.level g with
      | Some p, Some _ => Some (set_player g (Some (fst (Player.draw p))))
      | _, _ => None
      end
  | level_select =>
      match level_rows g with
      | Some _ => Some g
      | None => None
      end
  | menu => Some g
  end.

(** One iteration of [while True] in [Game.run]: the key events that
    arrived, then the frame with the keys held. *)
Definition iteration (events : list Key) (left right : bool) (g : Game.t)
    : option Game.t :=
  match handle_events events g with
  | Some g => frame left right g
  | None => None
  end.

(** The games that [Game.run] can be in at the top of its loop. *)
Inductive reachable : Game.t -> Prop :=
| reach_init : reachable Game.init
| reach_iteration (g g' : Game.t) (events : list Key) (left right : bool) :
    reachable g -> iteration events left right g = Some g' -> reachable g'.
End SMLRun.

Module DeltaRun.
Import Delta.

Definition set_player (g : Game.t) (v : option Player.t) : Game.t :=
  Game.mk (Game.state g) (Game.current_level g) v (Game.level g)
    (Game.scroll_x g) (Game.level_unlocked g).

(** [event.key == k and self.level_unlocked[i]]: the flag is read only
    when the key matches. *)
Definition key_and_unlocked (key k : Key) (g : Game.t) (i : Z) : option bool :=
  if Key_eqb key k then list_getitem (Game.level_unlocked g) i else Some false.

(** Lines 727-736: the level keys of the level-select screen.  [trig]
    gives the layouts of the levels 4 and 5. *)
Definition select_level (trig : Z -> Level.Layout) (key : Key) (g : Game.t)
    : option Game.t :=
  match key_and_unlocked key K_1 g 0 with
  | None => None
  | Some true => Some (Game.start_level g 1 (trig 1%Z))
  | Some false =>
  match key_and_unlocked key K_2 g 1 with
  | None => None
  | Some true => Some (Game.start_level g 2 (trig 2%Z))
  | Some false =>
  match key_and_unlocked key K_3 g 2 with
  | None => None
  | Some true => Some (Game.start_level g 3 (trig 3%Z))
  | Some false =>
  match key_and_unlocked key K_4 g 3 with
  | None => None
  | Some true => Some (Game.start_level g 4 (trig 4%Z))
  | Some false =>
  match key_and_unlocked key K_5 g 4 with
  | None => None
  | Some true => Some (Game.start_level g 5 (trig 5%Z))
  | Some false => Some g
  end end end end end.

(** Lines 709-741: one [KEYDOWN] event.  The tests run one after the other,
    each on the state the previous ones left.  [None] stands for an
    exception ([self.player] still [None], an index out of range).  The
    key F1 only toggles the frame-rate display. *)
Definition keydown (trig : Z -> Level.Layout) (key : Key) (g : Game.t)
    : option Game.t :=
  let g :=
    if Key_eqb key K_ESCAPE then
      if GameState_eqb (Game.state g) playing then Game.set_state g menu else g
    else g in
  match
    (if GameState_eqb (Game.state g) playing then
       if Key_eqb key K_SPACE || Key_eqb key K_UP then
         match Game.player g with
         | Some p => Some (set_player g (Some (Player.jump p)))
         | None => None
         end
       else Some g
     else Some g)
  with
  | None => None
  | Some g =>
      let g :=
        if GameState_eqb (Game.state g) menu then
          if Key_eqb key K_RETURN then Game.set_state g level_select else g
        else g in
      match
        (if GameState_eqb (Game.state g) level_select
         then select_level trig key g else Some g)
      with
      | None => None
      | Some g =>
          Some (if GameState_eqb (Game.state g) game_over
                   || GameState_eqb (Game.state g) victory then
                  if Key_eqb key K_RETURN then Game.set_state g level_select
                  else g
                else g)
      end
  end.

(** Lines 704-741: the key events of one iteration, in order.  A [QUIT]
    event ends the program and is not part of a run. *)
Fixpoint handle_events (trig : Z -> Level.Layout) (events : list Key) (g : Game.t)
    : option Game.t :=
  match events with
  | [] => Some g
  | key :: rest =>
      match keydown trig key g with
      | Some g => handle_events trig rest g
      | None => None
      end
  end.

(** Lines 847-849 of [draw_level_select]: the flags read for the five rows
    of the screen. *)
Definition level_rows (g : Game.t) : option (list bool) :=
  match list_getitem (Game.level_unlocked g) 0,
        list_getitem (Game.level_unlocked g) 1,
        list_getitem (Game.level_unlocked g) 2,
        list_getitem (Game.level_unlocked g) 3,
        list_getitem (Game.level_unlocked g) 4 with
  | Some a, Some b, Some c, Some d, Some e => Some [a; b; c; d; e]
  | _, _, _, _, _ => None
  end.

(** Lines 747-793: the logic of one iteration after the events.  In the
    states game over and victory [draw_game] still calls [Player.draw];
    the level-select screen reads the level flags. *)
Definition frame (left right : bool) (g : Game.t) : option Game.t :=
  match Game.state g with
  | playing => Game.playing_frame left right g
  | game_over | victory =>
      match Game.player g, Game.level g with
      | Some p, Some _ => Some (set_player g (Some (fst (Player.draw p))))
      | _, _ => None
      end
  | level_select =>
      match level_rows g with
      | Some _ => Some g
      | None => None
      end
  | menu => Some g
  end.

(** One iteration of [while True] in [Game.run]: the key events that
    arrived, then the frame with the keys held. *)
Definition iteration (trig : Z -> Level.Layout) (events : list Key)
    (left right : bool) (g : Game.t) : option Game.t :=
  match handle_events trig events g with
  | Some g => frame left right g
  | None => None
  end.

(** The games that [Game.run] can be in at the top of its loop. *)
Inductive reachable (trig : Z -> Level.Layout) : Game.t -> Prop :=
| reach_init : reachable trig Game.init
| reach_iteration (g g' : Game.t) (events : list Key) (left right : bool) :
    reachable trig g -> iteration trig events left right g = Some g' ->
    reachable trig g'.
End DeltaRun.

(** ** What holds of every reachable game *)

(** Every level flag set in [before] is set in [after]. *)
Definition keeps_unlocked (before after : list bool) : Prop :=
  forall n : nat, nth_error before n = Some true -> nth_error after n = Some true.

Module SMLInv.
Import SML.

(** The unlocked flags of the three levels, unlocked in order. *)
Definition in_order (unlocked : list bool) : Prop :=
  unlocked = [true; false; false] \/ unlocked = [true; true; false] \/
  unlocked = [true; true; true].

(** A level is being played, or has just been lost or won. *)
Definition in_level (s : GameState) : Prop :=
  s = playing \/ s = game_over \/ s = victory.

(** The player has its three lives and no countdown, or has been hurt
    once and has the countdown at 60. *)
Definition hurt_at_most_once (p : Player.t) : Prop :=
  (Player.lives p = 3%Z /\ Player.invincible p = 0%Z) \/
  (Player.lives p = 2%Z /\ Player.invincible p = 60%Z).

Definition wf (g : Game.t) : Prop :=
  in_order (Game.level_unlocked g) /\
  (1 <= Game.current_level g <= 3)%Z /\
  0 <= Game.scroll_x g /\ Game.scroll_x g <= 480 /\
  (in_level (Game.state g) ->
   exists p lv,
     Game.player g = Some p /\ Game.level g = Some lv /\
     Level.level_width lv = 640%Z /\
     list_getitem (Game.level_unlocked g) (Game.current_level g - 1) = Some true /\
     (Game.state g = playing -> Player.active p = true)).
End SMLInv.

Module DeltaInv.
Import Delta.

(** The unlocked flags of the five levels, unlocked in order. *)
Definition in_order (unlocked : list bool) : Prop :=
  unlocked = [true; false; false; false; false] \/
  unlocked = [true; true; false; false; false] \/
  unlocked = [true; true; true; false; false] \/
  unlocked = [true; true; true; true; false] \/
  unlocked = [true; true; true; true; true].

(** A level is being played, or has just been lost or won. *)
Definition in_level (s : GameState) : Prop :=
  s = playing \/ s = game_over \/ s = victory.

(** The player has its three lives and no countdown, or has been hurt
    once and has the countdown at 60. *)
Definition hurt_at_most_once (p : Player.t) : Prop :=
  (Player.lives p = 3%Z /\ Player.invincible p = 0%Z) \/
  (Player.lives p = 2%Z /\ Player.invincible p = 60%Z).

Definition wf (g : Game.t) : Prop :=
  in_order (Game.level_unlocked g) /\
  (1 <= Game.current_level g <= 5)%Z /\
  Game.state g <> game_over /\
  (in_level (Game.state g) ->
   exists p lv,
     Game.player g = Some p /\ Game.level g = Some lv /\
     Level.level_width lv = (640 + Game.current_level g * 160)%Z /\
     0 <= Game.scroll_x g /\
     Game.scroll_x g <= (Level.level_width lv - GB_WIDTH)%Z /\
     list_getitem (Game.level_unlocked g) (Game.current_level g - 1) = Some true /\
     (Player.active p = false -> Player.dying p = true)).
End DeltaInv.

(** * Concrete inputs used by the examples *)

Module Ex.
(** A store for levels without coins. *)
Definition no_coins : CoinStore := fun _ => Coin.init 0 0.

(** Two platforms, one four pixels below the other. *)
Definition upper : Platform.t := Platform.mk 0 100 16 16.
Definition lower : Platform.t := Platform.mk 0 104 16 16.
Definition stacked : list Platform.t := [upper; lower].

(** A player above them, falling fast. *)
Definition sml_falling : SML.Player.t :=
  SML.Player.set_vel_y (SML.Player.init 0 90) (67 # 10).
Definition delta_falling : Delta.Player.t :=
  Delta.Player.set_vel_y (Delta.Player.init 0 90) (67 # 10).

(** The same player on its last life, and an enemy standing on [upper]. *)
Definition delta_last_life : Delta.Player.t :=
  Delta.Player.set_lives delta_falling 1.
Definition walker : Enemy.t := Enemy.init 4 92 0.

(** A player falling onto [walker] from above, and one walking into it. *)
Definition sml_stomping : SML.Player.t :=
  SML.Player.set_vel_y (SML.Player.init 4 85) 2.
Definition sml_touching : SML.Player.t := SML.Player.init 4 92.
Definition delta_stomping : Delta.Player.t :=
  Delta.Player.set_vel_y (Delta.Player.init 4 85) 2.
Definition delta_touching : Delta.Player.t := Delta.Player.init 4 92.

(** Level 1 of each variant, and a player standing in its first coin. *)
Definition sml_level1 : SML.Level.t := SML.Level.init 1.
Definition sml_at_coin : SML.Player.t := SML.Player.init 90 85.
Definition delta_level1 : Delta.Level.t := Delta.Level.init 1 ([], [], []).
Definition delta_at_coin : Delta.Player.t := Delta.Player.init 80 65.

(** Level 1 being played, the player standing on the ground inside the
    goal. *)
Definition sml_at_goal : SML.Game.t :=
  SML.Game.mk playing 1 (Some (SML.Player.init 600 120)) (Some sml_level1) 0
    [true; false; false].
Definition delta_at_goal : Delta.Game.t :=
  Delta.Game.mk playing 1 (Some (Delta.Player.init 760 120)) (Some delta_level1) 0
    [true; false; false; false; false].

(** Two ground tiles side by side, listed right tile first, and an enemy
    placed at the left edge of the right tile. *)
Definition tile_left : Platform.t := Platform.mk 16 128 16 16.
Definition tile_right : Platform.t := Platform.mk 32 128 16 16.
Definition at_left_edge : Enemy.t := Enemy.init 32 120 0.

(** An enemy placed at the left edge of the first raised platform of
    level 1. *)
Definition on_first_platform : Enemy.t := Enemy.init 80 92 0.

(** A powered-up player of the extended variant with 19 coins, standing in
    the first coin of level 1. *)
Definition delta_nineteen : Delta.Player.t :=
  Delta.Player.set_power_up (Delta.Player.set_coins delta_at_coin 19) true.

(** Players that have just taken damage. *)
Definition sml_hurt : SML.Player.t :=
  SML.Player.take_damage (SML.Player.init 20 100).
Definition delta_hurt : Delta.Player.t :=
  Delta.Player.take_damage (Delta.Player.init 20 100).
End Ex.

(** * Concrete runs of the game loop *)

Module ExRun.
(** The levels 4 and 5 of the extended variant without the objects placed
    by sine and cosine. *)
Definition no_trig : Z -> Delta.Level.Layout := fun _ => ([], [], []).

(** Return on the menu, then the key 1 on the level-select screen. *)
Definition start_keys : list Key := [K_RETURN; K_1].

(** The game after one iteration with these keys, right held. *)
Definition sml_started : SML.Game.t :=
  match SMLRun.iteration start_keys false true SML.Game.init with
  | Some g => g
  | None => SML.Game.init
  end.
Definition delta_started : Delta.Game.t :=
  match DeltaRun.iteration no_trig start_keys false true Delta.Game.init with
  | Some g => g
  | None => Delta.Game.init
  end.

(** The extended variant: Return and the key 1 arrive in the first
    iteration, Left is held in it and in the [n] iterations that follow,
    and no other key event arrives.  The player of level 1 walks off the
    left end of the ground and falls below the screen. *)
Definition delta_walk_left (n : nat) : option Delta.Game.t :=
  Nat.iter n
    (fun run => match run with
                | Some g => DeltaRun.iteration no_trig [] true false g
                | None => None
                end)
    (DeltaRun.iteration no_trig start_keys true false Delta.Game.init).
End ExRun.
(** * Properties *)

(** ** Comparisons *)

Lemma Qlt_bool_iff (a b : Q) : Qlt_bool a b = true <-> a < b.
Proof. unfold Qlt_bool, Qlt. apply Z.ltb_lt. Qed.

Lemma Qlt_bool_false_iff (a b : Q) : Qlt_bool a b = false <-> b <= a.
Proof. unfold Qlt_bool, Qle. rewrite Z.ltb_ge. reflexivity. Qed.

Lemma Qgt_bool_iff (a b : Q) : Qgt_bool a b = true <-> b < a.
Proof. apply Qlt_bool_iff. Qed.

Lemma Qgt_bool_false_iff (a b : Q) : Qgt_bool a b = false <-> a <= b.
Proof. apply Qlt_bool_false_iff. Qed.

Lemma Qle_bool_false_iff (a b : Q) : Qle_bool a b = false <-> b < a.
Proof.
  rewrite <- not_true_iff_false, Qle_bool_iff.
  split; [apply Qnot_le_lt | apply Qlt_not_le].
Qed.

(** ** C1: collision *)

Lemma collision_spec {A B : Type} `{Rect A} `{Rect B} (a : A) (b : B) :
  collision a b = true <->
  (x_of a < x_of b + width_of b /\ x_of a + width_of a > x_of b /\
   y_of a < y_of b + height_of b /\ y_of a + height_of a > y_of b).
Proof.
  unfold collision.
  rewrite !andb_true_iff, !Qlt_bool_iff, !Qgt_bool_iff. tauto.
Qed.

Lemma collision_sym {A B : Type} `{Rect A} `{Rect B} (a : A) (b : B) :
  collision a b = collision b a.
Proof.
  unfold collision, Qgt_bool.
  destruct (Qlt_bool (x_of a) (x_of b + width_of b)),
           (Qlt_bool (x_of b) (x_of a + width_of a)),
           (Qlt_bool (y_of a) (y_of b + height_of b)),
           (Qlt_bool (y_of b) (y_of a + height_of a)); reflexivity.
Qed.

Lemma collision_edge_adjacent {A B : Type} `{Rect A} `{Rect B} (a : A) (b : B) :
  edge_adjacent a b -> collision a b = false.
Proof.
  intros Hadj. apply not_true_iff_false. rewrite collision_spec.
  intros (H1 & H2 & H3 & H4).
  destruct Hadj as [E | [E | [E | E]]].
  - rewrite E in H2. exact (Qlt_irrefl _ H2).
  - rewrite E in H1. exact (Qlt_irrefl _ H1).
  - rewrite E in H4. exact (Qlt_irrefl _ H4).
  - rewrite E in H3. exact (Qlt_irrefl _ H3).
Qed.

(** C1. The collision test is true exactly when the four strict
    inequalities hold; it is symmetric; and two rectangles that are exactly
    edge-adjacent never overlap. *)
Theorem C1_collision_overlap {A B : Type} `{Rect A} `{Rect B} (a : A) (b : B) :
  (collision a b = true <->
     (x_of a < x_of b + width_of b /\ x_of a + width_of a > x_of b /\
      y_of a < y_of b + height_of b /\ y_of a + height_of a > y_of b)) /\
  collision a b = collision b a /\
  (edge_adjacent a b -> collision a b = false).
Proof.
  split; [apply collision_spec | split].
  - apply collision_sym.
  - apply collision_edge_adjacent.
Qed.

Lemma C1_collision_overlap_witness :
  let a := Platform.mk 0 0 16 16 in
  let b := Platform.mk 16 0 16 16 in
  edge_adjacent a b /\ collision a b = false /\ collision b a = false.
Proof.
  intros a b.
  assert (Hadj : edge_adjacent a b) by (left; reflexivity).
  destruct (C1_collision_overlap a b) as (_ & Hsym & Hedge).
  split; [exact Hadj | split].
  - exact (Hedge Hadj).
  - rewrite <- Hsym. exact (Hedge Hadj).
Defined.

(** ** Lists *)

Lemma list_remove_first (c : CoinRef) (pre rest : list CoinRef) :
  ~ In c pre -> list_remove c (pre ++ c :: rest) = Some (pre ++ rest).
Proof.
  induction pre as [|r pre IH]; intros Hnot; cbn.
  - rewrite Nat.eqb_refl. reflexivity.
  - destruct (Nat.eqb r c) eqn:E.
    + apply Nat.eqb_eq in E. exfalso. apply Hnot. left. exact E.
    + rewrite IH; [reflexivity|]. intros Hin. apply Hnot. right. exact Hin.
Qed.

(** ** clientv0sml.py: the player's update *)

Section SMLPlayer.
Import SML SML.Player.

(** The rectangle of the player only depends on [x], [y], [width] and
    [height]. *)
Lemma sml_collision_same_rect {B : Type} `{Rect B} (p p' : t) (obj : B) :
  x p' = x p -> y p' = y p -> width p' = width p -> height p' = height p ->
  collision p' obj = collision p obj.
Proof.
  intros Hx Hy Hw Hh. unfold collision. cbn. rewrite Hx, Hy, Hw, Hh. reflexivity.
Qed.

Lemma sml_vertical_step_at_rest (p : t) (b : bool) (q : Platform.t) :
  vel_y p = 0 -> vertical_step (p, b) q = (p, b).
Proof.
  intros Hv. unfold vertical_step. rewrite Hv.
  destruct (collision p q); reflexivity.
Qed.

Lemma sml_vertical_loop_at_rest (platforms : list Platform.t) (p : t) (b : bool) :
  vel_y p = 0 -> fold_left vertical_step platforms (p, b) = (p, b).
Proof.
  intros Hv. induction platforms as [|q rest IH]; cbn [fold_left].
  - reflexivity.
  - rewrite sml_vertical_step_at_rest by exact Hv. exact IH.
Qed.

Lemma sml_vertical_loop_falling (platforms : list Platform.t) (p : t) (b : bool)
    (q : Platform.t) :
  Qgt_bool (vel_y p) 0 = true ->
  first_overlap p platforms = Some q ->
  fold_left vertical_step platforms (p, b) = (landed p q, true).
Proof.
  intros Hfall. revert b.
  induction platforms as [|r rest IH]; intros b Hfirst.
  - discriminate.
  - unfold first_overlap in Hfirst. cbn [find] in Hfirst.
    cbn [fold_left]. unfold vertical_step at 2.
    destruct (collision p r) eqn:Hc.
    + injection Hfirst as <-. rewrite Hfall.
      apply sml_vertical_loop_at_rest. reflexivity.
    + apply IH. exact Hfirst.
Qed.

Lemma sml_enemy_contact_place (p : t) (e : Enemy.t) :
  same_place p (fst (enemy_contact p e)).
Proof.
  unfold enemy_contact, stomp, take_damage, same_place.
  destruct (Enemy.active e && collision p e);
    [destruct (Qgt_bool (vel_y p) 0 && Qlt_bool (y p) (Enemy.y e));
       [|destruct (invincible p <=? 0)%Z;
           [cbn; destruct (lives p - 1 <=? 0)%Z|]]|];
    cbn; repeat split; reflexivity.
Qed.

Lemma sml_enemy_contact_at_rest (p : t) (e : Enemy.t) :
  vel_y p = 0 -> vel_y (fst (enemy_contact p e)) = 0.
Proof.
  intros Hv. unfold enemy_contact, take_damage. rewrite Hv.
  destruct (Enemy.active e && collision p e); [|exact Hv].
  cbn [andb Qgt_bool Qlt_bool]. cbn.
  destruct (invincible p <=? 0)%Z; [|exact Hv].
  cbn. destruct (lives p - 1 <=? 0)%Z; exact Hv.
Qed.

Lemma sml_enemy_loop_place (enemies : list Enemy.t) (p : t) :
  same_place p (fst (enemy_loop p enemies)).
Proof.
  revert p. induction enemies as [|e rest IH]; intros p; cbn [enemy_loop].
  - unfold same_place. cbn. repeat split; reflexivity.
  - pose proof (sml_enemy_contact_place p e) as H1.
    destruct (enemy_contact p e) as [p1 e1]. cbn [fst] in H1.
    pose proof (IH p1) as H2.
    destruct (enemy_loop p1 rest) as [p2 rest']. cbn [fst] in *.
    unfold same_place in *.
    destruct H1 as (a1 & a2 & a3 & a4 & a5), H2 as (b1 & b2 & b3 & b4 & b5).
    repeat split; congruence.
Qed.

Lemma sml_enemy_loop_at_rest (enemies : list Enemy.t) (p : t) :
  vel_y p = 0 -> vel_y (fst (enemy_loop p enemies)) = 0.
Proof.
  revert p. induction enemies as [|e rest IH]; intros p Hv; cbn [enemy_loop].
  - exact Hv.
  - pose proof (sml_enemy_contact_at_rest p e Hv) as H1.
    destruct (enemy_contact p e) as [p1 e1]. cbn [fst] in H1.
    pose proof (IH p1 H1) as H2.
    destruct (enemy_loop p1 rest) as [p2 rest']. exact H2.
Qed.

(** The coin loop in closed form.  [hit] is the overlap test of the player
    that enters the loop; [pre] is the part of the live collection that
    the scan has passed and kept. *)
Lemma sml_coin_loop_gen (store : CoinStore) (hit : CoinRef -> bool)
    (snapshot : list CoinRef) :
  forall (p : t) (pre : list CoinRef),
    (forall r, collision p (store r) = hit r) ->
    (forall r, In r pre -> hit r = false) ->
    coin_loop store snapshot p (pre ++ snapshot) =
    Some (Nat.iter (length (filter hit snapshot)) pickup p,
          pre ++ filter (fun r => negb (hit r)) snapshot).
Proof.
  induction snapshot as [|c rest IH]; intros p pre Hhit Hpre; cbn [coin_loop filter].
  - reflexivity.
  - rewrite Hhit. destruct (hit c) eqn:Hc; cbn [negb].
    + rewrite list_remove_first.
      * rewrite (IH (pickup p) pre).
        -- cbn [length]. rewrite Nat.iter_succ_r. reflexivity.
        -- intros r. rewrite <- Hhit. apply sml_collision_same_rect; reflexivity.
        -- exact Hpre.
      * intros Hin. apply Hpre in Hin. congruence.
    + replace (pre ++ c :: rest) with ((pre ++ [c]) ++ rest)
        by (rewrite <- app_assoc; reflexivity).
      rewrite (IH p (pre ++ [c]) Hhit).
      * rewrite <- app_assoc. reflexivity.
      * intros r Hin. apply in_app_or in Hin. destruct Hin as [Hin | [<- | []]].
        -- apply Hpre. exact Hin.
        -- exact Hc.
Qed.

Lemma sml_coin_loop_closed (store : CoinStore) (p : t) (coins : list CoinRef) :
  coin_loop store coins p coins =
  Some (Nat.iter (length (filter (fun r => collision p (store r)) coins)) pickup p,
        filter (fun r => negb (collision p (store r))) coins).
Proof.
  apply (sml_coin_loop_gen store (fun r => collision p (store r)) coins p []).
  - reflexivity.
  - intros r [].
Qed.

Lemma sml_pickups_place (n : nat) (p : t) :
  same_place p (Nat.iter n pickup p) /\
  vel_y (Nat.iter n pickup p) = vel_y p /\
  lives (Nat.iter n pickup p) = lives p /\
  active (Nat.iter n pickup p) = active p /\
  invincible (Nat.iter n pickup p) = invincible p /\
  coins (Nat.iter n pickup p) = (coins p + Z.of_nat n)%Z.
Proof.
  unfold same_place. induction n as [|n IH].
  - cbn [Nat.iter nat_rect]. rewrite Z.add_0_r. repeat split; reflexivity.
  - rewrite Nat.iter_succ. destruct IH as ((a1 & a2 & a3 & a4 & a5) & b & c & d & e & f).
    unfold pickup at 1 3 5 7 9 11 13 15 17 19. cbn.
    repeat split; try assumption. rewrite f. lia.
Qed.

(** [Player.move] on an active player, in closed form. *)
Lemma sml_move_active (store : CoinStore) (p : t) (dx : Q)
    (platforms : list Platform.t) (enemies : list Enemy.t) (coins : list CoinRef) :
  active p = true ->
  move store p dx platforms enemies coins =
  let pe := move_to_enemies p dx platforms enemies in
  let hit := fun r => collision (fst pe) (store r) in
  Some (check_bounds (Nat.iter (length (filter hit coins)) pickup (fst pe)),
        snd pe,
        filter (fun r => negb (hit r)) coins).
Proof.
  intros Hact. unfold move. rewrite Hact. cbn [negb].
  destruct (move_to_enemies p dx platforms enemies) as [p2 es]. cbn [fst snd].
  rewrite sml_coin_loop_closed. reflexivity.
Qed.

Lemma sml_horizontal_loop_size (dx : Q) (platforms : list Platform.t) (p : t) :
  width (fold_left (horizontal_step dx) platforms p) = width p /\
  height (fold_left (horizontal_step dx) platforms p) = height p.
Proof.
  revert p. induction platforms as [|q rest IH]; intros p; cbn [fold_left].
  - split; reflexivity.
  - destruct (IH (horizontal_step dx p q)) as [Hw Hh]. rewrite Hw, Hh.
    unfold horizontal_step.
    destruct (collision p q); [destruct (Qgt_bool dx 0)|]; split; reflexivity.
Qed.

Lemma sml_move_to_gravity_size (p : t) (dx : Q) (platforms : list Platform.t) :
  width (move_to_gravity p dx platforms) = width p /\
  height (move_to_gravity p dx platforms) = height p.
Proof.
  unfold move_to_gravity, apply_gravity. cbn.
  destruct (sml_horizontal_loop_size dx platforms (move_horizontal dx p)) as [Hw Hh].
  rewrite Hw, Hh. unfold move_horizontal.
  destruct (negb (Qeq_bool dx 0)); [cbn; destruct (Qge_bool _ _)|];
    split; reflexivity.
Qed.

Lemma first_overlap_exists {A : Type} `{Rect A} (self : A)
    (platforms : list Platform.t) (q0 : Platform.t) :
  In q0 platforms -> collision self q0 = true ->
  exists q, first_overlap self platforms = Some q.
Proof.
  intros Hin Hc. unfold first_overlap.
  destruct (find (fun platform => collision self platform) platforms) as [q|] eqn:E.
  - exists q. reflexivity.
  - pose proof (find_none _ _ E q0 Hin) as Hno. cbn in Hno. congruence.
Qed.

(** A falling player that overlaps a platform during vertical resolution
    ends the tick on top of the first overlapping platform, at rest. *)
Lemma sml_landing (store : CoinStore) (p : t) (dx : Q)
    (platforms : list Platform.t) (enemies : list Enemy.t) (coins : list CoinRef)
    (q0 : Platform.t) :
  active p = true ->
  vel_y (move_to_gravity p dx platforms) > 0 ->
  In q0 platforms ->
  collision (move_to_gravity p dx platforms) q0 = true ->
  exists q p' es cs,
    first_overlap (move_to_gravity p dx platforms) platforms = Some q /\
    move store p dx platforms enemies coins = Some (p', es, cs) /\
    y p' = Platform.y q - height p /\ vel_y p' = 0 /\ jumping p' = false.
Proof.
  intros Hact Hfall Hin Hc.
  destruct (first_overlap_exists _ _ _ Hin Hc) as [q Hq].
  rewrite (sml_move_active _ _ _ _ _ _ Hact). cbv zeta.
  unfold move_to_enemies.
  set (p1 := move_to_gravity p dx platforms) in *.
  rewrite (sml_vertical_loop_falling platforms p1 false q)
    by (try apply Qgt_bool_iff; assumption).
  pose proof (sml_enemy_loop_place enemies (landed p1 q)) as Hpl.
  pose proof (sml_enemy_loop_at_rest enemies (landed p1 q) eq_refl) as Hv.
  destruct (enemy_loop (landed p1 q) enemies) as [p2 es]. cbn [fst snd] in *.
  set (n := length (filter (fun r => collision p2 (store r)) coins)).
  destruct (sml_pickups_place n p2) as (Hpl3 & Hv3 & _).
  exists q. eexists. eexists. eexists.
  split; [exact Hq | split; [reflexivity|]].
  unfold same_place in Hpl, Hpl3.
  destruct Hpl as (_ & Hy & _ & _ & Hj), Hpl3 as (_ & Hy3 & _ & _ & Hj3).
  destruct (sml_move_to_gravity_size p dx platforms) as [_ Hh]. fold p1 in Hh.
  clearbody p1. unfold check_bounds.
  destruct (Qgt_bool (y (Nat.iter n pickup p2)) GB_HEIGHT); cbn;
    rewrite ?Hy3, ?Hv3, ?Hj3, ?Hy, ?Hv, ?Hj; cbn; rewrite ?Hh;
    repeat split; reflexivity.
Qed.

End SMLPlayer.

(** ** deltamarioland4k.py: the player's update *)

Section DeltaPlayer.
Import Delta Delta.Player.

(** The rectangle of the player only depends on [x], [y], [width] and
    [height]. *)
Lemma delta_collision_same_rect {B : Type} `{Rect B} (p p' : t) (obj : B) :
  x p' = x p -> y p' = y p -> width p' = width p -> height p' = height p ->
  collision p' obj = collision p obj.
Proof.
  intros Hx Hy Hw Hh. unfold collision. cbn. rewrite Hx, Hy, Hw, Hh. reflexivity.
Qed.

Lemma delta_vertical_step_at_rest (p : t) (b : bool) (q : Platform.t) :
  vel_y p = 0 -> vertical_step (p, b) q = (p, b).
Proof.
  intros Hv. unfold vertical_step. rewrite Hv.
  destruct (collision p q); reflexivity.
Qed.

Lemma delta_vertical_loop_at_rest (platforms : list Platform.t) (p : t) (b : bool) :
  vel_y p = 0 -> fold_left vertical_step platforms (p, b) = (p, b).
Proof.
  intros Hv. induction platforms as [|q rest IH]; cbn [fold_left].
  - reflexivity.
  - rewrite delta_vertical_step_at_rest by exact Hv. exact IH.
Qed.

Lemma delta_vertical_loop_falling (platforms : list Platform.t) (p : t) (b : bool)
    (q : Platform.t) :
  Qgt_bool (vel_y p) 0 = true ->
  first_overlap p platforms = Some q ->
  fold_left vertical_step platforms (p, b) = (landed p q, true).
Proof.
  intros Hfall. revert b.
  induction platforms as [|r rest IH]; intros b Hfirst.
  - discriminate.
  - unfold first_overlap in Hfirst. cbn [find] in Hfirst.
    cbn [fold_left]. unfold vertical_step at 2.
    destruct (collision p r) eqn:Hc.
    + injection Hfirst as <-. rewrite Hfall.
      apply delta_vertical_loop_at_rest. reflexivity.
    + apply IH. exact Hfirst.
Qed.

Lemma delta_enemy_contact_place (p : t) (e : Enemy.t) :
  same_place p (fst (enemy_contact p e)).
Proof.
  unfold enemy_contact, stomp, take_damage, same_place.
  destruct (Enemy.active e && collision p e);
    [destruct (Qgt_bool (vel_y p) 0 && Qlt_bool (y p) (Enemy.y e));
       [|destruct (invincible p <=? 0)%Z;
           [cbn; destruct (lives p - 1 <=? 0)%Z|]]|];
    cbn; repeat split; reflexivity.
Qed.

Lemma delta_enemy_contact_rest_or_hop (p : t) (e : Enemy.t) :
  rest_or_hop p -> rest_or_hop (fst (enemy_contact p e)).
Proof.
  intros [Hv | (Hd & Hi & Hl & Hv)]; unfold enemy_contact; rewrite Hv.
  - destruct (Enemy.active e && collision p e); [|left; exact Hv].
    cbn [andb Qgt_bool Qlt_bool]. cbn.
    destruct (invincible p <=? 0)%Z; [|left; exact Hv].
    unfold take_damage. cbn.
    destruct (lives p - 1 <=? 0)%Z eqn:El; [right | left; exact Hv].
    cbn. apply Z.leb_le in El. repeat split. exact El.
  - rewrite Hi.
    destruct (Enemy.active e && collision p e); cbn;
      right; repeat split; assumption.
Qed.

Lemma delta_enemy_loop_place (enemies : list Enemy.t) (p : t) :
  same_place p (fst (enemy_loop p enemies)).
Proof.
  revert p. induction enemies as [|e rest IH]; intros p; cbn [enemy_loop].
  - unfold same_place. cbn. repeat split; reflexivity.
  - pose proof (delta_enemy_contact_place p e) as H1.
    destruct (enemy_contact p e) as [p1 e1]. cbn [fst] in H1.
    pose proof (IH p1) as H2.
    destruct (enemy_loop p1 rest) as [p2 rest']. cbn [fst] in *.
    unfold same_place in *.
    destruct H1 as (a1 & a2 & a3 & a4 & a5), H2 as (b1 & b2 & b3 & b4 & b5).
    repeat split; congruence.
Qed.

Lemma delta_enemy_loop_rest_or_hop (enemies : list Enemy.t) (p : t) :
  rest_or_hop p -> rest_or_hop (fst (enemy_loop p enemies)).
Proof.
  revert p. induction enemies as [|e rest IH]; intros p Hv; cbn [enemy_loop].
  - exact Hv.
  - pose proof (delta_enemy_contact_rest_or_hop p e Hv) as H1.
    destruct (enemy_contact p e) as [p1 e1]. cbn [fst] in H1.
    pose proof (IH p1 H1) as H2.
    destruct (enemy_loop p1 rest) as [p2 rest']. exact H2.
Qed.

Lemma delta_pickup_place (p : t) :
  same_place p (pickup p) /\
  vel_y (pickup p) = vel_y p /\
  lives (pickup p) = lives p /\
  active (pickup p) = active p /\
  invincible (pickup p) = invincible p /\
  dying (pickup p) = dying p /\
  coins (pickup p) = (coins p + 1)%Z.
Proof.
  unfold pickup, same_place. cbn.
  destruct ((coins p + 1) mod 10 =? 0)%Z; cbn; repeat split; reflexivity.
Qed.

(** The coin loop in closed form.  [hit] is the overlap test of the player
    that enters the loop; [pre] is the part of the live collection that
    the scan has passed and kept. *)
Lemma delta_coin_loop_gen (store : CoinStore) (hit : CoinRef -> bool)
    (snapshot : list CoinRef) :
  forall (p : t) (pre : list CoinRef),
    (forall r, collision p (store r) = hit r) ->
    (forall r, In r pre -> hit r = false) ->
    coin_loop store snapshot p (pre ++ snapshot) =
    Some (Nat.iter (length (filter hit snapshot)) pickup p,
          pre ++ filter (fun r => negb (hit r)) snapshot).
Proof.
  induction snapshot as [|c rest IH]; intros p pre Hhit Hpre; cbn [coin_loop filter].
  - reflexivity.
  - rewrite Hhit. destruct (hit c) eqn:Hc; cbn [negb].
    + rewrite list_remove_first.
      * rewrite (IH (pickup p) pre).
        -- cbn [length]. rewrite Nat.iter_succ_r. reflexivity.
        -- intros r. rewrite <- Hhit.
           apply delta_collision_same_rect; apply (delta_pickup_place p).
        -- exact Hpre.
      * intros Hin. apply Hpre in Hin. congruence.
    + replace (pre ++ c :: rest) with ((pre ++ [c]) ++ rest)
        by (rewrite <- app_assoc; reflexivity).
      rewrite (IH p (pre ++ [c]) Hhit).
      * rewrite <- app_assoc. reflexivity.
      * intros r Hin. apply in_app_or in Hin. destruct Hin as [Hin | [<- | []]].
        -- apply Hpre. exact Hin.
        -- exact Hc.
Qed.

Lemma delta_coin_loop_closed (store : CoinStore) (p : t) (coins : list CoinRef) :
  coin_loop store coins p coins =
  Some (Nat.iter (length (filter (fun r => collision p (store r)) coins)) pickup p,
        filter (fun r => negb (collision p (store r))) coins).
Proof.
  apply (delta_coin_loop_gen store (fun r => collision p (store r)) coins p []).
  - reflexivity.
  - intros r [].
Qed.

Lemma delta_pickups_place (n : nat) (p : t) :
  same_place p (Nat.iter n pickup p) /\
  vel_y (Nat.iter n pickup p) = vel_y p /\
  lives (Nat.iter n pickup p) = lives p /\
  active (Nat.iter n pickup p) = active p /\
  invincible (Nat.iter n pickup p) = invincible p /\
  dying (Nat.iter n pickup p) = dying p /\
  coins (Nat.iter n pickup p) = (coins p + Z.of_nat n)%Z.
Proof.
  unfold same_place. induction n as [|n IH].
  - cbn [Nat.iter nat_rect]. rewrite Z.add_0_r. repeat split; reflexivity.
  - rewrite Nat.iter_succ.
    destruct IH as ((a1 & a2 & a3 & a4 & a5) & b & c & d & e & f & g).
    destruct (delta_pickup_place (Nat.iter n pickup p))
      as ((a1' & a2' & a3' & a4' & a5') & b' & c' & d' & e' & f' & g').
    repeat split; try congruence. rewrite g', g. lia.
Qed.

(** [Player.move] on an active player that is not dying, in closed form. *)
Lemma delta_move_active (store : CoinStore) (p : t) (dx : Q)
    (platforms : list Platform.t) (enemies : list Enemy.t) (coins : list CoinRef) :
  active p = true -> dying p = false ->
  move store p dx platforms enemies coins =
  let pe := move_to_enemies p dx platforms enemies in
  let hit := fun r => collision (fst pe) (store r) in
  Some (check_bounds (Nat.iter (length (filter hit coins)) pickup (fst pe)),
        snd pe,
        filter (fun r => negb (hit r)) coins).
Proof.
  intros Hact Hdy. unfold move. rewrite Hact, Hdy. cbn [negb].
  destruct (move_to_enemies p dx platforms enemies) as [p2 es]. cbn [fst snd].
  rewrite delta_coin_loop_closed. reflexivity.
Qed.

Lemma delta_horizontal_loop_size (dx : Q) (platforms : list Platform.t) (p : t) :
  width (fold_left (horizontal_step dx) platforms p) = width p /\
  height (fold_left (horizontal_step dx) platforms p) = height p.
Proof.
  revert p. induction platforms as [|q rest IH]; intros p; cbn [fold_left].
  - split; reflexivity.
  - destruct (IH (horizontal_step dx p q)) as [Hw Hh]. rewrite Hw, Hh.
    unfold horizontal_step.
    destruct (collision p q); [destruct (Qgt_bool dx 0)|]; split; reflexivity.
Qed.

Lemma delta_move_to_gravity_size (p : t) (dx : Q) (platforms : list Platform.t) :
  width (move_to_gravity p dx platforms) = width p /\
  height (move_to_gravity p dx platforms) = height p.
Proof.
  unfold move_to_gravity, apply_gravity. cbn.
  destruct (delta_horizontal_loop_size dx platforms (move_horizontal dx p)) as [Hw Hh].
  rewrite Hw, Hh. unfold move_horizontal.
  destruct (negb (Qeq_bool dx 0)); [cbn; destruct (Qge_bool _ _)|];
    split; reflexivity.
Qed.

(** A falling player that overlaps a platform during vertical resolution
    ends the tick on top of the first overlapping platform; it is at rest
    unless an enemy contact of the same tick took its last life. *)
Lemma delta_landing (store : CoinStore) (p : t) (dx : Q)
    (platforms : list Platform.t) (enemies : list Enemy.t) (coins : list CoinRef)
    (q0 : Platform.t) :
  active p = true -> dying p = false ->
  vel_y (move_to_gravity p dx platforms) > 0 ->
  In q0 platforms ->
  collision (move_to_gravity p dx platforms) q0 = true ->
  exists q p' es cs,
    first_overlap (move_to_gravity p dx platforms) platforms = Some q /\
    move store p dx platforms enemies coins = Some (p', es, cs) /\
    y p' = Platform.y q - height p /\ jumping p' = false /\
    (vel_y p' = 0 \/
     (dying p' = true /\ (lives p' <= 0)%Z /\
      vel_y p' = - JUMP_STRENGTH * (5 # 10))).
Proof.
  intros Hact Hdy Hfall Hin Hc.
  destruct (first_overlap_exists _ _ _ Hin Hc) as [q Hq].
  rewrite (delta_move_active _ _ _ _ _ _ Hact Hdy). cbv zeta.
  unfold move_to_enemies.
  set (p1 := move_to_gravity p dx platforms) in *.
  rewrite (delta_vertical_loop_falling platforms p1 false q)
    by (try apply Qgt_bool_iff; assumption).
  pose proof (delta_enemy_loop_place enemies (landed p1 q)) as Hpl.
  pose proof (delta_enemy_loop_rest_or_hop enemies (landed p1 q)
                (or_introl eq_refl)) as Hv.
  destruct (enemy_loop (landed p1 q) enemies) as [p2 es]. cbn [fst snd] in *.
  set (n := length (filter (fun r => collision p2 (store r)) coins)).
  destruct (delta_pickups_place n p2) as (Hpl3 & Hv3 & Hl3 & _ & Hi3 & Hd3 & _).
  exists q. eexists. eexists. eexists.
  split; [exact Hq | split; [reflexivity|]].
  unfold same_place in Hpl, Hpl3.
  destruct Hpl as (_ & Hy & _ & _ & Hj), Hpl3 as (_ & Hy3 & _ & _ & Hj3).
  destruct (delta_move_to_gravity_size p dx platforms) as [_ Hh]. fold p1 in Hh.
  clearbody p1.
  assert (Hfin : forall p', y p' = y (Nat.iter n pickup p2) ->
             jumping p' = jumping (Nat.iter n pickup p2) ->
             vel_y p' = vel_y (Nat.iter n pickup p2) ->
             lives p' = lives (Nat.iter n pickup p2) ->
             (dying (Nat.iter n pickup p2) = true -> dying p' = true) ->
             y p' = Platform.y q - height p /\ jumping p' = false /\
             (vel_y p' = 0 \/
              (dying p' = true /\ (lives p' <= 0)%Z /\
               vel_y p' = - JUMP_STRENGTH * (5 # 10)))).
  { intros p' Ey Ej Ev El Ed.
    rewrite Ey, Ej, Ev, El, Hy3, Hj3, Hv3, Hl3, Hy, Hj. cbn. rewrite Hh.
    split; [reflexivity | split; [reflexivity|]].
    destruct Hv as [Hv | (Hd & _ & Hl & Hv)]; [left; exact Hv | right].
    repeat split; try assumption. apply Ed. rewrite Hd3. exact Hd. }
  unfold check_bounds.
  destruct (Qgt_bool (y (Nat.iter n pickup p2)) GB_HEIGHT);
    [destruct (negb (dying (Nat.iter n pickup p2)))|];
    apply Hfin; try reflexivity; try (intros E; exact E).
Qed.

End DeltaPlayer.

(** ** C2: landing on a platform *)

(** With two overlapping platforms the player comes to rest on the first
    of the collection, not on the last: after the first landing [vel_y] is
    0 and the remaining platforms do nothing. *)
Lemma C2_counterexample_last_overlap :
  let p := Ex.sml_falling in
  let p1 := SML.Player.move_to_gravity p 0 Ex.stacked in
  SML.Player.active p = true /\
  SML.Player.vel_y p1 > 0 /\
  last_overlap p1 Ex.stacked = Some Ex.lower /\
  exists p',
    SML.Player.move Ex.no_coins p 0 Ex.stacked [] [] = Some (p', [], []) /\
    ~ SML.Player.y p' == Platform.y Ex.lower - SML.Player.height p /\
    SML.Player.y p' == Platform.y Ex.upper - SML.Player.height p.
Proof.
  cbv zeta. split; [reflexivity | split; [reflexivity | split; [reflexivity|]]].
  eexists. split; [vm_compute; reflexivity|].
  split; [intros H; discriminate H | reflexivity].
Qed.

(** In the extended variant the tick can end with the death hop instead
    of [vel_y = 0]: the player lands and the enemy it touches takes its
    last life. *)
Example delta_landing_death_hop :
  exists p',
    Delta.Player.move Ex.no_coins Ex.delta_last_life 0 [Ex.upper] [Ex.walker] []
      = Some (p', [Ex.walker], []) /\
    Delta.Player.y p' == 92 /\ Delta.Player.vel_y p' == - (9 # 4) /\
    Delta.Player.dying p' = true.
Proof.
  eexists. split; [vm_compute; reflexivity|].
  split; [reflexivity | split; reflexivity].
Qed.

(** C2 (amended).  For an active player (not dying, in the extended
    variant) that is falling after gravity and overlaps a platform during
    vertical resolution, [Player.move] returns, and the tick ends with [y]
    exactly [platform.y - player.height] for the first overlapping platform
    in collection order and with the jumping flag cleared, whatever the
    entry velocity.  [vel_y] is 0 at the end of the tick in the base
    variant; in the extended variant it is 0 unless an enemy contact of the
    same tick took the last life, and then it is the death hop. *)
Theorem C2_landing_first_overlap :
  (forall (store : CoinStore) (p : SML.Player.t) (dx : Q)
          (platforms : list Platform.t) (enemies : list Enemy.t)
          (coins : list CoinRef) (q0 : Platform.t),
      SML.Player.active p = true ->
      SML.Player.vel_y (SML.Player.move_to_gravity p dx platforms) > 0 ->
      In q0 platforms ->
      collision (SML.Player.move_to_gravity p dx platforms) q0 = true ->
      exists q p' es cs,
        first_overlap (SML.Player.move_to_gravity p dx platforms) platforms = Some q /\
        SML.Player.move store p dx platforms enemies coins = Some (p', es, cs) /\
        SML.Player.y p' = Platform.y q - SML.Player.height p /\
        SML.Player.vel_y p' = 0 /\
        SML.Player.jumping p' = false) /\
  (forall (store : CoinStore) (p : Delta.Player.t) (dx : Q)
          (platforms : list Platform.t) (enemies : list Enemy.t)
          (coins : list CoinRef) (q0 : Platform.t),
      Delta.Player.active p = true -> Delta.Player.dying p = false ->
      Delta.Player.vel_y (Delta.Player.move_to_gravity p dx platforms) > 0 ->
      In q0 platforms ->
      collision (Delta.Player.move_to_gravity p dx platforms) q0 = true ->
      exists q p' es cs,
        first_overlap (Delta.Player.move_to_gravity p dx platforms) platforms = Some q /\
        Delta.Player.move store p dx platforms enemies coins = Some (p', es, cs) /\
        Delta.Player.y p' = Platform.y q - Delta.Player.height p /\
        Delta.Player.jumping p' = false /\
        (Delta.Player.vel_y p' = 0 \/
         (Delta.Player.dying p' = true /\ (Delta.Player.lives p' <= 0)%Z /\
          Delta.Player.vel_y p' = - JUMP_STRENGTH * (5 # 10)))).
Proof.
  split.
  - intros. eapply sml_landing; eassumption.
  - intros. eapply delta_landing; eassumption.
Qed.

Lemma C2_landing_first_overlap_witness :
  (exists q p' es cs,
      first_overlap (SML.Player.move_to_gravity Ex.sml_falling 0 Ex.stacked)
                    Ex.stacked = Some q /\
      SML.Player.move Ex.no_coins Ex.sml_falling 0 Ex.stacked [] [] = Some (p', es, cs) /\
      SML.Player.y p' = Platform.y q - SML.Player.height Ex.sml_falling /\
      SML.Player.vel_y p' = 0 /\
      SML.Player.jumping p' = false) /\
  (exists q p' es cs,
      first_overlap (Delta.Player.move_to_gravity Ex.delta_last_life 0 Ex.stacked)
                    Ex.stacked = Some q /\
      Delta.Player.move Ex.no_coins Ex.delta_last_life 0 Ex.stacked [Ex.walker] []
        = Some (p', es, cs) /\
      Delta.Player.y p' = Platform.y q - Delta.Player.height Ex.delta_last_life /\
      Delta.Player.jumping p' = false /\
      (Delta.Player.vel_y p' = 0 \/
       (Delta.Player.dying p' = true /\ (Delta.Player.lives p' <= 0)%Z /\
        Delta.Player.vel_y p' = - JUMP_STRENGTH * (5 # 10)))).
Proof.
  split.
  - apply (proj1 C2_landing_first_overlap Ex.no_coins Ex.sml_falling 0
             Ex.stacked [] [] Ex.lower).
    + reflexivity.
    + reflexivity.
    + right. left. reflexivity.
    + reflexivity.
  - apply (proj2 C2_landing_first_overlap Ex.no_coins Ex.delta_last_life 0
             Ex.stacked [Ex.walker] [] Ex.lower).
    + reflexivity.
    + reflexivity.
    + reflexivity.
    + right. left. reflexivity.
    + reflexivity.
Defined.

(** ** The enemy loop *)

Section SMLContact.
Import SML SML.Player.

Lemma sml_enemy_loop_app (before after : list Enemy.t) (e : Enemy.t) (p : t) :
  enemy_loop p (before ++ e :: after) =
  let pe := enemy_contact (fst (enemy_loop p before)) e in
  (fst (enemy_loop (fst pe) after),
   snd (enemy_loop p before) ++ snd pe :: snd (enemy_loop (fst pe) after)).
Proof.
  revert p. induction before as [|b before IH]; intros p; cbn [app enemy_loop fst snd].
  - cbv zeta. destruct (enemy_contact p e) as [p1 e1]. cbn [fst snd].
    destruct (enemy_loop p1 after) as [p2 after']. reflexivity.
  - destruct (enemy_contact p b) as [p1 b1]. rewrite IH. cbv zeta.
    destruct (enemy_loop p1 before) as [p2 before']. cbn [fst snd].
    reflexivity.
Qed.

Lemma sml_enemy_contact_stomp (p : t) (e : Enemy.t) :
  Enemy.active e = true -> collision p e = true ->
  vel_y p > 0 -> y p < Enemy.y e ->
  enemy_contact p e = (stomp p, Enemy.set_active e false).
Proof.
  intros Ha Hc Hv Hy. unfold enemy_contact. rewrite Ha, Hc. cbn [andb].
  apply Qgt_bool_iff in Hv. apply Qlt_bool_iff in Hy. rewrite Hv, Hy.
  reflexivity.
Qed.

Lemma sml_enemy_contact_damage (p : t) (e : Enemy.t) :
  Enemy.active e = true -> collision p e = true ->
  ~ (vel_y p > 0 /\ y p < Enemy.y e) -> (invincible p <= 0)%Z ->
  enemy_contact p e = (take_damage p, e).
Proof.
  intros Ha Hc Hno Hi. unfold enemy_contact. rewrite Ha, Hc. cbn [andb].
  destruct (Qgt_bool (vel_y p) 0 && Qlt_bool (y p) (Enemy.y e)) eqn:E.
  - exfalso. apply Hno. apply andb_true_iff in E.
    rewrite Qgt_bool_iff, Qlt_bool_iff in E. exact E.
  - apply Z.leb_le in Hi. rewrite Hi. reflexivity.
Qed.

Lemma sml_take_damage_spec (p : t) :
  invincible (take_damage p) = 60%Z /\ lives (take_damage p) = (lives p - 1)%Z.
Proof.
  unfold take_damage. cbn. destruct (lives p - 1 <=? 0)%Z; split; reflexivity.
Qed.

End SMLContact.


Section DeltaContact.
Import Delta Delta.Player.

Lemma delta_enemy_loop_app (before after : list Enemy.t) (e : Enemy.t) (p : t) :
  enemy_loop p (before ++ e :: after) =
  let pe := enemy_contact (fst (enemy_loop p before)) e in
  (fst (enemy_loop (fst pe) after),
   snd (enemy_loop p before) ++ snd pe :: snd (enemy_loop (fst pe) after)).
Proof.
  revert p. induction before as [|b before IH]; intros p; cbn [app enemy_loop fst snd].
  - cbv zeta. destruct (enemy_contact p e) as [p1 e1]. cbn [fst snd].
    destruct (enemy_loop p1 after) as [p2 after']. reflexivity.
  - destruct (enemy_contact p b) as [p1 b1]. rewrite IH. cbv zeta.
    destruct (enemy_loop p1 before) as [p2 before']. cbn [fst snd].
    reflexivity.
Qed.

Lemma delta_enemy_contact_stomp (p : t) (e : Enemy.t) :
  Enemy.active e = true -> collision p e = true ->
  vel_y p > 0 -> y p < Enemy.y e ->
  enemy_contact p e = (stomp p, Enemy.set_active e false).
Proof.
  intros Ha Hc Hv Hy. unfold enemy_contact. rewrite Ha, Hc. cbn [andb].
  apply Qgt_bool_iff in Hv. apply Qlt_bool_iff in Hy. rewrite Hv, Hy.
  reflexivity.
Qed.

Lemma delta_enemy_contact_damage (p : t) (e : Enemy.t) :
  Enemy.active e = true -> collision p e = true ->
  ~ (vel_y p > 0 /\ y p < Enemy.y e) -> (invincible p <= 0)%Z ->
  enemy_contact p e = (take_damage p, e).
Proof.
  intros Ha Hc Hno Hi. unfold enemy_contact. rewrite Ha, Hc. cbn [andb].
  destruct (Qgt_bool (vel_y p) 0 && Qlt_bool (y p) (Enemy.y e)) eqn:E.
  - exfalso. apply Hno. apply andb_true_iff in E.
    rewrite Qgt_bool_iff, Qlt_bool_iff in E. exact E.
  - apply Z.leb_le in Hi. rewrite Hi. reflexivity.
Qed.

Lemma delta_take_damage_spec (p : t) :
  invincible (take_damage p) = 60%Z /\ lives (take_damage p) = (lives p - 1)%Z.
Proof.
  unfold take_damage. cbn. destruct (lives p - 1 <=? 0)%Z; split; reflexivity.
Qed.

End DeltaContact.

(** ** C3: enemy contact *)

(** C3.  When the enemy loop reaches an active enemy that overlaps the
    player: if the player is falling and its top is above the enemy's top,
    that enemy is deactivated, the player's [vel_y] becomes
    [-JUMP_STRENGTH*0.6], its coin count goes up by one and its lives are
    unchanged; any other such overlap while [invincible <= 0] sets
    [invincible] to 60 and takes exactly one life.  [before] and [after]
    are the enemies met before and after [e] in the same loop. *)
Theorem C3_enemy_contact :
  (forall (p : SML.Player.t) (before after : list Enemy.t) (e : Enemy.t),
      let p1 := fst (SML.Player.enemy_loop p before) in
      let p2 := fst (SML.Player.enemy_contact p1 e) in
      let e2 := snd (SML.Player.enemy_contact p1 e) in
      SML.Player.enemy_loop p (before ++ e :: after) =
        (fst (SML.Player.enemy_loop p2 after),
         snd (SML.Player.enemy_loop p before) ++ e2 ::
         snd (SML.Player.enemy_loop p2 after)) /\
      (Enemy.active e = true -> collision p1 e = true ->
       (SML.Player.vel_y p1 > 0 -> SML.Player.y p1 < Enemy.y e ->
        e2 = Enemy.set_active e false /\ Enemy.active e2 = false /\
        SML.Player.vel_y p2 = - JUMP_STRENGTH * (6 # 10) /\
        SML.Player.coins p2 = (SML.Player.coins p1 + 1)%Z /\
        SML.Player.lives p2 = SML.Player.lives p1) /\
       (~ (SML.Player.vel_y p1 > 0 /\ SML.Player.y p1 < Enemy.y e) ->
        (SML.Player.invincible p1 <= 0)%Z ->
        SML.Player.invincible p2 = 60%Z /\
        SML.Player.lives p2 = (SML.Player.lives p1 - 1)%Z))) /\
  (forall (p : Delta.Player.t) (before after : list Enemy.t) (e : Enemy.t),
      let p1 := fst (Delta.Player.enemy_loop p before) in
      let p2 := fst (Delta.Player.enemy_contact p1 e) in
      let e2 := snd (Delta.Player.enemy_contact p1 e) in
      Delta.Player.enemy_loop p (before ++ e :: after) =
        (fst (Delta.Player.enemy_loop p2 after),
         snd (Delta.Player.enemy_loop p before) ++ e2 ::
         snd (Delta.Player.enemy_loop p2 after)) /\
      (Enemy.active e = true -> collision p1 e = true ->
       (Delta.Player.vel_y p1 > 0 -> Delta.Player.y p1 < Enemy.y e ->
        e2 = Enemy.set_active e false /\ Enemy.active e2 = false /\
        Delta.Player.vel_y p2 = - JUMP_STRENGTH * (6 # 10) /\
        Delta.Player.coins p2 = (Delta.Player.coins p1 + 1)%Z /\
        Delta.Player.lives p2 = Delta.Player.lives p1) /\
       (~ (Delta.Player.vel_y p1 > 0 /\ Delta.Player.y p1 < Enemy.y e) ->
        (Delta.Player.invincible p1 <= 0)%Z ->
        Delta.Player.invincible p2 = 60%Z /\
        Delta.Player.lives p2 = (Delta.Player.lives p1 - 1)%Z))).
Proof.
  split; intros p before after e p1 p2 e2.
  - split; [apply sml_enemy_loop_app|].
    intros Ha Hc. split.
    + intros Hv Hy. subst p2 e2.
      rewrite (sml_enemy_contact_stomp p1 e Ha Hc Hv Hy). cbn.
      repeat split; reflexivity.
    + intros Hno Hi. subst p2.
      rewrite (sml_enemy_contact_damage p1 e Ha Hc Hno Hi). cbn [fst].
      apply sml_take_damage_spec.
  - split; [apply delta_enemy_loop_app|].
    intros Ha Hc. split.
    + intros Hv Hy. subst p2 e2.
      rewrite (delta_enemy_contact_stomp p1 e Ha Hc Hv Hy). cbn.
      repeat split; reflexivity.
    + intros Hno Hi. subst p2.
      rewrite (delta_enemy_contact_damage p1 e Ha Hc Hno Hi). cbn [fst].
      apply delta_take_damage_spec.
Qed.

Lemma C3_enemy_contact_witness :
  (SML.Player.vel_y (fst (SML.Player.enemy_contact Ex.sml_stomping Ex.walker))
     = - JUMP_STRENGTH * (6 # 10) /\
   SML.Player.lives (fst (SML.Player.enemy_contact Ex.sml_stomping Ex.walker)) = 3%Z) /\
  (SML.Player.invincible (fst (SML.Player.enemy_contact Ex.sml_touching Ex.walker)) = 60%Z /\
   SML.Player.lives (fst (SML.Player.enemy_contact Ex.sml_touching Ex.walker)) = 2%Z) /\
  (Enemy.active (snd (Delta.Player.enemy_contact Ex.delta_stomping Ex.walker)) = false /\
   Delta.Player.coins (fst (Delta.Player.enemy_contact Ex.delta_stomping Ex.walker)) = 1%Z) /\
  (Delta.Player.invincible (fst (Delta.Player.enemy_contact Ex.delta_touching Ex.walker)) = 60%Z /\
   Delta.Player.lives (fst (Delta.Player.enemy_contact Ex.delta_touching Ex.walker)) = 2%Z).
Proof.
  assert (Hno : forall v w : Q, ~ (0 > 0 /\ v < w))
    by (intros v w [H _]; discriminate H).
  assert (Hle : (0 <= 0)%Z) by lia.
  split; [|split; [|split]].
  - destruct (proj1 C3_enemy_contact Ex.sml_stomping [] [] Ex.walker) as [_ H].
    destruct (H eq_refl eq_refl) as [Hs _].
    destruct (Hs eq_refl eq_refl) as (_ & _ & Hv & _ & Hl).
    split; [exact Hv | exact Hl].
  - destruct (proj1 C3_enemy_contact Ex.sml_touching [] [] Ex.walker) as [_ H].
    destruct (H eq_refl eq_refl) as [_ Hd].
    exact (Hd (Hno _ _) Hle).
  - destruct (proj2 C3_enemy_contact Ex.delta_stomping [] [] Ex.walker) as [_ H].
    destruct (H eq_refl eq_refl) as [Hs _].
    destruct (Hs eq_refl eq_refl) as (_ & Ha & _ & Hc & _).
    split; [exact Ha | exact Hc].
  - destruct (proj2 C3_enemy_contact Ex.delta_touching [] [] Ex.walker) as [_ H].
    destruct (H eq_refl eq_refl) as [_ Hd].
    exact (Hd (Hno _ _) Hle).
Defined.

(** ** The coin loop inside [Player.move] *)

Section SMLCoins.
Import SML SML.Player.

Lemma sml_check_bounds_place (p : t) :
  same_place p (check_bounds p) /\ coins (check_bounds p) = coins p.
Proof.
  unfold check_bounds, same_place.
  destruct (Qgt_bool (y p) GB_HEIGHT); cbn; repeat split; reflexivity.
Qed.

(** An active player's pass removes from the collection exactly the entries
    that overlap the player as the tick leaves it, and counts each once. *)
Lemma sml_move_collects (store : CoinStore) (p : t) (dx : Q)
    (platforms : list Platform.t) (enemies : list Enemy.t) (coins : list CoinRef) :
  active p = true ->
  exists p' es,
    move store p dx platforms enemies coins =
      Some (p', es, filter (fun r => negb (collision p' (store r))) coins) /\
    Player.coins p' =
      (Player.coins (fst (move_to_enemies p dx platforms enemies)) +
       Z.of_nat (length (filter (fun r => collision p' (store r)) coins)))%Z.
Proof.
  intros Hact. rewrite (sml_move_active _ _ _ _ _ _ Hact). cbv zeta.
  set (pe := fst (move_to_enemies p dx platforms enemies)).
  set (n := length (filter (fun r => collision pe (store r)) coins)).
  destruct (sml_pickups_place n pe) as (Hpl & _ & _ & _ & _ & Hco).
  destruct (sml_check_bounds_place (Nat.iter n pickup pe)) as (Hpl' & Hco').
  assert (Hsame : forall r, collision (check_bounds (Nat.iter n pickup pe)) (store r)
                            = collision pe (store r)).
  { intros r. unfold same_place in Hpl, Hpl'.
    apply sml_collision_same_rect; intuition congruence. }
  exists (check_bounds (Nat.iter n pickup pe)).
  exists (snd (move_to_enemies p dx platforms enemies)).
  rewrite (filter_ext _ _ Hsame).
  rewrite (filter_ext (fun r => negb (collision (check_bounds (Nat.iter n pickup pe))
                                         (store r)))
                      (fun r => negb (collision pe (store r))))
    by (intros r; rewrite Hsame; reflexivity).
  split; [reflexivity|].
  rewrite Hco', Hco. reflexivity.
Qed.

Lemma sml_coin_loop_incl (store : CoinStore) (p : t) (coins : list CoinRef) :
  exists p' coins', coin_loop store coins p coins = Some (p', coins') /\
                    incl coins' coins.
Proof.
  rewrite sml_coin_loop_closed. eexists. eexists. split; [reflexivity|].
  apply incl_filter.
Qed.

(** Every pass returns, and the collection it leaves holds entries of the
    collection it was given only. *)
Lemma sml_move_incl (store : CoinStore) (p : t) (dx : Q)
    (platforms : list Platform.t) (enemies : list Enemy.t) (coins : list CoinRef) :
  exists p' es coins',
    move store p dx platforms enemies coins = Some (p', es, coins') /\
    incl coins' coins.
Proof.
  unfold move. destruct (negb (active p)).
  - eexists. eexists. eexists. split; [reflexivity | apply incl_refl].
  - destruct (move_to_enemies p dx platforms enemies) as [pe es].
    rewrite sml_coin_loop_closed.
    eexists. eexists. eexists. split; [reflexivity | apply incl_filter].
Qed.

Lemma sml_passes_incl (store : CoinStore) (cs cs' : list CoinRef) :
  passes store cs cs' -> incl cs' cs.
Proof.
  induction 1 as [cs | cs cs1 cs2 p p' dx platforms enemies es Hmove _ IH].
  - apply incl_refl.
  - destruct (sml_move_incl store p dx platforms enemies cs)
      as (p1 & es1 & cs1' & Hm & Hincl).
    rewrite Hmove in Hm. injection Hm as _ _ <-.
    intros r Hr. apply Hincl, IH, Hr.
Qed.

Lemma sml_coin_loop_counts (store : CoinStore) (q : t) (coins : list CoinRef) :
  exists q',
    coin_loop store coins q coins =
      Some (q', filter (fun r => negb (collision q (store r))) coins) /\
    Player.coins q' =
      (Player.coins q +
       Z.of_nat (length (filter (fun r => collision q (store r)) coins)))%Z.
Proof.
  rewrite sml_coin_loop_closed. eexists. split; [reflexivity|].
  apply sml_pickups_place.
Qed.

(** A coin removed by a pass is in no collection that a later pass scans. *)
Lemma sml_removed_for_good (store : CoinStore) (p p' : t) (dx : Q)
    (platforms : list Platform.t) (enemies es : list Enemy.t)
    (coins coins' later : list CoinRef) (r : CoinRef) :
  active p = true ->
  move store p dx platforms enemies coins = Some (p', es, coins') ->
  collision p' (store r) = true ->
  passes store coins' later ->
  ~ In r coins' /\ ~ In r later.
Proof.
  intros Hact Hmove Hhit Hlater.
  destruct (sml_move_collects store p dx platforms enemies coins Hact)
    as (p1 & es1 & Hm & _).
  rewrite Hmove in Hm. injection Hm as <- _ ->.
  assert (Hnot : ~ In r (filter (fun r => negb (collision p' (store r))) coins)).
  { intros Hin. apply filter_In in Hin. destruct Hin as [_ Hk].
    rewrite Hhit in Hk. discriminate Hk. }
  split; [exact Hnot|].
  intros Hin. apply Hnot. exact (sml_passes_incl _ _ _ Hlater r Hin).
Qed.

End SMLCoins.


Section DeltaCoins.
Import Delta Delta.Player.

Lemma delta_check_bounds_place (p : t) :
  same_place p (check_bounds p) /\ coins (check_bounds p) = coins p.
Proof.
  unfold check_bounds, same_place.
  destruct (Qgt_bool (y p) GB_HEIGHT); [destruct (negb (dying p))|];
    cbn; repeat split; reflexivity.
Qed.

(** An active player's pass removes from the collection exactly the entries
    that overlap the player as the tick leaves it, and counts each once. *)
Lemma delta_move_collects (store : CoinStore) (p : t) (dx : Q)
    (platforms : list Platform.t) (enemies : list Enemy.t) (coins : list CoinRef) :
  active p = true -> dying p = false ->
  exists p' es,
    move store p dx platforms enemies coins =
      Some (p', es, filter (fun r => negb (collision p' (store r))) coins) /\
    Player.coins p' =
      (Player.coins (fst (move_to_enemies p dx platforms enemies)) +
       Z.of_nat (length (filter (fun r => collision p' (store r)) coins)))%Z.
Proof.
  intros Hact Hdy. rewrite (delta_move_active _ _ _ _ _ _ Hact Hdy). cbv zeta.
  set (pe := fst (move_to_enemies p dx platforms enemies)).
  set (n := length (filter (fun r => collision pe (store r)) coins)).
  destruct (delta_pickups_place n pe) as (Hpl & _ & _ & _ & _ & _ & Hco).
  destruct (delta_check_bounds_place (Nat.iter n pickup pe)) as (Hpl' & Hco').
  assert (Hsame : forall r, collision (check_bounds (Nat.iter n pickup pe)) (store r)
                            = collision pe (store r)).
  { intros r. unfold same_place in Hpl, Hpl'.
    apply delta_collision_same_rect; intuition congruence. }
  exists (check_bounds (Nat.iter n pickup pe)).
  exists (snd (move_to_enemies p dx platforms enemies)).
  rewrite (filter_ext _ _ Hsame).
  rewrite (filter_ext (fun r => negb (collision (check_bounds (Nat.iter n pickup pe))
                                         (store r)))
                      (fun r => negb (collision pe (store r))))
    by (intros r; rewrite Hsame; reflexivity).
  split; [reflexivity|].
  rewrite Hco', Hco. reflexivity.
Qed.

Lemma delta_coin_loop_incl (store : CoinStore) (p : t) (coins : list CoinRef) :
  exists p' coins', coin_loop store coins p coins = Some (p', coins') /\
                    incl coins' coins.
Proof.
  rewrite delta_coin_loop_closed. eexists. eexists. split; [reflexivity|].
  apply incl_filter.
Qed.

(** Every pass returns, and the collection it leaves holds entries of the
    collection it was given only. *)
Lemma delta_move_incl (store : CoinStore) (p : t) (dx : Q)
    (platforms : list Platform.t) (enemies : list Enemy.t) (coins : list CoinRef) :
  exists p' es coins',
    move store p dx platforms enemies coins = Some (p', es, coins') /\
    incl coins' coins.
Proof.
  unfold move. destruct (negb (active p)).
  - eexists. eexists. eexists. split; [reflexivity | apply incl_refl].
  - destruct (dying p).
    { eexists. eexists. eexists. split; [reflexivity | apply incl_refl]. }
    destruct (move_to_enemies p dx platforms enemies) as [pe es].
    rewrite delta_coin_loop_closed.
    eexists. eexists. eexists. split; [reflexivity | apply incl_filter].
Qed.

Lemma delta_passes_incl (store : CoinStore) (cs cs' : list CoinRef) :
  passes store cs cs' -> incl cs' cs.
Proof.
  induction 1 as [cs | cs cs1 cs2 p p' dx platforms enemies es Hmove _ IH].
  - apply incl_refl.
  - destruct (delta_move_incl store p dx platforms enemies cs)
      as (p1 & es1 & cs1' & Hm & Hincl).
    rewrite Hmove in Hm. injection Hm as _ _ <-.
    intros r Hr. apply Hincl, IH, Hr.
Qed.

Lemma delta_coin_loop_counts (store : CoinStore) (q : t) (coins : list CoinRef) :
  exists q',
    coin_loop store coins q coins =
      Some (q', filter (fun r => negb (collision q (store r))) coins) /\
    Player.coins q' =
      (Player.coins q +
       Z.of_nat (length (filter (fun r => collision q (store r)) coins)))%Z.
Proof.
  rewrite delta_coin_loop_closed. eexists. split; [reflexivity|].
  apply delta_pickups_place.
Qed.

(** A coin removed by a pass is in no collection that a later pass scans. *)
Lemma delta_removed_for_good (store : CoinStore) (p p' : t) (dx : Q)
    (platforms : list Platform.t) (enemies es : list Enemy.t)
    (coins coins' later : list CoinRef) (r : CoinRef) :
  active p = true -> dying p = false ->
  move store p dx platforms enemies coins = Some (p', es, coins') ->
  collision p' (store r) = true ->
  passes store coins' later ->
  ~ In r coins' /\ ~ In r later.
Proof.
  intros Hact Hdy Hmove Hhit Hlater.
  destruct (delta_move_collects store p dx platforms enemies coins Hact Hdy)
    as (p1 & es1 & Hm & _).
  rewrite Hmove in Hm. injection Hm as <- _ ->.
  assert (Hnot : ~ In r (filter (fun r => negb (collision p' (store r))) coins)).
  { intros Hin. apply filter_In in Hin. destruct Hin as [_ Hk].
    rewrite Hhit in Hk. discriminate Hk. }
  split; [exact Hnot|].
  intros Hin. apply Hnot. exact (delta_passes_incl _ _ _ Hlater r Hin).
Qed.

End DeltaCoins.

(** ** C4: coin pickup *)

(** C4.  The coin scan of one update pass never raises and removes from the
    collection exactly the entries whose coin overlaps the player, each
    once, adding one to the coin count for each: the collection left is the
    old one without the overlapping entries, in the same order, and the
    count grows by their number, so no entry is skipped or handled twice.
    For an active player (not dying, in the extended variant) this is what
    [Player.move] does, the overlap being tested on the player as the
    tick leaves it.  A coin removed by a pass is in no collection that a
    later pass is given, so it cannot be picked up again. *)
Theorem C4_coin_pickup :
  ((forall (store : CoinStore) (q : SML.Player.t) (coins : list CoinRef),
      exists q',
        SML.Player.coin_loop store coins q coins =
          Some (q', filter (fun r => negb (collision q (store r))) coins) /\
        SML.Player.coins q' =
          (SML.Player.coins q +
           Z.of_nat (length (filter (fun r => collision q (store r)) coins)))%Z) /\
   (forall (store : CoinStore) (p : SML.Player.t) (dx : Q)
           (platforms : list Platform.t) (enemies : list Enemy.t)
           (coins : list CoinRef),
      SML.Player.active p = true ->
      exists p' es,
        SML.Player.move store p dx platforms enemies coins =
          Some (p', es, filter (fun r => negb (collision p' (store r))) coins) /\
        SML.Player.coins p' =
          (SML.Player.coins (fst (SML.Player.move_to_enemies p dx platforms enemies)) +
           Z.of_nat (length (filter (fun r => collision p' (store r)) coins)))%Z /\
        forall (r : CoinRef) (later : list CoinRef),
          collision p' (store r) = true ->
          SML.Player.passes store
            (filter (fun r => negb (collision p' (store r))) coins) later ->
          ~ In r (filter (fun r => negb (collision p' (store r))) coins) /\
          ~ In r later)) /\
  ((forall (store : CoinStore) (q : Delta.Player.t) (coins : list CoinRef),
      exists q',
        Delta.Player.coin_loop store coins q coins =
          Some (q', filter (fun r => negb (collision q (store r))) coins) /\
        Delta.Player.coins q' =
          (Delta.Player.coins q +
           Z.of_nat (length (filter (fun r => collision q (store r)) coins)))%Z) /\
   (forall (store : CoinStore) (p : Delta.Player.t) (dx : Q)
           (platforms : list Platform.t) (enemies : list Enemy.t)
           (coins : list CoinRef),
      Delta.Player.active p = true -> Delta.Player.dying p = false ->
      exists p' es,
        Delta.Player.move store p dx platforms enemies coins =
          Some (p', es, filter (fun r => negb (collision p' (store r))) coins) /\
        Delta.Player.coins p' =
          (Delta.Player.coins (fst (Delta.Player.move_to_enemies p dx platforms enemies)) +
           Z.of_nat (length (filter (fun r => collision p' (store r)) coins)))%Z /\
        forall (r : CoinRef) (later : list CoinRef),
          collision p' (store r) = true ->
          Delta.Player.passes store
            (filter (fun r => negb (collision p' (store r))) coins) later ->
          ~ In r (filter (fun r => negb (collision p' (store r))) coins) /\
          ~ In r later)).
Proof.
  split; split.
  - apply sml_coin_loop_counts.
  - intros store p dx platforms enemies coins Hact.
    destruct (sml_move_collects store p dx platforms enemies coins Hact)
      as (p' & es & Hm & Hc).
    exists p', es. split; [exact Hm | split; [exact Hc|]].
    intros r later Hhit Hlater.
    exact (sml_removed_for_good _ _ _ _ _ _ _ _ _ _ _ Hact Hm Hhit Hlater).
  - apply delta_coin_loop_counts.
  - intros store p dx platforms enemies coins Hact Hdy.
    destruct (delta_move_collects store p dx platforms enemies coins Hact Hdy)
      as (p' & es & Hm & Hc).
    exists p', es. split; [exact Hm | split; [exact Hc|]].
    intros r later Hhit Hlater.
    exact (delta_removed_for_good _ _ _ _ _ _ _ _ _ _ _ Hact Hdy Hm Hhit Hlater).
Qed.

Lemma C4_coin_pickup_witness :
  (exists p' es,
     SML.Player.move (SML.Level.store Ex.sml_level1) Ex.sml_at_coin 0
         (SML.Level.platforms Ex.sml_level1) (SML.Level.enemies Ex.sml_level1)
         (SML.Level.coins Ex.sml_level1) =
       Some (p', es,
             filter (fun r => negb (collision p' (SML.Level.store Ex.sml_level1 r)))
                    (SML.Level.coins Ex.sml_level1)) /\
     SML.Player.coins p' =
       (SML.Player.coins
          (fst (SML.Player.move_to_enemies Ex.sml_at_coin 0
                  (SML.Level.platforms Ex.sml_level1)
                  (SML.Level.enemies Ex.sml_level1))) +
        Z.of_nat (length (filter
                            (fun r => collision p' (SML.Level.store Ex.sml_level1 r))
                            (SML.Level.coins Ex.sml_level1))))%Z) /\
  (exists p' es,
     Delta.Player.move (Delta.Level.store Ex.delta_level1) Ex.delta_at_coin 0
         (Delta.Level.platforms Ex.delta_level1) (Delta.Level.enemies Ex.delta_level1)
         (Delta.Level.coins Ex.delta_level1) =
       Some (p', es,
             filter (fun r => negb (collision p' (Delta.Level.store Ex.delta_level1 r)))
                    (Delta.Level.coins Ex.delta_level1)) /\
     Delta.Player.coins p' =
       (Delta.Player.coins
          (fst (Delta.Player.move_to_enemies Ex.delta_at_coin 0
                  (Delta.Level.platforms Ex.delta_level1)
                  (Delta.Level.enemies Ex.delta_level1))) +
        Z.of_nat (length (filter
                            (fun r => collision p' (Delta.Level.store Ex.delta_level1 r))
                            (Delta.Level.coins Ex.delta_level1))))%Z).
Proof.
  split.
  - destruct (proj2 (proj1 C4_coin_pickup) (SML.Level.store Ex.sml_level1)
                Ex.sml_at_coin 0 (SML.Level.platforms Ex.sml_level1)
                (SML.Level.enemies Ex.sml_level1) (SML.Level.coins Ex.sml_level1)
                eq_refl) as (p' & es & Hm & Hc & _).
    exists p', es. split; [exact Hm | exact Hc].
  - destruct (proj2 (proj2 C4_coin_pickup) (Delta.Level.store Ex.delta_level1)
                Ex.delta_at_coin 0 (Delta.Level.platforms Ex.delta_level1)
                (Delta.Level.enemies Ex.delta_level1)
                (Delta.Level.coins Ex.delta_level1)
                eq_refl eq_refl) as (p' & es & Hm & Hc & _).
    exists p', es. split; [exact Hm | exact Hc].
Defined.

(** On level 1 of the base variant, a player standing in the first coin
    picks it up, and the other two coins stay. *)
Example sml_level1_pickup :
  option_map (fun '(p, _, cs) => (SML.Player.coins p, cs))
    (SML.Player.move (SML.Level.store Ex.sml_level1) Ex.sml_at_coin 0
       (SML.Level.platforms Ex.sml_level1) (SML.Level.enemies Ex.sml_level1)
       (SML.Level.coins Ex.sml_level1))
  = Some (1%Z, [1; 2]%nat).
Proof. vm_compute. reflexivity. Qed.

(** ** The camera *)

Lemma py_min_le_r (a b : Q) : py_min a b <= b.
Proof.
  unfold py_min. destruct (Qlt_bool b a) eqn:E.
  - apply Qle_refl.
  - apply Qlt_bool_false_iff in E. exact E.
Qed.

Lemma py_max_ge_l (a b : Q) : a <= py_max a b.
Proof.
  unfold py_max. destruct (Qgt_bool b a) eqn:E.
  - apply Qgt_bool_iff in E. apply Qlt_le_weak. exact E.
  - apply Qle_refl.
Qed.

Lemma py_max_le (a b c : Q) : a <= c -> b <= c -> py_max a b <= c.
Proof. intros Ha Hb. unfold py_max. destruct (Qgt_bool b a); assumption. Qed.

Lemma camera_clamped (player_x scroll_x : Q) (level_width : Z) :
  (GB_WIDTH <= level_width)%Z ->
  0 <= camera player_x scroll_x level_width /\
  camera player_x scroll_x level_width <= (level_width - GB_WIDTH)%Z.
Proof.
  intros Hw. unfold camera. split.
  - apply py_max_ge_l.
  - apply py_max_le.
    + change 0 with (inject_Z 0). rewrite <- Zle_Qle. lia.
    + apply py_min_le_r.
Qed.

Lemma sml_level_width (level_num : Z) :
  SML.Level.level_width (SML.Level.init level_num) = 640%Z.
Proof.
  unfold SML.Level.init.
  destruct (SML.Level.layout level_num) as [[raised enemies] coin_objects].
  reflexivity.
Qed.

Lemma delta_level_width (level_num : Z) (trig : Delta.Level.Layout) :
  Delta.Level.level_width (Delta.Level.init level_num trig) =
  (640 + level_num * 160)%Z.
Proof.
  unfold Delta.Level.init.
  destruct (Delta.Level.layout level_num trig) as [[raised enemies] coin_objects].
  reflexivity.
Qed.

(** The frame body, once [Player.move] has returned. *)
Lemma sml_frame_unfold (left right : bool) (g : SML.Game.t) (p p1 : SML.Player.t)
    (lv : SML.Level.t) (es : list Enemy.t) (cs : list CoinRef) :
  SML.Game.player g = Some p -> SML.Game.level g = Some lv ->
  SML.Player.move (SML.Level.store lv) p (dx_of_keys left right)
    (SML.Level.platforms lv) (SML.Level.enemies lv) (SML.Level.coins lv)
    = Some (p1, es, cs) ->
  SML.Game.playing_frame left right g =
  match SML.Game.check_victory
          (SML.Game.mk (SML.Game.state g) (SML.Game.current_level g) (Some p1)
             (Some (SML.Level.set_coins
                      (SML.Level.set_enemies lv
                         (map (fun enemy => Enemy.move enemy (SML.Level.platforms lv)) es))
                      cs))
             (camera (SML.Player.x p1) (SML.Game.scroll_x g) (SML.Level.level_width lv))
             (SML.Game.level_unlocked g))
          p1 (SML.Level.goal lv) with
  | None => None
  | Some g2 =>
      let g3 := SML.Game.check_game_over g2 p1 in
      Some (SML.Game.mk (SML.Game.state g3) (SML.Game.current_level g3)
              (Some (fst (SML.Player.draw p1))) (SML.Game.level g3)
              (SML.Game.scroll_x g3) (SML.Game.level_unlocked g3))
  end.
Proof.
  intros Hp Hl Hm. unfold SML.Game.playing_frame. rewrite Hp, Hl, Hm.
  reflexivity.
Qed.

Lemma delta_frame_unfold (left right : bool) (g : Delta.Game.t)
    (p p1 : Delta.Player.t) (lv : Delta.Level.t) (es : list Enemy.t)
    (cs : list CoinRef) :
  Delta.Game.player g = Some p -> Delta.Game.level g = Some lv ->
  Delta.Player.move (Delta.Level.store lv) p (dx_of_keys left right)
    (Delta.Level.platforms lv) (Delta.Level.enemies lv) (Delta.Level.coins lv)
    = Some (p1, es, cs) ->
  Delta.Game.playing_frame left right g =
  match Delta.Game.check_victory
          (Delta.Game.mk (Delta.Game.state g) (Delta.Game.current_level g) (Some p1)
             (Some (Delta.Level.set_coins
                      (Delta.Level.set_enemies lv
                         (map (fun enemy => Enemy.move enemy (Delta.Level.platforms lv)) es))
                      cs))
             (camera (Delta.Player.x p1) (Delta.Game.scroll_x g)
                     (Delta.Level.level_width lv))
             (Delta.Game.level_unlocked g))
          p1 (Delta.Level.goal lv) with
  | None => None
  | Some g2 =>
      let g3 := Delta.Game.check_game_over g2 p1 in
      Some (Delta.Game.mk (Delta.Game.state g3) (Delta.Game.current_level g3)
              (Some (fst (Delta.Player.draw p1))) (Delta.Game.level g3)
              (Delta.Game.scroll_x g3) (Delta.Game.level_unlocked g3))
  end.
Proof.
  intros Hp Hl Hm. unfold Delta.Game.playing_frame. rewrite Hp, Hl, Hm.
  reflexivity.
Qed.

(** ** The victory check *)

Lemma sml_check_victory_spec (g : SML.Game.t) (p : SML.Player.t) (goal : Goal.t) :
  length (SML.Game.level_unlocked g) = 3%nat ->
  (1 <= SML.Game.current_level g <= 3)%Z ->
  exists unlocked,
    SML.Game.check_victory g p goal =
      Some (SML.Game.mk (if collision p goal then victory else SML.Game.state g)
              (SML.Game.current_level g) (SML.Game.player g) (SML.Game.level g)
              (SML.Game.scroll_x g) unlocked) /\
    length unlocked = 3%nat /\
    (collision p goal = false -> unlocked = SML.Game.level_unlocked g) /\
    (collision p goal = true ->
     list_getitem unlocked (SML.Game.current_level g - 1) = Some true /\
     ((SML.Game.current_level g < 3)%Z ->
      list_getitem unlocked (SML.Game.current_level g) = Some true)).
Proof.
  destruct g as [st cl pl lv sx lu]. cbn [SML.Game.level_unlocked
    SML.Game.current_level SML.Game.state SML.Game.player SML.Game.level
    SML.Game.scroll_x].
  intros Hlen Hcl. unfold SML.Game.check_victory.
  destruct (collision p goal).
  - destruct lu as [|a [|b [|c [|d lu]]]]; try discriminate Hlen.
    assert (Hcases : cl = 1%Z \/ cl = 2%Z \/ cl = 3%Z) by lia.
    destruct Hcases as [-> | [-> | ->]]; cbn;
      (eexists; split; [reflexivity|]);
      (split; [reflexivity|]);
      (split; [intros H; discriminate H|]);
      intros _; (split; [reflexivity|]); intros H; try reflexivity; lia.
  - exists lu. split; [destruct st; reflexivity|].
    split; [exact Hlen|]. split; [reflexivity | intros H; discriminate H].
Qed.

Lemma delta_check_victory_spec (g : Delta.Game.t) (p : Delta.Player.t) (goal : Goal.t) :
  length (Delta.Game.level_unlocked g) = 5%nat ->
  (1 <= Delta.Game.current_level g <= 5)%Z ->
  exists unlocked,
    Delta.Game.check_victory g p goal =
      Some (Delta.Game.mk (if collision p goal then victory else Delta.Game.state g)
              (Delta.Game.current_level g) (Delta.Game.player g) (Delta.Game.level g)
              (Delta.Game.scroll_x g) unlocked) /\
    length unlocked = 5%nat /\
    (collision p goal = false -> unlocked = Delta.Game.level_unlocked g) /\
    (collision p goal = true ->
     list_getitem unlocked (Delta.Game.current_level g - 1) = Some true /\
     ((Delta.Game.current_level g < 5)%Z ->
      list_getitem unlocked (Delta.Game.current_level g) = Some true)).
Proof.
  destruct g as [st cl pl lv sx lu]. cbn [Delta.Game.level_unlocked
    Delta.Game.current_level Delta.Game.state Delta.Game.player Delta.Game.level
    Delta.Game.scroll_x].
  intros Hlen Hcl. unfold Delta.Game.check_victory.
  destruct (collision p goal).
  - destruct lu as [|a [|b [|c [|d [|e [|f lu]]]]]]; try discriminate Hlen.
    assert (Hcases : cl = 1%Z \/ cl = 2%Z \/ cl = 3%Z \/ cl = 4%Z \/ cl = 5%Z) by lia.
    destruct Hcases as [-> | [-> | [-> | [-> | ->]]]]; cbn;
      (eexists; split; [reflexivity|]);
      (split; [reflexivity|]);
      (split; [intros H; discriminate H|]);
      intros _; (split; [reflexivity|]); intros H; try reflexivity; lia.
  - exists lu. split; [destruct st; reflexivity|].
    split; [exact Hlen|]. split; [reflexivity | intros H; discriminate H].
Qed.

(** ** The playing frame *)

(** What one playing frame does to the game, in terms of the player [p1]
    that [Player.move] leaves. *)
Lemma sml_frame_spec (left right : bool) (g : SML.Game.t) (p : SML.Player.t)
    (lv : SML.Level.t) :
  SML.Game.player g = Some p -> SML.Game.level g = Some lv ->
  length (SML.Game.level_unlocked g) = 3%nat ->
  (1 <= SML.Game.current_level g <= 3)%Z ->
  exists p1 es cs g',
    SML.Player.move (SML.Level.store lv) p (dx_of_keys left right)
      (SML.Level.platforms lv) (SML.Level.enemies lv) (SML.Level.coins lv)
      = Some (p1, es, cs) /\
    SML.Game.playing_frame left right g = Some g' /\
    SML.Game.scroll_x g' =
      camera (SML.Player.x p1) (SML.Game.scroll_x g) (SML.Level.level_width lv) /\
    SML.Game.current_level g' = SML.Game.current_level g /\
    SML.Game.player g' = Some (fst (SML.Player.draw p1)) /\
    SML.Game.state g' =
      (if negb (SML.Player.active p1) then game_over
       else if collision p1 (SML.Level.goal lv) then victory
       else SML.Game.state g) /\
    length (SML.Game.level_unlocked g') = 3%nat /\
    (collision p1 (SML.Level.goal lv) = false ->
     SML.Game.level_unlocked g' = SML.Game.level_unlocked g) /\
    (collision p1 (SML.Level.goal lv) = true ->
     list_getitem (SML.Game.level_unlocked g') (SML.Game.current_level g - 1)
       = Some true /\
     ((SML.Game.current_level g < 3)%Z ->
      list_getitem (SML.Game.level_unlocked g') (SML.Game.current_level g)
        = Some true)).
Proof.
  intros Hp Hl Hlen Hcl.
  destruct (sml_move_incl (SML.Level.store lv) p (dx_of_keys left right)
              (SML.Level.platforms lv) (SML.Level.enemies lv) (SML.Level.coins lv))
    as (p1 & es & cs & Hm & _).
  exists p1, es, cs.
  rewrite (sml_frame_unfold left right g p p1 lv es cs Hp Hl Hm).
  match goal with
  | |- context [SML.Game.check_victory ?g1 p1 (SML.Level.goal lv)] =>
      destruct (sml_check_victory_spec g1 p1 (SML.Level.goal lv) Hlen Hcl)
        as (unlocked & Hv & Hlen' & Hmiss & Hhit); rewrite Hv
  end.
  cbv zeta. eexists. split; [exact Hm | split; [reflexivity|]].
  unfold SML.Game.check_game_over.
  destruct (negb (SML.Player.active p1)); cbn;
    repeat (split; [first [reflexivity | assumption]|]); assumption.
Qed.


(** What one playing frame does to the game, in terms of the player [p1]
    that [Player.move] leaves. *)
Lemma delta_frame_spec (left right : bool) (g : Delta.Game.t) (p : Delta.Player.t)
    (lv : Delta.Level.t) :
  Delta.Game.player g = Some p -> Delta.Game.level g = Some lv ->
  length (Delta.Game.level_unlocked g) = 5%nat ->
  (1 <= Delta.Game.current_level g <= 5)%Z ->
  exists p1 es cs g',
    Delta.Player.move (Delta.Level.store lv) p (dx_of_keys left right)
      (Delta.Level.platforms lv) (Delta.Level.enemies lv) (Delta.Level.coins lv)
      = Some (p1, es, cs) /\
    Delta.Game.playing_frame left right g = Some g' /\
    Delta.Game.scroll_x g' =
      camera (Delta.Player.x p1) (Delta.Game.scroll_x g) (Delta.Level.level_width lv) /\
    Delta.Game.current_level g' = Delta.Game.current_level g /\
    Delta.Game.player g' = Some (fst (Delta.Player.draw p1)) /\
    Delta.Game.state g' =
      (if negb (Delta.Player.active p1) && negb (Delta.Player.dying p1) then game_over
       else if collision p1 (Delta.Level.goal lv) then victory
       else Delta.Game.state g) /\
    length (Delta.Game.level_unlocked g') = 5%nat /\
    (collision p1 (Delta.Level.goal lv) = false ->
     Delta.Game.level_unlocked g' = Delta.Game.level_unlocked g) /\
    (collision p1 (Delta.Level.goal lv) = true ->
     list_getitem (Delta.Game.level_unlocked g') (Delta.Game.current_level g - 1)
       = Some true /\
     ((Delta.Game.current_level g < 5)%Z ->
      list_getitem (Delta.Game.level_unlocked g') (Delta.Game.current_level g)
        = Some true)).
Proof.
  intros Hp Hl Hlen Hcl.
  destruct (delta_move_incl (Delta.Level.store lv) p (dx_of_keys left right)
              (Delta.Level.platforms lv) (Delta.Level.enemies lv) (Delta.Level.coins lv))
    as (p1 & es & cs & Hm & _).
  exists p1, es, cs.
  rewrite (delta_frame_unfold left right g p p1 lv es cs Hp Hl Hm).
  match goal with
  | |- context [Delta.Game.check_victory ?g1 p1 (Delta.Level.goal lv)] =>
      destruct (delta_check_victory_spec g1 p1 (Delta.Level.goal lv) Hlen Hcl)
        as (unlocked & Hv & Hlen' & Hmiss & Hhit); rewrite Hv
  end.
  cbv zeta. eexists. split; [exact Hm | split; [reflexivity|]].
  unfold Delta.Game.check_game_over.
  destruct (negb (Delta.Player.active p1) && negb (Delta.Player.dying p1)); cbn;
    repeat (split; [first [reflexivity | assumption]|]); assumption.
Qed.

(** ** C5: the camera stays within the level *)

(** C5.  With the width of any level the game builds (640 in the base
    variant; 640 + 160 * n for the levels n = 1..5 of the extended
    variant), the camera lines leave [0 <= scroll_x <= level_width - 160]
    for every player position and every previous scroll offset; and every
    playing frame on a level at least as wide as the screen returns with
    its [scroll_x] in that range. *)
Theorem C5_camera_clamped :
  (forall (player_x scroll_x : Q) (level_num : Z),
      let w := SML.Level.level_width (SML.Level.init level_num) in
      0 <= camera player_x scroll_x w /\
      camera player_x scroll_x w <= (w - 160)%Z) /\
  (forall (player_x scroll_x : Q) (level_num : Z) (trig : Delta.Level.Layout),
      (1 <= level_num <= 5)%Z ->
      let w := Delta.Level.level_width (Delta.Level.init level_num trig) in
      0 <= camera player_x scroll_x w /\
      camera player_x scroll_x w <= (w - 160)%Z) /\
  (forall (left right : bool) (g : SML.Game.t) (p : SML.Player.t) (lv : SML.Level.t),
      SML.Game.player g = Some p -> SML.Game.level g = Some lv ->
      length (SML.Game.level_unlocked g) = 3%nat ->
      (1 <= SML.Game.current_level g <= 3)%Z ->
      (GB_WIDTH <= SML.Level.level_width lv)%Z ->
      exists g',
        SML.Game.playing_frame left right g = Some g' /\
        0 <= SML.Game.scroll_x g' /\
        SML.Game.scroll_x g' <= (SML.Level.level_width lv - GB_WIDTH)%Z) /\
  (forall (left right : bool) (g : Delta.Game.t) (p : Delta.Player.t) (lv : Delta.Level.t),
      Delta.Game.player g = Some p -> Delta.Game.level g = Some lv ->
      length (Delta.Game.level_unlocked g) = 5%nat ->
      (1 <= Delta.Game.current_level g <= 5)%Z ->
      (GB_WIDTH <= Delta.Level.level_width lv)%Z ->
      exists g',
        Delta.Game.playing_frame left right g = Some g' /\
        0 <= Delta.Game.scroll_x g' /\
        Delta.Game.scroll_x g' <= (Delta.Level.level_width lv - GB_WIDTH)%Z).
Proof.
  split; [|split; [|split]].
  - intros px s n w. subst w. rewrite sml_level_width.
    apply camera_clamped. unfold GB_WIDTH. lia.
  - intros px s n trig Hn w. subst w. rewrite delta_level_width.
    apply camera_clamped. unfold GB_WIDTH. lia.
  - intros left right g p lv Hp Hl Hlen Hcl Hw.
    destruct (sml_frame_spec left right g p lv Hp Hl Hlen Hcl)
      as (p1 & es & cs & g' & _ & Hf & Hs & _).
    exists g'. split; [exact Hf|]. rewrite Hs. apply camera_clamped. exact Hw.
  - intros left right g p lv Hp Hl Hlen Hcl Hw.
    destruct (delta_frame_spec left right g p lv Hp Hl Hlen Hcl)
      as (p1 & es & cs & g' & _ & Hf & Hs & _).
    exists g'. split; [exact Hf|]. rewrite Hs. apply camera_clamped. exact Hw.
Qed.

Lemma C5_camera_clamped_witness :
  (let w := Delta.Level.level_width (Delta.Level.init 3 ([], [], [])) in
   0 <= camera 1000 0 w /\ camera 1000 0 w <= (w - 160)%Z) /\
  (exists g',
     SML.Game.playing_frame false true (SML.Game.start_level SML.Game.init 1)
       = Some g' /\
     0 <= SML.Game.scroll_x g' /\
     SML.Game.scroll_x g' <= (SML.Level.level_width (SML.Level.init 1) - GB_WIDTH)%Z) /\
  (exists g',
     Delta.Game.playing_frame false true
       (Delta.Game.start_level Delta.Game.init 1 ([], [], [])) = Some g' /\
     0 <= Delta.Game.scroll_x g' /\
     Delta.Game.scroll_x g' <=
       (Delta.Level.level_width (Delta.Level.init 1 ([], [], [])) - GB_WIDTH)%Z).
Proof.
  split; [|split].
  - apply (proj1 (proj2 C5_camera_clamped) 1000 0 3%Z ([], [], [])). lia.
  - apply (proj1 (proj2 (proj2 C5_camera_clamped)) false true
             (SML.Game.start_level SML.Game.init 1) _ (SML.Level.init 1)
             eq_refl eq_refl eq_refl).
    + cbn. lia.
    + vm_compute. discriminate.
  - apply (proj2 (proj2 (proj2 C5_camera_clamped)) false true
             (Delta.Game.start_level Delta.Game.init 1 ([], [], [])) _
             (Delta.Level.init 1 ([], [], []))
             eq_refl eq_refl eq_refl).
    + cbn. lia.
    + vm_compute. discriminate.
Defined.

(** ** C6: victory *)

(** C6.  The victory check, run for a player that overlaps the goal, sets
    the state to victory, sets the unlocked flag of the current level and,
    when the current level is not the last, the flag of the next level (for
    level 1 that is [level_unlocked[1]]).  In a playing frame the check is
    run on the player that [Player.move] leaves; the flags are then set in
    the game the frame returns, and its state is victory when the game-over
    check that follows in the same frame does not fire. *)
Theorem C6_victory :
  (forall (g : SML.Game.t) (p : SML.Player.t) (goal : Goal.t),
      length (SML.Game.level_unlocked g) = 3%nat ->
      (1 <= SML.Game.current_level g <= 3)%Z ->
      collision p goal = true ->
      exists g',
        SML.Game.check_victory g p goal = Some g' /\
        SML.Game.state g' = victory /\
        list_getitem (SML.Game.level_unlocked g') (SML.Game.current_level g - 1)
          = Some true /\
        ((SML.Game.current_level g < 3)%Z ->
         list_getitem (SML.Game.level_unlocked g') (SML.Game.current_level g)
           = Some true)) /\
  (forall (left right : bool) (g : SML.Game.t) (p : SML.Player.t) (lv : SML.Level.t),
      SML.Game.state g = playing ->
      SML.Game.player g = Some p -> SML.Game.level g = Some lv ->
      length (SML.Game.level_unlocked g) = 3%nat ->
      (1 <= SML.Game.current_level g <= 3)%Z ->
      exists p1 es cs g',
        SML.Player.move (SML.Level.store lv) p (dx_of_keys left right)
          (SML.Level.platforms lv) (SML.Level.enemies lv) (SML.Level.coins lv)
          = Some (p1, es, cs) /\
        SML.Game.playing_frame left right g = Some g' /\
        (collision p1 (SML.Level.goal lv) = true ->
         list_getitem (SML.Game.level_unlocked g') (SML.Game.current_level g - 1)
           = Some true /\
         ((SML.Game.current_level g < 3)%Z ->
          list_getitem (SML.Game.level_unlocked g') (SML.Game.current_level g)
            = Some true) /\
         (negb (SML.Player.active p1) = false -> SML.Game.state g' = victory))) /\
  (forall (g : Delta.Game.t) (p : Delta.Player.t) (goal : Goal.t),
      length (Delta.Game.level_unlocked g) = 5%nat ->
      (1 <= Delta.Game.current_level g <= 5)%Z ->
      collision p goal = true ->
      exists g',
        Delta.Game.check_victory g p goal = Some g' /\
        Delta.Game.state g' = victory /\
        list_getitem (Delta.Game.level_unlocked g') (Delta.Game.current_level g - 1)
          = Some true /\
        ((Delta.Game.current_level g < 5)%Z ->
         list_getitem (Delta.Game.level_unlocked g') (Delta.Game.current_level g)
           = Some true)) /\
  (forall (left right : bool) (g : Delta.Game.t) (p : Delta.Player.t) (lv : Delta.Level.t),
      Delta.Game.state g = playing ->
      Delta.Game.player g = Some p -> Delta.Game.level g = Some lv ->
      length (Delta.Game.level_unlocked g) = 5%nat ->
      (1 <= Delta.Game.current_level g <= 5)%Z ->
      exists p1 es cs g',
        Delta.Player.move (Delta.Level.store lv) p (dx_of_keys left right)
          (Delta.Level.platforms lv) (Delta.Level.enemies lv) (Delta.Level.coins lv)
          = Some (p1, es, cs) /\
        Delta.Game.playing_frame left right g = Some g' /\
        (collision p1 (Delta.Level.goal lv) = true ->
         list_getitem (Delta.Game.level_unlocked g') (Delta.Game.current_level g - 1)
           = Some true /\
         ((Delta.Game.current_level g < 5)%Z ->
          list_getitem (Delta.Game.level_unlocked g') (Delta.Game.current_level g)
            = Some true) /\
         (negb (Delta.Player.active p1) && negb (Delta.Player.dying p1) = false -> Delta.Game.state g' = victory))).
Proof.
  split; [|split; [|split]].
  - intros g p goal Hlen Hcl Hc.
    destruct (sml_check_victory_spec g p goal Hlen Hcl)
      as (unlocked & Hv & _ & _ & Hhit).
    rewrite Hc in Hv. eexists. split; [exact Hv|].
    cbn. split; [reflexivity | exact (Hhit Hc)].
  - intros left right g p lv Hst Hp Hl Hlen Hcl.
    destruct (sml_frame_spec left right g p lv Hp Hl Hlen Hcl)
      as (p1 & es & cs & g' & Hm & Hf & _ & _ & _ & Hs & _ & _ & Hhit).
    exists p1, es, cs, g'. split; [exact Hm | split; [exact Hf|]].
    intros Hc. destruct (Hhit Hc) as [H1 H2].
    split; [exact H1 | split; [exact H2|]].
    intros Hno. rewrite Hs, Hno, Hc. reflexivity.
  - intros g p goal Hlen Hcl Hc.
    destruct (delta_check_victory_spec g p goal Hlen Hcl)
      as (unlocked & Hv & _ & _ & Hhit).
    rewrite Hc in Hv. eexists. split; [exact Hv|].
    cbn. split; [reflexivity | exact (Hhit Hc)].
  - intros left right g p lv Hst Hp Hl Hlen Hcl.
    destruct (delta_frame_spec left right g p lv Hp Hl Hlen Hcl)
      as (p1 & es & cs & g' & Hm & Hf & _ & _ & _ & Hs & _ & _ & Hhit).
    exists p1, es, cs, g'. split; [exact Hm | split; [exact Hf|]].
    intros Hc. destruct (Hhit Hc) as [H1 H2].
    split; [exact H1 | split; [exact H2|]].
    intros Hno. rewrite Hs, Hno, Hc. reflexivity.
Qed.

Lemma C6_victory_witness :
  (exists g',
     SML.Game.playing_frame false false Ex.sml_at_goal = Some g' /\
     SML.Game.state g' = victory /\
     list_getitem (SML.Game.level_unlocked g') 0 = Some true /\
     list_getitem (SML.Game.level_unlocked g') 1 = Some true) /\
  (exists g',
     Delta.Game.playing_frame false false Ex.delta_at_goal = Some g' /\
     Delta.Game.state g' = victory /\
     list_getitem (Delta.Game.level_unlocked g') 0 = Some true /\
     list_getitem (Delta.Game.level_unlocked g') 1 = Some true) /\
  (exists g',
     SML.Game.check_victory Ex.sml_at_goal (SML.Player.init 600 120)
       (SML.Level.goal Ex.sml_level1) = Some g' /\
     SML.Game.state g' = victory) /\
  (exists g',
     Delta.Game.check_victory Ex.delta_at_goal (Delta.Player.init 760 120)
       (Delta.Level.goal Ex.delta_level1) = Some g' /\
     Delta.Game.state g' = victory).
Proof.
  assert (H13 : (1 <= 1 <= 3)%Z) by lia.
  assert (H15 : (1 <= 1 <= 5)%Z) by lia.
  assert (H3 : (1 < 3)%Z) by lia.
  assert (H5 : (1 < 5)%Z) by lia.
  split; [|split; [|split]].
  - destruct (proj1 (proj2 C6_victory) false false Ex.sml_at_goal _ _
                eq_refl eq_refl eq_refl eq_refl H13)
      as (p1 & es & cs & g' & Hm & Hf & Hhit).
    vm_compute in Hm. injection Hm as <- _ _.
    destruct (Hhit eq_refl) as (Hcur & Hnext & Hst).
    exists g'. split; [exact Hf|].
    split; [exact (Hst eq_refl) | split; [exact Hcur | exact (Hnext H3)]].
  - destruct (proj2 (proj2 (proj2 C6_victory)) false false Ex.delta_at_goal _ _
                eq_refl eq_refl eq_refl eq_refl H15)
      as (p1 & es & cs & g' & Hm & Hf & Hhit).
    vm_compute in Hm. injection Hm as <- _ _.
    destruct (Hhit eq_refl) as (Hcur & Hnext & Hst).
    exists g'. split; [exact Hf|].
    split; [exact (Hst eq_refl) | split; [exact Hcur | exact (Hnext H5)]].
  - destruct (proj1 C6_victory Ex.sml_at_goal (SML.Player.init 600 120)
                (SML.Level.goal Ex.sml_level1) eq_refl H13 eq_refl)
      as (g' & Hv & Hst & _).
    exists g'. split; [exact Hv | exact Hst].
  - destruct (proj1 (proj2 (proj2 C6_victory)) Ex.delta_at_goal
                (Delta.Player.init 760 120)
                (Delta.Level.goal Ex.delta_level1) eq_refl H15 eq_refl)
      as (g' & Hv & Hst & _).
    exists g'. split; [exact Hv | exact Hst].
Defined.

(** ** The extended variant: who is inactive is dying *)

Section DeltaActive.
Import Delta Delta.Player.

Lemma delta_horizontal_loop_active (dx : Q) (platforms : list Platform.t) (p : t) :
  active (fold_left (horizontal_step dx) platforms p) = active p.
Proof.
  revert p. induction platforms as [|q rest IH]; intros p; cbn [fold_left].
  - reflexivity.
  - rewrite IH. unfold horizontal_step.
    destruct (collision p q); [destruct (Qgt_bool dx 0)|]; reflexivity.
Qed.

Lemma delta_move_to_gravity_active (p : t) (dx : Q) (platforms : list Platform.t) :
  active (move_to_gravity p dx platforms) = active p.
Proof.
  unfold move_to_gravity, apply_gravity. cbn.
  rewrite delta_horizontal_loop_active. unfold move_horizontal.
  destruct (negb (Qeq_bool dx 0)); [cbn; destruct (Qge_bool _ _)|]; reflexivity.
Qed.

Lemma delta_vertical_loop_active (platforms : list Platform.t) (p : t) (b : bool) :
  active (fst (fold_left vertical_step platforms (p, b))) = active p.
Proof.
  revert p b. induction platforms as [|q rest IH]; intros p b; cbn [fold_left].
  - reflexivity.
  - unfold vertical_step at 2.
    destruct (collision p q);
      [destruct (Qgt_bool (vel_y p) 0); [|destruct (Qlt_bool (vel_y p) 0)]|];
      rewrite IH; reflexivity.
Qed.

Lemma delta_enemy_loop_active (enemies : list Enemy.t) (p : t) :
  active (fst (enemy_loop p enemies)) = active p.
Proof.
  revert p. induction enemies as [|e rest IH]; intros p; cbn [enemy_loop].
  - reflexivity.
  - assert (H1 : active (fst (enemy_contact p e)) = active p).
    { unfold enemy_contact, stomp, take_damage.
      destruct (Enemy.active e && collision p e);
        [destruct (Qgt_bool (vel_y p) 0 && Qlt_bool (y p) (Enemy.y e));
           [|destruct (invincible p <=? 0)%Z;
               [cbn; destruct (lives p - 1 <=? 0)%Z|]]|];
        reflexivity. }
    destruct (enemy_contact p e) as [p1 e1]. cbn [fst] in H1.
    pose proof (IH p1) as H2.
    destruct (enemy_loop p1 rest) as [p2 rest']. cbn [fst] in *. congruence.
Qed.

(** An active player that is not dying is still active after the call:
    losing the last life, or leaving the screen, only sets [dying]. *)
Lemma delta_move_stays_active (store : CoinStore) (p p1 : t) (dx : Q)
    (platforms : list Platform.t) (enemies es : list Enemy.t)
    (coins cs : list CoinRef) :
  active p = true -> dying p = false ->
  move store p dx platforms enemies coins = Some (p1, es, cs) ->
  active p1 = true.
Proof.
  intros Hact Hdy Hm.
  rewrite (delta_move_active _ _ _ _ _ _ Hact Hdy) in Hm. cbv zeta in Hm.
  injection Hm as <- _ _.
  set (pe := fst (move_to_enemies p dx platforms enemies)).
  assert (Hpe : active pe = true).
  { subst pe. unfold move_to_enemies.
    pose proof (delta_vertical_loop_active platforms
                  (move_to_gravity p dx platforms) false) as Hv.
    destruct (fold_left vertical_step platforms (move_to_gravity p dx platforms, false))
      as [pv b]. cbn [fst] in Hv.
    rewrite delta_enemy_loop_active, Hv, delta_move_to_gravity_active. exact Hact. }
  match goal with
  | |- active (check_bounds (Nat.iter ?n pickup pe)) = true =>
      destruct (delta_pickups_place n pe) as (_ & _ & _ & Ha & _);
      unfold check_bounds;
      destruct (Qgt_bool (y (Nat.iter n pickup pe)) GB_HEIGHT);
        [destruct (negb (dying (Nat.iter n pickup pe)))|];
        cbn; rewrite Ha; exact Hpe
  end.
Qed.

(** Whoever is inactive is dying: no line clears [dying], and the only
    line that clears [active] is in the branch of a dying player. *)
Lemma delta_move_inactive_dying (store : CoinStore) (p p1 : t) (dx : Q)
    (platforms : list Platform.t) (enemies es : list Enemy.t)
    (coins cs : list CoinRef) :
  (active p = false -> dying p = true) ->
  move store p dx platforms enemies coins = Some (p1, es, cs) ->
  active p1 = false -> dying p1 = true.
Proof.
  intros Hinv Hm Hoff.
  destruct (active p) eqn:Hact.
  - destruct (dying p) eqn:Hdy.
    + unfold move in Hm. rewrite Hact, Hdy in Hm. cbn [negb] in Hm.
      injection Hm as <- _ _. unfold move_dying. cbn.
      destruct ((death_timer p + 1 >? 60)%Z || _); cbn; exact Hdy.
    + rewrite (delta_move_stays_active _ _ _ _ _ _ _ _ _ Hact Hdy Hm) in Hoff.
      discriminate Hoff.
  - unfold move in Hm. rewrite Hact in Hm. cbn [negb] in Hm.
    injection Hm as <- _ _. apply Hinv. reflexivity.
Qed.

End DeltaActive.

(** ** The game-over check *)

Lemma sml_game_over_iff :
  (forall (left right : bool) (g : SML.Game.t) (p : SML.Player.t) (lv : SML.Level.t),
      SML.Game.state g = playing ->
      SML.Game.player g = Some p -> SML.Game.level g = Some lv ->
      length (SML.Game.level_unlocked g) = 3%nat ->
      (1 <= SML.Game.current_level g <= 3)%Z ->
      exists p1 es cs g',
        SML.Player.move (SML.Level.store lv) p (dx_of_keys left right)
          (SML.Level.platforms lv) (SML.Level.enemies lv) (SML.Level.coins lv)
          = Some (p1, es, cs) /\
        SML.Game.playing_frame left right g = Some g' /\
        (SML.Game.state g' = game_over <-> SML.Player.active p1 = false)).
Proof.
  intros left right g p lv Hst Hp Hl Hlen Hcl.
  destruct (sml_frame_spec left right g p lv Hp Hl Hlen Hcl)
    as (p1 & es & cs & g' & Hm & Hf & _ & _ & _ & Hs & _).
  exists p1, es, cs, g'. split; [exact Hm | split; [exact Hf|]].
  rewrite Hs, Hst.
  destruct (SML.Player.active p1), (collision p1 (SML.Level.goal lv)); cbn;
    split; intros H; first [reflexivity | discriminate H].
Qed.

Lemma delta_game_over_iff :
  (forall (left right : bool) (g : Delta.Game.t) (p : Delta.Player.t)
          (lv : Delta.Level.t),
      Delta.Game.state g = playing ->
      Delta.Game.player g = Some p -> Delta.Game.level g = Some lv ->
      length (Delta.Game.level_unlocked g) = 5%nat ->
      (1 <= Delta.Game.current_level g <= 5)%Z ->
      exists p1 es cs g',
        Delta.Player.move (Delta.Level.store lv) p (dx_of_keys left right)
          (Delta.Level.platforms lv) (Delta.Level.enemies lv) (Delta.Level.coins lv)
          = Some (p1, es, cs) /\
        Delta.Game.playing_frame left right g = Some g' /\
        (Delta.Game.state g' = game_over <->
         Delta.Player.active p1 = false /\ Delta.Player.dying p1 = false) /\
        (Delta.Player.active p = true -> Delta.Player.dying p = false ->
         Delta.Game.state g' <> game_over)).
Proof.
  intros left right g p lv Hst Hp Hl Hlen Hcl.
  destruct (delta_frame_spec left right g p lv Hp Hl Hlen Hcl)
    as (p1 & es & cs & g' & Hm & Hf & _ & _ & _ & Hs & _).
  exists p1, es, cs, g'. split; [exact Hm | split; [exact Hf|]].
  assert (Hiff : Delta.Game.state g' = game_over <->
                 Delta.Player.active p1 = false /\ Delta.Player.dying p1 = false).
  { rewrite Hs, Hst.
    destruct (Delta.Player.active p1), (Delta.Player.dying p1),
             (collision p1 (Delta.Level.goal lv)); cbn;
      (split; [intros H; first [discriminate H | split; reflexivity]
              | intros H; first [reflexivity | destruct H; discriminate]]). }
  split; [exact Hiff|].
  intros Hact Hdy Hover. apply Hiff in Hover. destruct Hover as [Hoff _].
  rewrite (delta_move_stays_active _ _ _ _ _ _ _ _ _ Hact Hdy Hm) in Hoff.
  discriminate Hoff.
Qed.

(** The extended variant never reaches game over from a player for whom
    inactive implies dying, which holds of a new player and is kept by
    [Player.move]: [dying] is never cleared. *)
Lemma delta_game_over_unreachable (left right : bool) (g g' : Delta.Game.t)
    (p : Delta.Player.t) (lv : Delta.Level.t) :
  Delta.Game.state g = playing ->
  Delta.Game.player g = Some p -> Delta.Game.level g = Some lv ->
  length (Delta.Game.level_unlocked g) = 5%nat ->
  (1 <= Delta.Game.current_level g <= 5)%Z ->
  (Delta.Player.active p = false -> Delta.Player.dying p = true) ->
  Delta.Game.playing_frame left right g = Some g' ->
  Delta.Game.state g' <> game_over.
Proof.
  intros Hst Hp Hl Hlen Hcl Hinv Hf Hover.
  destruct (delta_game_over_iff left right g p lv Hst Hp Hl Hlen Hcl)
    as (p1 & es & cs & g1 & Hm & Hf1 & Hiff & _).
  rewrite Hf in Hf1. injection Hf1 as <-.
  apply Hiff in Hover. destruct Hover as [Hoff Hdy].
  rewrite (delta_move_inactive_dying _ _ _ _ _ _ _ _ _ Hinv Hm Hoff) in Hdy.
  discriminate Hdy.
Qed.

(** ** The edge-detection loop of [Enemy.move] *)

Lemma edge_step_fields (e : Enemy.t) (b : bool) (q : Platform.t) :
  let e' := fst (Enemy.edge_step (e, b) q) in
  Enemy.x e' = Enemy.x e /\ Enemy.y e' = Enemy.y e /\
  Enemy.width e' = Enemy.width e /\ Enemy.height e' = Enemy.height e /\
  Enemy.speed e' = Enemy.speed e /\ Enemy.active e' = Enemy.active e.
Proof.
  unfold Enemy.edge_step.
  destruct (Enemy.on e q); [destruct (Enemy.at_edge e q)|];
    cbn; repeat split; reflexivity.
Qed.

Lemma edge_loop_fields (platforms : list Platform.t) (e : Enemy.t) (b : bool) :
  let e' := fst (fold_left Enemy.edge_step platforms (e, b)) in
  Enemy.x e' = Enemy.x e /\ Enemy.y e' = Enemy.y e /\
  Enemy.width e' = Enemy.width e /\ Enemy.height e' = Enemy.height e /\
  Enemy.speed e' = Enemy.speed e /\ Enemy.active e' = Enemy.active e.
Proof.
  revert e b. induction platforms as [|q rest IH]; intros e b; cbn [fold_left].
  - cbn. repeat split; reflexivity.
  - pose proof (edge_step_fields e b q) as H1.
    destruct (Enemy.edge_step (e, b) q) as [e1 b1]. cbn [fst] in H1.
    pose proof (IH e1 b1) as H2. cbv zeta in *.
    destruct H1 as (a1 & a2 & a3 & a4 & a5 & a6),
             H2 as (c1 & c2 & c3 & c4 & c5 & c6).
    repeat split; congruence.
Qed.

(** Platforms that trigger no flip leave the enemy as it is; the flag
    [on_platform] records whether the enemy stands on one of them. *)
Lemma edge_loop_no_flip (platforms : list Platform.t) (e : Enemy.t) (b : bool) :
  (forall q, In q platforms -> Enemy.on e q = true -> Enemy.at_edge e q = false) ->
  fold_left Enemy.edge_step platforms (e, b) =
  (e, b || existsb (Enemy.on e) platforms).
Proof.
  revert b. induction platforms as [|q rest IH]; intros b Hno; cbn [fold_left existsb].
  - rewrite orb_false_r. reflexivity.
  - unfold Enemy.edge_step at 2.
    destruct (Enemy.on e q) eqn:Hon.
    + rewrite (Hno q (or_introl eq_refl) Hon).
      rewrite IH by (intros r Hr; apply Hno; right; exact Hr).
      rewrite orb_true_r. reflexivity.
    + rewrite IH by (intros r Hr; apply Hno; right; exact Hr).
      reflexivity.
Qed.

(** The test [on] only reads the rectangle of the enemy. *)
Lemma on_set_direction (e : Enemy.t) (d : Z) (q : Platform.t) :
  Enemy.on (Enemy.set_direction e d) q = Enemy.on e q.
Proof. reflexivity. Qed.

Lemma animate_fields (e : Enemy.t) :
  Enemy.x (Enemy.animate e) = Enemy.x e /\ Enemy.y (Enemy.animate e) = Enemy.y e /\
  Enemy.width (Enemy.animate e) = Enemy.width e /\
  Enemy.height (Enemy.animate e) = Enemy.height e /\
  Enemy.direction (Enemy.animate e) = Enemy.direction e /\
  Enemy.speed (Enemy.animate e) = Enemy.speed e /\
  Enemy.active (Enemy.animate e) = Enemy.active e.
Proof.
  unfold Enemy.animate. cbn. destruct (Qge_bool _ _); cbn; repeat split; reflexivity.
Qed.

Lemma animate_on (e : Enemy.t) (q : Platform.t) :
  Enemy.on (Enemy.animate e) q = Enemy.on e q /\
  Enemy.at_edge (Enemy.animate e) q = Enemy.at_edge e q.
Proof.
  destruct (animate_fields e) as (Hx & Hy & Hw & Hh & Hd & _).
  unfold Enemy.on, Enemy.at_edge. rewrite Hx, Hy, Hw, Hh, Hd.
  split; reflexivity.
Qed.

(** [Enemy.move] of an active enemy moves it by [direction * speed] and
    keeps its speed and its activity. *)
Lemma enemy_move_fields (e : Enemy.t) (platforms : list Platform.t) :
  Enemy.active e = true ->
  Enemy.x (Enemy.move e platforms) = Enemy.x e + Enemy.direction e * Enemy.speed e /\
  Enemy.speed (Enemy.move e platforms) = Enemy.speed e /\
  Enemy.active (Enemy.move e platforms) = true.
Proof.
  intros Hact. unfold Enemy.move. rewrite Hact. cbn [negb].
  pose proof (edge_loop_fields platforms (Enemy.animate (Enemy.advance e)) false) as H.
  destruct (animate_fields (Enemy.advance e)) as (Hx & _ & _ & _ & _ & Hs & Ha).
  destruct (fold_left Enemy.edge_step platforms
              (Enemy.animate (Enemy.advance e), false)) as [e1 b1].
  cbn [fst] in H. cbv zeta in H. destruct H as (c1 & _ & _ & _ & c5 & c6).
  destruct (negb b1); cbn; rewrite ?c1, ?c5, ?c6, ?Hx, ?Hs, ?Ha; cbn;
    rewrite ?Hact; repeat split; reflexivity.
Qed.

(** One flip, at [p]: the platforms met before [p] do not reach left of
    the enemy, those met after [p] reach right of it. *)
Lemma edge_loop_flip_once (e0 : Enemy.t) (p : Platform.t)
    (before after : list Platform.t) :
  Enemy.direction e0 = (-1)%Z ->
  Enemy.on e0 p = true -> Qle_bool (Enemy.x e0) (Platform.x p) = true ->
  (forall q, In q before -> Enemy.on e0 q = true -> Platform.x q < Enemy.x e0) ->
  (forall q, In q after -> Enemy.on e0 q = true ->
             Enemy.x e0 + Enemy.width e0 < Platform.x q + Platform.width q) ->
  fold_left Enemy.edge_step (before ++ p :: after) (e0, false) =
  (Enemy.set_direction e0 1, true).
Proof.
  intros Hd Hon Hle Hbefore Hafter.
  rewrite fold_left_app, edge_loop_no_flip.
  - cbn [fold_left]. unfold Enemy.edge_step at 2. rewrite Hon.
    unfold Enemy.at_edge at 1. rewrite Hd, Hle. cbn [Z.ltb Z.compare andb orb Z.mul Z.opp Pos.mul].
    rewrite edge_loop_no_flip; [reflexivity|].
    intros q Hq Honq. unfold Enemy.at_edge. cbn.
    apply Qle_bool_false_iff. apply (Hafter q Hq Honq).
  - intros q Hq Honq. unfold Enemy.at_edge. rewrite Hd. cbn.
    rewrite orb_false_r. apply Qle_bool_false_iff. exact (Hbefore q Hq Honq).
Qed.

Lemma enemy_turns_at_left_edge (e : Enemy.t) (p : Platform.t)
    (before after : list Platform.t) :
  Enemy.active e = true -> Enemy.direction e = (-1)%Z ->
  Enemy.x e == Platform.x p ->
  Qabs ((Enemy.y e + Enemy.height e) - Platform.y p) < 2 ->
  0 <= Enemy.speed e -> Enemy.speed e < Enemy.width e ->
  0 < Platform.width p ->
  (forall q, In q before -> Enemy.on (Enemy.advance e) q = true ->
             Platform.x q < Enemy.x (Enemy.advance e)) ->
  (forall q, In q after -> Enemy.on (Enemy.advance e) q = true ->
             Enemy.x (Enemy.advance e) + Enemy.width e
             < Platform.x q + Platform.width q) ->
  Enemy.direction (Enemy.move e (before ++ p :: after)) = 1%Z.
Proof.
  intros Hact Hd Hx Hy Hs0 Hsw Hpw Hbefore Hafter.
  assert (Hadv : Enemy.x (Enemy.advance e) == Platform.x p - Enemy.speed e).
  { unfold Enemy.advance. cbn. rewrite Hd, Hx. unfold inject_Z. lra. }
  destruct (animate_fields (Enemy.advance e)) as (Ax & Ay & Aw & Ah & Ad & _).
  unfold Enemy.move. rewrite Hact. cbn [negb].
  rewrite (edge_loop_flip_once (Enemy.animate (Enemy.advance e)) p before after).
  - reflexivity.
  - rewrite Ad. exact Hd.
  - rewrite (proj1 (animate_on _ _)). unfold Enemy.on.
    rewrite !andb_true_iff, Qgt_bool_iff, !Qlt_bool_iff.
    change (Enemy.width (Enemy.advance e)) with (Enemy.width e).
    change (Enemy.y (Enemy.advance e)) with (Enemy.y e).
    change (Enemy.height (Enemy.advance e)) with (Enemy.height e).
    rewrite Hadv. repeat split; [lra | lra | exact Hy].
  - rewrite Ax. apply Qle_bool_iff. rewrite Hadv. lra.
  - intros q Hq Hon. rewrite Ax. apply Hbefore; [exact Hq|].
    rewrite <- (proj1 (animate_on _ _)). exact Hon.
  - intros q Hq Hon. rewrite Ax, Aw.
    change (Enemy.width (Enemy.advance e)) with (Enemy.width e).
    apply Hafter; [exact Hq|].
    rewrite <- (proj1 (animate_on _ _)). exact Hon.
Qed.

(** ** C8: enemy patrol *)

(** With the right tile listed before the left tile, the enemy placed at
    the left edge of the right tile is turned twice in one tick and keeps
    walking left. *)
Lemma C8_counterexample_double_flip :
  let e := Ex.at_left_edge in
  let p := Ex.tile_right in
  Enemy.active e = true /\ Enemy.direction e = (-1)%Z /\
  Enemy.x e == Platform.x p /\
  Qabs ((Enemy.y e + Enemy.height e) - Platform.y p) < 2 /\
  In p [Ex.tile_right; Ex.tile_left] /\
  Enemy.direction (Enemy.move e [Ex.tile_right; Ex.tile_left]) = (-1)%Z /\
  Enemy.direction (Enemy.move e [Ex.tile_right; Ex.tile_left]) <> 1%Z.
Proof.
  cbv zeta. repeat split; try reflexivity.
  - left. reflexivity.
  - discriminate.
Qed.

(** C8 (amended).  An active enemy placed exactly at a platform's left
    edge, moving left and standing on that platform, has direction +1 after
    one update tick and moves right by its speed on the tick after,
    provided that no other platform of the collection turns it in the same
    tick: of the platforms the moved enemy stands on, those listed before
    the platform start left of the enemy and those listed after it end
    right of the enemy.  (Enemies have a speed between 0 and their width,
    and platforms a positive width.) *)
Theorem C8_enemy_turns_at_left_edge
    (e : Enemy.t) (p : Platform.t) (before after : list Platform.t) :
  Enemy.active e = true -> Enemy.direction e = (-1)%Z ->
  Enemy.x e == Platform.x p ->
  Qabs ((Enemy.y e + Enemy.height e) - Platform.y p) < 2 ->
  0 <= Enemy.speed e -> Enemy.speed e < Enemy.width e ->
  0 < Platform.width p ->
  (forall q, In q before -> Enemy.on (Enemy.advance e) q = true ->
             Platform.x q < Enemy.x (Enemy.advance e)) ->
  (forall q, In q after -> Enemy.on (Enemy.advance e) q = true ->
             Enemy.x (Enemy.advance e) + Enemy.width e
             < Platform.x q + Platform.width q) ->
  Enemy.direction (Enemy.move e (before ++ p :: after)) = 1%Z /\
  forall platforms' : list Platform.t,
    Enemy.x (Enemy.move (Enemy.move e (before ++ p :: after)) platforms') ==
    Enemy.x (Enemy.move e (before ++ p :: after)) + Enemy.speed e.
Proof.
  intros Hact Hd Hx Hy Hs0 Hsw Hpw Hbefore Hafter.
  pose proof (enemy_turns_at_left_edge e p before after
                Hact Hd Hx Hy Hs0 Hsw Hpw Hbefore Hafter) as Hturn.
  split; [exact Hturn|].
  intros platforms'.
  destruct (enemy_move_fields e (before ++ p :: after) Hact) as (_ & Hs1 & Ha1).
  destruct (enemy_move_fields (Enemy.move e (before ++ p :: after)) platforms' Ha1)
    as (Hx2 & _).
  rewrite Hx2, Hturn, Hs1. unfold inject_Z. lra.
Qed.

Lemma C8_enemy_turns_at_left_edge_witness :
  Enemy.direction
    (Enemy.move Ex.on_first_platform
       (SML.Level.ground 640 ++
        Platform.mk 80 100 32 8 ::
        [Platform.mk 140 80 24 8; Platform.mk 200 100 40 8; Platform.mk 280 90 32 8]))
  = 1%Z.
Proof.
  assert (Hoff : forall l : list Platform.t,
             forallb (fun q => negb (Enemy.on (Enemy.advance Ex.on_first_platform) q)) l
               = true ->
             forall q, In q l ->
               Enemy.on (Enemy.advance Ex.on_first_platform) q = true -> False).
  { intros l Hl q Hq Hon.
    pose proof (proj1 (forallb_forall _ l) Hl q Hq) as Hneg. cbv beta in Hneg.
    rewrite Hon in Hneg. discriminate Hneg. }
  refine (proj1 (C8_enemy_turns_at_left_edge Ex.on_first_platform
                   (Platform.mk 80 100 32 8) (SML.Level.ground 640)
                   [Platform.mk 140 80 24 8; Platform.mk 200 100 40 8;
                    Platform.mk 280 90 32 8]
                   eq_refl eq_refl _ _ _ _ _ _ _)).
  - reflexivity.
  - vm_compute. reflexivity.
  - vm_compute. discriminate.
  - vm_compute. reflexivity.
  - vm_compute. reflexivity.
  - intros q Hq Hon. exfalso.
    exact (Hoff (SML.Level.ground 640) eq_refl q Hq Hon).
  - intros q Hq Hon. exfalso.
    exact (Hoff [Platform.mk 140 80 24 8; Platform.mk 200 100 40 8;
                 Platform.mk 280 90 32 8] eq_refl q Hq Hon).
Defined.

(** On ground tiles listed from left to right, the enemy placed at the
    left edge of a tile turns right. *)
Example ground_left_to_right :
  Enemy.direction (Enemy.move Ex.at_left_edge [Ex.tile_left; Ex.tile_right]) = 1%Z.
Proof. reflexivity. Qed.

(** ** C9: the power-up of the extended variant *)

(** A powered-up player with 19 coins picks up its 20th coin: the count
    becomes a multiple of 10 and the flag stays set, it is not flipped. *)
Lemma C9_counterexample_no_toggle :
  exists p' es cs,
    Delta.Player.move (Delta.Level.store Ex.delta_level1) Ex.delta_nineteen 0
      (Delta.Level.platforms Ex.delta_level1) (Delta.Level.enemies Ex.delta_level1)
      (Delta.Level.coins Ex.delta_level1) = Some (p', es, cs) /\
    cs = [1; 2; 3; 4]%nat /\
    Delta.Player.coins p' = 20%Z /\ (Delta.Player.coins p' mod 10 = 0)%Z /\
    Delta.Player.power_up Ex.delta_nineteen = true /\
    Delta.Player.power_up p' = true /\
    Delta.Player.power_up p' <> negb (Delta.Player.power_up Ex.delta_nineteen).
Proof.
  eexists. eexists. eexists. split; [vm_compute; reflexivity|].
  repeat split; try reflexivity. discriminate.
Qed.

Lemma delta_pickup_power_up (p : Delta.Player.t) :
  Delta.Player.coins (Delta.Player.pickup p) = (Delta.Player.coins p + 1)%Z /\
  ((Delta.Player.coins (Delta.Player.pickup p) mod 10 = 0)%Z ->
   Delta.Player.power_up (Delta.Player.pickup p) = true) /\
  ((Delta.Player.coins (Delta.Player.pickup p) mod 10 <> 0)%Z ->
   Delta.Player.power_up (Delta.Player.pickup p) = Delta.Player.power_up p) /\
  (Delta.Player.power_up p = true ->
   Delta.Player.power_up (Delta.Player.pickup p) = true).
Proof.
  unfold Delta.Player.pickup. cbn.
  destruct ((Delta.Player.coins p + 1) mod 10 =? 0)%Z eqn:E; cbn.
  - apply Z.eqb_eq in E. repeat split; try reflexivity. intros H. contradiction.
  - apply Z.eqb_neq in E. repeat split; try reflexivity; try (intros H; exact H).
    intros H. contradiction.
Qed.

(** C9 (amended).  In the extended variant every coin pickup adds one to
    the coin count; a pickup that makes the count a multiple of 10 sets
    the power-up flag to true, and any other pickup leaves the flag as it
    was.  A flag that is set stays set: no pickup clears it.  The coin loop
    applies this pickup once for each overlapping entry. *)
Theorem C9_power_up_set :
  (forall p : Delta.Player.t,
      Delta.Player.coins (Delta.Player.pickup p) = (Delta.Player.coins p + 1)%Z /\
      ((Delta.Player.coins (Delta.Player.pickup p) mod 10 = 0)%Z ->
       Delta.Player.power_up (Delta.Player.pickup p) = true) /\
      ((Delta.Player.coins (Delta.Player.pickup p) mod 10 <> 0)%Z ->
       Delta.Player.power_up (Delta.Player.pickup p) = Delta.Player.power_up p) /\
      (Delta.Player.power_up p = true ->
       Delta.Player.power_up (Delta.Player.pickup p) = true)) /\
  (forall (store : CoinStore) (q : Delta.Player.t) (coins : list CoinRef),
      Delta.Player.coin_loop store coins q coins =
      Some (Nat.iter (length (filter (fun r => collision q (store r)) coins))
              Delta.Player.pickup q,
            filter (fun r => negb (collision q (store r))) coins)).
Proof.
  split; [exact delta_pickup_power_up | exact delta_coin_loop_closed].
Qed.

Lemma C9_power_up_set_witness :
  Delta.Player.power_up
    (Delta.Player.pickup (Delta.Player.set_coins Ex.delta_at_coin 9)) = true /\
  Delta.Player.power_up (Delta.Player.pickup Ex.delta_at_coin) = false /\
  Delta.Player.power_up (Delta.Player.pickup Ex.delta_nineteen) = true.
Proof.
  split; [|split].
  - apply (proj1 (proj2 (proj1 C9_power_up_set
                           (Delta.Player.set_coins Ex.delta_at_coin 9)))).
    reflexivity.
  - apply (proj1 (proj2 (proj2 (proj1 C9_power_up_set Ex.delta_at_coin)))).
    discriminate.
  - apply (proj2 (proj2 (proj2 (proj1 C9_power_up_set Ex.delta_nineteen)))).
    reflexivity.
Defined.

(** ** The countdown and the lives across [Player.move] and [Player.draw] *)

Section SMLInvincible.
Import SML SML.Player.

Lemma sml_horizontal_loop_counters (dx : Q) (platforms : list Platform.t) (p : t) :
  invincible (fold_left (horizontal_step dx) platforms p) = invincible p /\
  lives (fold_left (horizontal_step dx) platforms p) = lives p.
Proof.
  revert p. induction platforms as [|q rest IH]; intros p; cbn [fold_left].
  - split; reflexivity.
  - destruct (IH (horizontal_step dx p q)) as [Hi Hl]. rewrite Hi, Hl.
    unfold horizontal_step.
    destruct (collision p q); [destruct (Qgt_bool dx 0)|]; split; reflexivity.
Qed.

Lemma sml_move_to_gravity_counters (p : t) (dx : Q) (platforms : list Platform.t) :
  invincible (move_to_gravity p dx platforms) = invincible p /\
  lives (move_to_gravity p dx platforms) = lives p.
Proof.
  unfold move_to_gravity, apply_gravity. cbn.
  destruct (sml_horizontal_loop_counters dx platforms (move_horizontal dx p))
    as [Hi Hl].
  rewrite Hi, Hl. unfold move_horizontal.
  destruct (negb (Qeq_bool dx 0)); [cbn; destruct (Qge_bool _ _)|];
    split; reflexivity.
Qed.

Lemma sml_vertical_loop_counters (platforms : list Platform.t) (p : t) (b : bool) :
  invincible (fst (fold_left vertical_step platforms (p, b))) = invincible p /\
  lives (fst (fold_left vertical_step platforms (p, b))) = lives p.
Proof.
  revert p b. induction platforms as [|q rest IH]; intros p b; cbn [fold_left].
  - split; reflexivity.
  - destruct (vertical_step (p, b) q) as [p1 b1] eqn:E.
    destruct (IH p1 b1) as [Hi Hl]. rewrite Hi, Hl.
    unfold vertical_step in E.
    destruct (collision p q);
      [destruct (Qgt_bool (vel_y p) 0); [|destruct (Qlt_bool (vel_y p) 0)]|];
      injection E as <- _; split; reflexivity.
Qed.

(** An enemy contact leaves the countdown and the lives alone, or finds the
    countdown at 0 or below and sets it to 60. *)
Lemma sml_enemy_contact_counters (p : t) (e : Enemy.t) :
  (invincible (fst (enemy_contact p e)) = invincible p /\
   lives (fst (enemy_contact p e)) = lives p) \/
  ((invincible p <= 0)%Z /\ invincible (fst (enemy_contact p e)) = 60%Z).
Proof.
  unfold enemy_contact.
  destruct (Enemy.active e && collision p e); [|left; split; reflexivity].
  destruct (Qgt_bool (vel_y p) 0 && Qlt_bool (y p) (Enemy.y e));
    [left; split; reflexivity|].
  destruct (invincible p <=? 0)%Z eqn:E; [|left; split; reflexivity].
  right. apply Z.leb_le in E. split; [exact E|].
  unfold take_damage. cbn. destruct (lives p - 1 <=? 0)%Z; reflexivity.
Qed.

Lemma sml_enemy_loop_counters (enemies : list Enemy.t) (p : t) :
  (invincible (fst (enemy_loop p enemies)) = invincible p /\
   lives (fst (enemy_loop p enemies)) = lives p) \/
  ((invincible p <= 0)%Z /\ invincible (fst (enemy_loop p enemies)) = 60%Z).
Proof.
  revert p. induction enemies as [|e rest IH]; intros p; cbn [enemy_loop].
  - left. split; reflexivity.
  - pose proof (sml_enemy_contact_counters p e) as H1.
    destruct (enemy_contact p e) as [p1 e1]. cbn [fst] in H1.
    pose proof (IH p1) as H2.
    destruct (enemy_loop p1 rest) as [p2 rest']. cbn [fst] in *.
    destruct H1 as [[Hi1 Hl1] | [Hle1 Hi1]], H2 as [[Hi2 Hl2] | [Hle2 Hi2]].
    + left. split; congruence.
    + right. split; [rewrite <- Hi1; exact Hle2 | exact Hi2].
    + right. split; [exact Hle1 | congruence].
    + right. split; [exact Hle1 | exact Hi2].
Qed.

(** [Player.move] never counts down: it leaves [invincible] as it is, or
    finds it at 0 or below and sets it to 60; and it takes no life while
    [invincible] is positive. *)
Lemma sml_move_counters (store : CoinStore) (p p' : t) (dx : Q)
    (platforms : list Platform.t) (enemies es : list Enemy.t)
    (coins cs : list CoinRef) :
  move store p dx platforms enemies coins = Some (p', es, cs) ->
  (invincible p' = invincible p /\ lives p' = lives p) \/
  ((invincible p <= 0)%Z /\ invincible p' = 60%Z).
Proof.
  intros Hm. destruct (active p) eqn:Hact.
  - rewrite (sml_move_active _ _ _ _ _ _ Hact) in Hm. cbv zeta in Hm.
    injection Hm as <- _ _.
    set (pe := fst (move_to_enemies p dx platforms enemies)).
    assert (Hpe : (invincible pe = invincible p /\ lives pe = lives p) \/
                  ((invincible p <= 0)%Z /\ invincible pe = 60%Z)).
    { subst pe. unfold move_to_enemies.
      destruct (sml_move_to_gravity_counters p dx platforms) as [Hi0 Hl0].
      pose proof (sml_vertical_loop_counters platforms
                    (move_to_gravity p dx platforms) false) as Hv.
      destruct (fold_left vertical_step platforms (move_to_gravity p dx platforms, false))
        as [pv b]. cbn [fst] in Hv. destruct Hv as [Hi1 Hl1].
      destruct (sml_enemy_loop_counters enemies pv) as [[Hi2 Hl2] | [Hle Hi2]].
      - left. split; congruence.
      - right. split; [rewrite <- Hi0, <- Hi1; exact Hle | exact Hi2]. }
    match goal with
    | |- context [check_bounds (Nat.iter ?n pickup pe)] =>
        destruct (sml_pickups_place n pe) as (_ & _ & Hl3 & _ & Hi3 & _);
        assert (Hcb : invincible (check_bounds (Nat.iter n pickup pe)) = invincible pe /\
                      lives (check_bounds (Nat.iter n pickup pe)) = lives pe)
          by (unfold check_bounds;
              destruct (Qgt_bool (y (Nat.iter n pickup pe)) GB_HEIGHT);
              cbn; rewrite Hl3, Hi3; split; reflexivity)
    end.
    destruct Hcb as [Hi4 Hl4]. rewrite Hi4, Hl4. exact Hpe.
  - unfold move in Hm. rewrite Hact in Hm. cbn [negb] in Hm.
    injection Hm as <- _ _. left. split; reflexivity.
Qed.

(** [Player.draw] counts down by one, and only when it renders the sprite
    of a player whose countdown is positive and in the upper half of its
    cycle of six. *)
Lemma sml_draw_counters (p : t) :
  lives (fst (draw p)) = lives p /\
  (invincible (fst (draw p)) = invincible p \/
   (invincible (fst (draw p)) = (invincible p - 1)%Z /\
    (invincible p > 0)%Z /\ (invincible p mod 6 >= 3)%Z /\ snd (draw p) = true)).
Proof.
  unfold draw. destruct (negb (active p)); [split; [|left]; reflexivity|].
  destruct (invincible p >? 0)%Z eqn:E1; [|split; [|left]; reflexivity].
  destruct (invincible p mod 6 <? 3)%Z eqn:E2; [split; [|left]; reflexivity|].
  cbn. split; [reflexivity | right].
  apply Z.gtb_lt in E1. apply Z.ltb_ge in E2. repeat split; lia.
Qed.

Lemma sml_draw_sixty (p : t) :
  invincible p = 60%Z -> invincible (fst (draw p)) = 60%Z.
Proof.
  intros H. unfold draw. rewrite H. destruct (negb (active p)); [exact H|].
  cbn. exact H.
Qed.

Lemma sml_jump_counters (p : t) :
  invincible (jump p) = invincible p /\ lives (jump p) = lives p.
Proof. unfold jump. destruct (negb (jumping p)); split; reflexivity. Qed.

(** Once at 60 the countdown stays at 60, and the lives stay as they are,
    however many frames pass. *)
Lemma sml_sixty_forever (store : CoinStore) (n : nat) (p p' : t) :
  after_ticks store n p p' -> invincible p = 60%Z ->
  invincible p' = 60%Z /\ lives p' = lives p.
Proof.
  induction 1 as [p | n p p1 p' jk dx platforms enemies es coins cs Hm _ IH];
    intros H60.
  - split; [exact H60 | reflexivity].
  - assert (Hj : invincible (if jk then jump p else p) = 60%Z /\
                 lives (if jk then jump p else p) = lives p).
    { destruct jk; [destruct (sml_jump_counters p) as [Hi Hl]; rewrite Hi, Hl|];
        split; first [exact H60 | reflexivity]. }
    destruct Hj as [Hj60 Hjl].
    destruct (sml_move_counters _ _ _ _ _ _ _ _ _ Hm) as [[Hi Hl] | [Hle _]];
      [|rewrite Hj60 in Hle; lia].
    assert (H1 : invincible p1 = 60%Z) by congruence.
    destruct (IH (sml_draw_sixty p1 H1)) as [Hi' Hl'].
    split; [exact Hi'|].
    rewrite Hl'. rewrite (proj1 (sml_draw_counters p1)). congruence.
Qed.

(** Frames can always be run. *)
Lemma sml_ticks_exist (store : CoinStore) (n : nat) (p : t) :
  exists p', after_ticks store n p p'.
Proof.
  revert p. induction n as [|n IH]; intros p.
  - exists p. constructor.
  - destruct (sml_move_incl store p 0 [] [] []) as (p1 & es & cs & Hm & _).
    destruct (IH (fst (draw p1))) as [p' Hp'].
    exists p'. exact (ticks_succ store n p p1 p' false 0 [] [] es [] cs Hm Hp').
Qed.

End SMLInvincible.

Section DeltaInvincible.
Import Delta Delta.Player.

Lemma delta_horizontal_loop_counters (dx : Q) (platforms : list Platform.t) (p : t) :
  invincible (fold_left (horizontal_step dx) platforms p) = invincible p /\
  lives (fold_left (horizontal_step dx) platforms p) = lives p.
Proof.
  revert p. induction platforms as [|q rest IH]; intros p; cbn [fold_left].
  - split; reflexivity.
  - destruct (IH (horizontal_step dx p q)) as [Hi Hl]. rewrite Hi, Hl.
    unfold horizontal_step.
    destruct (collision p q); [destruct (Qgt_bool dx 0)|]; split; reflexivity.
Qed.

Lemma delta_move_to_gravity_counters (p : t) (dx : Q) (platforms : list Platform.t) :
  invincible (move_to_gravity p dx platforms) = invincible p /\
  lives (move_to_gravity p dx platforms) = lives p.
Proof.
  unfold move_to_gravity, apply_gravity. cbn.
  destruct (delta_horizontal_loop_counters dx platforms (move_horizontal dx p))
    as [Hi Hl].
  rewrite Hi, Hl. unfold move_horizontal.
  destruct (negb (Qeq_bool dx 0)); [cbn; destruct (Qge_bool _ _)|];
    split; reflexivity.
Qed.

Lemma delta_vertical_loop_counters (platforms : list Platform.t) (p : t) (b : bool) :
  invincible (fst (fold_left vertical_step platforms (p, b))) = invincible p /\
  lives (fst (fold_left vertical_step platforms (p, b))) = lives p.
Proof.
  revert p b. induction platforms as [|q rest IH]; intros p b; cbn [fold_left].
  - split; reflexivity.
  - destruct (vertical_step (p, b) q) as [p1 b1] eqn:E.
    destruct (IH p1 b1) as [Hi Hl]. rewrite Hi, Hl.
    unfold vertical_step in E.
    destruct (collision p q);
      [destruct (Qgt_bool (vel_y p) 0); [|destruct (Qlt_bool (vel_y p) 0)]|];
      injection E as <- _; split; reflexivity.
Qed.

(** An enemy contact leaves the countdown and the lives alone, or finds the
    countdown at 0 or below and sets it to 60. *)
Lemma delta_enemy_contact_counters (p : t) (e : Enemy.t) :
  (invincible (fst (enemy_contact p e)) = invincible p /\
   lives (fst (enemy_contact p e)) = lives p) \/
  ((invincible p <= 0)%Z /\ invincible (fst (enemy_contact p e)) = 60%Z).
Proof.
  unfold enemy_contact.
  destruct (Enemy.active e && collision p e); [|left; split; reflexivity].
  destruct (Qgt_bool (vel_y p) 0 && Qlt_bool (y p) (Enemy.y e));
    [left; split; reflexivity|].
  destruct (invincible p <=? 0)%Z eqn:E; [|left; split; reflexivity].
  right. apply Z.leb_le in E. split; [exact E|].
  unfold take_damage. cbn. destruct (lives p - 1 <=? 0)%Z; reflexivity.
Qed.

Lemma delta_enemy_loop_counters (enemies : list Enemy.t) (p : t) :
  (invincible (fst (enemy_loop p enemies)) = invincible p /\
   lives (fst (enemy_loop p enemies)) = lives p) \/
  ((invincible p <= 0)%Z /\ invincible (fst (enemy_loop p enemies)) = 60%Z).
Proof.
  revert p. induction enemies as [|e rest IH]; intros p; cbn [enemy_loop].
  - left. split; reflexivity.
  - pose proof (delta_enemy_contact_counters p e) as H1.
    destruct (enemy_contact p e) as [p1 e1]. cbn [fst] in H1.
    pose proof (IH p1) as H2.
    destruct (enemy_loop p1 rest) as [p2 rest']. cbn [fst] in *.
    destruct H1 as [[Hi1 Hl1] | [Hle1 Hi1]], H2 as [[Hi2 Hl2] | [Hle2 Hi2]].
    + left. split; congruence.
    + right. split; [rewrite <- Hi1; exact Hle2 | exact Hi2].
    + right. split; [exact Hle1 | congruence].
    + right. split; [exact Hle1 | exact Hi2].
Qed.

(** [Player.move] never counts down: it leaves [invincible] as it is, or
    finds it at 0 or below and sets it to 60; and it takes no life while
    [invincible] is positive. *)
Lemma delta_move_counters (store : CoinStore) (p p' : t) (dx : Q)
    (platforms : list Platform.t) (enemies es : list Enemy.t)
    (coins cs : list CoinRef) :
  move store p dx platforms enemies coins = Some (p', es, cs) ->
  (invincible p' = invincible p /\ lives p' = lives p) \/
  ((invincible p <= 0)%Z /\ invincible p' = 60%Z).
Proof.
  intros Hm. destruct (active p) eqn:Hact; [destruct (dying p) eqn:Hdy|].
  - unfold move in Hm. rewrite Hact, Hdy in Hm. cbn [negb] in Hm.
    injection Hm as <- _ _. left. unfold move_dying. cbn.
    destruct ((death_timer p + 1 >? 60)%Z || _); split; reflexivity.
  - rewrite (delta_move_active _ _ _ _ _ _ Hact Hdy) in Hm. cbv zeta in Hm.
    injection Hm as <- _ _.
    set (pe := fst (move_to_enemies p dx platforms enemies)).
    assert (Hpe : (invincible pe = invincible p /\ lives pe = lives p) \/
                  ((invincible p <= 0)%Z /\ invincible pe = 60%Z)).
    { subst pe. unfold move_to_enemies.
      destruct (delta_move_to_gravity_counters p dx platforms) as [Hi0 Hl0].
      pose proof (delta_vertical_loop_counters platforms
                    (move_to_gravity p dx platforms) false) as Hv.
      destruct (fold_left vertical_step platforms (move_to_gravity p dx platforms, false))
        as [pv b]. cbn [fst] in Hv. destruct Hv as [Hi1 Hl1].
      destruct (delta_enemy_loop_counters enemies pv) as [[Hi2 Hl2] | [Hle Hi2]].
      - left. split; congruence.
      - right. split; [rewrite <- Hi0, <- Hi1; exact Hle | exact Hi2]. }
    match goal with
    | |- context [check_bounds (Nat.iter ?n pickup pe)] =>
        destruct (delta_pickups_place n pe) as (_ & _ & Hl3 & _ & Hi3 & _);
        assert (Hcb : invincible (check_bounds (Nat.iter n pickup pe)) = invincible pe /\
                      lives (check_bounds (Nat.iter n pickup pe)) = lives pe)
          by (unfold check_bounds;
              destruct (Qgt_bool (y (Nat.iter n pickup pe)) GB_HEIGHT);
              [destruct (negb (dying (Nat.iter n pickup pe)))|];
              cbn; rewrite Hl3, Hi3; split; reflexivity)
    end.
    destruct Hcb as [Hi4 Hl4]. rewrite Hi4, Hl4. exact Hpe.
  - unfold move in Hm. rewrite Hact in Hm. cbn [negb] in Hm.
    injection Hm as <- _ _. left. split; reflexivity.
Qed.

(** [Player.draw] counts down by one, and only when it renders the sprite
    of a player, not dying, whose countdown is positive and in the upper
    half of its cycle of six. *)
Lemma delta_draw_counters (p : t) :
  lives (fst (draw p)) = lives p /\
  (invincible (fst (draw p)) = invincible p \/
   (invincible (fst (draw p)) = (invincible p - 1)%Z /\
    (invincible p > 0)%Z /\ (invincible p mod 6 >= 3)%Z /\ snd (draw p) = true)).
Proof.
  unfold draw.
  destruct (negb (active p) && negb (dying p)); [split; [|left]; reflexivity|].
  destruct (invincible p >? 0)%Z eqn:E1;
    [destruct (negb (dying p))|]; cbn [andb];
    try (split; [|left]; reflexivity).
  destruct (invincible p mod 6 <? 3)%Z eqn:E2; [split; [|left]; reflexivity|].
  cbn. split; [reflexivity | right].
  apply Z.gtb_lt in E1. apply Z.ltb_ge in E2. repeat split; lia.
Qed.

Lemma delta_draw_sixty (p : t) :
  invincible p = 60%Z -> invincible (fst (draw p)) = 60%Z.
Proof.
  intros H. unfold draw. rewrite H.
  destruct (negb (active p) && negb (dying p)); [exact H|].
  destruct (negb (dying p)); cbn; exact H.
Qed.

Lemma delta_jump_counters (p : t) :
  invincible (jump p) = invincible p /\ lives (jump p) = lives p.
Proof.
  unfold jump. destruct (negb (jumping p) && negb (dying p)); split; reflexivity.
Qed.

(** Once at 60 the countdown stays at 60, and the lives stay as they are,
    however many frames pass. *)
Lemma delta_sixty_forever (store : CoinStore) (n : nat) (p p' : t) :
  after_ticks store n p p' -> invincible p = 60%Z ->
  invincible p' = 60%Z /\ lives p' = lives p.
Proof.
  induction 1 as [p | n p p1 p' jk dx platforms enemies es coins cs Hm _ IH];
    intros H60.
  - split; [exact H60 | reflexivity].
  - assert (Hj : invincible (if jk then jump p else p) = 60%Z /\
                 lives (if jk then jump p else p) = lives p).
    { destruct jk; [destruct (delta_jump_counters p) as [Hi Hl]; rewrite Hi, Hl|];
        split; first [exact H60 | reflexivity]. }
    destruct Hj as [Hj60 Hjl].
    destruct (delta_move_counters _ _ _ _ _ _ _ _ _ Hm) as [[Hi Hl] | [Hle _]];
      [|rewrite Hj60 in Hle; lia].
    assert (H1 : invincible p1 = 60%Z) by congruence.
    destruct (IH (delta_draw_sixty p1 H1)) as [Hi' Hl'].
    split; [exact Hi'|].
    rewrite Hl'. rewrite (proj1 (delta_draw_counters p1)). congruence.
Qed.

(** Frames can always be run. *)
Lemma delta_ticks_exist (store : CoinStore) (n : nat) (p : t) :
  exists p', after_ticks store n p p'.
Proof.
  revert p. induction n as [|n IH]; intros p.
  - exists p. constructor.
  - destruct (delta_move_incl store p 0 [] [] []) as (p1 & es & cs & Hm & _).
    destruct (IH (fst (draw p1))) as [p' Hp'].
    exists p'. exact (ticks_succ store n p p1 p' false 0 [] [] es [] cs Hm Hp').
Qed.

End DeltaInvincible.

(** ** C10: the invincibility countdown *)

(** C10.  [Player.move] never decrements the invincibility countdown: it
    leaves it as it is, or finds it at 0 or below and sets it to 60.
    [Player.draw] is the only place that decrements it, by one, and only
    when the countdown is positive with [invincible % 6 >= 3], which is
    when the sprite is rendered.  So a countdown set to 60 is not over
    after 60 update ticks: it is still 60, and no life has been taken,
    after any number of frames (60 % 6 is 0, the hidden phase, in which
    [Player.draw] returns before the decrement). *)
Theorem C10_invincibility_countdown :
  (forall (store : CoinStore) (p p' : SML.Player.t) (dx : Q)
          (platforms : list Platform.t) (enemies es : list Enemy.t)
          (coins cs : list CoinRef),
      SML.Player.move store p dx platforms enemies coins = Some (p', es, cs) ->
      SML.Player.invincible p' = SML.Player.invincible p \/
      ((SML.Player.invincible p <= 0)%Z /\ SML.Player.invincible p' = 60%Z)) /\
  (forall p : SML.Player.t,
      SML.Player.invincible (fst (SML.Player.draw p)) = SML.Player.invincible p \/
      (SML.Player.invincible (fst (SML.Player.draw p))
         = (SML.Player.invincible p - 1)%Z /\
       (SML.Player.invincible p > 0)%Z /\
       (SML.Player.invincible p mod 6 >= 3)%Z /\
       snd (SML.Player.draw p) = true)) /\
  (forall (store : CoinStore) (n : nat) (p : SML.Player.t),
      SML.Player.invincible p = 60%Z ->
      (exists p', SML.Player.after_ticks store n p p') /\
      (forall p', SML.Player.after_ticks store n p p' ->
                  SML.Player.invincible p' = 60%Z /\
                  SML.Player.lives p' = SML.Player.lives p)) /\
  (forall (store : CoinStore) (p p' : Delta.Player.t) (dx : Q)
          (platforms : list Platform.t) (enemies es : list Enemy.t)
          (coins cs : list CoinRef),
      Delta.Player.move store p dx platforms enemies coins = Some (p', es, cs) ->
      Delta.Player.invincible p' = Delta.Player.invincible p \/
      ((Delta.Player.invincible p <= 0)%Z /\ Delta.Player.invincible p' = 60%Z)) /\
  (forall p : Delta.Player.t,
      Delta.Player.invincible (fst (Delta.Player.draw p)) = Delta.Player.invincible p \/
      (Delta.Player.invincible (fst (Delta.Player.draw p))
         = (Delta.Player.invincible p - 1)%Z /\
       (Delta.Player.invincible p > 0)%Z /\
       (Delta.Player.invincible p mod 6 >= 3)%Z /\
       snd (Delta.Player.draw p) = true)) /\
  (forall (store : CoinStore) (n : nat) (p : Delta.Player.t),
      Delta.Player.invincible p = 60%Z ->
      (exists p', Delta.Player.after_ticks store n p p') /\
      (forall p', Delta.Player.after_ticks store n p p' ->
                  Delta.Player.invincible p' = 60%Z /\
                  Delta.Player.lives p' = Delta.Player.lives p)).
Proof.
  split; [|split; [|split; [|split; [|split]]]].
  - intros store p p' dx platforms enemies es coins cs Hm.
    destruct (sml_move_counters _ _ _ _ _ _ _ _ _ Hm) as [[Hi _] | H];
      [left; exact Hi | right; exact H].
  - intros p. exact (proj2 (sml_draw_counters p)).
  - intros store n p H60. split; [apply sml_ticks_exist|].
    intros p' Ht. exact (sml_sixty_forever store n p p' Ht H60).
  - intros store p p' dx platforms enemies es coins cs Hm.
    destruct (delta_move_counters _ _ _ _ _ _ _ _ _ Hm) as [[Hi _] | H];
      [left; exact Hi | right; exact H].
  - intros p. exact (proj2 (delta_draw_counters p)).
  - intros store n p H60. split; [apply delta_ticks_exist|].
    intros p' Ht. exact (delta_sixty_forever store n p p' Ht H60).
Qed.

Lemma C10_invincibility_countdown_witness :
  (exists p',
     SML.Player.after_ticks Ex.no_coins 61 Ex.sml_hurt p' /\
     SML.Player.invincible p' = 60%Z /\ SML.Player.lives p' = 2%Z) /\
  (exists p',
     Delta.Player.after_ticks Ex.no_coins 61 Ex.delta_hurt p' /\
     Delta.Player.invincible p' = 60%Z /\ Delta.Player.lives p' = 2%Z) /\
  option_map (fun r => SML.Player.invincible (fst (fst r)))
    (SML.Player.move Ex.no_coins Ex.sml_touching 0 [] [Ex.walker] [])
  = Some 60%Z.
Proof.
  split; [|split].
  - destruct (proj1 (proj2 (proj2 C10_invincibility_countdown))
                Ex.no_coins 61%nat Ex.sml_hurt eq_refl) as [[p' Ht] Hall].
    exists p'. split; [exact Ht | exact (Hall p' Ht)].
  - destruct (proj2 (proj2 (proj2 (proj2 (proj2 C10_invincibility_countdown))))
                Ex.no_coins 61%nat Ex.delta_hurt eq_refl) as [[p' Ht] Hall].
    exists p'. split; [exact Ht | exact (Hall p' Ht)].
  - destruct (SML.Player.move Ex.no_coins Ex.sml_touching 0 [] [Ex.walker] [])
      as [[[p' es] cs]|] eqn:E; [|vm_compute in E; discriminate E].
    destruct (proj1 C10_invincibility_countdown _ _ _ _ _ _ _ _ _ E)
      as [H | [_ H]]; cbn.
    + vm_compute in E. injection E as <- _ _. discriminate H.
    + rewrite H. reflexivity.
Defined.

(** * Further properties of the code *)

(** ** Platform resolution in [Player.move] *)

Section SMLResolution.
Import SML SML.Player.

(** One step of the horizontal loop leaves the player beside the platform
    it was resolved against: right side on the platform's left edge when
    moving right, left side on the platform's right edge otherwise (also
    when standing still). *)
Lemma sml_horizontal_step_separates (dx : Q) (p : t) (q : Platform.t) :
  collision (horizontal_step dx p q) q = false /\
  (collision p q = false -> horizontal_step dx p q = p) /\
  (collision p q = true ->
   (dx > 0 -> x (horizontal_step dx p q) + width p == Platform.x q) /\
   (~ dx > 0 ->
    x (horizontal_step dx p q) = Platform.x q + Platform.width q)).
Proof.
  unfold horizontal_step.
  destruct (collision p q) eqn:Hc.
  - destruct (Qgt_bool dx 0) eqn:Hd.
    + split; [|split; [discriminate|]].
      * apply not_true_iff_false. rewrite collision_spec. cbn.
        intros (_ & H2 & _). lra.
      * intros _. split; [intros _; cbn; lra|].
        intros Hn. apply Qgt_bool_iff in Hd. contradiction.
    + split; [|split; [discriminate|]].
      * apply not_true_iff_false. rewrite collision_spec. cbn.
        intros (H1 & _). lra.
      * intros _. split; [|intros _; reflexivity].
        intros Hp. apply Qgt_bool_iff in Hp. congruence.
  - split; [exact Hc | split; [reflexivity | discriminate]].
Qed.

(** One step of the vertical loop on a player that moves vertically and
    overlaps the platform puts it on top of the platform (falling) or under
    it (rising), at rest and clear of the platform; a player with
    [vel_y = 0] is left where it is, overlapping or not. *)
Lemma sml_vertical_step_separates (p : t) (b : bool) (q : Platform.t) :
  (collision p q = true -> ~ vel_y p == 0 ->
   collision (fst (vertical_step (p, b) q)) q = false /\
   vel_y (fst (vertical_step (p, b) q)) = 0 /\
   (vel_y p > 0 ->
    y (fst (vertical_step (p, b) q)) = Platform.y q - height p /\
    jumping (fst (vertical_step (p, b) q)) = false) /\
   (vel_y p < 0 ->
    y (fst (vertical_step (p, b) q)) = Platform.y q + Platform.height q /\
    jumping (fst (vertical_step (p, b) q)) = jumping p)) /\
  (vel_y p == 0 -> vertical_step (p, b) q = (p, b)).
Proof.
  unfold vertical_step. split.
  - intros Hc Hv. rewrite Hc.
    destruct (Qgt_bool (vel_y p) 0) eqn:Hg.
    + apply Qgt_bool_iff in Hg. cbn [fst].
      split; [|split; [reflexivity | split]].
      * apply not_true_iff_false. rewrite collision_spec. cbn.
        intros (_ & _ & _ & H4). lra.
      * intros _. split; reflexivity.
      * intros Hneg. lra.
    + apply Qgt_bool_false_iff in Hg.
      destruct (Qlt_bool (vel_y p) 0) eqn:Hl.
      * apply Qlt_bool_iff in Hl. cbn [fst].
        split; [|split; [reflexivity | split]].
        -- apply not_true_iff_false. rewrite collision_spec. cbn.
           intros (_ & _ & H3 & _). lra.
        -- intros Hpos. lra.
        -- intros _. split; reflexivity.
      * apply Qlt_bool_false_iff in Hl. exfalso. apply Hv. lra.
  - intros Hv.
    assert (Hg : Qgt_bool (vel_y p) 0 = false) by (apply Qgt_bool_false_iff; lra).
    assert (Hl : Qlt_bool (vel_y p) 0 = false) by (apply Qlt_bool_false_iff; lra).
    rewrite Hg, Hl. destruct (collision p q); reflexivity.
Qed.

End SMLResolution.

Section DeltaResolution.
Import Delta Delta.Player.

(** One step of the horizontal loop leaves the player beside the platform
    it was resolved against: right side on the platform's left edge when
    moving right, left side on the platform's right edge otherwise (also
    when standing still). *)
Lemma delta_horizontal_step_separates (dx : Q) (p : t) (q : Platform.t) :
  collision (horizontal_step dx p q) q = false /\
  (collision p q = false -> horizontal_step dx p q = p) /\
  (collision p q = true ->
   (dx > 0 -> x (horizontal_step dx p q) + width p == Platform.x q) /\
   (~ dx > 0 ->
    x (horizontal_step dx p q) = Platform.x q + Platform.width q)).
Proof.
  unfold horizontal_step.
  destruct (collision p q) eqn:Hc.
  - destruct (Qgt_bool dx 0) eqn:Hd.
    + split; [|split; [discriminate|]].
      * apply not_true_iff_false. rewrite collision_spec. cbn.
        intros (_ & H2 & _). lra.
      * intros _. split; [intros _; cbn; lra|].
        intros Hn. apply Qgt_bool_iff in Hd. contradiction.
    + split; [|split; [discriminate|]].
      * apply not_true_iff_false. rewrite collision_spec. cbn.
        intros (H1 & _). lra.
      * intros _. split; [|intros _; reflexivity].
        intros Hp. apply Qgt_bool_iff in Hp. congruence.
  - split; [exact Hc | split; [reflexivity | discriminate]].
Qed.

(** One step of the vertical loop on a player that moves vertically and
    overlaps the platform puts it on top of the platform (falling) or under
    it (rising), at rest and clear of the platform; a player with
    [vel_y = 0] is left where it is, overlapping or not. *)
Lemma delta_vertical_step_separates (p : t) (b : bool) (q : Platform.t) :
  (collision p q = true -> ~ vel_y p == 0 ->
   collision (fst (vertical_step (p, b) q)) q = false /\
   vel_y (fst (vertical_step (p, b) q)) = 0 /\
   (vel_y p > 0 ->
    y (fst (vertical_step (p, b) q)) = Platform.y q - height p /\
    jumping (fst (vertical_step (p, b) q)) = false) /\
   (vel_y p < 0 ->
    y (fst (vertical_step (p, b) q)) = Platform.y q + Platform.height q /\
    jumping (fst (vertical_step (p, b) q)) = jumping p)) /\
  (vel_y p == 0 -> vertical_step (p, b) q = (p, b)).
Proof.
  unfold vertical_step. split.
  - intros Hc Hv. rewrite Hc.
    destruct (Qgt_bool (vel_y p) 0) eqn:Hg.
    + apply Qgt_bool_iff in Hg. cbn [fst].
      split; [|split; [reflexivity | split]].
      * apply not_true_iff_false. rewrite collision_spec. cbn.
        intros (_ & _ & _ & H4). lra.
      * intros _. split; reflexivity.
      * intros Hneg. lra.
    + apply Qgt_bool_false_iff in Hg.
      destruct (Qlt_bool (vel_y p) 0) eqn:Hl.
      * apply Qlt_bool_iff in Hl. cbn [fst].
        split; [|split; [reflexivity | split]].
        -- apply not_true_iff_false. rewrite collision_spec. cbn.
           intros (_ & _ & H3 & _). lra.
        -- intros Hpos. lra.
        -- intros _. split; reflexivity.
      * apply Qlt_bool_false_iff in Hl. exfalso. apply Hv. lra.
  - intros Hv.
    assert (Hg : Qgt_bool (vel_y p) 0 = false) by (apply Qgt_bool_false_iff; lra).
    assert (Hl : Qlt_bool (vel_y p) 0 = false) by (apply Qlt_bool_false_iff; lra).
    rewrite Hg, Hl. destruct (collision p q); reflexivity.
Qed.

End DeltaResolution.

(** Platform resolution separates.  For a platform at whole coordinates
    and a player of whole size, as all of the game are (see [whole]: there
    the subtraction and the addition of the source are exact): in both
    variants a step of the horizontal loop ends with the player not
    overlapping the platform of that step; a player that overlapped it is
    put with its right side on the platform's left edge when [dx > 0] and
    with its left side on the platform's right edge otherwise, also when
    [dx = 0].  A step of the vertical loop on an overlapping player with
    [vel_y <> 0] ends at rest and clear of the platform, on top of it when
    falling and under it when rising (the jumping flag is then kept); a
    player with [vel_y = 0] is never moved by the vertical loop. *)
Theorem platform_resolution_separates :
  (forall (dx : Q) (p : SML.Player.t) (q : Platform.t),
      whole (Platform.x q) -> whole (SML.Player.width p) ->
      collision (SML.Player.horizontal_step dx p q) q = false /\
      (collision p q = true ->
       (dx > 0 -> SML.Player.x (SML.Player.horizontal_step dx p q)
                  + SML.Player.width p == Platform.x q) /\
       (~ dx > 0 -> SML.Player.x (SML.Player.horizontal_step dx p q)
                    = Platform.x q + Platform.width q))) /\
  (forall (p : SML.Player.t) (b : bool) (q : Platform.t),
      whole (Platform.y q) -> whole (SML.Player.height p) ->
      (collision p q = true -> ~ SML.Player.vel_y p == 0 ->
       collision (fst (SML.Player.vertical_step (p, b) q)) q = false /\
       SML.Player.vel_y (fst (SML.Player.vertical_step (p, b) q)) = 0) /\
      (SML.Player.vel_y p == 0 -> SML.Player.vertical_step (p, b) q = (p, b))) /\
  (forall (dx : Q) (p : Delta.Player.t) (q : Platform.t),
      whole (Platform.x q) -> whole (Delta.Player.width p) ->
      collision (Delta.Player.horizontal_step dx p q) q = false /\
      (collision p q = true ->
       (dx > 0 -> Delta.Player.x (Delta.Player.horizontal_step dx p q)
                  + Delta.Player.width p == Platform.x q) /\
       (~ dx > 0 -> Delta.Player.x (Delta.Player.horizontal_step dx p q)
                    = Platform.x q + Platform.width q))) /\
  (forall (p : Delta.Player.t) (b : bool) (q : Platform.t),
      whole (Platform.y q) -> whole (Delta.Player.height p) ->
      (collision p q = true -> ~ Delta.Player.vel_y p == 0 ->
       collision (fst (Delta.Player.vertical_step (p, b) q)) q = false /\
       Delta.Player.vel_y (fst (Delta.Player.vertical_step (p, b) q)) = 0) /\
      (Delta.Player.vel_y p == 0 ->
       Delta.Player.vertical_step (p, b) q = (p, b))).
Proof.
  split; [|split; [|split]].
  - intros dx p q _ _.
    destruct (sml_horizontal_step_separates dx p q) as (H1 & _ & H3).
    split; assumption.
  - intros p b q _ _.
    destruct (sml_vertical_step_separates p b q) as (H1 & H2).
    split; [|exact H2]. intros Hc Hv.
    destruct (H1 Hc Hv) as (Ha & Hb & _). split; assumption.
  - intros dx p q _ _.
    destruct (delta_horizontal_step_separates dx p q) as (H1 & _ & H3).
    split; assumption.
  - intros p b q _ _.
    destruct (delta_vertical_step_separates p b q) as (H1 & H2).
    split; [|exact H2]. intros Hc Hv.
    destruct (H1 Hc Hv) as (Ha & Hb & _). split; assumption.
Qed.

Lemma platform_resolution_separates_witness :
  let p := SML.Player.set_vel_y (SML.Player.init 10 95) 1 in
  let d := Delta.Player.set_vel_y (Delta.Player.init 10 95) (-1) in
  (whole (Platform.x Ex.upper) /\ whole (Platform.y Ex.upper) /\
   whole (SML.Player.width p) /\ whole (SML.Player.height p) /\
   whole (Delta.Player.width d) /\ whole (Delta.Player.height d)) /\
  (SML.Player.x (SML.Player.horizontal_step (3 # 2) p Ex.upper)
     + SML.Player.width p == Platform.x Ex.upper) /\
  (collision (fst (SML.Player.vertical_step (p, false) Ex.upper)) Ex.upper = false /\
   SML.Player.vel_y (fst (SML.Player.vertical_step (p, false) Ex.upper)) = 0) /\
  (Delta.Player.x (Delta.Player.horizontal_step 0 d Ex.upper)
     = Platform.x Ex.upper + Platform.width Ex.upper) /\
  (collision (fst (Delta.Player.vertical_step (d, false) Ex.upper)) Ex.upper = false /\
   Delta.Player.vel_y (fst (Delta.Player.vertical_step (d, false) Ex.upper)) = 0) /\
  SML.Player.vertical_step (SML.Player.init 10 95, true) Ex.upper
    = (SML.Player.init 10 95, true).
Proof.
  intros p d.
  assert (W0 : whole (Platform.x Ex.upper))
    by (exists 0%Z; split; [reflexivity | vm_compute; discriminate]).
  assert (W100 : whole (Platform.y Ex.upper))
    by (exists 100%Z; split; [reflexivity | vm_compute; discriminate]).
  assert (W8 : whole 8)
    by (exists 8%Z; split; [reflexivity | vm_compute; discriminate]).
  destruct platform_resolution_separates as (H1 & H2 & H3 & H4).
  split; [repeat split; assumption|].
  split; [|split; [|split; [|split]]].
  - apply (proj1 (proj2 (H1 (3 # 2) p Ex.upper W0 W8) eq_refl)). reflexivity.
  - apply (proj1 (H2 p false Ex.upper W100 W8) eq_refl). intros H. discriminate H.
  - apply (proj2 (proj2 (H3 0 d Ex.upper W0 W8) eq_refl)). intros H. discriminate H.
  - apply (proj1 (H4 d false Ex.upper W100 W8) eq_refl). intros H. discriminate H.
  - apply (proj2 (H2 (SML.Player.init 10 95) true Ex.upper W100 W8)). reflexivity.
Defined.

(** ** What a call of [Player.move] can do to lives, coins and enemies *)

Lemma filter_split_length {A : Type} (f : A -> bool) (l : list A) :
  (length (filter f l) + length (filter (fun a => negb (f a)) l))%nat = length l.
Proof.
  induction l as [|a l IH]; cbn; [reflexivity|].
  destruct (f a); cbn; lia.
Qed.

Section SMLBalance.
Import SML SML.Player.

(** An enemy contact takes at most one life, and only from a player whose
    countdown is at 0 or below; it leaves the enemy as it is or
    deactivates it, and the stomp is what adds a coin. *)
Lemma sml_enemy_contact_balance (p : t) (e : Enemy.t) :
  let p' := fst (enemy_contact p e) in
  let e' := snd (enemy_contact p e) in
  ((invincible p' = invincible p /\ lives p' = lives p) \/
   ((invincible p <= 0)%Z /\ invincible p' = 60%Z /\
    lives p' = (lives p - 1)%Z)) /\
  (e' = e \/ (Enemy.active e = true /\ e' = Enemy.set_active e false)) /\
  (coins p' + Z.of_nat (length (filter Enemy.active [e'])) =
   coins p + Z.of_nat (length (filter Enemy.active [e])))%Z.
Proof.
  unfold enemy_contact.
  destruct (Enemy.active e) eqn:Ha; cbn [andb];
    [|cbn; rewrite Ha; repeat split; left; split; reflexivity].
  destruct (collision p e);
    [|cbn; rewrite Ha; repeat split; left; split; reflexivity].
  destruct (Qgt_bool (vel_y p) 0 && Qlt_bool (y p) (Enemy.y e)).
  - cbn. rewrite Ha. cbn. split; [left; split; reflexivity|].
    split; [right; split; reflexivity | lia].
  - destruct (invincible p <=? 0)%Z eqn:E.
    + apply Z.leb_le in E. cbn [fst snd]. split; [right | split; [left; reflexivity|]].
      * unfold take_damage. cbn. destruct (lives p - 1 <=? 0)%Z; cbn;
          repeat split; first [exact E | reflexivity].
      * unfold take_damage. cbn. destruct (lives p - 1 <=? 0)%Z; reflexivity.
    + cbn. rewrite Ha. repeat split; left; split; reflexivity.
Qed.

(** The same for the whole enemy loop: once a life is taken the countdown
    is 60 and no further life goes in this loop. *)
Lemma sml_enemy_loop_balance (enemies : list Enemy.t) (p : t) :
  let p' := fst (enemy_loop p enemies) in
  let es := snd (enemy_loop p enemies) in
  ((invincible p' = invincible p /\ lives p' = lives p) \/
   ((invincible p <= 0)%Z /\ invincible p' = 60%Z /\
    lives p' = (lives p - 1)%Z)) /\
  Forall2 (fun e e' => e' = e \/
                       (Enemy.active e = true /\ e' = Enemy.set_active e false))
          enemies es /\
  (coins p' + Z.of_nat (length (filter Enemy.active es)) =
   coins p + Z.of_nat (length (filter Enemy.active enemies)))%Z.
Proof.
  revert p. induction enemies as [|e rest IH]; intros p; cbn [enemy_loop].
  - cbn. split; [left; split; reflexivity | split; [constructor | reflexivity]].
  - pose proof (sml_enemy_contact_balance p e) as H1.
    destruct (enemy_contact p e) as [p1 e1]. cbn [fst snd] in H1.
    pose proof (IH p1) as H2.
    destruct (enemy_loop p1 rest) as [p2 rest']. cbn [fst snd] in *.
    cbv zeta in *.
    destruct H1 as (L1 & E1 & C1), H2 as (L2 & E2 & C2).
    split; [|split].
    + destruct L1 as [[Hi1 Hl1] | (Hle1 & Hi1 & Hl1)],
               L2 as [[Hi2 Hl2] | (Hle2 & Hi2 & Hl2)].
      * left. split; congruence.
      * right. rewrite <- Hi1, <- Hl1. repeat split; assumption.
      * right. repeat split; [exact Hle1 | congruence | congruence].
      * rewrite Hi1 in Hle2. lia.
    + constructor; assumption.
    + cbn [filter] in *.
      destruct (Enemy.active e1), (Enemy.active e); cbn [length] in *; lia.
Qed.

Lemma sml_before_enemies_balance (p : t) (dx : Q) (platforms : list Platform.t) :
  let p' := fst (fold_left vertical_step platforms
                   (move_to_gravity p dx platforms, false)) in
  invincible p' = invincible p /\ lives p' = lives p /\ coins p' = coins p.
Proof.
  cbv zeta.
  destruct (sml_vertical_loop_counters platforms (move_to_gravity p dx platforms) false)
    as [Hi Hl].
  destruct (sml_move_to_gravity_counters p dx platforms) as [Hi0 Hl0].
  split; [congruence | split; [congruence|]].
  assert (Hv : forall l q b, coins (fst (fold_left vertical_step l (q, b))) = coins q).
  { induction l as [|r l IH]; intros q b; cbn [fold_left]; [reflexivity|].
    destruct (vertical_step (q, b) r) as [q1 b1] eqn:E. rewrite IH.
    unfold vertical_step in E.
    destruct (collision q r);
      [destruct (Qgt_bool (vel_y q) 0); [|destruct (Qlt_bool (vel_y q) 0)]|];
      injection E as <- _; reflexivity. }
  assert (Hh : forall l q, coins (fold_left (horizontal_step dx) l q) = coins q).
  { induction l as [|r l IH]; intros q; cbn [fold_left]; [reflexivity|].
    rewrite IH. unfold horizontal_step.
    destruct (collision q r); [destruct (Qgt_bool dx 0)|]; reflexivity. }
  rewrite Hv. unfold move_to_gravity, apply_gravity. cbn. rewrite Hh.
  unfold move_horizontal.
  destruct (negb (Qeq_bool dx 0)); [cbn; destruct (Qge_bool _ _)|]; reflexivity.
Qed.

(** A call of [Player.move] takes at most one life, only deactivates
    enemies, and keeps the sum of the coin count, the active enemies and
    the coins left in the level. *)
Lemma sml_move_balance (store : CoinStore) (p p' : t) (dx : Q)
    (platforms : list Platform.t) (enemies es : list Enemy.t)
    (coins cs : list CoinRef) :
  move store p dx platforms enemies coins = Some (p', es, cs) ->
  (lives p' = lives p \/
   ((invincible p <= 0)%Z /\ lives p' = (lives p - 1)%Z)) /\
  Forall2 (fun e e' => e' = e \/
                       (Enemy.active e = true /\ e' = Enemy.set_active e false))
          enemies es /\
  (Player.coins p' + Z.of_nat (length (filter Enemy.active es))
     + Z.of_nat (length cs) =
   Player.coins p + Z.of_nat (length (filter Enemy.active enemies))
     + Z.of_nat (length coins))%Z.
Proof.
  intros Hm. destruct (active p) eqn:Hact.
  - rewrite (sml_move_active _ _ _ _ _ _ Hact) in Hm. cbv zeta in Hm.
    injection Hm as <- <- <-.
    unfold move_to_enemies.
    destruct (sml_before_enemies_balance p dx platforms) as (Hi0 & Hl0 & Hc0).
    destruct (fold_left vertical_step platforms (move_to_gravity p dx platforms, false))
      as [pv b]. cbn [fst] in Hi0, Hl0, Hc0.
    destruct (sml_enemy_loop_balance enemies pv) as (HL & HE & HC).
    destruct (enemy_loop pv enemies) as [pe es]. cbn [fst snd] in *.
    set (hit := fun r => collision pe (store r)).
    destruct (sml_pickups_place (length (filter hit coins)) pe)
      as (_ & _ & Hl3 & _ & _ & Hc3).
    destruct (sml_check_bounds_place (Nat.iter (length (filter hit coins)) pickup pe))
      as (_ & Hc4).
    assert (Hl4 : lives (check_bounds (Nat.iter (length (filter hit coins)) pickup pe))
                  = lives pe).
    { unfold check_bounds. destruct (Qgt_bool _ _); cbn; exact Hl3. }
    pose proof (filter_split_length hit coins) as Hsplit.
    subst hit. cbv beta in *.
    split; [|split].
    + rewrite Hl4. destruct HL as [[_ Hl] | (Hle & _ & Hl)].
      * left. congruence.
      * right. split; [rewrite <- Hi0; exact Hle | congruence].
    + exact HE.
    + rewrite Hc4, Hc3. lia.
  - unfold move in Hm. rewrite Hact in Hm. cbn [negb] in Hm.
    injection Hm as <- <- <-.
    split; [left; reflexivity | split; [|reflexivity]].
    clear. induction enemies; constructor; [left; reflexivity | assumption].
Qed.

End SMLBalance.

Section DeltaBalance.
Import Delta Delta.Player.

(** An enemy contact takes at most one life, and only from a player whose
    countdown is at 0 or below; it leaves the enemy as it is or
    deactivates it, and the stomp is what adds a coin. *)
Lemma delta_enemy_contact_balance (p : t) (e : Enemy.t) :
  let p' := fst (enemy_contact p e) in
  let e' := snd (enemy_contact p e) in
  ((invincible p' = invincible p /\ lives p' = lives p) \/
   ((invincible p <= 0)%Z /\ invincible p' = 60%Z /\
    lives p' = (lives p - 1)%Z)) /\
  (e' = e \/ (Enemy.active e = true /\ e' = Enemy.set_active e false)) /\
  (coins p' + Z.of_nat (length (filter Enemy.active [e'])) =
   coins p + Z.of_nat (length (filter Enemy.active [e])))%Z.
Proof.
  unfold enemy_contact.
  destruct (Enemy.active e) eqn:Ha; cbn [andb];
    [|cbn; rewrite Ha; repeat split; left; split; reflexivity].
  destruct (collision p e);
    [|cbn; rewrite Ha; repeat split; left; split; reflexivity].
  destruct (Qgt_bool (vel_y p) 0 && Qlt_bool (y p) (Enemy.y e)).
  - cbn. rewrite Ha. cbn. split; [left; split; reflexivity|].
    split; [right; split; reflexivity | lia].
  - destruct (invincible p <=? 0)%Z eqn:E.
    + apply Z.leb_le in E. cbn [fst snd]. split; [right | split; [left; reflexivity|]].
      * unfold take_damage. cbn. destruct (lives p - 1 <=? 0)%Z; cbn;
          repeat split; first [exact E | reflexivity].
      * unfold take_damage. cbn. destruct (lives p - 1 <=? 0)%Z; reflexivity.
    + cbn. rewrite Ha. repeat split; left; split; reflexivity.
Qed.

(** The same for the whole enemy loop: once a life is taken the countdown
    is 60 and no further life goes in this loop. *)
Lemma delta_enemy_loop_balance (enemies : list Enemy.t) (p : t) :
  let p' := fst (enemy_loop p enemies) in
  let es := snd (enemy_loop p enemies) in
  ((invincible p' = invincible p /\ lives p' = lives p) \/
   ((invincible p <= 0)%Z /\ invincible p' = 60%Z /\
    lives p' = (lives p - 1)%Z)) /\
  Forall2 (fun e e' => e' = e \/
                       (Enemy.active e = true /\ e' = Enemy.set_active e false))
          enemies es /\
  (coins p' + Z.of_nat (length (filter Enemy.active es)) =
   coins p + Z.of_nat (length (filter Enemy.active enemies)))%Z.
Proof.
  revert p. induction enemies as [|e rest IH]; intros p; cbn [enemy_loop].
  - cbn. split; [left; split; reflexivity | split; [constructor | reflexivity]].
  - pose proof (delta_enemy_contact_balance p e) as H1.
    destruct (enemy_contact p e) as [p1 e1]. cbn [fst snd] in H1.
    pose proof (IH p1) as H2.
    destruct (enemy_loop p1 rest) as [p2 rest']. cbn [fst snd] in *.
    cbv zeta in *.
    destruct H1 as (L1 & E1 & C1), H2 as (L2 & E2 & C2).
    split; [|split].
    + destruct L1 as [[Hi1 Hl1] | (Hle1 & Hi1 & Hl1)],
               L2 as [[Hi2 Hl2] | (Hle2 & Hi2 & Hl2)].
      * left. split; congruence.
      * right. rewrite <- Hi1, <- Hl1. repeat split; assumption.
      * right. repeat split; [exact Hle1 | congruence | congruence].
      * rewrite Hi1 in Hle2. lia.
    + constructor; assumption.
    + cbn [filter] in *.
      destruct (Enemy.active e1), (Enemy.active e); cbn [length] in *; lia.
Qed.

Lemma delta_before_enemies_balance (p : t) (dx : Q) (platforms : list Platform.t) :
  let p' := fst (fold_left vertical_step platforms
                   (move_to_gravity p dx platforms, false)) in
  invincible p' = invincible p /\ lives p' = lives p /\ coins p' = coins p.
Proof.
  cbv zeta.
  destruct (delta_vertical_loop_counters platforms (move_to_gravity p dx platforms) false)
    as [Hi Hl].
  destruct (delta_move_to_gravity_counters p dx platforms) as [Hi0 Hl0].
  split; [congruence | split; [congruence|]].
  assert (Hv : forall l q b, coins (fst (fold_left vertical_step l (q, b))) = coins q).
  { induction l as [|r l IH]; intros q b; cbn [fold_left]; [reflexivity|].
    destruct (vertical_step (q, b) r) as [q1 b1] eqn:E. rewrite IH.
    unfold vertical_step in E.
    destruct (collision q r);
      [destruct (Qgt_bool (vel_y q) 0); [|destruct (Qlt_bool (vel_y q) 0)]|];
      injection E as <- _; reflexivity. }
  assert (Hh : forall l q, coins (fold_left (horizontal_step dx) l q) = coins q).
  { induction l as [|r l IH]; intros q; cbn [fold_left]; [reflexivity|].
    rewrite IH. unfold horizontal_step.
    destruct (collision q r); [destruct (Qgt_bool dx 0)|]; reflexivity. }
  rewrite Hv. unfold move_to_gravity, apply_gravity. cbn. rewrite Hh.
  unfold move_horizontal.
  destruct (negb (Qeq_bool dx 0)); [cbn; destruct (Qge_bool _ _)|]; reflexivity.
Qed.

(** A call of [Player.move] takes at most one life, only deactivates
    enemies, and keeps the sum of the coin count, the active enemies and
    the coins left in the level. *)
Lemma delta_move_balance (store : CoinStore) (p p' : t) (dx : Q)
    (platforms : list Platform.t) (enemies es : list Enemy.t)
    (coins cs : list CoinRef) :
  move store p dx platforms enemies coins = Some (p', es, cs) ->
  (lives p' = lives p \/
   ((invincible p <= 0)%Z /\ lives p' = (lives p - 1)%Z)) /\
  Forall2 (fun e e' => e' = e \/
                       (Enemy.active e = true /\ e' = Enemy.set_active e false))
          enemies es /\
  (Player.coins p' + Z.of_nat (length (filter Enemy.active es))
     + Z.of_nat (length cs) =
   Player.coins p + Z.of_nat (length (filter Enemy.active enemies))
     + Z.of_nat (length coins))%Z.
Proof.
  intros Hm. destruct (active p) eqn:Hact; [destruct (dying p) eqn:Hdy|].
  - unfold move in Hm. rewrite Hact, Hdy in Hm. cbn [negb] in Hm.
    injection Hm as <- <- <-.
    split; [left; unfold move_dying; cbn;
            destruct ((death_timer p + 1 >? 60)%Z || _); reflexivity|].
    split; [clear; induction enemies; constructor;
            [left; reflexivity | assumption]|].
    unfold move_dying. cbn.
    destruct ((death_timer p + 1 >? 60)%Z || _); reflexivity.
  - rewrite (delta_move_active _ _ _ _ _ _ Hact Hdy) in Hm. cbv zeta in Hm.
    injection Hm as <- <- <-.
    unfold move_to_enemies.
    destruct (delta_before_enemies_balance p dx platforms) as (Hi0 & Hl0 & Hc0).
    destruct (fold_left vertical_step platforms (move_to_gravity p dx platforms, false))
      as [pv b]. cbn [fst] in Hi0, Hl0, Hc0.
    destruct (delta_enemy_loop_balance enemies pv) as (HL & HE & HC).
    destruct (enemy_loop pv enemies) as [pe es]. cbn [fst snd] in *.
    set (hit := fun r => collision pe (store r)).
    destruct (delta_pickups_place (length (filter hit coins)) pe)
      as (_ & _ & Hl3 & _ & _ & _ & Hc3).
    destruct (delta_check_bounds_place (Nat.iter (length (filter hit coins)) pickup pe))
      as (_ & Hc4).
    assert (Hl4 : lives (check_bounds (Nat.iter (length (filter hit coins)) pickup pe))
                  = lives pe).
    { unfold check_bounds.
      destruct (Qgt_bool _ _); [destruct (negb _)|]; cbn; exact Hl3. }
    pose proof (filter_split_length hit coins) as Hsplit.
    subst hit. cbv beta in *.
    split; [|split].
    + rewrite Hl4. destruct HL as [[_ Hl] | (Hle & _ & Hl)].
      * left. congruence.
      * right. split; [rewrite <- Hi0; exact Hle | congruence].
    + exact HE.
    + rewrite Hc4, Hc3. lia.
  - unfold move in Hm. rewrite Hact in Hm. cbn [negb] in Hm.
    injection Hm as <- <- <-.
    split; [left; reflexivity | split; [|reflexivity]].
    clear. induction enemies; constructor; [left; reflexivity | assumption].
Qed.

End DeltaBalance.

(** One life per tick.  In both variants a call of [Player.move] returns
    and takes at most one life, however many enemies overlap the player,
    and none from a player whose invincibility countdown is positive: the
    first damage of the enemy loop sets the countdown to 60, which shields
    the player from the enemies that follow in the same loop. *)
Theorem move_takes_at_most_one_life :
  (forall (store : CoinStore) (p : SML.Player.t) (dx : Q)
          (platforms : list Platform.t) (enemies : list Enemy.t)
          (coins : list CoinRef),
      exists p' es cs,
        SML.Player.move store p dx platforms enemies coins = Some (p', es, cs) /\
        (SML.Player.lives p' = SML.Player.lives p \/
         ((SML.Player.invincible p <= 0)%Z /\
          SML.Player.lives p' = (SML.Player.lives p - 1)%Z))) /\
  (forall (store : CoinStore) (p : Delta.Player.t) (dx : Q)
          (platforms : list Platform.t) (enemies : list Enemy.t)
          (coins : list CoinRef),
      exists p' es cs,
        Delta.Player.move store p dx platforms enemies coins = Some (p', es, cs) /\
        (Delta.Player.lives p' = Delta.Player.lives p \/
         ((Delta.Player.invincible p <= 0)%Z /\
          Delta.Player.lives p' = (Delta.Player.lives p - 1)%Z))).
Proof.
  split; intros store p dx platforms enemies coins.
  - destruct (sml_move_incl store p dx platforms enemies coins)
      as (p' & es & cs & Hm & _).
    exists p', es, cs. split; [exact Hm|].
    exact (proj1 (sml_move_balance _ _ _ _ _ _ _ _ _ Hm)).
  - destruct (delta_move_incl store p dx platforms enemies coins)
      as (p' & es & cs & Hm & _).
    exists p', es, cs. split; [exact Hm|].
    exact (proj1 (delta_move_balance _ _ _ _ _ _ _ _ _ Hm)).
Qed.

(** [Player.move] and the enemies.  In both variants the enemy collection
    that [Player.move] leaves has the same enemies in the same order, each
    one as it was or, if it was active, deactivated: enemies are never
    moved, removed or reactivated by the player's update. *)
Theorem move_only_deactivates_enemies :
  (forall (store : CoinStore) (p : SML.Player.t) (dx : Q)
          (platforms : list Platform.t) (enemies : list Enemy.t)
          (coins : list CoinRef),
      exists p' es cs,
        SML.Player.move store p dx platforms enemies coins = Some (p', es, cs) /\
        Forall2 (fun e e' =>
                   e' = e \/
                   (Enemy.active e = true /\ e' = Enemy.set_active e false))
                enemies es) /\
  (forall (store : CoinStore) (p : Delta.Player.t) (dx : Q)
          (platforms : list Platform.t) (enemies : list Enemy.t)
          (coins : list CoinRef),
      exists p' es cs,
        Delta.Player.move store p dx platforms enemies coins = Some (p', es, cs) /\
        Forall2 (fun e e' =>
                   e' = e \/
                   (Enemy.active e = true /\ e' = Enemy.set_active e false))
                enemies es).
Proof.
  split; intros store p dx platforms enemies coins.
  - destruct (sml_move_incl store p dx platforms enemies coins)
      as (p' & es & cs & Hm & _).
    exists p', es, cs. split; [exact Hm|].
    exact (proj1 (proj2 (sml_move_balance _ _ _ _ _ _ _ _ _ Hm))).
  - destruct (delta_move_incl store p dx platforms enemies coins)
      as (p' & es & cs & Hm & _).
    exists p', es, cs. split; [exact Hm|].
    exact (proj1 (proj2 (delta_move_balance _ _ _ _ _ _ _ _ _ Hm))).
Qed.

(** Conservation of coins.  In both variants a call of [Player.move] keeps
    the sum of the player's coin count, the number of active enemies and
    the number of coins in the level: the count grows by exactly one for
    each enemy stomped and each coin removed, and by nothing else. *)
Theorem move_conserves_coins :
  (forall (store : CoinStore) (p : SML.Player.t) (dx : Q)
          (platforms : list Platform.t) (enemies : list Enemy.t)
          (coins : list CoinRef),
      exists p' es cs,
        SML.Player.move store p dx platforms enemies coins = Some (p', es, cs) /\
        (SML.Player.coins p' + Z.of_nat (length (filter Enemy.active es))
           + Z.of_nat (length cs) =
         SML.Player.coins p + Z.of_nat (length (filter Enemy.active enemies))
           + Z.of_nat (length coins))%Z) /\
  (forall (store : CoinStore) (p : Delta.Player.t) (dx : Q)
          (platforms : list Platform.t) (enemies : list Enemy.t)
          (coins : list CoinRef),
      exists p' es cs,
        Delta.Player.move store p dx platforms enemies coins = Some (p', es, cs) /\
        (Delta.Player.coins p' + Z.of_nat (length (filter Enemy.active es))
           + Z.of_nat (length cs) =
         Delta.Player.coins p + Z.of_nat (length (filter Enemy.active enemies))
           + Z.of_nat (length coins))%Z).
Proof.
  split; intros store p dx platforms enemies coins.
  - destruct (sml_move_incl store p dx platforms enemies coins)
      as (p' & es & cs & Hm & _).
    exists p', es, cs. split; [exact Hm|].
    exact (proj2 (proj2 (sml_move_balance _ _ _ _ _ _ _ _ _ Hm))).
  - destruct (delta_move_incl store p dx platforms enemies coins)
      as (p' & es & cs & Hm & _).
    exists p', es, cs. split; [exact Hm|].
    exact (proj2 (proj2 (delta_move_balance _ _ _ _ _ _ _ _ _ Hm))).
Qed.


(** ** [Player.jump] *)

Section SMLJump.
Import SML SML.Player.

Lemma sml_jump_twice (p : t) : jump (jump p) = jump p.
Proof.
  unfold jump. destruct (negb (jumping p)) eqn:E.
  - reflexivity.
  - rewrite E. reflexivity.
Qed.

Lemma sml_horizontal_loop_jumping (dx : Q) (platforms : list Platform.t) (p : t) :
  jumping (fold_left (horizontal_step dx) platforms p) = jumping p.
Proof.
  revert p. induction platforms as [|q rest IH]; intros p; cbn [fold_left].
  - reflexivity.
  - rewrite IH. unfold horizontal_step.
    destruct (collision p q); [destruct (Qgt_bool dx 0)|]; reflexivity.
Qed.

Lemma sml_vertical_loop_grounded (platforms : list Platform.t) (p : t) (b : bool) :
  jumping p = false -> jumping (fst (fold_left vertical_step platforms (p, b))) = false.
Proof.
  revert p b. induction platforms as [|q rest IH]; intros p b Hj; cbn [fold_left].
  - exact Hj.
  - destruct (vertical_step (p, b) q) as [p1 b1] eqn:E. apply IH.
    unfold vertical_step in E.
    destruct (collision p q);
      [destruct (Qgt_bool (vel_y p) 0); [|destruct (Qlt_bool (vel_y p) 0)]|];
      injection E as <- _; first [exact Hj | reflexivity].
Qed.

(** [Player.move] never sets the jumping flag. *)
Lemma sml_move_grounded (store : CoinStore) (p p' : t) (dx : Q)
    (platforms : list Platform.t) (enemies es : list Enemy.t)
    (coins cs : list CoinRef) :
  move store p dx platforms enemies coins = Some (p', es, cs) ->
  jumping p = false -> jumping p' = false.
Proof.
  intros Hm Hj. destruct (active p) eqn:Hact.
  - rewrite (sml_move_active _ _ _ _ _ _ Hact) in Hm. cbv zeta in Hm.
    injection Hm as <- _ _.
    unfold move_to_enemies.
    assert (H0 : jumping (move_to_gravity p dx platforms) = false).
    { unfold move_to_gravity, apply_gravity. cbn.
      rewrite sml_horizontal_loop_jumping. unfold move_horizontal.
      destruct (negb (Qeq_bool dx 0)); [cbn; destruct (Qge_bool _ _)|]; exact Hj. }
    pose proof (sml_vertical_loop_grounded platforms _ false H0) as H1.
    destruct (fold_left vertical_step platforms (move_to_gravity p dx platforms, false))
      as [pv b]. cbn [fst] in H1.
    pose proof (sml_enemy_loop_place enemies pv) as H2.
    destruct (enemy_loop pv enemies) as [pe es']. cbn [fst snd] in *.
    match goal with
    | |- context [Nat.iter ?n pickup pe] =>
        destruct (sml_pickups_place n pe) as (H3 & _);
        destruct (sml_check_bounds_place (Nat.iter n pickup pe)) as (H4 & _)
    end.
    unfold same_place in *.
    destruct H2 as (_ & _ & _ & _ & J2), H3 as (_ & _ & _ & _ & J3),
             H4 as (_ & _ & _ & _ & J4).
    congruence.
  - unfold move in Hm. rewrite Hact in Hm. cbn [negb] in Hm.
    injection Hm as <- _ _. exact Hj.
Qed.

End SMLJump.

Section DeltaJump.
Import Delta Delta.Player.

Lemma delta_jump_twice (p : t) : jump (jump p) = jump p.
Proof.
  unfold jump. destruct (negb (jumping p) && negb (dying p)) eqn:E.
  - reflexivity.
  - rewrite E. reflexivity.
Qed.

Lemma delta_horizontal_loop_jumping (dx : Q) (platforms : list Platform.t) (p : t) :
  jumping (fold_left (horizontal_step dx) platforms p) = jumping p.
Proof.
  revert p. induction platforms as [|q rest IH]; intros p; cbn [fold_left].
  - reflexivity.
  - rewrite IH. unfold horizontal_step.
    destruct (collision p q); [destruct (Qgt_bool dx 0)|]; reflexivity.
Qed.

Lemma delta_vertical_loop_grounded (platforms : list Platform.t) (p : t) (b : bool) :
  jumping p = false -> jumping (fst (fold_left vertical_step platforms (p, b))) = false.
Proof.
  revert p b. induction platforms as [|q rest IH]; intros p b Hj; cbn [fold_left].
  - exact Hj.
  - destruct (vertical_step (p, b) q) as [p1 b1] eqn:E. apply IH.
    unfold vertical_step in E.
    destruct (collision p q);
      [destruct (Qgt_bool (vel_y p) 0); [|destruct (Qlt_bool (vel_y p) 0)]|];
      injection E as <- _; first [exact Hj | reflexivity].
Qed.

(** [Player.move] never sets the jumping flag. *)
Lemma delta_move_grounded (store : CoinStore) (p p' : t) (dx : Q)
    (platforms : list Platform.t) (enemies es : list Enemy.t)
    (coins cs : list CoinRef) :
  move store p dx platforms enemies coins = Some (p', es, cs) ->
  jumping p = false -> jumping p' = false.
Proof.
  intros Hm Hj. destruct (active p) eqn:Hact; [destruct (dying p) eqn:Hdy|].
  - unfold move in Hm. rewrite Hact, Hdy in Hm. cbn [negb] in Hm.
    injection Hm as <- _ _. unfold move_dying. cbn.
    destruct ((death_timer p + 1 >? 60)%Z || _); exact Hj.
  - rewrite (delta_move_active _ _ _ _ _ _ Hact Hdy) in Hm. cbv zeta in Hm.
    injection Hm as <- _ _.
    unfold move_to_enemies.
    assert (H0 : jumping (move_to_gravity p dx platforms) = false).
    { unfold move_to_gravity, apply_gravity. cbn.
      rewrite delta_horizontal_loop_jumping. unfold move_horizontal.
      destruct (negb (Qeq_bool dx 0)); [cbn; destruct (Qge_bool _ _)|]; exact Hj. }
    pose proof (delta_vertical_loop_grounded platforms _ false H0) as H1.
    destruct (fold_left vertical_step platforms (move_to_gravity p dx platforms, false))
      as [pv b]. cbn [fst] in H1.
    pose proof (delta_enemy_loop_place enemies pv) as H2.
    destruct (enemy_loop pv enemies) as [pe es']. cbn [fst snd] in *.
    match goal with
    | |- context [Nat.iter ?n pickup pe] =>
        destruct (delta_pickups_place n pe) as (H3 & _);
        destruct (delta_check_bounds_place (Nat.iter n pickup pe)) as (H4 & _)
    end.
    unfold same_place in *.
    destruct H2 as (_ & _ & _ & _ & J2), H3 as (_ & _ & _ & _ & J3),
             H4 as (_ & _ & _ & _ & J4).
    congruence.
  - unfold move in Hm. rewrite Hact in Hm. cbn [negb] in Hm.
    injection Hm as <- _ _. exact Hj.
Qed.

End DeltaJump.

(** Jumping.  A jump is refused between a jump and the next landing and at
    no other time: [Player.jump] twice is [Player.jump] once, a player
    whose flag is clear gets the jump velocity wherever it is, and
    [Player.move] never sets the flag (it only clears it, on landing), so a
    player that leaves a platform without jumping can still jump while it
    falls.  In the extended variant a dying player cannot jump and the
    power-up multiplies the jump velocity by 1.2. *)
Theorem jump_only_refused_after_a_jump :
  ((forall p : SML.Player.t, SML.Player.jump (SML.Player.jump p) = SML.Player.jump p) /\
   (forall p : SML.Player.t,
       SML.Player.jumping p = false ->
       SML.Player.vel_y (SML.Player.jump p) = - JUMP_STRENGTH /\
       SML.Player.jumping (SML.Player.jump p) = true) /\
   (forall (store : CoinStore) (p : SML.Player.t) (dx : Q)
           (platforms : list Platform.t) (enemies : list Enemy.t)
           (coins : list CoinRef),
       exists p' es cs,
         SML.Player.move store p dx platforms enemies coins = Some (p', es, cs) /\
         (SML.Player.jumping p = false -> SML.Player.jumping p' = false))) /\
  ((forall p : Delta.Player.t,
       Delta.Player.jump (Delta.Player.jump p) = Delta.Player.jump p) /\
   (forall p : Delta.Player.t,
       Delta.Player.dying p = true -> Delta.Player.jump p = p) /\
   (forall p : Delta.Player.t,
       Delta.Player.jumping p = false -> Delta.Player.dying p = false ->
       Delta.Player.vel_y (Delta.Player.jump p) =
         - JUMP_STRENGTH * (if Delta.Player.power_up p then 12 # 10 else 1) /\
       Delta.Player.jumping (Delta.Player.jump p) = true) /\
   (forall (store : CoinStore) (p : Delta.Player.t) (dx : Q)
           (platforms : list Platform.t) (enemies : list Enemy.t)
           (coins : list CoinRef),
       exists p' es cs,
         Delta.Player.move store p dx platforms enemies coins = Some (p', es, cs) /\
         (Delta.Player.jumping p = false -> Delta.Player.jumping p' = false))).
Proof.
  split; [split; [|split] | split; [|split; [|split]]].
  - exact sml_jump_twice.
  - intros p Hj. unfold SML.Player.jump. rewrite Hj. split; reflexivity.
  - intros store p dx platforms enemies coins.
    destruct (sml_move_incl store p dx platforms enemies coins)
      as (p' & es & cs & Hm & _).
    exists p', es, cs. split; [exact Hm|].
    exact (sml_move_grounded _ _ _ _ _ _ _ _ _ Hm).
  - exact delta_jump_twice.
  - intros p Hd. unfold Delta.Player.jump. rewrite Hd, andb_false_r. reflexivity.
  - intros p Hj Hd. unfold Delta.Player.jump. rewrite Hj, Hd. split; reflexivity.
  - intros store p dx platforms enemies coins.
    destruct (delta_move_incl store p dx platforms enemies coins)
      as (p' & es & cs & Hm & _).
    exists p', es, cs. split; [exact Hm|].
    exact (delta_move_grounded _ _ _ _ _ _ _ _ _ Hm).
Qed.

Lemma jump_only_refused_after_a_jump_witness :
  (SML.Player.vel_y (SML.Player.jump Ex.sml_falling) = - JUMP_STRENGTH /\
   SML.Player.jumping (SML.Player.jump Ex.sml_falling) = true) /\
  (Delta.Player.vel_y (Delta.Player.jump Ex.delta_nineteen) =
     - JUMP_STRENGTH * (12 # 10) /\
   Delta.Player.jumping (Delta.Player.jump Ex.delta_nineteen) = true) /\
  Delta.Player.jump (Delta.Player.set_dying Ex.delta_falling true)
    = Delta.Player.set_dying Ex.delta_falling true.
Proof.
  destruct jump_only_refused_after_a_jump as ((_ & H2 & _) & (_ & H4 & H5 & _)).
  split; [|split].
  - exact (H2 Ex.sml_falling eq_refl).
  - exact (H5 Ex.delta_nineteen eq_refl eq_refl).
  - exact (H4 (Delta.Player.set_dying Ex.delta_falling true) eq_refl).
Defined.

(** ** The death animation of the extended variant *)

Section DeltaDying.
Import Delta Delta.Player.

Lemma delta_move_dying_spec (store : CoinStore) (p : t) (dx : Q)
    (platforms : list Platform.t) (enemies : list Enemy.t) (coins : list CoinRef) :
  active p = true -> dying p = true ->
  move store p dx platforms enemies coins = Some (move_dying p, enemies, coins) /\
  x (move_dying p) = x p /\
  death_timer (move_dying p) = (death_timer p + 1)%Z /\
  vel_y (move_dying p) = vel_y p + GRAVITY * (5 # 10) /\
  y (move_dying p) = y p + (vel_y p + GRAVITY * (5 # 10)) /\
  dying (move_dying p) = true /\
  lives (move_dying p) = lives p /\ Player.coins (move_dying p) = Player.coins p /\
  ((death_timer p + 1 > 60)%Z -> active (move_dying p) = false).
Proof.
  intros Hact Hdy. unfold move. rewrite Hact, Hdy. cbn [negb].
  split; [reflexivity|]. unfold move_dying. cbn.
  destruct (death_timer p + 1 >? 60)%Z eqn:E; cbn [orb].
  - cbn. repeat split; try reflexivity; exact Hdy.
  - destruct (Qgt_bool _ _); cbn; repeat split; try reflexivity; try exact Hdy;
      intros H; rewrite Z.gtb_ltb, Z.ltb_ge in E; lia.
Qed.

Lemma delta_draw_dying (p : t) : dying p = true -> draw p = (p, true).
Proof.
  intros Hdy. unfold draw. rewrite Hdy. cbn [negb]. rewrite !andb_false_r.
  reflexivity.
Qed.

(** While [dying] is set, frames leave [x], the lives and the coins alone;
    an inactive player stays inactive; an active one, whose death timer
    is at most 60, is inactive once the timer has passed 60. *)
Lemma delta_dying_ticks (store : CoinStore) (n : nat) (p p' : t) :
  after_ticks store n p p' -> dying p = true ->
  dying p' = true /\ x p' = x p /\ lives p' = lives p /\
  Player.coins p' = Player.coins p /\
  (active p = false -> active p' = false) /\
  ((death_timer p <= 60)%Z -> (death_timer p + Z.of_nat n > 60)%Z ->
   active p' = false).
Proof.
  induction 1 as [p | n p p1 p' jk dx platforms enemies es coins cs Hm _ IH];
    intros Hdy.
  - repeat split; try assumption; try reflexivity;
      [intros H; exact H | intros H1 H2; lia].
  - assert (Hj : (if jk then jump p else p) = p).
    { destruct jk; [|reflexivity]. unfold jump. rewrite Hdy, andb_false_r.
      reflexivity. }
    rewrite Hj in Hm. destruct (active p) eqn:Hact.
    + destruct (delta_move_dying_spec store p dx platforms enemies coins Hact Hdy)
        as (Hm' & Hx & Ht & _ & _ & Hd1 & Hl & Hc & Hoff).
      rewrite Hm in Hm'. injection Hm' as -> _ _.
      rewrite (delta_draw_dying _ Hd1) in IH. cbn [fst] in IH.
      destruct (IH Hd1) as (Hd' & Hx' & Hl' & Hc' & Hin & Hlate).
      split; [exact Hd' | split; [congruence | split; [congruence |
        split; [congruence | split; [intros H; congruence|]]]]].
      intros Hle Hgt.
      destruct (active (move_dying p)) eqn:Ha1; [|exact (Hin eq_refl)].
      destruct (Z_le_gt_dec (death_timer p + 1) 60) as [Hs | Hs].
      * apply Hlate; rewrite Ht; lia.
      * specialize (Hoff Hs). congruence.
    + unfold move in Hm. rewrite Hact in Hm. cbn [negb] in Hm.
      injection Hm as <- _ _.
      rewrite (delta_draw_dying _ Hdy) in IH. cbn [fst] in IH.
      destruct (IH Hdy) as (Hd' & Hx' & Hl' & Hc' & Hin & _).
      split; [exact Hd' | split; [exact Hx' | split; [exact Hl' |
        split; [exact Hc' | split; [intros _; exact (Hin Hact)|]]]]].
      intros _ _. exact (Hin Hact).
Qed.

End DeltaDying.

(** The death animation.  In the extended variant a call of [Player.move]
    on an active, dying player ignores [dx] and leaves the enemies and the
    coins as they are: it only advances the death timer by one and lets the
    player fall under half the gravity.  Over the frames of the game loop a
    dying player keeps its [x], lives and coin count and stays dying, and
    an active one whose timer is at most 60 is inactive as soon as the
    timer has passed 60, that is after at most 61 frames. *)
Theorem death_animation_ends :
  (forall (store : CoinStore) (p : Delta.Player.t) (dx : Q)
          (platforms : list Platform.t) (enemies : list Enemy.t)
          (coins : list CoinRef),
      Delta.Player.active p = true -> Delta.Player.dying p = true ->
      exists p1,
        Delta.Player.move store p dx platforms enemies coins
          = Some (p1, enemies, coins) /\
        Delta.Player.x p1 = Delta.Player.x p /\
        Delta.Player.death_timer p1 = (Delta.Player.death_timer p + 1)%Z /\
        Delta.Player.vel_y p1 = Delta.Player.vel_y p + GRAVITY * (5 # 10) /\
        Delta.Player.y p1 =
          Delta.Player.y p + (Delta.Player.vel_y p + GRAVITY * (5 # 10))) /\
  (forall (store : CoinStore) (n : nat) (p : Delta.Player.t),
      Delta.Player.active p = true -> Delta.Player.dying p = true ->
      (Delta.Player.death_timer p <= 60)%Z ->
      (Delta.Player.death_timer p + Z.of_nat n > 60)%Z ->
      (exists p', Delta.Player.after_ticks store n p p') /\
      (forall p', Delta.Player.after_ticks store n p p' ->
         Delta.Player.active p' = false /\ Delta.Player.dying p' = true /\
         Delta.Player.x p' = Delta.Player.x p /\
         Delta.Player.lives p' = Delta.Player.lives p /\
         Delta.Player.coins p' = Delta.Player.coins p)).
Proof.
  split.
  - intros store p dx platforms enemies coins Hact Hdy.
    destruct (delta_move_dying_spec store p dx platforms enemies coins Hact Hdy)
      as (Hm & Hx & Ht & Hv & Hy & _).
    exists (Delta.Player.move_dying p). repeat split; assumption.
  - intros store n p Hact Hdy Hle Hgt. split; [apply delta_ticks_exist|].
    intros p' Ht.
    destruct (delta_dying_ticks store n p p' Ht Hdy)
      as (Hd & Hx & Hl & Hc & _ & Hoff).
    repeat split; try assumption. exact (Hoff Hle Hgt).
Qed.

Lemma death_animation_ends_witness :
  let p := Delta.Player.set_dying (Delta.Player.init 100 100) true in
  (exists p1,
     Delta.Player.move Ex.no_coins p (3 # 2) Ex.stacked [Ex.walker] [] =
       Some (p1, [Ex.walker], []) /\
     Delta.Player.x p1 = Delta.Player.x p) /\
  (exists p', Delta.Player.after_ticks Ex.no_coins 61 p p' /\
              Delta.Player.active p' = false).
Proof.
  intros p. destruct death_animation_ends as [H1 H2]. split.
  - destruct (H1 Ex.no_coins p (3 # 2) Ex.stacked [Ex.walker] [] eq_refl eq_refl)
      as (p1 & Hm & Hx & _).
    exists p1. split; [exact Hm | exact Hx].
  - assert (Hle : (0 <= 60)%Z) by lia.
    assert (Hgt : (0 + Z.of_nat 61 > 60)%Z) by lia.
    destruct (H2 Ex.no_coins 61%nat p eq_refl eq_refl Hle Hgt) as [[p' Ht] Hall].
    exists p'. split; [exact Ht | exact (proj1 (Hall p' Ht))].
Defined.

(** ** Leaving the screen *)

(** Below the screen.  Whatever else happened in the tick, a player that
    [Player.move] leaves below the bottom of the screen ([y > 144]) is out:
    inactive in the base variant, without regard to its lives; in the
    extended variant an active player that was not dying is still active
    and is now dying. *)
Theorem below_the_screen_is_out :
  (forall (store : CoinStore) (p : SML.Player.t) (dx : Q)
          (platforms : list Platform.t) (enemies : list Enemy.t)
          (coins : list CoinRef),
      exists p' es cs,
        SML.Player.move store p dx platforms enemies coins = Some (p', es, cs) /\
        (SML.Player.y p' > GB_HEIGHT -> SML.Player.active p' = false)) /\
  (forall (store : CoinStore) (p : Delta.Player.t) (dx : Q)
          (platforms : list Platform.t) (enemies : list Enemy.t)
          (coins : list CoinRef),
      Delta.Player.active p = true -> Delta.Player.dying p = false ->
      exists p' es cs,
        Delta.Player.move store p dx platforms enemies coins = Some (p', es, cs) /\
        Delta.Player.active p' = true /\
        (Delta.Player.y p' > GB_HEIGHT -> Delta.Player.dying p' = true)).
Proof.
  split.
  - intros store p dx platforms enemies coins.
    destruct (SML.Player.active p) eqn:Hact.
    + destruct (sml_move_incl store p dx platforms enemies coins)
        as (p' & es & cs & Hm & _).
      exists p', es, cs. split; [exact Hm|].
      rewrite (sml_move_active _ _ _ _ _ _ Hact) in Hm. cbv zeta in Hm.
      injection Hm as <- _ _.
      unfold SML.Player.check_bounds.
      match goal with
      | |- context [Qgt_bool (SML.Player.y ?q) ?h] =>
          destruct (Qgt_bool (SML.Player.y q) h) eqn:E
      end.
      * intros _. reflexivity.
      * intros Hy. apply Qgt_bool_false_iff in E.
        exfalso. exact (Qlt_not_le _ _ Hy E).
    + unfold SML.Player.move. rewrite Hact. cbn [negb].
      eexists. eexists. eexists. split; [reflexivity|]. intros _. exact Hact.
  - intros store p dx platforms enemies coins Hact Hdy.
    destruct (delta_move_incl store p dx platforms enemies coins)
      as (p' & es & cs & Hm & _).
    exists p', es, cs. split; [exact Hm|].
    split; [exact (delta_move_stays_active _ _ _ _ _ _ _ _ _ Hact Hdy Hm)|].
    rewrite (delta_move_active _ _ _ _ _ _ Hact Hdy) in Hm. cbv zeta in Hm.
    injection Hm as <- _ _.
    unfold Delta.Player.check_bounds.
    match goal with
    | |- context [Qgt_bool (Delta.Player.y ?q) ?h] =>
        destruct (Qgt_bool (Delta.Player.y q) h) eqn:E;
          [destruct (negb (Delta.Player.dying q)) eqn:Ed|]
    end.
    + intros _. reflexivity.
    + intros _. apply negb_false_iff in Ed. exact Ed.
    + intros Hy. apply Qgt_bool_false_iff in E.
      exfalso. exact (Qlt_not_le _ _ Hy E).
Qed.

Lemma below_the_screen_is_out_witness :
  let p := Delta.Player.init 100 150 in
  exists p' es cs,
    Delta.Player.move Ex.no_coins p 0 [] [] [] = Some (p', es, cs) /\
    Delta.Player.active p' = true /\ Delta.Player.dying p' = true.
Proof.
  intros p.
  destruct (proj2 below_the_screen_is_out Ex.no_coins p 0 [] [] [] eq_refl eq_refl)
    as (p' & es & cs & Hm & Ha & Hd).
  exists p', es, cs. split; [exact Hm | split; [exact Ha|]].
  apply Hd. vm_compute in Hm. injection Hm as <- _ _. reflexivity.
Defined.

(** ** Enemy patrol *)

(** When the moved enemy stands on [p] and on no other platform of the
    collection, [Enemy.move] is the step, the animation and at most one
    turn, at [p]. *)
Lemma enemy_move_single (e : Enemy.t) (p : Platform.t)
    (before after : list Platform.t) :
  Enemy.active e = true ->
  Enemy.on (Enemy.advance e) p = true ->
  (forall q, In q (before ++ after) -> Enemy.on (Enemy.advance e) q = false) ->
  Enemy.move e (before ++ p :: after) =
  (if Enemy.at_edge (Enemy.advance e) p
   then Enemy.set_direction (Enemy.animate (Enemy.advance e))
          (Enemy.direction e * -1)%Z
   else Enemy.animate (Enemy.advance e)).
Proof.
  intros Hact Hon Hoff.
  set (e0 := Enemy.animate (Enemy.advance e)).
  assert (Hon0 : forall q, Enemy.on e0 q = Enemy.on (Enemy.advance e) q)
    by (intros q; apply animate_on).
  assert (Hedge0 : forall q, Enemy.at_edge e0 q = Enemy.at_edge (Enemy.advance e) q)
    by (intros q; apply animate_on).
  assert (Hd0 : Enemy.direction e0 = Enemy.direction e)
    by (subst e0; destruct (animate_fields (Enemy.advance e))
          as (_ & _ & _ & _ & Hd & _); exact Hd).
  unfold Enemy.move. rewrite Hact. cbn [negb]. fold e0.
  rewrite fold_left_app, edge_loop_no_flip.
  - cbn [fold_left]. unfold Enemy.edge_step at 2.
    rewrite Hon0, Hon, Hedge0.
    destruct (Enemy.at_edge (Enemy.advance e) p).
    + rewrite edge_loop_no_flip.
      * cbn [negb orb]. rewrite Hd0. reflexivity.
      * intros q Hq Honq. rewrite on_set_direction, Hon0 in Honq.
        rewrite (Hoff q) in Honq; [discriminate Honq|].
        apply in_or_app. right. exact Hq.
    + rewrite edge_loop_no_flip.
      * reflexivity.
      * intros q Hq Honq. rewrite Hon0 in Honq.
        rewrite (Hoff q) in Honq; [discriminate Honq|].
        apply in_or_app. right. exact Hq.
  - intros q Hq Honq. rewrite Hon0 in Honq.
    rewrite (Hoff q) in Honq; [discriminate Honq|].
    apply in_or_app. left. exact Hq.
Qed.

Lemma at_edge_left (e : Enemy.t) (p : Platform.t) :
  Enemy.direction e = (-1)%Z ->
  Enemy.at_edge e p = Qle_bool (Enemy.x e) (Platform.x p).
Proof.
  intros Hd. unfold Enemy.at_edge. rewrite Hd. cbn. apply orb_false_r.
Qed.

Lemma at_edge_right (e : Enemy.t) (p : Platform.t) :
  Enemy.direction e = 1%Z ->
  Enemy.at_edge e p =
  Qge_bool (Enemy.x e + Enemy.width e) (Platform.x p + Platform.width p).
Proof. intros Hd. unfold Enemy.at_edge. rewrite Hd. reflexivity. Qed.

(** One tick keeps a patrolling enemy patrolling, when the other platforms
    are out of its way. *)
Lemma patrol_step (p : Platform.t) (e : Enemy.t) (before after : list Platform.t) :
  Patrol.patrolling p e ->
  (forall q, In q (before ++ after) -> Patrol.clear_of p e q) ->
  Patrol.patrolling p (Enemy.move e (before ++ p :: after)).
Proof.
  intros (Hact & Hdir & Hy & Hs0 & Hsw & Hwp & Hlo & Hhi & Hleft & Hright) Hclear.
  destruct (animate_fields (Enemy.advance e)) as (Ax & Ay & Aw & Ah & Ad & As & Aa).
  change (Enemy.y (Enemy.advance e)) with (Enemy.y e) in Ay.
  change (Enemy.width (Enemy.advance e)) with (Enemy.width e) in Aw.
  change (Enemy.height (Enemy.advance e)) with (Enemy.height e) in Ah.
  change (Enemy.direction (Enemy.advance e)) with (Enemy.direction e) in Ad.
  change (Enemy.speed (Enemy.advance e)) with (Enemy.speed e) in As.
  change (Enemy.active (Enemy.advance e)) with (Enemy.active e) in Aa.
  (* where the step lands *)
  assert (Hx0 : Platform.x p - Enemy.speed e <= Enemy.x (Enemy.advance e) /\
                Enemy.x (Enemy.advance e)
                <= Platform.x p + Platform.width p - Enemy.width e + Enemy.speed e /\
                (Enemy.direction e = 1%Z ->
                 Enemy.x (Enemy.advance e) == Enemy.x e + Enemy.speed e /\
                 Enemy.x e + Enemy.width e <= Platform.x p + Platform.width p) /\
                (Enemy.direction e = (-1)%Z ->
                 Enemy.x (Enemy.advance e) == Enemy.x e - Enemy.speed e /\
                 Platform.x p <= Enemy.x e)).
  { unfold Enemy.advance. cbn [Enemy.x Enemy.set_x].
    destruct Hdir as [Hd | Hd]; rewrite Hd; unfold inject_Z.
    - destruct (Qlt_le_dec (Platform.x p + Platform.width p)
                           (Enemy.x e + Enemy.width e)) as [Hout | Hin].
      + apply Hright in Hout. rewrite Hd in Hout. discriminate Hout.
      + repeat split; intros; try discriminate; lra.
    - destruct (Qlt_le_dec (Enemy.x e) (Platform.x p)) as [Hout | Hin].
      + apply Hleft in Hout. rewrite Hd in Hout. discriminate Hout.
      + repeat split; intros; try discriminate; lra. }
  destruct Hx0 as (Hlo0 & Hhi0 & Hfwd & Hback).
  assert (Hon : Enemy.on (Enemy.advance e) p = true).
  { unfold Enemy.on. rewrite !andb_true_iff, Qgt_bool_iff, !Qlt_bool_iff.
    change (Enemy.width (Enemy.advance e)) with (Enemy.width e).
    change (Enemy.y (Enemy.advance e)) with (Enemy.y e).
    change (Enemy.height (Enemy.advance e)) with (Enemy.height e).
    repeat split; [lra | lra | exact Hy]. }
  assert (Hoff : forall q, In q (before ++ after) ->
                           Enemy.on (Enemy.advance e) q = false).
  { intros q Hq. unfold Enemy.on.
    change (Enemy.width (Enemy.advance e)) with (Enemy.width e).
    change (Enemy.y (Enemy.advance e)) with (Enemy.y e).
    change (Enemy.height (Enemy.advance e)) with (Enemy.height e).
    destruct (Hclear q Hq) as [Hv | [Hr | Hl]].
    - apply Qlt_bool_false_iff in Hv. rewrite Hv. apply andb_false_r.
    - assert (H : Qgt_bool (Enemy.x (Enemy.advance e) + Enemy.width e)
                           (Platform.x q) = false)
        by (apply Qgt_bool_false_iff; lra).
      rewrite H. reflexivity.
    - assert (H : Qlt_bool (Enemy.x (Enemy.advance e))
                           (Platform.x q + Platform.width q) = false)
        by (apply Qlt_bool_false_iff; lra).
      rewrite H. rewrite andb_false_r. reflexivity. }
  rewrite (enemy_move_single e p before after Hact Hon Hoff).
  unfold Patrol.patrolling.
  assert (Hflip : forall d : Z,
             let e1 := Enemy.set_direction (Enemy.animate (Enemy.advance e)) d in
             Enemy.x e1 = Enemy.x (Enemy.advance e) /\ Enemy.y e1 = Enemy.y e /\
             Enemy.width e1 = Enemy.width e /\ Enemy.height e1 = Enemy.height e /\
             Enemy.direction e1 = d /\ Enemy.speed e1 = Enemy.speed e /\
             Enemy.active e1 = Enemy.active e).
  { intros d. unfold Enemy.set_direction.
    cbn [Enemy.x Enemy.y Enemy.width Enemy.height Enemy.direction Enemy.speed
         Enemy.active].
    repeat split; assumption || reflexivity. }
  set (x0 := Enemy.x (Enemy.advance e)) in *.
  destruct Hdir as [Hd | Hd].
  - (* walking right *)
    destruct (Hfwd Hd) as [Hstep Hinside].
    rewrite (at_edge_right (Enemy.advance e) p Hd).
    change (Enemy.width (Enemy.advance e)) with (Enemy.width e).
    fold x0.
    destruct (Qge_bool (x0 + Enemy.width e)
                       (Platform.x p + Platform.width p)) eqn:E.
    + apply Qle_bool_iff in E.
      destruct (Hflip (Enemy.direction e * -1)%Z) as (Fx & Fy & Fw & Fh & Fd & Fs & Fa).
      rewrite Fx, Fy, Fw, Fh, Fd, Fs, Fa, Hd. clearbody x0.
      split; [exact Hact | split; [right; reflexivity|]].
      repeat split; try assumption; intros; try reflexivity; lra.
    + apply Qle_bool_false_iff in E.
      rewrite Ax, Ay, Aw, Ah, As, Aa, Ad, Hd. fold x0. clearbody x0.
      split; [exact Hact | split; [left; reflexivity|]].
      repeat split; try assumption; intros; try reflexivity; lra.
  - (* walking left *)
    destruct (Hback Hd) as [Hstep Hinside].
    rewrite (at_edge_left (Enemy.advance e) p Hd). fold x0.
    destruct (Qle_bool x0 (Platform.x p)) eqn:E.
    + apply Qle_bool_iff in E.
      destruct (Hflip (Enemy.direction e * -1)%Z) as (Fx & Fy & Fw & Fh & Fd & Fs & Fa).
      rewrite Fx, Fy, Fw, Fh, Fd, Fs, Fa, Hd. clearbody x0.
      split; [exact Hact | split; [left; reflexivity|]].
      repeat split; try assumption; intros; try reflexivity; lra.
    + apply Qle_bool_false_iff in E.
      rewrite Ax, Ay, Aw, Ah, As, Aa, Ad, Hd. fold x0. clearbody x0.
      split; [exact Hact | split; [right; reflexivity|]].
      repeat split; try assumption; intros; try reflexivity; lra.
Qed.

Lemma edge_loop_direction (platforms : list Platform.t) (e : Enemy.t) (b : bool) :
  let e' := fst (fold_left Enemy.edge_step platforms (e, b)) in
  Enemy.direction e' = Enemy.direction e \/
  Enemy.direction e' = (- Enemy.direction e)%Z.
Proof.
  revert e b. induction platforms as [|q rest IH]; intros e b; cbn [fold_left].
  - left. reflexivity.
  - destruct (Enemy.edge_step (e, b) q) as [e1 b1] eqn:E.
    assert (H1 : Enemy.direction e1 = Enemy.direction e \/
                 Enemy.direction e1 = (- Enemy.direction e)%Z).
    { unfold Enemy.edge_step in E.
      destruct (Enemy.on e q); [destruct (Enemy.at_edge e q)|];
        injection E as <- _; [right; cbn; lia | left; reflexivity | left; reflexivity]. }
    pose proof (IH e1 b1) as H2. cbv zeta in *.
    destruct H1 as [H1 | H1], H2 as [H2 | H2]; rewrite H2, H1;
      [left | right | right | left]; lia.
Qed.

(** What [Enemy.move] never touches, and what it does to [x] and to the
    direction. *)
Lemma enemy_move_static (e : Enemy.t) (platforms : list Platform.t) :
  let e' := Enemy.move e platforms in
  Enemy.y e' = Enemy.y e /\ Enemy.width e' = Enemy.width e /\
  Enemy.height e' = Enemy.height e /\ Enemy.speed e' = Enemy.speed e /\
  Enemy.active e' = Enemy.active e /\ Enemy.enemy_type e' = Enemy.enemy_type e /\
  (Enemy.direction e' = Enemy.direction e \/
   Enemy.direction e' = (- Enemy.direction e)%Z) /\
  (Enemy.active e = false -> e' = e) /\
  (Enemy.active e = true ->
   Enemy.x e' = Enemy.x e + Enemy.direction e * Enemy.speed e).
Proof.
  cbv zeta. unfold Enemy.move.
  destruct (Enemy.active e) eqn:Hact; cbn [negb].
  - set (e0 := Enemy.animate (Enemy.advance e)).
    assert (H0 : Enemy.x e0 = Enemy.x e + Enemy.direction e * Enemy.speed e /\
                 Enemy.y e0 = Enemy.y e /\ Enemy.width e0 = Enemy.width e /\
                 Enemy.height e0 = Enemy.height e /\
                 Enemy.direction e0 = Enemy.direction e /\
                 Enemy.speed e0 = Enemy.speed e /\ Enemy.active e0 = true /\
                 Enemy.enemy_type e0 = Enemy.enemy_type e).
    { subst e0. unfold Enemy.animate, Enemy.advance. cbn.
      destruct (Qge_bool _ _); cbn; repeat split; try reflexivity; exact Hact. }
    destruct H0 as (Hx & Hy & Hw & Hh & Hd & Hs & Ha & Ht).
    pose proof (edge_loop_fields platforms e0 false) as Hf.
    pose proof (edge_loop_direction platforms e0 false) as Hdir.
    assert (Hty : forall l e1 b1,
               Enemy.enemy_type (fst (fold_left Enemy.edge_step l (e1, b1)))
               = Enemy.enemy_type e1).
    { induction l as [|q l IH]; intros e1 b1; cbn [fold_left]; [reflexivity|].
      destruct (Enemy.edge_step (e1, b1) q) as [e2 b2] eqn:E. rewrite IH.
      unfold Enemy.edge_step in E.
      destruct (Enemy.on e1 q); [destruct (Enemy.at_edge e1 q)|];
        injection E as <- _; reflexivity. }
    specialize (Hty platforms e0 false).
    destruct (fold_left Enemy.edge_step platforms (e0, false)) as [e1 b1].
    cbn [fst] in *. cbv zeta in *.
    destruct Hf as (c1 & c2 & c3 & c4 & c5 & c6).
    assert (Hres : forall e2,
               e2 = e1 \/ e2 = Enemy.set_direction e1 (Enemy.direction e1 * -1)%Z ->
               Enemy.y e2 = Enemy.y e /\ Enemy.width e2 = Enemy.width e /\
               Enemy.height e2 = Enemy.height e /\ Enemy.speed e2 = Enemy.speed e /\
               Enemy.active e2 = true /\ Enemy.enemy_type e2 = Enemy.enemy_type e /\
               (Enemy.direction e2 = Enemy.direction e \/
                Enemy.direction e2 = (- Enemy.direction e)%Z) /\
               (true = false -> e2 = e) /\
               (true = true ->
                Enemy.x e2 = Enemy.x e + Enemy.direction e * Enemy.speed e)).
    { intros e2 [-> | ->]; cbn;
        repeat split; try congruence; try (intros; congruence);
        destruct Hdir as [Hdir | Hdir]; rewrite Hdir, Hd; lia. }
    destruct (negb b1); apply Hres; [right | left]; reflexivity.
  - split; [reflexivity | split; [reflexivity | split; [reflexivity |
      split; [reflexivity | split; [exact Hact | split; [reflexivity |
      split; [left; reflexivity | split]]]]]]].
    + intros _. reflexivity.
    + intros H. discriminate H.
Qed.

Lemma patrol_ticks (p : Platform.t) (e : Enemy.t) (before after : list Platform.t)
    (n : nat) :
  Patrol.patrolling p e ->
  (forall q, In q (before ++ after) -> Patrol.clear_of p e q) ->
  let en := Patrol.ticks n e (before ++ p :: after) in
  Patrol.patrolling p en /\
  Enemy.y en = Enemy.y e /\ Enemy.height en = Enemy.height e /\
  Enemy.speed en = Enemy.speed e /\ Enemy.width en = Enemy.width e.
Proof.
  intros Hpat Hclear. cbv zeta. unfold Patrol.ticks.
  induction n as [|n IH].
  - cbn [Nat.iter nat_rect]. split; [exact Hpat | repeat split; reflexivity].
  - rewrite Nat.iter_succ.
    destruct IH as (Hp & Hy & Hh & Hs & Hw).
    set (en := Nat.iter n (fun e0 => Enemy.move e0 (before ++ p :: after)) e) in *.
    destruct (enemy_move_static en (before ++ p :: after))
      as (My & Mw & Mh & Ms & _).
    split; [|repeat split; congruence].
    apply patrol_step; [exact Hp|].
    intros q Hq. unfold Patrol.clear_of. rewrite Hy, Hh, Hs.
    exact (Hclear q Hq).
Qed.

Lemma Qlt_bool_compat (a a' b b' : Q) :
  a == a' -> b == b' -> Qlt_bool a b = Qlt_bool a' b'.
Proof.
  intros Ha Hb.
  destruct (Qlt_bool a b) eqn:E1, (Qlt_bool a' b') eqn:E2; try reflexivity.
  - apply Qlt_bool_iff in E1. apply Qlt_bool_false_iff in E2. lra.
  - apply Qlt_bool_false_iff in E1. apply Qlt_bool_iff in E2. lra.
Qed.

(** The test [on] gives the same answer for two enemies with equal
    rectangles. *)
Lemma on_compat (e e' : Enemy.t) (q : Platform.t) :
  Enemy.x e' == Enemy.x e -> Enemy.y e' = Enemy.y e ->
  Enemy.width e' = Enemy.width e -> Enemy.height e' = Enemy.height e ->
  Enemy.on e' q = Enemy.on e q.
Proof.
  intros Hx Hy Hw Hh. unfold Enemy.on, Qgt_bool. rewrite Hy, Hw, Hh.
  rewrite (Qlt_bool_compat (Platform.x q) (Platform.x q)
             (Enemy.x e' + Enemy.width e) (Enemy.x e + Enemy.width e))
    by (try reflexivity; rewrite Hx; reflexivity).
  rewrite (Qlt_bool_compat (Enemy.x e') (Enemy.x e)
             (Platform.x q + Platform.width q) (Platform.x q + Platform.width q))
    by (try reflexivity; exact Hx).
  reflexivity.
Qed.

(** An active enemy that, once moved, stands on no platform turns
    around. *)
Lemma enemy_move_off_platform (e : Enemy.t) (platforms : list Platform.t) :
  Enemy.active e = true ->
  (forall q, In q platforms -> Enemy.on (Enemy.advance e) q = false) ->
  Enemy.move e platforms =
  Enemy.set_direction (Enemy.animate (Enemy.advance e)) (Enemy.direction e * -1)%Z.
Proof.
  intros Hact Hoff. unfold Enemy.move. rewrite Hact. cbn [negb].
  rewrite edge_loop_no_flip.
  - assert (Hex : existsb (Enemy.on (Enemy.animate (Enemy.advance e))) platforms = false).
    { apply not_true_iff_false. intros H. apply existsb_exists in H.
      destruct H as (q & Hq & Hon).
      rewrite (proj1 (animate_on _ _)), (Hoff q Hq) in Hon. discriminate Hon. }
    rewrite Hex. cbn [orb negb].
    destruct (animate_fields (Enemy.advance e)) as (_ & _ & _ & _ & Hd & _).
    rewrite Hd. reflexivity.
  - intros q Hq Hon.
    rewrite (proj1 (animate_on _ _)), (Hoff q Hq) in Hon. discriminate Hon.
Qed.

(** Enemies only walk.  [Enemy.move] never changes an enemy's [y], size,
    speed, activity or type: enemies do not fall, and a deactivated enemy
    stays where it was, for ever.  An inactive enemy is returned as it is;
    an active one is moved by [direction * speed], and its direction after
    the tick is the old one or its opposite. *)
Theorem enemy_move_only_walks (e : Enemy.t) (platforms : list Platform.t) :
  Enemy.y (Enemy.move e platforms) = Enemy.y e /\
  Enemy.width (Enemy.move e platforms) = Enemy.width e /\
  Enemy.height (Enemy.move e platforms) = Enemy.height e /\
  Enemy.speed (Enemy.move e platforms) = Enemy.speed e /\
  Enemy.active (Enemy.move e platforms) = Enemy.active e /\
  Enemy.enemy_type (Enemy.move e platforms) = Enemy.enemy_type e /\
  (Enemy.direction (Enemy.move e platforms) = Enemy.direction e \/
   Enemy.direction (Enemy.move e platforms) = (- Enemy.direction e)%Z) /\
  (Enemy.active e = false -> Enemy.move e platforms = e) /\
  (Enemy.active e = true ->
   Enemy.x (Enemy.move e platforms)
   = Enemy.x e + Enemy.direction e * Enemy.speed e).
Proof. exact (enemy_move_static e platforms). Qed.

Lemma enemy_move_only_walks_witness :
  Enemy.move (Enemy.set_active Ex.walker false) Ex.stacked
    = Enemy.set_active Ex.walker false /\
  Enemy.x (Enemy.move Ex.walker Ex.stacked)
    = Enemy.x Ex.walker + Enemy.direction Ex.walker * Enemy.speed Ex.walker.
Proof.
  split.
  - apply (enemy_move_only_walks (Enemy.set_active Ex.walker false) Ex.stacked).
    reflexivity.
  - apply (enemy_move_only_walks Ex.walker Ex.stacked). reflexivity.
Defined.

(** Off every platform an enemy jitters in place.  An active enemy that
    stands on no platform of the collection one step ahead makes its step
    and turns around.  When it also stands on none where it is, walks left
    or right, and its [x] and speed are multiples of 1/2 (as for every
    enemy of type 0; see [halves]: there the two steps of the source cancel
    exactly), it turns around on every tick: after two ticks it is back at
    its [x] with its old direction. *)
Theorem enemy_off_platform_jitters (e : Enemy.t) (platforms : list Platform.t) :
  Enemy.active e = true ->
  (forall q, In q platforms -> Enemy.on (Enemy.advance e) q = false) ->
  Enemy.direction (Enemy.move e platforms) = (- Enemy.direction e)%Z /\
  Enemy.x (Enemy.move e platforms)
    = Enemy.x e + Enemy.direction e * Enemy.speed e /\
  ((Enemy.direction e = 1%Z \/ Enemy.direction e = (-1)%Z) ->
   halves (Enemy.x e) -> halves (Enemy.speed e) ->
   (forall q, In q platforms -> Enemy.on e q = false) ->
   Enemy.direction (Enemy.move (Enemy.move e platforms) platforms)
     = Enemy.direction e /\
   Enemy.x (Enemy.move (Enemy.move e platforms) platforms) == Enemy.x e).
Proof.
  intros Hact Hahead.
  pose proof (enemy_move_off_platform e platforms Hact Hahead) as H1.
  destruct (enemy_move_static e platforms)
    as (My & Mw & Mh & Ms & Ma & _ & _ & _ & Mx).
  specialize (Mx Hact).
  assert (Hd1 : Enemy.direction (Enemy.move e platforms) = (- Enemy.direction e)%Z).
  { rewrite H1. cbn. lia. }
  split; [exact Hd1 | split; [exact Mx|]].
  intros _ _ _ Hhere.
  set (e1 := Enemy.move e platforms) in *.
  assert (Hact1 : Enemy.active e1 = true) by congruence.
  assert (Hback : Enemy.x (Enemy.advance e1) == Enemy.x e).
  { unfold Enemy.advance. cbn [Enemy.x Enemy.set_x]. rewrite Mx, Hd1, Ms.
    rewrite inject_Z_opp. lra. }
  assert (Hahead1 : forall q, In q platforms -> Enemy.on (Enemy.advance e1) q = false).
  { intros q Hq. rewrite <- (Hhere q Hq).
    apply on_compat; [exact Hback | exact My | exact Mw | exact Mh]. }
  pose proof (enemy_move_off_platform e1 platforms Hact1 Hahead1) as H2.
  destruct (enemy_move_static e1 platforms) as (_ & _ & _ & _ & _ & _ & _ & _ & Mx2).
  specialize (Mx2 Hact1).
  split.
  - rewrite H2. cbn. rewrite Hd1. lia.
  - rewrite Mx2. exact Hback.
Qed.

Lemma enemy_off_platform_jitters_witness :
  (halves (Enemy.x (Enemy.init 300 50 0)) /\
   halves (Enemy.speed (Enemy.init 300 50 0))) /\
  Enemy.direction (Enemy.move (Enemy.init 300 50 0) Ex.stacked) = 1%Z /\
  Enemy.x (Enemy.move (Enemy.move (Enemy.init 300 50 0) Ex.stacked) Ex.stacked)
    == 300.
Proof.
  assert (Hoff : forall e : Enemy.t,
             forallb (fun q => negb (Enemy.on e q)) Ex.stacked = true ->
             forall q, In q Ex.stacked -> Enemy.on e q = false).
  { intros e Hall q Hq.
    pose proof (proj1 (forallb_forall _ _) Hall q Hq) as H. cbv beta in H.
    apply negb_true_iff in H. exact H. }
  assert (Hx : halves (Enemy.x (Enemy.init 300 50 0)))
    by (exists 600%Z; split; [reflexivity | vm_compute; discriminate]).
  assert (Hs : halves (Enemy.speed (Enemy.init 300 50 0)))
    by (exists 1%Z; split; [reflexivity | vm_compute; discriminate]).
  destruct (enemy_off_platform_jitters (Enemy.init 300 50 0) Ex.stacked eq_refl
              (Hoff (Enemy.advance (Enemy.init 300 50 0)) eq_refl))
    as (H1 & _ & H3).
  destruct (H3 (or_intror eq_refl) Hx Hs (Hoff (Enemy.init 300 50 0) eq_refl))
    as (_ & H4).
  split; [split; assumption|]. split; [exact H1 | exact H4].
Defined.

(** A patrol stays on its platform.  An active enemy that stands on a
    platform at least as wide as itself, is slower than it is wide, and is
    at most one step outside the platform walking inwards, stays so on
    every later tick, provided every other platform of the collection is
    out of its way (too far above or below for the edge test, or beyond the
    reach of the patrol): it never leaves the platform by more than one
    step of its speed, never changes height, and keeps walking left or
    right. *)
Theorem patrol_stays_on_platform (p : Platform.t) (e : Enemy.t)
    (before after : list Platform.t) (n : nat) :
  Patrol.patrolling p e ->
  (forall q, In q (before ++ after) -> Patrol.clear_of p e q) ->
  let en := Patrol.ticks n e (before ++ p :: after) in
  Enemy.active en = true /\
  Platform.x p - Enemy.speed e <= Enemy.x en /\
  Enemy.x en <= Platform.x p + Platform.width p - Enemy.width e + Enemy.speed e /\
  Enemy.y en = Enemy.y e /\
  (Enemy.direction en = 1%Z \/ Enemy.direction en = (-1)%Z).
Proof.
  intros Hpat Hclear.
  destruct (patrol_ticks p e before after n Hpat Hclear)
    as ((Hact & Hdir & _ & _ & _ & _ & Hlo & Hhi & _) & Hy & _ & Hs & Hw).
  cbv zeta. rewrite Hs, Hw in *. repeat split; assumption.
Qed.

Lemma patrol_stays_on_platform_witness :
  let p := Platform.mk 80 100 32 8 in
  let e := Enemy.init 100 92 0 in
  let en := Patrol.ticks 100 e
              (SML.Level.ground 640 ++
               p :: [Platform.mk 140 80 24 8; Platform.mk 200 100 40 8;
                     Platform.mk 280 90 32 8]) in
  Enemy.active en = true /\
  Platform.x p - Enemy.speed e <= Enemy.x en /\
  Enemy.x en <= Platform.x p + Platform.width p - Enemy.width e + Enemy.speed e /\
  Enemy.y en = Enemy.y e /\
  (Enemy.direction en = 1%Z \/ Enemy.direction en = (-1)%Z).
Proof.
  intros p e.
  apply (patrol_stays_on_platform p e (SML.Level.ground 640)
           [Platform.mk 140 80 24 8; Platform.mk 200 100 40 8;
            Platform.mk 280 90 32 8] 100).
  - unfold Patrol.patrolling.
    split; [reflexivity | split; [right; reflexivity|]].
    repeat split; try (vm_compute; discriminate); try (vm_compute; reflexivity);
      intros H; vm_compute in H; discriminate H.
  - intros q Hq. unfold Patrol.clear_of. vm_compute in Hq.
    repeat (destruct Hq as [<- | Hq];
            [first [left; vm_compute; discriminate
                   | right; left; vm_compute; discriminate
                   | right; right; vm_compute; discriminate]|]).
    destruct Hq.
Defined.

(** ** The camera *)

Ltac no_if t :=
  lazymatch t with
  | context [if _ then _ else _] => fail
  | _ => idtac
  end.

(** Case analysis on the comparisons of the goal, innermost first. *)
Ltac camera_cases :=
  repeat match goal with
    | |- context [Qlt_bool ?a ?b] =>
        no_if a; no_if b;
        let E := fresh "E" in
        destruct (Qlt_bool a b) eqn:E;
        [apply Qlt_bool_iff in E | apply Qlt_bool_false_iff in E];
        cbv beta iota
    | |- context [Qgt_bool ?a ?b] =>
        no_if a; no_if b;
        let E := fresh "E" in
        destruct (Qgt_bool a b) eqn:E;
        [apply Qgt_bool_iff in E | apply Qgt_bool_false_iff in E];
        cbv beta iota
    end.

Lemma camera_band (player_x scroll_x m : Q) :
  0 <= m ->
  let s1 := if Qgt_bool (player_x - scroll_x) 107
            then player_x - 107 else scroll_x in
  let s2 := if Qlt_bool (player_x - s1) 53 then player_x - 53 else s1 in
  let r := py_max 0 (py_min s2 m) in
  (0 < r -> 53 <= player_x - r) /\
  (r < m -> player_x - r <= 107) /\
  (0 <= scroll_x -> scroll_x <= m ->
   53 <= player_x - scroll_x -> player_x - scroll_x <= 107 -> r == scroll_x).
Proof.
  intros Hm. cbv zeta. unfold py_min, py_max.
  split; [|split]; camera_cases; intros; lra.
Qed.

Lemma camera_stable (player_x scroll_x m : Q) :
  0 <= m ->
  let step := fun s =>
    let s1 := if Qgt_bool (player_x - s) 107 then player_x - 107 else s in
    let s2 := if Qlt_bool (player_x - s1) 53 then player_x - 53 else s1 in
    py_max 0 (py_min s2 m) in
  step (step scroll_x) == step scroll_x.
Proof.
  intros Hm. cbv zeta beta. unfold py_min, py_max.
  camera_cases; lra.
Qed.

(** The camera follows the player.  For a level at least as wide as the
    screen: after the camera lines the player is drawn at a screen column
    of at least [SCROLL_THRESH] = 53 unless the scroll is at the left end
    of the level, and of at most [GB_WIDTH - SCROLL_THRESH] = 107 unless it
    is at the right end; a scroll inside its range with the player inside
    that band is left as it is (the dead zone); and running the camera
    lines again without moving the player does not move the camera. *)
Theorem camera_follows_player (player_x scroll_x : Q) (level_width : Z) :
  (GB_WIDTH <= level_width)%Z ->
  let r := camera player_x scroll_x level_width in
  (0 < r -> SCROLL_THRESH <= player_x - r) /\
  (r < (level_width - GB_WIDTH)%Z ->
   player_x - r <= (GB_WIDTH - SCROLL_THRESH)%Z) /\
  (0 <= scroll_x -> scroll_x <= (level_width - GB_WIDTH)%Z ->
   SCROLL_THRESH <= player_x - scroll_x ->
   player_x - scroll_x <= (GB_WIDTH - SCROLL_THRESH)%Z ->
   r == scroll_x) /\
  camera player_x r level_width == r.
Proof.
  intros Hw.
  assert (Hm : 0 <= inject_Z (level_width - GB_WIDTH)).
  { change 0 with (inject_Z 0). rewrite <- Zle_Qle. lia. }
  cbv zeta.
  destruct (camera_band player_x scroll_x _ Hm) as (H1 & H2 & H3).
  split; [exact H1 | split; [exact H2 | split; [exact H3|]]].
  exact (camera_stable player_x scroll_x _ Hm).
Qed.

Lemma camera_follows_player_witness :
  SCROLL_THRESH <= 300 - camera 300 0 640 /\
  300 - camera 300 0 640 <= (GB_WIDTH - SCROLL_THRESH)%Z /\
  camera 300 220 640 == 220 /\
  camera 300 (camera 300 0 640) 640 == camera 300 0 640.
Proof.
  assert (Hw : (GB_WIDTH <= 640)%Z) by (unfold GB_WIDTH; lia).
  destruct (camera_follows_player 300 0 640 Hw) as (H1 & H2 & _ & H4).
  destruct (camera_follows_player 300 220 640 Hw) as (_ & _ & H3 & _).
  split; [apply H1; reflexivity | split; [apply H2; reflexivity | split]].
  - apply H3; vm_compute; discriminate.
  - exact H4.
Defined.

(** ** The state machine of [Game.run] *)

Section SMLMachine.
Import SML SMLRun SMLInv.

Lemma sml_start_level_fields (g : Game.t) (n : Z) :
  Game.state (Game.start_level g n) = playing /\
  Game.current_level (Game.start_level g n) = n /\
  Game.player (Game.start_level g n) = Some (Player.init 20 100) /\
  Game.level (Game.start_level g n) = Some (Level.init n) /\
  Game.scroll_x (Game.start_level g n) = 0 /\
  Game.level_unlocked (Game.start_level g n) = Game.level_unlocked g.
Proof.
  unfold Game.start_level.
  cbn [Game.state Game.current_level Game.player Game.level Game.scroll_x
       Game.level_unlocked].
  repeat split; try reflexivity.
  unfold Level.init. destruct (Level.layout n) as [[a b] c]. reflexivity.
Qed.

(** One key event makes at most one transition: the tests of the handler,
    though run one after the other on the updated state, never cascade. *)
Lemma sml_keydown_by_state (key : Key) (g : Game.t) :
  keydown key g =
  match Game.state g with
  | playing =>
      if Key_eqb key K_ESCAPE then Some (Game.set_state g menu)
      else if Key_eqb key K_SPACE || Key_eqb key K_UP then
        match Game.player g with
        | Some p => Some (set_player g (Some (Player.jump p)))
        | None => None
        end
      else Some g
  | menu =>
      if Key_eqb key K_RETURN then Some (Game.set_state g level_select)
      else Some g
  | level_select => select_level key g
  | game_over | victory =>
      if Key_eqb key K_RETURN then Some (Game.set_state g level_select)
      else Some g
  end.
Proof.
  destruct g as [st cl pl lv sx lu].
  unfold keydown, select_level, key_and_unlocked, set_player, Game.set_state.
  cbn [Game.state Game.current_level Game.player Game.level Game.scroll_x
       Game.level_unlocked].
  destruct st, key;
    cbv beta iota zeta delta [Key_eqb GameState_eqb orb Game.state
                              Game.level_unlocked Game.player];
    try reflexivity; try (destruct pl; reflexivity);
    repeat match goal with
      | |- context [list_getitem ?l ?i] =>
          destruct (list_getitem l i) as [[|]|];
          cbv beta iota zeta delta [Key_eqb GameState_eqb orb Game.state
                                    Game.level_unlocked Game.player
                                    Game.start_level]
      end;
    reflexivity.
Qed.

Lemma sml_draw_active (p : Player.t) :
  Player.active (fst (Player.draw p)) = Player.active p.
Proof.
  unfold Player.draw. destruct (negb (Player.active p)); [reflexivity|].
  destruct (Player.invincible p >? 0)%Z; [|reflexivity].
  destruct (Player.invincible p mod 6 <? 3)%Z; reflexivity.
Qed.

Lemma sml_jump_active (p : Player.t) :
  Player.active (Player.jump p) = Player.active p.
Proof. unfold Player.jump. destruct (negb (Player.jumping p)); reflexivity. Qed.

Lemma keeps_unlocked_refl (unlocked : list bool) : keeps_unlocked unlocked unlocked.
Proof. intros n Hn. exact Hn. Qed.

Lemma keeps_unlocked_trans (a b c : list bool) :
  keeps_unlocked a b -> keeps_unlocked b c -> keeps_unlocked a c.
Proof. intros Hab Hbc n Hn. apply Hbc, Hab, Hn. Qed.

Lemma sml_check_victory_wf (g : Game.t) (p : Player.t) (goal : Goal.t) :
  in_order (Game.level_unlocked g) ->
  (1 <= Game.current_level g <= 3)%Z ->
  list_getitem (Game.level_unlocked g) (Game.current_level g - 1) = Some true ->
  exists unlocked,
    Game.check_victory g p goal =
      Some (Game.mk (if collision p goal then victory else Game.state g)
              (Game.current_level g) (Game.player g) (Game.level g)
              (Game.scroll_x g) unlocked) /\
    in_order unlocked /\
    keeps_unlocked (Game.level_unlocked g) unlocked /\
    list_getitem unlocked (Game.current_level g - 1) = Some true.
Proof.
  destruct g as [st cl pl lv sx lu].
  cbn [Game.state Game.current_level Game.player Game.level Game.scroll_x
       Game.level_unlocked].
  intros Hord Hcl Hget. unfold Game.check_victory.
  destruct (collision p goal).
  2:{ exists lu. split; [reflexivity|]. split; [exact Hord|].
      split; [apply keeps_unlocked_refl | exact Hget]. }
  assert (Hcases : cl = 1%Z \/ cl = 2%Z \/ cl = 3%Z) by lia.
  destruct Hord as [-> | [-> | ->]], Hcases as [-> | [-> | ->]];
    vm_compute in Hget; try discriminate Hget; cbn;
    (eexists; split; [reflexivity|]);
    (split; [unfold in_order; auto|]);
    (split; [|reflexivity]);
    intros n Hn;
    do 4 (destruct n as [|n];
          [cbn in Hn |- *; first [reflexivity | discriminate Hn]|]);
    discriminate Hn.
Qed.


Lemma sml_wf_init : wf Game.init.
Proof.
  unfold wf, Game.init.
  cbn [Game.state Game.current_level Game.player Game.level Game.scroll_x
       Game.level_unlocked].
  split; [left; reflexivity|]. split; [lia|].
  split; [apply Qle_refl|]. split; [discriminate|].
  intros [H | [H | H]]; discriminate H.
Qed.

Lemma sml_playing_frame_wf (left right : bool) (g : Game.t) :
  wf g -> Game.state g = playing ->
  exists g',
    Game.playing_frame left right g = Some g' /\ wf g' /\
    in_level (Game.state g') /\
    Game.current_level g' = Game.current_level g /\
    keeps_unlocked (Game.level_unlocked g) (Game.level_unlocked g').
Proof.
  intros (Hord & Hcl & Hs0 & Hs1 & Hlev) Hst.
  destruct Hlev as (p & lv & Hp & Hl & Hw & Hget & Hact); [left; exact Hst|].
  destruct (sml_move_incl (Level.store lv) p (dx_of_keys left right)
              (Level.platforms lv) (Level.enemies lv) (Level.coins lv))
    as (p1 & es & cs & Hm & _).
  rewrite (sml_frame_unfold left right g p p1 lv es cs Hp Hl Hm).
  match goal with
  | |- context [Game.check_victory ?g1 p1 ?goal] =>
      destruct (sml_check_victory_wf g1 p1 goal Hord Hcl Hget)
        as (unlocked & Hv & Hord' & Hkeep & Hget'); rewrite Hv
  end.
  cbv zeta. eexists. split; [reflexivity|].
  cbn [Game.state Game.current_level Game.player Game.level Game.scroll_x
       Game.level_unlocked] in *.
  destruct (camera_clamped (Player.x p1) (Game.scroll_x g) (Level.level_width lv))
    as [Hc0 Hc1]; [rewrite Hw; unfold GB_WIDTH; lia|].
  assert (Hc1' : camera (Player.x p1) (Game.scroll_x g) (Level.level_width lv)
                 <= 480).
  { rewrite Hw in Hc1 |- *. exact Hc1. }
  assert (Hstate : in_level
            (Game.state (Game.check_game_over
               {| Game.state := if collision p1 (Level.goal lv) then victory
                                else Game.state g;
                  Game.current_level := Game.current_level g;
                  Game.player := Some p1;
                  Game.level :=
                    Some (Level.set_coins
                            (Level.set_enemies lv
                               (map (fun enemy => Enemy.move enemy (Level.platforms lv)) es))
                            cs);
                  Game.scroll_x :=
                    camera (Player.x p1) (Game.scroll_x g) (Level.level_width lv);
                  Game.level_unlocked := unlocked |} p1))).
  { unfold Game.check_game_over, in_level.
    destruct (negb (Player.active p1)); cbn; [auto|].
    destruct (collision p1 (Level.goal lv)); auto. }
  split; [|split; [exact Hstate|]].
  - unfold wf, Game.check_game_over.
    destruct (negb (Player.active p1)) eqn:Ha;
      cbn [Game.set_state Game.state Game.current_level Game.player Game.level
           Game.scroll_x Game.level_unlocked];
      (split; [exact Hord'|]); (split; [exact Hcl|]);
      (split; [exact Hc0|]); (split; [exact Hc1'|]);
      intros _; eexists; eexists;
      (split; [reflexivity|]); (split; [reflexivity|]);
      (split; [exact Hw|]); (split; [exact Hget'|]).
    + intros H; discriminate H.
    + intros _. rewrite sml_draw_active.
      destruct (Player.active p1); [reflexivity | discriminate Ha].
  - unfold Game.check_game_over.
    destruct (negb (Player.active p1)); cbn; split; auto.
Qed.


Lemma sml_set_state_wf (g : Game.t) (s : GameState) :
  wf g -> ~ in_level s -> wf (Game.set_state g s).
Proof.
  intros (Hord & Hcl & Hs0 & Hs1 & _) Hs. unfold wf, Game.set_state.
  cbn [Game.state Game.current_level Game.player Game.level Game.scroll_x
       Game.level_unlocked].
  split; [exact Hord|]. split; [exact Hcl|]. split; [exact Hs0|].
  split; [exact Hs1|]. intros H. destruct (Hs H).
Qed.

Lemma sml_set_player_wf (g : Game.t) (p p' : Player.t) :
  wf g -> Game.player g = Some p -> Player.active p' = Player.active p ->
  wf (set_player g (Some p')).
Proof.
  intros (Hord & Hcl & Hs0 & Hs1 & Hlev) Hp Hact. unfold wf, set_player.
  cbn [Game.state Game.current_level Game.player Game.level Game.scroll_x
       Game.level_unlocked].
  split; [exact Hord|]. split; [exact Hcl|]. split; [exact Hs0|].
  split; [exact Hs1|]. intros Hin.
  destruct (Hlev Hin) as (q & lv & Hq & Hl & Hw & Hget & Hon).
  rewrite Hp in Hq. injection Hq as <-.
  exists p', lv. split; [reflexivity|]. split; [exact Hl|].
  split; [exact Hw|]. split; [exact Hget|].
  intros Hst. rewrite Hact. exact (Hon Hst).
Qed.

Lemma sml_start_level_wf (g : Game.t) (n : Z) :
  in_order (Game.level_unlocked g) -> (1 <= n <= 3)%Z ->
  list_getitem (Game.level_unlocked g) (n - 1) = Some true ->
  wf (Game.start_level g n).
Proof.
  intros Hord Hn Hget.
  destruct (sml_start_level_fields g n) as (F1 & F2 & F3 & F4 & F5 & F6).
  unfold wf. rewrite F2, F3, F4, F5, F6.
  split; [exact Hord|]. split; [exact Hn|]. split; [apply Qle_refl|].
  split; [discriminate|]. intros _.
  exists (Player.init 20 100), (Level.init n).
  split; [reflexivity|]. split; [reflexivity|].
  split; [apply sml_level_width|]. split; [exact Hget|].
  intros _. reflexivity.
Qed.

Lemma sml_select_level_wf (key : Key) (g : Game.t) :
  wf g ->
  exists g',
    select_level key g = Some g' /\ wf g' /\
    Game.level_unlocked g' = Game.level_unlocked g.
Proof.
  intros Hwf. pose proof Hwf as (Hord & _).
  assert (Hstart : forall n, (1 <= n <= 3)%Z ->
            list_getitem (Game.level_unlocked g) (n - 1) = Some true ->
            exists g', Some (Game.start_level g n) = Some g' /\ wf g' /\
                       Game.level_unlocked g' = Game.level_unlocked g).
  { intros n Hn Hget. eexists. split; [reflexivity|].
    split; [apply sml_start_level_wf; assumption|].
    apply sml_start_level_fields. }
  assert (Hstay : exists g', Some g = Some g' /\ wf g' /\
                             Game.level_unlocked g' = Game.level_unlocked g).
  { exists g. split; [reflexivity|]. split; [exact Hwf | reflexivity]. }
  unfold select_level, key_and_unlocked.
  destruct key; cbn [Key_eqb]; try exact Hstay;
    destruct Hord as [E | [E | E]]; rewrite E in Hstart, Hstay |- *;
    repeat match goal with
      | |- context [list_getitem ?l ?i] =>
          let v := eval vm_compute in (list_getitem l i) in
          change (list_getitem l i) with v; cbv beta iota
      end;
    try exact Hstay; apply Hstart; try lia; reflexivity.
Qed.

Lemma sml_keydown_wf (key : Key) (g : Game.t) :
  wf g ->
  exists g',
    keydown key g = Some g' /\ wf g' /\
    Game.level_unlocked g' = Game.level_unlocked g.
Proof.
  intros Hwf. rewrite sml_keydown_by_state.
  assert (Hstay : exists g', Some g = Some g' /\ wf g' /\
                             Game.level_unlocked g' = Game.level_unlocked g).
  { exists g. split; [reflexivity|]. split; [exact Hwf | reflexivity]. }
  assert (Hset : forall s, ~ in_level s ->
            exists g', Some (Game.set_state g s) = Some g' /\ wf g' /\
                       Game.level_unlocked g' = Game.level_unlocked g).
  { intros s Hs. eexists. split; [reflexivity|].
    split; [apply sml_set_state_wf; assumption | reflexivity]. }
  assert (Hmenu : ~ in_level menu)
    by (intros [H | [H | H]]; discriminate H).
  assert (Hsel : ~ in_level level_select)
    by (intros [H | [H | H]]; discriminate H).
  destruct (Game.state g) eqn:Hst.
  - destruct (Key_eqb key K_RETURN); [apply Hset; exact Hsel | exact Hstay].
  - apply sml_select_level_wf; exact Hwf.
  - destruct (Key_eqb key K_ESCAPE); [apply Hset; exact Hmenu|].
    destruct (Key_eqb key K_SPACE || Key_eqb key K_UP); [|exact Hstay].
    pose proof Hwf as (_ & _ & _ & _ & Hlev).
    destruct Hlev as (p & lv & Hp & _); [left; exact Hst|].
    rewrite Hp. eexists. split; [reflexivity|].
    split; [|reflexivity].
    apply (sml_set_player_wf g p); [exact Hwf | exact Hp | apply sml_jump_active].
  - destruct (Key_eqb key K_RETURN); [apply Hset; exact Hsel | exact Hstay].
  - destruct (Key_eqb key K_RETURN); [apply Hset; exact Hsel | exact Hstay].
Qed.

Lemma sml_handle_events_wf (events : list Key) (g : Game.t) :
  wf g ->
  exists g',
    handle_events events g = Some g' /\ wf g' /\
    Game.level_unlocked g' = Game.level_unlocked g.
Proof.
  revert g. induction events as [|key rest IH]; intros g Hwf.
  - exists g. split; [reflexivity|]. split; [exact Hwf | reflexivity].
  - cbn [handle_events].
    destruct (sml_keydown_wf key g Hwf) as (g1 & Hk & Hwf1 & Hlu1).
    rewrite Hk. destruct (IH g1 Hwf1) as (g2 & Hh & Hwf2 & Hlu2).
    exists g2. split; [exact Hh|]. split; [exact Hwf2|].
    rewrite Hlu2. exact Hlu1.
Qed.

Lemma sml_frame_wf (left right : bool) (g : Game.t) :
  wf g ->
  exists g',
    frame left right g = Some g' /\ wf g' /\
    keeps_unlocked (Game.level_unlocked g) (Game.level_unlocked g').
Proof.
  intros Hwf. unfold frame.
  assert (Hstay : exists g', Some g = Some g' /\ wf g' /\
            keeps_unlocked (Game.level_unlocked g) (Game.level_unlocked g')).
  { exists g. split; [reflexivity|].
    split; [exact Hwf | apply keeps_unlocked_refl]. }
  assert (Hdraw : in_level (Game.state g) ->
            exists g',
              match Game.player g, Game.level g with
              | Some p, Some _ => Some (set_player g (Some (fst (Player.draw p))))
              | _, _ => None
              end = Some g' /\ wf g' /\
              keeps_unlocked (Game.level_unlocked g) (Game.level_unlocked g')).
  { intros Hin. pose proof Hwf as (_ & _ & _ & _ & Hlev).
    destruct (Hlev Hin) as (p & lv & Hp & Hl & _). rewrite Hp, Hl.
    eexists. split; [reflexivity|].
    split; [|apply keeps_unlocked_refl].
    apply (sml_set_player_wf g p); [exact Hwf | exact Hp | apply sml_draw_active]. }
  destruct (Game.state g) eqn:Hst; try exact Hstay.
  - pose proof Hwf as (Hord & _). unfold level_rows.
    destruct Hord as [E | [E | E]]; rewrite E in Hstay |- *; exact Hstay.
  - destruct (sml_playing_frame_wf left right g Hwf Hst)
      as (g' & Hf & Hwf' & _ & _ & Hkeep).
    exists g'. split; [exact Hf|]. split; [exact Hwf' | exact Hkeep].
  - apply Hdraw. right; left; reflexivity.
  - apply Hdraw. right; right; reflexivity.
Qed.

Lemma sml_iteration_wf (events : list Key) (left right : bool) (g : Game.t) :
  wf g ->
  exists g',
    iteration events left right g = Some g' /\ wf g' /\
    keeps_unlocked (Game.level_unlocked g) (Game.level_unlocked g').
Proof.
  intros Hwf. unfold iteration.
  destruct (sml_handle_events_wf events g Hwf) as (g1 & Hh & Hwf1 & Hlu1).
  rewrite Hh. destruct (sml_frame_wf left right g1 Hwf1) as (g2 & Hf & Hwf2 & Hk).
  exists g2. split; [exact Hf|]. split; [exact Hwf2|].
  rewrite <- Hlu1. exact Hk.
Qed.

Lemma sml_reachable_wf (g : Game.t) : reachable g -> wf g.
Proof.
  induction 1 as [|g g' events left right _ IH Hit].
  - exact sml_wf_init.
  - destruct (sml_iteration_wf events left right g IH) as (g1 & Hit1 & Hwf1 & _).
    rewrite Hit in Hit1. injection Hit1 as <-. exact Hwf1.
Qed.

End SMLMachine.

Section DeltaMachine.
Import Delta DeltaRun DeltaInv.
Variable trig : Z -> Level.Layout.

Lemma delta_start_level_fields (g : Game.t) (n : Z) (l : Level.Layout) :
  Game.state (Game.start_level g n l) = playing /\
  Game.current_level (Game.start_level g n l) = n /\
  Game.player (Game.start_level g n l) = Some (Player.init 20 100) /\
  Game.level (Game.start_level g n l) = Some (Level.init n l) /\
  Game.scroll_x (Game.start_level g n l) = 0 /\
  Game.level_unlocked (Game.start_level g n l) = Game.level_unlocked g.
Proof.
  unfold Game.start_level.
  cbn [Game.state Game.current_level Game.player Game.level Game.scroll_x
       Game.level_unlocked].
  repeat split; try reflexivity.
  unfold Level.init. destruct (Level.layout n l) as [[a b] c]. reflexivity.
Qed.

Lemma delta_keydown_by_state (key : Key) (g : Game.t) :
  keydown trig key g =
  match Game.state g with
  | playing =>
      if Key_eqb key K_ESCAPE then Some (Game.set_state g menu)
      else if Key_eqb key K_SPACE || Key_eqb key K_UP then
        match Game.player g with
        | Some p => Some (set_player g (Some (Player.jump p)))
        | None => None
        end
      else Some g
  | menu =>
      if Key_eqb key K_RETURN then Some (Game.set_state g level_select)
      else Some g
  | level_select => select_level trig key g
  | game_over | victory =>
      if Key_eqb key K_RETURN then Some (Game.set_state g level_select)
      else Some g
  end.
Proof.
  destruct g as [st cl pl lv sx lu].
  unfold keydown, select_level, key_and_unlocked, set_player, Game.set_state.
  cbn [Game.state Game.current_level Game.player Game.level Game.scroll_x
       Game.level_unlocked].
  destruct st, key;
    cbv beta iota zeta delta [Key_eqb GameState_eqb orb Game.state
                              Game.level_unlocked Game.player];
    try reflexivity; try (destruct pl; reflexivity);
    repeat match goal with
      | |- context [list_getitem ?l ?i] =>
          destruct (list_getitem l i) as [[|]|];
          cbv beta iota zeta delta [Key_eqb GameState_eqb orb Game.state
                                    Game.level_unlocked Game.player
                                    Game.start_level]
      end;
    reflexivity.
Qed.

Lemma delta_draw_flags (p : Player.t) :
  Player.active (fst (Player.draw p)) = Player.active p /\
  Player.dying (fst (Player.draw p)) = Player.dying p.
Proof.
  unfold Player.draw.
  destruct (negb (Player.active p) && negb (Player.dying p));
    [split; reflexivity|].
  destruct ((Player.invincible p >? 0)%Z && negb (Player.dying p));
    [|split; reflexivity].
  destruct (Player.invincible p mod 6 <? 3)%Z; split; reflexivity.
Qed.

Lemma delta_jump_flags (p : Player.t) :
  Player.active (Player.jump p) = Player.active p /\
  Player.dying (Player.jump p) = Player.dying p.
Proof.
  unfold Player.jump.
  destruct (negb (Player.jumping p) && negb (Player.dying p)); split; reflexivity.
Qed.

Lemma delta_check_victory_wf (g : Game.t) (p : Player.t) (goal : Goal.t) :
  in_order (Game.level_unlocked g) ->
  (1 <= Game.current_level g <= 5)%Z ->
  list_getitem (Game.level_unlocked g) (Game.current_level g - 1) = Some true ->
  exists unlocked,
    Game.check_victory g p goal =
      Some (Game.mk (if collision p goal then victory else Game.state g)
              (Game.current_level g) (Game.player g) (Game.level g)
              (Game.scroll_x g) unlocked) /\
    in_order unlocked /\
    keeps_unlocked (Game.level_unlocked g) unlocked /\
    list_getitem unlocked (Game.current_level g - 1) = Some true.
Proof.
  destruct g as [st cl pl lv sx lu].
  cbn [Game.state Game.current_level Game.player Game.level Game.scroll_x
       Game.level_unlocked].
  intros Hord Hcl Hget. unfold Game.check_victory.
  destruct (collision p goal).
  2:{ exists lu. split; [reflexivity|]. split; [exact Hord|].
      split; [apply keeps_unlocked_refl | exact Hget]. }
  assert (Hcases : cl = 1%Z \/ cl = 2%Z \/ cl = 3%Z \/ cl = 4%Z \/ cl = 5%Z)
    by lia.
  destruct Hord as [-> | [-> | [-> | [-> | ->]]]],
           Hcases as [-> | [-> | [-> | [-> | ->]]]];
    vm_compute in Hget; try discriminate Hget; cbn;
    (eexists; split; [reflexivity|]);
    (split; [unfold in_order; auto 6|]);
    (split; [|reflexivity]);
    intros n Hn;
    do 6 (destruct n as [|n];
          [cbn in Hn |- *; first [reflexivity | discriminate Hn]|]);
    discriminate Hn.
Qed.

Lemma delta_wf_init : wf Game.init.
Proof.
  unfold wf, Game.init.
  cbn [Game.state Game.current_level Game.player Game.level Game.scroll_x
       Game.level_unlocked].
  split; [left; reflexivity|]. split; [lia|]. split; [discriminate|].
  intros [H | [H | H]]; discriminate H.
Qed.

Lemma delta_playing_frame_wf (left right : bool) (g : Game.t) :
  wf g -> Game.state g = playing ->
  exists g',
    Game.playing_frame left right g = Some g' /\ wf g' /\
    in_level (Game.state g') /\
    Game.current_level g' = Game.current_level g /\
    keeps_unlocked (Game.level_unlocked g) (Game.level_unlocked g').
Proof.
  intros (Hord & Hcl & Hno & Hlev) Hst.
  destruct Hlev as (p & lv & Hp & Hl & Hw & Hs0 & Hs1 & Hget & Hinv);
    [left; exact Hst|].
  destruct (delta_move_incl (Level.store lv) p (dx_of_keys left right)
              (Level.platforms lv) (Level.enemies lv) (Level.coins lv))
    as (p1 & es & cs & Hm & _).
  pose proof (delta_move_inactive_dying _ _ _ _ _ _ _ _ _ Hinv Hm) as Hinv1.
  rewrite (delta_frame_unfold left right g p p1 lv es cs Hp Hl Hm).
  match goal with
  | |- context [Game.check_victory ?g1 p1 ?goal] =>
      destruct (delta_check_victory_wf g1 p1 goal Hord Hcl Hget)
        as (unlocked & Hv & Hord' & Hkeep & Hget'); rewrite Hv
  end.
  cbv zeta. eexists. split; [reflexivity|].
  cbn [Game.state Game.current_level Game.player Game.level Game.scroll_x
       Game.level_unlocked] in *.
  destruct (camera_clamped (Player.x p1) (Game.scroll_x g) (Level.level_width lv))
    as [Hc0 Hc1]; [rewrite Hw; unfold GB_WIDTH; lia|].
  assert (Hover : negb (Player.active p1) && negb (Player.dying p1) = false).
  { destruct (Player.active p1); [reflexivity|].
    rewrite (Hinv1 eq_refl). reflexivity. }
  unfold Game.check_game_over. rewrite Hover.
  cbn [Game.state Game.current_level Game.player Game.level Game.scroll_x
       Game.level_unlocked].
  assert (Hstate : in_level
            (if collision p1 (Level.goal lv) then victory else Game.state g)).
  { unfold in_level. rewrite Hst. destruct (collision p1 (Level.goal lv)); auto. }
  split; [|split; [exact Hstate | split; [reflexivity | exact Hkeep]]].
  unfold wf.
  cbn [Game.state Game.current_level Game.player Game.level Game.scroll_x
       Game.level_unlocked].
  split; [exact Hord'|]. split; [exact Hcl|].
  split; [rewrite Hst; destruct (collision p1 (Level.goal lv)); discriminate|].
  intros _. eexists. eexists.
  split; [reflexivity|]. split; [reflexivity|].
  split; [exact Hw|]. split; [exact Hc0|]. split; [exact Hc1|].
  split; [exact Hget'|].
  destruct (delta_draw_flags p1) as [-> ->]. exact Hinv1.
Qed.

Lemma delta_set_state_wf (g : Game.t) (s : GameState) :
  wf g -> ~ in_level s -> wf (Game.set_state g s).
Proof.
  intros (Hord & Hcl & _ & _) Hs. unfold wf, Game.set_state.
  cbn [Game.state Game.current_level Game.player Game.level Game.scroll_x
       Game.level_unlocked].
  split; [exact Hord|]. split; [exact Hcl|].
  split; [intros ->; apply Hs; right; left; reflexivity|].
  intros H. destruct (Hs H).
Qed.

Lemma delta_set_player_wf (g : Game.t) (p p' : Player.t) :
  wf g -> Game.player g = Some p ->
  Player.active p' = Player.active p /\ Player.dying p' = Player.dying p ->
  wf (set_player g (Some p')).
Proof.
  intros (Hord & Hcl & Hno & Hlev) Hp [Hact Hdy]. unfold wf, set_player.
  cbn [Game.state Game.current_level Game.player Game.level Game.scroll_x
       Game.level_unlocked].
  split; [exact Hord|]. split; [exact Hcl|]. split; [exact Hno|].
  intros Hin.
  destruct (Hlev Hin) as (q & lv & Hq & Hl & Hw & Hs0 & Hs1 & Hget & Hinv).
  rewrite Hp in Hq. injection Hq as <-.
  exists p', lv. split; [reflexivity|]. split; [exact Hl|].
  split; [exact Hw|]. split; [exact Hs0|]. split; [exact Hs1|].
  split; [exact Hget|]. rewrite Hact, Hdy. exact Hinv.
Qed.

Lemma delta_start_level_wf (g : Game.t) (n : Z) (l : Level.Layout) :
  in_order (Game.level_unlocked g) -> (1 <= n <= 5)%Z ->
  list_getitem (Game.level_unlocked g) (n - 1) = Some true ->
  wf (Game.start_level g n l).
Proof.
  intros Hord Hn Hget.
  destruct (delta_start_level_fields g n l) as (F1 & F2 & F3 & F4 & F5 & F6).
  unfold wf. rewrite F1, F2, F3, F4, F5, F6.
  split; [exact Hord|]. split; [exact Hn|]. split; [discriminate|].
  intros _.
  exists (Player.init 20 100), (Level.init n l).
  split; [reflexivity|]. split; [reflexivity|].
  split; [apply delta_level_width|]. split; [apply Qle_refl|].
  split.
  - rewrite delta_level_width. change 0 with (inject_Z 0).
    rewrite <- Zle_Qle. unfold GB_WIDTH. lia.
  - split; [exact Hget|]. intros H. discriminate H.
Qed.

Lemma delta_select_level_wf (key : Key) (g : Game.t) :
  wf g ->
  exists g',
    select_level trig key g = Some g' /\ wf g' /\
    Game.level_unlocked g' = Game.level_unlocked g.
Proof.
  intros Hwf. pose proof Hwf as (Hord & _).
  assert (Hstart : forall n, (1 <= n <= 5)%Z ->
            list_getitem (Game.level_unlocked g) (n - 1) = Some true ->
            exists g', Some (Game.start_level g n (trig n)) = Some g' /\ wf g' /\
                       Game.level_unlocked g' = Game.level_unlocked g).
  { intros n Hn Hget. eexists. split; [reflexivity|].
    split; [apply delta_start_level_wf; assumption|].
    apply delta_start_level_fields. }
  assert (Hstay : exists g', Some g = Some g' /\ wf g' /\
                             Game.level_unlocked g' = Game.level_unlocked g).
  { exists g. split; [reflexivity|]. split; [exact Hwf | reflexivity]. }
  unfold select_level, key_and_unlocked.
  destruct key; cbn [Key_eqb]; try exact Hstay;
    destruct Hord as [E | [E | [E | [E | E]]]];
    rewrite E in Hstart, Hstay |- *;
    repeat match goal with
      | |- context [list_getitem ?l ?i] =>
          let v := eval vm_compute in (list_getitem l i) in
          change (list_getitem l i) with v; cbv beta iota
      end;
    try exact Hstay; apply Hstart; try lia; reflexivity.
Qed.

Lemma delta_keydown_wf (key : Key) (g : Game.t) :
  wf g ->
  exists g',
    keydown trig key g = Some g' /\ wf g' /\
    Game.level_unlocked g' = Game.level_unlocked g.
Proof.
  intros Hwf. rewrite delta_keydown_by_state.
  assert (Hstay : exists g', Some g = Some g' /\ wf g' /\
                             Game.level_unlocked g' = Game.level_unlocked g).
  { exists g. split; [reflexivity|]. split; [exact Hwf | reflexivity]. }
  assert (Hset : forall s, ~ in_level s ->
            exists g', Some (Game.set_state g s) = Some g' /\ wf g' /\
                       Game.level_unlocked g' = Game.level_unlocked g).
  { intros s Hs. eexists. split; [reflexivity|].
    split; [apply delta_set_state_wf; assumption | reflexivity]. }
  assert (Hmenu : ~ in_level menu)
    by (intros [H | [H | H]]; discriminate H).
  assert (Hsel : ~ in_level level_select)
    by (intros [H | [H | H]]; discriminate H).
  destruct (Game.state g) eqn:Hst.
  - destruct (Key_eqb key K_RETURN); [apply Hset; exact Hsel | exact Hstay].
  - apply delta_select_level_wf; exact Hwf.
  - destruct (Key_eqb key K_ESCAPE); [apply Hset; exact Hmenu|].
    destruct (Key_eqb key K_SPACE || Key_eqb key K_UP); [|exact Hstay].
    pose proof Hwf as (_ & _ & _ & Hlev).
    destruct Hlev as (p & lv & Hp & _); [left; exact Hst|].
    rewrite Hp. eexists. split; [reflexivity|].
    split; [|reflexivity].
    apply (delta_set_player_wf g p);
      [exact Hwf | exact Hp | apply delta_jump_flags].
  - destruct (Key_eqb key K_RETURN); [apply Hset; exact Hsel | exact Hstay].
  - destruct (Key_eqb key K_RETURN); [apply Hset; exact Hsel | exact Hstay].
Qed.

Lemma delta_handle_events_wf (events : list Key) (g : Game.t) :
  wf g ->
  exists g',
    handle_events trig events g = Some g' /\ wf g' /\
    Game.level_unlocked g' = Game.level_unlocked g.
Proof.
  revert g. induction events as [|key rest IH]; intros g Hwf.
  - exists g. split; [reflexivity|]. split; [exact Hwf | reflexivity].
  - cbn [handle_events].
    destruct (delta_keydown_wf key g Hwf) as (g1 & Hk & Hwf1 & Hlu1).
    rewrite Hk. destruct (IH g1 Hwf1) as (g2 & Hh & Hwf2 & Hlu2).
    exists g2. split; [exact Hh|]. split; [exact Hwf2|].
    rewrite Hlu2. exact Hlu1.
Qed.

Lemma delta_frame_wf (left right : bool) (g : Game.t) :
  wf g ->
  exists g',
    frame left right g = Some g' /\ wf g' /\
    keeps_unlocked (Game.level_unlocked g) (Game.level_unlocked g').
Proof.
  intros Hwf. unfold frame.
  assert (Hstay : exists g', Some g = Some g' /\ wf g' /\
            keeps_unlocked (Game.level_unlocked g) (Game.level_unlocked g')).
  { exists g. split; [reflexivity|].
    split; [exact Hwf | apply keeps_unlocked_refl]. }
  assert (Hdraw : in_level (Game.state g) ->
            exists g',
              match Game.player g, Game.level g with
              | Some p, Some _ => Some (set_player g (Some (fst (Player.draw p))))
              | _, _ => None
              end = Some g' /\ wf g' /\
              keeps_unlocked (Game.level_unlocked g) (Game.level_unlocked g')).
  { intros Hin. pose proof Hwf as (_ & _ & _ & Hlev).
    destruct (Hlev Hin) as (p & lv & Hp & Hl & _). rewrite Hp, Hl.
    eexists. split; [reflexivity|].
    split; [|apply keeps_unlocked_refl].
    apply (delta_set_player_wf g p);
      [exact Hwf | exact Hp | apply delta_draw_flags]. }
  destruct (Game.state g) eqn:Hst; try exact Hstay.
  - pose proof Hwf as (Hord & _). unfold level_rows.
    destruct Hord as [E | [E | [E | [E | E]]]]; rewrite E in Hstay |- *;
      exact Hstay.
  - destruct (delta_playing_frame_wf left right g Hwf Hst)
      as (g' & Hf & Hwf' & _ & _ & Hkeep).
    exists g'. split; [exact Hf|]. split; [exact Hwf' | exact Hkeep].
  - apply Hdraw. right; left; reflexivity.
  - apply Hdraw. right; right; reflexivity.
Qed.

Lemma delta_iteration_wf (events : list Key) (left right : bool) (g : Game.t) :
  wf g ->
  exists g',
    iteration trig events left right g = Some g' /\ wf g' /\
    keeps_unlocked (Game.level_unlocked g) (Game.level_unlocked g').
Proof.
  intros Hwf. unfold iteration.
  destruct (delta_handle_events_wf events g Hwf) as (g1 & Hh & Hwf1 & Hlu1).
  rewrite Hh.
  destruct (delta_frame_wf left right g1 Hwf1) as (g2 & Hf & Hwf2 & Hk).
  exists g2. split; [exact Hf|]. split; [exact Hwf2|].
  rewrite <- Hlu1. exact Hk.
Qed.

Lemma delta_reachable_wf (g : Game.t) : reachable trig g -> wf g.
Proof.
  induction 1 as [|g g' events left right _ IH Hit].
  - exact delta_wf_init.
  - destruct (delta_iteration_wf events left right g IH) as (g1 & Hit1 & Hwf1 & _).
    rewrite Hit in Hit1. injection Hit1 as <-. exact Hwf1.
Qed.

End DeltaMachine.

(** Key events.  The tests of the handler are separate [if] statements run
    one after the other on the state the earlier ones left, yet one key
    event never triggers two of them: the handler acts as a dispatch on the
    state before the event.  Escape leaves a level for the menu, Space and
    Up make the player jump, Return moves on from the menu and from the
    game-over and victory screens, and on the level-select screen only the
    level keys act. *)
Theorem key_event_single_transition :
  (forall (key : Key) (g : SML.Game.t),
      SMLRun.keydown key g =
      match SML.Game.state g with
      | playing =>
          if Key_eqb key K_ESCAPE then Some (SML.Game.set_state g menu)
          else if Key_eqb key K_SPACE || Key_eqb key K_UP then
            match SML.Game.player g with
            | Some p => Some (SMLRun.set_player g (Some (SML.Player.jump p)))
            | None => None
            end
          else Some g
      | menu =>
          if Key_eqb key K_RETURN then Some (SML.Game.set_state g level_select)
          else Some g
      | level_select => SMLRun.select_level key g
      | game_over | victory =>
          if Key_eqb key K_RETURN then Some (SML.Game.set_state g level_select)
          else Some g
      end) /\
  (forall (trig : Z -> Delta.Level.Layout) (key : Key) (g : Delta.Game.t),
      DeltaRun.keydown trig key g =
      match Delta.Game.state g with
      | playing =>
          if Key_eqb key K_ESCAPE then Some (Delta.Game.set_state g menu)
          else if Key_eqb key K_SPACE || Key_eqb key K_UP then
            match Delta.Game.player g with
            | Some p => Some (DeltaRun.set_player g (Some (Delta.Player.jump p)))
            | None => None
            end
          else Some g
      | menu =>
          if Key_eqb key K_RETURN then Some (Delta.Game.set_state g level_select)
          else Some g
      | level_select => DeltaRun.select_level trig key g
      | game_over | victory =>
          if Key_eqb key K_RETURN then Some (Delta.Game.set_state g level_select)
          else Some g
      end).
Proof.
  split; [exact sml_keydown_by_state | exact delta_keydown_by_state].
Qed.

(** The game loop never raises.  From [Game.__init__] on, whatever keys are
    pressed and held, every iteration of [Game.run] completes: the player
    and the level are there whenever they are used, every index into the
    level flags is in range, in the event handler, the victory check and
    the level-select screen, and [coins.remove] always finds its coin. *)
Theorem game_loop_never_raises :
  (forall (g : SML.Game.t) (events : list Key) (left right : bool),
      SMLRun.reachable g ->
      exists g', SMLRun.iteration events left right g = Some g') /\
  (forall (trig : Z -> Delta.Level.Layout) (g : Delta.Game.t)
          (events : list Key) (left right : bool),
      DeltaRun.reachable trig g ->
      exists g', DeltaRun.iteration trig events left right g = Some g').
Proof.
  split.
  - intros g events left right Hr.
    destruct (sml_iteration_wf events left right g (sml_reachable_wf g Hr))
      as (g' & Hit & _).
    exists g'. exact Hit.
  - intros trig g events left right Hr.
    destruct (delta_iteration_wf trig events left right g
                (delta_reachable_wf trig g Hr)) as (g' & Hit & _).
    exists g'. exact Hit.
Qed.

Lemma sml_started_reachable : SMLRun.reachable ExRun.sml_started.
Proof.
  apply (SMLRun.reach_iteration SML.Game.init ExRun.sml_started
           ExRun.start_keys false true SMLRun.reach_init).
  vm_compute. reflexivity.
Defined.

Lemma delta_started_reachable :
  DeltaRun.reachable ExRun.no_trig ExRun.delta_started.
Proof.
  apply (DeltaRun.reach_iteration ExRun.no_trig Delta.Game.init
           ExRun.delta_started ExRun.start_keys false true
           (DeltaRun.reach_init ExRun.no_trig)).
  vm_compute. reflexivity.
Defined.

Lemma game_loop_never_raises_witness :
  (exists g', SMLRun.iteration [K_SPACE; K_ESCAPE; K_RETURN; K_3; K_1]
                false true ExRun.sml_started = Some g') /\
  (exists g', DeltaRun.iteration ExRun.no_trig
                [K_SPACE; K_ESCAPE; K_RETURN; K_5; K_1]
                false true ExRun.delta_started = Some g').
Proof.
  split.
  - apply (proj1 game_loop_never_raises). exact sml_started_reachable.
  - apply (proj2 game_loop_never_raises). exact delta_started_reachable.
Defined.

(** Level flags.  From [Game.__init__] on the flags are unlocked in order:
    level 1 always, and a later level only when the levels before it are.
    No iteration of the loop locks a level again. *)
Theorem levels_unlock_in_order :
  (forall g : SML.Game.t,
      SMLRun.reachable g ->
      SMLInv.in_order (SML.Game.level_unlocked g) /\
      forall (events : list Key) (left right : bool) (g' : SML.Game.t),
        SMLRun.iteration events left right g = Some g' ->
        keeps_unlocked (SML.Game.level_unlocked g) (SML.Game.level_unlocked g')) /\
  (forall (trig : Z -> Delta.Level.Layout) (g : Delta.Game.t),
      DeltaRun.reachable trig g ->
      DeltaInv.in_order (Delta.Game.level_unlocked g) /\
      forall (events : list Key) (left right : bool) (g' : Delta.Game.t),
        DeltaRun.iteration trig events left right g = Some g' ->
        keeps_unlocked (Delta.Game.level_unlocked g)
                       (Delta.Game.level_unlocked g')).
Proof.
  split.
  - intros g Hr. pose proof (sml_reachable_wf g Hr) as Hwf.
    split; [apply Hwf|].
    intros events left right g' Hit.
    destruct (sml_iteration_wf events left right g Hwf) as (g1 & Hit1 & _ & Hk).
    rewrite Hit in Hit1. injection Hit1 as <-. exact Hk.
  - intros trig g Hr. pose proof (delta_reachable_wf trig g Hr) as Hwf.
    split; [apply Hwf|].
    intros events left right g' Hit.
    destruct (delta_iteration_wf trig events left right g Hwf)
      as (g1 & Hit1 & _ & Hk).
    rewrite Hit in Hit1. injection Hit1 as <-. exact Hk.
Qed.

Lemma levels_unlock_in_order_witness :
  SMLInv.in_order (SML.Game.level_unlocked ExRun.sml_started) /\
  DeltaInv.in_order (Delta.Game.level_unlocked ExRun.delta_started).
Proof.
  split.
  - exact (proj1 (proj1 levels_unlock_in_order _ sml_started_reachable)).
  - exact (proj1 (proj2 levels_unlock_in_order _ _ delta_started_reachable)).
Defined.

(** The level in play.  From [Game.__init__] on, while a level is played or
    its game-over or victory screen is shown, the player and the level
    exist, the number of the level is in range and its flag is set (a
    locked level is never played), and the camera is inside the level. *)
Theorem level_in_play_is_unlocked :
  (forall g : SML.Game.t,
      SMLRun.reachable g -> SMLInv.in_level (SML.Game.state g) ->
      exists p lv,
        SML.Game.player g = Some p /\ SML.Game.level g = Some lv /\
        (1 <= SML.Game.current_level g <= 3)%Z /\
        list_getitem (SML.Game.level_unlocked g) (SML.Game.current_level g - 1)
          = Some true /\
        0 <= SML.Game.scroll_x g /\
        SML.Game.scroll_x g <= (SML.Level.level_width lv - GB_WIDTH)%Z) /\
  (forall (trig : Z -> Delta.Level.Layout) (g : Delta.Game.t),
      DeltaRun.reachable trig g -> DeltaInv.in_level (Delta.Game.state g) ->
      exists p lv,
        Delta.Game.player g = Some p /\ Delta.Game.level g = Some lv /\
        (1 <= Delta.Game.current_level g <= 5)%Z /\
        list_getitem (Delta.Game.level_unlocked g) (Delta.Game.current_level g - 1)
          = Some true /\
        0 <= Delta.Game.scroll_x g /\
        Delta.Game.scroll_x g <= (Delta.Level.level_width lv - GB_WIDTH)%Z).
Proof.
  split.
  - intros g Hr Hin.
    destruct (sml_reachable_wf g Hr) as (_ & Hcl & Hs0 & Hs1 & Hlev).
    destruct (Hlev Hin) as (p & lv & Hp & Hl & Hw & Hget & _).
    exists p, lv. rewrite Hw. repeat split; try assumption; apply Hcl.
  - intros trig g Hr Hin.
    destruct (delta_reachable_wf trig g Hr) as (_ & Hcl & _ & Hlev).
    destruct (Hlev Hin) as (p & lv & Hp & Hl & _ & Hs0 & Hs1 & Hget & _).
    exists p, lv. repeat split; try assumption; apply Hcl.
Qed.

Lemma level_in_play_is_unlocked_witness :
  (exists p lv,
     SML.Game.player ExRun.sml_started = Some p /\
     SML.Game.level ExRun.sml_started = Some lv /\
     (1 <= SML.Game.current_level ExRun.sml_started <= 3)%Z /\
     list_getitem (SML.Game.level_unlocked ExRun.sml_started)
       (SML.Game.current_level ExRun.sml_started - 1) = Some true /\
     0 <= SML.Game.scroll_x ExRun.sml_started /\
     SML.Game.scroll_x ExRun.sml_started
       <= (SML.Level.level_width lv - GB_WIDTH)%Z) /\
  (exists p lv,
     Delta.Game.player ExRun.delta_started = Some p /\
     Delta.Game.level ExRun.delta_started = Some lv /\
     (1 <= Delta.Game.current_level ExRun.delta_started <= 5)%Z /\
     list_getitem (Delta.Game.level_unlocked ExRun.delta_started)
       (Delta.Game.current_level ExRun.delta_started - 1) = Some true /\
     0 <= Delta.Game.scroll_x ExRun.delta_started /\
     Delta.Game.scroll_x ExRun.delta_started
       <= (Delta.Level.level_width lv - GB_WIDTH)%Z).
Proof.
  split.
  - apply (proj1 level_in_play_is_unlocked _ sml_started_reachable).
    left. vm_compute. reflexivity.
  - apply (proj2 level_in_play_is_unlocked _ _ delta_started_reachable).
    left. vm_compute. reflexivity.
Defined.

(** Base variant: from [Game.__init__] on, at the top of the loop the
    player of a level being played exists and is active: the frame in which
    it stops being active has already ended in the state game over. *)
Theorem playing_player_is_active (g : SML.Game.t) :
  SMLRun.reachable g -> SML.Game.state g = playing ->
  exists p, SML.Game.player g = Some p /\ SML.Player.active p = true.
Proof.
  intros Hr Hst.
  destruct (sml_reachable_wf g Hr) as (_ & _ & _ & _ & Hlev).
  destruct Hlev as (p & lv & Hp & _ & _ & _ & Hact); [left; exact Hst|].
  exists p. split; [exact Hp | exact (Hact Hst)].
Qed.

Lemma playing_player_is_active_witness :
  exists p, SML.Game.player ExRun.sml_started = Some p /\
            SML.Player.active p = true.
Proof.
  apply (playing_player_is_active _ sml_started_reachable).
  vm_compute. reflexivity.
Defined.

(** Extended variant: the state game over is never reached from
    [Game.__init__], whatever keys are pressed and held.  A player that has
    become inactive is still dying, the dying flag being cleared only by
    [start_level], so the game-over check never fires. *)
Theorem game_over_never_reached (trig : Z -> Delta.Level.Layout)
    (g : Delta.Game.t) :
  DeltaRun.reachable trig g ->
  Delta.Game.state g <> game_over /\
  (DeltaInv.in_level (Delta.Game.state g) ->
   exists p, Delta.Game.player g = Some p /\
             (Delta.Player.active p = false -> Delta.Player.dying p = true)).
Proof.
  intros Hr.
  destruct (delta_reachable_wf trig g Hr) as (_ & _ & Hno & Hlev).
  split; [exact Hno|]. intros Hin.
  destruct (Hlev Hin) as (p & lv & Hp & _ & _ & _ & _ & _ & Hinv).
  exists p. split; [exact Hp | exact Hinv].
Qed.

Lemma game_over_never_reached_witness :
  Delta.Game.state ExRun.delta_started <> game_over.
Proof.
  exact (proj1 (game_over_never_reached _ _ delta_started_reachable)).
Defined.

Lemma sml_select_level_cases (key : Key) (g g' : SML.Game.t) :
  SMLRun.select_level key g = Some g' ->
  g' = g \/
  exists n : Z,
    (1 <= n <= 3)%Z /\
    list_getitem (SML.Game.level_unlocked g) (n - 1) = Some true /\
    g' = SML.Game.start_level g n.
Proof.
  unfold SMLRun.select_level, SMLRun.key_and_unlocked.
  destruct key; cbn [Key_eqb];
    repeat match goal with
      | |- context [list_getitem ?l ?i] =>
          destruct (list_getitem l i) as [[|]|] eqn:?
      end;
    intros H; try discriminate H; injection H as <-;
    first [ left; reflexivity
          | right;
            match goal with
            | |- exists n, _ /\ _ /\ SML.Game.start_level _ ?m = _ => exists m
            end;
            split; [lia|]; split; [|reflexivity];
            match goal with E : _ = Some true |- _ => exact E end ].
Qed.

Lemma delta_select_level_cases (trig : Z -> Delta.Level.Layout) (key : Key)
    (g g' : Delta.Game.t) :
  DeltaRun.select_level trig key g = Some g' ->
  g' = g \/
  exists n : Z,
    (1 <= n <= 5)%Z /\
    list_getitem (Delta.Game.level_unlocked g) (n - 1) = Some true /\
    g' = Delta.Game.start_level g n (trig n).
Proof.
  unfold DeltaRun.select_level, DeltaRun.key_and_unlocked.
  destruct key; cbn [Key_eqb];
    repeat match goal with
      | |- context [list_getitem ?l ?i] =>
          destruct (list_getitem l i) as [[|]|] eqn:?
      end;
    intros H; try discriminate H; injection H as <-;
    first [ left; reflexivity
          | right;
            match goal with
            | |- exists n, _ /\ _ /\ Delta.Game.start_level _ ?m _ = _ => exists m
            end;
            split; [lia|]; split; [|reflexivity];
            match goal with E : _ = Some true |- _ => exact E end ].
Qed.



(** ** C7: game over after the death animation *)

(** A playing frame of the extended variant on an inactive, dying player
    away from the goal changes neither the state nor the player. *)
Lemma delta_dead_frame (left right : bool) (g : Delta.Game.t)
    (p : Delta.Player.t) (lv : Delta.Level.t) :
  Delta.Game.state g = playing ->
  Delta.Game.player g = Some p -> Delta.Game.level g = Some lv ->
  Delta.Player.active p = false -> Delta.Player.dying p = true ->
  collision p (Delta.Level.goal lv) = false ->
  exists g' lv',
    DeltaRun.frame left right g = Some g' /\
    Delta.Game.state g' = playing /\ Delta.Game.player g' = Some p /\
    Delta.Game.level g' = Some lv' /\
    Delta.Level.goal lv' = Delta.Level.goal lv.
Proof.
  intros Hst Hp Hl Hact Hdy Hc. unfold DeltaRun.frame. rewrite Hst.
  assert (Hm : Delta.Player.move (Delta.Level.store lv) p (dx_of_keys left right)
                 (Delta.Level.platforms lv) (Delta.Level.enemies lv)
                 (Delta.Level.coins lv)
               = Some (p, Delta.Level.enemies lv, Delta.Level.coins lv)).
  { unfold Delta.Player.move. rewrite Hact. reflexivity. }
  rewrite (delta_frame_unfold left right g p p lv _ _ Hp Hl Hm).
  unfold Delta.Game.check_victory. rewrite Hc. cbv zeta.
  unfold Delta.Game.check_game_over. rewrite Hact, Hdy. cbn [negb andb].
  eexists. eexists. split; [reflexivity|].
  cbn [Delta.Game.state Delta.Game.player Delta.Game.level].
  split; [exact Hst|]. split.
  - unfold Delta.Player.draw. rewrite Hact, Hdy. cbn [negb andb].
    rewrite andb_false_r. reflexivity.
  - split; reflexivity.
Qed.

Lemma delta_walk_left_dead (n : nat) :
  (34 <= n)%nat ->
  exists g p lv,
    ExRun.delta_walk_left n = Some g /\
    Delta.Game.state g = playing /\
    Delta.Game.player g = Some p /\ Delta.Game.level g = Some lv /\
    Delta.Player.active p = false /\ Delta.Player.dying p = true /\
    collision p (Delta.Level.goal lv) = false.
Proof.
  induction 1 as [|n Hle IH].
  - destruct (ExRun.delta_walk_left 34) as [g|] eqn:E;
      vm_compute in E; [|discriminate E].
    injection E as <-.
    eexists. eexists. eexists.
    split; [reflexivity|]. split; [reflexivity|].
    split; [reflexivity|]. split; [reflexivity|].
    split; [reflexivity|]. split; [reflexivity|].
    vm_compute. reflexivity.
  - destruct IH as (g & p & lv & Hw & Hst & Hp & Hl & Hact & Hdy & Hc).
    destruct (delta_dead_frame true false g p lv Hst Hp Hl Hact Hdy Hc)
      as (g' & lv' & Hf & Hst' & Hp' & Hl' & Hg).
    exists g', p, lv'.
    split.
    + unfold ExRun.delta_walk_left in *. rewrite Nat.iter_succ, Hw.
      exact Hf.
    + rewrite Hg. repeat split; assumption.
Qed.

(** C7 (a defect of the code).  In the extended variant the state game
    over does not follow the death animation.  The check of line 778 asks
    for a player that is inactive and not dying, and no line clears
    [dying]: on the run in which level 1 is started and Left is held, the
    player has walked off the ground, is alive after 30 iterations and
    below the screen, at [y] = 147.3, after 31, where its death animation
    starts; the animation is still running after 34 iterations and has
    ended after 35, with the player inactive and still dying; and after
    every later iteration the game is still playing, with that player.  No
    run from [Game.__init__] at all reaches game over. *)
Theorem C7_game_over_never_follows_death :
  (exists g p,
     ExRun.delta_walk_left 29 = Some g /\ Delta.Game.player g = Some p /\
     Delta.Player.active p = true /\ Delta.Player.dying p = false) /\
  (exists g p,
     ExRun.delta_walk_left 30 = Some g /\ Delta.Game.player g = Some p /\
     Delta.Player.y p == 1473 # 10 /\
     Delta.Player.active p = true /\ Delta.Player.dying p = true) /\
  (exists g p,
     ExRun.delta_walk_left 33 = Some g /\ Delta.Game.player g = Some p /\
     Delta.Player.active p = true /\ Delta.Player.dying p = true) /\
  (forall n : nat,
      (34 <= n)%nat ->
      exists g p,
        ExRun.delta_walk_left n = Some g /\
        Delta.Game.state g = playing /\ Delta.Game.player g = Some p /\
        Delta.Player.active p = false /\ Delta.Player.dying p = true) /\
  (forall (trig : Z -> Delta.Level.Layout) (g : Delta.Game.t),
      DeltaRun.reachable trig g -> Delta.Game.state g <> game_over).
Proof.
  split; [|split; [|split; [|split]]].
  - destruct (ExRun.delta_walk_left 29) as [g|] eqn:E;
      vm_compute in E; [|discriminate E].
    injection E as <-. eexists. eexists.
    split; [reflexivity|]. split; [reflexivity|]. split; reflexivity.
  - destruct (ExRun.delta_walk_left 30) as [g|] eqn:E;
      vm_compute in E; [|discriminate E].
    injection E as <-. eexists. eexists.
    split; [reflexivity|]. split; [reflexivity|].
    split; [vm_compute; reflexivity|]. split; reflexivity.
  - destruct (ExRun.delta_walk_left 33) as [g|] eqn:E;
      vm_compute in E; [|discriminate E].
    injection E as <-. eexists. eexists.
    split; [reflexivity|]. split; [reflexivity|]. split; reflexivity.
  - intros n Hn.
    destruct (delta_walk_left_dead n Hn)
      as (g & p & lv & Hw & Hst & Hp & _ & Hact & Hdy & _).
    exists g, p. repeat split; assumption.
  - intros trig g Hr.
    destruct (delta_reachable_wf trig g Hr) as (_ & _ & Hno & _). exact Hno.
Qed.

Lemma C7_game_over_never_follows_death_witness :
  (exists g p,
     ExRun.delta_walk_left 600 = Some g /\
     Delta.Game.state g = playing /\ Delta.Game.player g = Some p /\
     Delta.Player.active p = false /\ Delta.Player.dying p = true) /\
  Delta.Game.state ExRun.delta_started <> game_over.
Proof.
  split.
  - apply (proj1 (proj2 (proj2 (proj2 C7_game_over_never_follows_death)))
             600%nat). lia.
  - exact (proj2 (proj2 (proj2 (proj2 C7_game_over_never_follows_death)))
             _ _ delta_started_reachable).
Defined.

(** ** The levels *)

Lemma range16_In (stop x : Z) :
  In x (range16 stop) <-> (0 <= x < stop /\ x mod 16 = 0)%Z.
Proof.
  unfold range16. rewrite in_map_iff. split.
  - intros (i & <- & Hi). apply in_seq in Hi.
    assert (Z.of_nat i < (stop + 15) / 16)%Z as Hlt.
    { set (q := ((stop + 15) / 16)%Z) in *. lia. }
    split.
    + pose proof (Z.mul_div_le (stop + 15) 16 ltac:(lia)). lia.
    + rewrite Z.mul_comm. apply Z_mod_mult.
  - intros [Hx Hm]. exists (Z.to_nat (x / 16)). split.
    + rewrite Z2Nat.id by (apply Z.div_pos; lia).
      pose proof (Z_div_mod_eq_full x 16). lia.
    + apply in_seq. split; [lia|]. cbn [Nat.add].
      apply Z2Nat.inj_lt.
      * apply Z.div_pos; lia.
      * apply Z.div_pos; lia.
      * pose proof (Z_div_mod_eq_full x 16).
        apply Z.div_lt_upper_bound; [lia|].
        pose proof (Z.mul_succ_div_gt (stop + 15) 16 ltac:(lia)). lia.
Qed.

Lemma filter_none {A : Type} (f : A -> bool) (l : list A) :
  (forall a, In a l -> f a = false) -> filter f l = [].
Proof.
  induction l as [|a l IH]; intros H; [reflexivity|].
  cbn [filter]. rewrite (H a (or_introl eq_refl)).
  apply IH. intros b Hb. apply H. right. exact Hb.
Qed.

Lemma delta_ground_last_levels (num level_width : Z) :
  (5 <= num)%Z -> (32 <= level_width)%Z ->
  Delta.Level.ground num level_width =
  [Platform.mk 0 (GB_HEIGHT - 16)%Z 16 16; Platform.mk 16 (GB_HEIGHT - 16)%Z 16 16].
Proof.
  intros Hnum Hw. unfold Delta.Level.ground. cbv zeta.
  replace (Z.max 1 (6 - num)) with 1%Z by lia.
  unfold range16.
  assert (Hn : exists n, Z.to_nat ((level_width + 15) / 16) = (2 + n)%nat).
  { exists (Z.to_nat ((level_width + 15) / 16) - 2)%nat.
    assert (2 <= (level_width + 15) / 16)%Z
      by (apply Z.div_le_lower_bound; lia).
    lia. }
  destruct Hn as [n ->]. rewrite seq_app, map_app, filter_app, map_app.
  rewrite (filter_none _ (map _ (seq (0 + 2) n))); [reflexivity|].
  intros x Hx. apply in_map_iff in Hx. destruct Hx as (i & <- & Hi).
  apply in_seq in Hi.
  replace ((16 * Z.of_nat i) mod (1 * 16))%Z with 0%Z
    by (symmetry; rewrite Z.mul_comm; apply Z_mod_mult).
  cbn [Z.eqb negb orb]. apply Z.ltb_ge. lia.
Qed.

(** The ground.  In the base variant the ground tiles cover the whole
    level: above every [x] of the level there is a tile.  In the extended
    variant the tile at [tx] is there exactly when [tx] is a multiple of 16
    inside the level that is below 32 or not a multiple of
    [max(1, 6 - num) * 16]; so the first two tiles are always there, the
    levels 1 to 4 miss one tile in every 5, 4, 3 and 2, and from level 5
    on the ground is these two tiles only. *)
Theorem ground_tiles :
  (forall level_num x : Z,
      (0 <= x < 640)%Z ->
      exists tx : Z,
        (tx <= x < tx + 16)%Z /\
        In (Platform.mk tx (GB_HEIGHT - 16)%Z 16 16)
           (SML.Level.platforms (SML.Level.init level_num))) /\
  (forall num level_width tx : Z,
      In (Platform.mk tx (GB_HEIGHT - 16)%Z 16 16)
         (Delta.Level.ground num level_width) <->
      (0 <= tx < level_width /\ tx mod 16 = 0 /\
       (tx mod (Z.max 1 (6 - num) * 16) <> 0 \/ tx < 32))%Z) /\
  (forall num : Z,
      (5 <= num)%Z ->
      Delta.Level.ground num (Delta.Level.width_of_level num) =
      [Platform.mk 0 (GB_HEIGHT - 16)%Z 16 16;
       Platform.mk 16 (GB_HEIGHT - 16)%Z 16 16]).
Proof.
  split; [|split].
  - intros level_num x Hx. exists (16 * (x / 16))%Z. split.
    + pose proof (Z_div_mod_eq_full x 16).
      pose proof (Z.mod_pos_bound x 16 ltac:(lia)). lia.
    + unfold SML.Level.init.
      destruct (SML.Level.layout level_num) as [[raised enemies] coin_objects].
      cbn [SML.Level.platforms]. apply in_or_app. left.
      unfold SML.Level.ground. apply in_map_iff.
      exists (16 * (x / 16))%Z. split; [reflexivity|].
      apply range16_In. split.
      * pose proof (Z_div_mod_eq_full x 16).
        pose proof (Z.mod_pos_bound x 16 ltac:(lia)). lia.
      * rewrite Z.mul_comm. apply Z_mod_mult.
  - intros num level_width tx. unfold Delta.Level.ground. cbv zeta.
    rewrite in_map_iff. split.
    + intros (z & Hz & Hin). injection Hz as ->.
      apply filter_In in Hin. destruct Hin as [Hr Hf].
      apply range16_In in Hr. destruct Hr as [Hr Hm].
      split; [exact Hr|]. split; [exact Hm|].
      apply orb_true_iff in Hf. destruct Hf as [Hf | Hf].
      * left. apply negb_true_iff, Z.eqb_neq in Hf. exact Hf.
      * right. apply Z.ltb_lt. exact Hf.
    + intros (Hr & Hm & Hg). exists tx. split; [reflexivity|].
      apply filter_In. split; [apply range16_In; split; assumption|].
      apply orb_true_iff. destruct Hg as [Hg | Hg].
      * left. apply negb_true_iff, Z.eqb_neq. exact Hg.
      * right. apply Z.ltb_lt. exact Hg.
  - intros num Hnum. apply delta_ground_last_levels; [exact Hnum|].
    unfold Delta.Level.width_of_level. lia.
Qed.

Lemma ground_tiles_witness :
  (exists tx : Z,
     (tx <= 100 < tx + 16)%Z /\
     In (Platform.mk tx (GB_HEIGHT - 16)%Z 16 16)
        (SML.Level.platforms (SML.Level.init 1))) /\
  Delta.Level.ground 5 (Delta.Level.width_of_level 5) =
  [Platform.mk 0 (GB_HEIGHT - 16)%Z 16 16;
   Platform.mk 16 (GB_HEIGHT - 16)%Z 16 16].
Proof.
  split.
  - apply (proj1 ground_tiles 1%Z 100%Z). lia.
  - apply (proj2 (proj2 ground_tiles) 5%Z). lia.
Defined.

Lemma patrollingb_sound (p : Platform.t) (e : Enemy.t) :
  Patrol.patrollingb p e = true -> Patrol.patrolling p e.
Proof.
  unfold Patrol.patrollingb, Patrol.patrolling. intros H.
  repeat (apply andb_true_iff in H; destruct H as [H ?]).
  repeat match goal with
    | H : Qle_bool _ _ = true |- _ => apply Qle_bool_iff in H
    | H : Qlt_bool _ _ = true |- _ => apply Qlt_bool_iff in H
    end.
  assert (Hdir : Enemy.direction e = 1%Z \/ Enemy.direction e = (-1)%Z).
  { match goal with
    | H : (_ =? 1)%Z || (_ =? -1)%Z = true |- _ =>
        apply orb_true_iff in H; destruct H as [H | H];
        apply Z.eqb_eq in H; [left | right]; exact H
    end. }
  repeat split; try assumption.
  - intros Hlt.
    match goal with
    | H : Qle_bool (Platform.x p) (Enemy.x e) || _ = true |- _ =>
        apply orb_true_iff in H; destruct H as [H | H];
        [apply Qle_bool_iff in H; lra | apply Z.eqb_eq in H; exact H]
    end.
  - intros Hlt.
    match goal with
    | H : Qle_bool (Enemy.x e + Enemy.width e) _ || _ = true |- _ =>
        apply orb_true_iff in H; destruct H as [H | H];
        [apply Qle_bool_iff in H; lra | apply Z.eqb_eq in H; exact H]
    end.
Qed.

Lemma clear_ofb_sound (p : Platform.t) (e : Enemy.t) (q : Platform.t) :
  Patrol.clear_ofb p e q = true -> Patrol.clear_of p e q.
Proof.
  unfold Patrol.clear_ofb, Patrol.clear_of. intros H.
  apply orb_true_iff in H. destruct H as [H | H];
    [apply orb_true_iff in H; destruct H as [H | H]|];
    apply Qle_bool_iff in H; auto.
Qed.

Lemma nth_error_split_at {A : Type} (l : list A) (i : nat) (a : A) :
  nth_error l i = Some a -> l = firstn i l ++ a :: skipn (S i) l.
Proof.
  revert i. induction l as [|b l IH]; intros [|i] H; try discriminate H.
  - injection H as ->. reflexivity.
  - cbn [firstn skipn app]. f_equal. apply IH. exact H.
Qed.

Lemma has_patrol_sound (e : Enemy.t) (platforms : list Platform.t) :
  Patrol.has_patrol e platforms = true ->
  exists p before after,
    platforms = before ++ p :: after /\ Patrol.patrolling p e /\
    forall q, In q (before ++ after) -> Patrol.clear_of p e q.
Proof.
  unfold Patrol.has_patrol. intros H. apply existsb_exists in H.
  destruct H as (i & _ & H). unfold Patrol.patrols_alone in H.
  destruct (nth_error platforms i) as [p|] eqn:Hp; [|discriminate H].
  destruct (Patrol.patrollingb p e) eqn:Hb; [|discriminate H].
  exists p, (firstn i platforms), (skipn (S i) platforms).
  split; [apply nth_error_split_at; exact Hp|].
  split; [apply patrollingb_sound; exact Hb|].
  intros q Hq. apply clear_ofb_sound.
  rewrite forallb_forall in H. apply H. exact Hq.
Qed.

Lemma patrol_in_level (e : Enemy.t) (platforms : list Platform.t) :
  Patrol.has_patrol e platforms = true ->
  exists p,
    In p platforms /\
    forall n : nat,
      let en := Patrol.ticks n e platforms in
      Enemy.active en = true /\
      Platform.x p - Enemy.speed e <= Enemy.x en /\
      Enemy.x en <= Platform.x p + Platform.width p - Enemy.width e + Enemy.speed e /\
      Enemy.y en = Enemy.y e.
Proof.
  intros H.
  destruct (has_patrol_sound e platforms H) as (p & before & after & -> & Hpat & Hclear).
  exists p. split; [apply in_or_app; right; left; reflexivity|].
  intros n.
  destruct (patrol_ticks p e before after n Hpat Hclear)
    as ((Hact & _ & _ & _ & _ & _ & Hlo & Hhi & _) & Hy & _ & Hs & Hw).
  cbv zeta. rewrite Hs, Hw in *. repeat split; assumption.
Qed.

Lemma sml_levels_patrolled (level_num : Z) :
  forallb (fun e => Patrol.has_patrol e (SML.Level.platforms (SML.Level.init level_num)))
          (SML.Level.enemies (SML.Level.init level_num)) = true.
Proof.
  unfold SML.Level.init, SML.Level.layout.
  destruct (level_num =? 1)%Z; [vm_compute; reflexivity|].
  destruct (level_num =? 2)%Z; [vm_compute; reflexivity|].
  destruct (level_num =? 3)%Z; [vm_compute; reflexivity|].
  reflexivity.
Qed.

Lemma delta_levels_patrolled (level_num : Z) (trig : Delta.Level.Layout) :
  (1 <= level_num <= 3)%Z ->
  forallb (fun e => Patrol.has_patrol e
                      (Delta.Level.platforms (Delta.Level.init level_num trig)))
          (Delta.Level.enemies (Delta.Level.init level_num trig)) = true.
Proof.
  intros H.
  assert (Hcases : level_num = 1%Z \/ level_num = 2%Z \/ level_num = 3%Z) by lia.
  destruct Hcases as [-> | [-> | ->]]; vm_compute; reflexivity.
Qed.

(** The enemies of the levels.  Every enemy of a level of the base variant,
    and of the levels 1 to 3 of the extended variant, is placed on a
    platform of the level that it then patrols for as long as it is active:
    on every later tick of [Enemy.move] it is within one step of that
    platform and at its first height. *)
Theorem level_enemies_keep_their_platforms :
  (forall (level_num : Z) (e : Enemy.t),
      In e (SML.Level.enemies (SML.Level.init level_num)) ->
      exists p,
        In p (SML.Level.platforms (SML.Level.init level_num)) /\
        forall n : nat,
          let en := Patrol.ticks n e
                      (SML.Level.platforms (SML.Level.init level_num)) in
          Enemy.active en = true /\
          Platform.x p - Enemy.speed e <= Enemy.x en /\
          Enemy.x en
            <= Platform.x p + Platform.width p - Enemy.width e + Enemy.speed e /\
          Enemy.y en = Enemy.y e) /\
  (forall (level_num : Z) (trig : Delta.Level.Layout) (e : Enemy.t),
      (1 <= level_num <= 3)%Z ->
      In e (Delta.Level.enemies (Delta.Level.init level_num trig)) ->
      exists p,
        In p (Delta.Level.platforms (Delta.Level.init level_num trig)) /\
        forall n : nat,
          let en := Patrol.ticks n e
                      (Delta.Level.platforms (Delta.Level.init level_num trig)) in
          Enemy.active en = true /\
          Platform.x p - Enemy.speed e <= Enemy.x en /\
          Enemy.x en
            <= Platform.x p + Platform.width p - Enemy.width e + Enemy.speed e /\
          Enemy.y en = Enemy.y e).
Proof.
  split.
  - intros level_num e He. apply patrol_in_level.
    pose proof (sml_levels_patrolled level_num) as H.
    rewrite forallb_forall in H. exact (H e He).
  - intros level_num trig e Hn He. apply patrol_in_level.
    pose proof (delta_levels_patrolled level_num trig Hn) as H.
    rewrite forallb_forall in H. exact (H e He).
Qed.

Lemma level_enemies_keep_their_platforms_witness :
  (exists p,
     In p (SML.Level.platforms (SML.Level.init 3)) /\
     forall n : nat,
       let e := Enemy.init 290 52 0 in
       let en := Patrol.ticks n e (SML.Level.platforms (SML.Level.init 3)) in
       Enemy.active en = true /\
       Platform.x p - Enemy.speed e <= Enemy.x en /\
       Enemy.x en
         <= Platform.x p + Platform.width p - Enemy.width e + Enemy.speed e /\
       Enemy.y en = Enemy.y e) /\
  (exists p,
     In p (Delta.Level.platforms (Delta.Level.init 3 ([], [], []))) /\
     forall n : nat,
       let e := Enemy.init 105 62 1 in
       let en := Patrol.ticks n e
                   (Delta.Level.platforms (Delta.Level.init 3 ([], [], []))) in
       Enemy.active en = true /\
       Platform.x p - Enemy.speed e <= Enemy.x en /\
       Enemy.x en
         <= Platform.x p + Platform.width p - Enemy.width e + Enemy.speed e /\
       Enemy.y en = Enemy.y e).
Proof.
  split.
  - apply (proj1 level_enemies_keep_their_platforms 3%Z (Enemy.init 290 52 0)).
    vm_compute. do 4 right. left. reflexivity.
  - apply (proj2 level_enemies_keep_their_platforms 3%Z ([], [], [])
             (Enemy.init 105 62 1)).
    + lia.
    + vm_compute. right. left. reflexivity.
Defined.

(** ** Animation frames and the sprite of the player *)

Section SMLFrames.
Import SML SML.Player.

Lemma sml_horizontal_loop_frame (dx : Q) (platforms : list Platform.t) (p : t) :
  animation_frame (fold_left (horizontal_step dx) platforms p) = animation_frame p.
Proof.
  revert p. induction platforms as [|q platforms IH]; intros p; [reflexivity|].
  cbn [fold_left]. rewrite IH. unfold horizontal_step.
  destruct (collision p q); [|reflexivity].
  destruct (Qgt_bool dx 0); reflexivity.
Qed.

Lemma sml_vertical_loop_frame (platforms : list Platform.t) (p : t) (b : bool) :
  animation_frame (fst (fold_left vertical_step platforms (p, b))) = animation_frame p.
Proof.
  revert p b. induction platforms as [|q platforms IH]; intros p b; [reflexivity|].
  cbn [fold_left]. unfold vertical_step at 2.
  destruct (collision p q); [|apply IH].
  destruct (Qgt_bool (vel_y p) 0); [rewrite IH; reflexivity|].
  destruct (Qlt_bool (vel_y p) 0); rewrite IH; reflexivity.
Qed.

Lemma sml_enemy_loop_frame (enemies : list Enemy.t) (p : t) :
  animation_frame (fst (enemy_loop p enemies)) = animation_frame p.
Proof.
  revert p. induction enemies as [|e enemies IH]; intros p; [reflexivity|].
  cbn [enemy_loop].
  destruct (enemy_contact p e) as [p1 e1] eqn:Hc.
  specialize (IH p1). destruct (enemy_loop p1 enemies) as [p2 es].
  cbn [fst] in *. rewrite IH.
  unfold enemy_contact, stomp, take_damage in Hc.
  repeat match type of Hc with
    | context [if ?c then _ else _] => destruct c
    end;
    injection Hc as <- _; reflexivity.
Qed.

Lemma sml_pickups_frame (n : nat) (p : t) :
  animation_frame (Nat.iter n pickup p) = animation_frame p.
Proof.
  induction n as [|n IH]; [reflexivity|].
  cbn [Nat.iter nat_rect]. unfold pickup at 1.
  repeat match goal with
    | |- context [if ?c then _ else _] => destruct c
    end; exact IH.
Qed.

Lemma sml_check_bounds_frame (p : t) :
  animation_frame (check_bounds p) = animation_frame p.
Proof.
  unfold check_bounds.
  repeat match goal with
    | |- context [if ?c then _ else _] => destruct c
    end; reflexivity.
Qed.

Lemma sml_move_horizontal_frame (dx : Q) (p : t) :
  0 <= animation_frame p -> animation_frame p < 2 ->
  0 <= animation_frame (move_horizontal dx p) /\
  animation_frame (move_horizontal dx p) < 2.
Proof.
  intros H0 H2. unfold move_horizontal. cbv zeta.
  destruct (negb (Qeq_bool dx 0)); [|split; assumption].
  cbn [animation_frame set_animation_frame set_direction set_x].
  match goal with
  | |- context [Qge_bool ?a ?b] => destruct (Qge_bool a b) eqn:E
  end; cbn [animation_frame set_animation_frame set_direction set_x].
  - split; lra.
  - unfold Qge_bool in E. apply Qle_bool_false_iff in E. split; lra.
Qed.

Lemma sml_move_frame (store : CoinStore) (p p1 : t) (dx : Q)
    (platforms : list Platform.t) (enemies es : list Enemy.t)
    (coins cs : list CoinRef) :
  move store p dx platforms enemies coins = Some (p1, es, cs) ->
  0 <= animation_frame p -> animation_frame p < 2 ->
  0 <= animation_frame p1 /\ animation_frame p1 < 2.
Proof.
  intros Hm H0 H2.
  destruct (active p) eqn:Hact.
  - rewrite (sml_move_active _ _ _ _ _ _ Hact) in Hm. cbv zeta in Hm.
    injection Hm as <- _ _.
    rewrite sml_check_bounds_frame, sml_pickups_frame.
    unfold move_to_enemies.
    destruct (fold_left vertical_step platforms
                (move_to_gravity p dx platforms, false)) as [p2 b] eqn:Hv.
    rewrite sml_enemy_loop_frame.
    pose proof (sml_vertical_loop_frame platforms
                  (move_to_gravity p dx platforms) false) as Hf.
    rewrite Hv in Hf. cbn [fst] in Hf. rewrite Hf.
    unfold move_to_gravity, apply_gravity.
    cbn [animation_frame set_y set_vel_y].
    rewrite sml_horizontal_loop_frame.
    apply sml_move_horizontal_frame; assumption.
  - unfold move in Hm. rewrite Hact in Hm. cbn [negb] in Hm.
    injection Hm as <- _ _. split; assumption.
Qed.

End SMLFrames.

Section DeltaFrames.
Import Delta Delta.Player.

Lemma delta_horizontal_loop_frame (dx : Q) (platforms : list Platform.t) (p : t) :
  animation_frame (fold_left (horizontal_step dx) platforms p) = animation_frame p.
Proof.
  revert p. induction platforms as [|q platforms IH]; intros p; [reflexivity|].
  cbn [fold_left]. rewrite IH. unfold horizontal_step.
  destruct (collision p q); [|reflexivity].
  destruct (Qgt_bool dx 0); reflexivity.
Qed.

Lemma delta_vertical_loop_frame (platforms : list Platform.t) (p : t) (b : bool) :
  animation_frame (fst (fold_left vertical_step platforms (p, b))) = animation_frame p.
Proof.
  revert p b. induction platforms as [|q platforms IH]; intros p b; [reflexivity|].
  cbn [fold_left]. unfold vertical_step at 2.
  destruct (collision p q); [|apply IH].
  destruct (Qgt_bool (vel_y p) 0); [rewrite IH; reflexivity|].
  destruct (Qlt_bool (vel_y p) 0); rewrite IH; reflexivity.
Qed.

Lemma delta_enemy_loop_frame (enemies : list Enemy.t) (p : t) :
  animation_frame (fst (enemy_loop p enemies)) = animation_frame p.
Proof.
  revert p. induction enemies as [|e enemies IH]; intros p; [reflexivity|].
  cbn [enemy_loop].
  destruct (enemy_contact p e) as [p1 e1] eqn:Hc.
  specialize (IH p1). destruct (enemy_loop p1 enemies) as [p2 es].
  cbn [fst] in *. rewrite IH.
  unfold enemy_contact, stomp, take_damage in Hc.
  repeat match type of Hc with
    | context [if ?c then _ else _] => destruct c
    end;
    injection Hc as <- _; reflexivity.
Qed.

Lemma delta_pickups_frame (n : nat) (p : t) :
  animation_frame (Nat.iter n pickup p) = animation_frame p.
Proof.
  induction n as [|n IH]; [reflexivity|].
  cbn [Nat.iter nat_rect]. unfold pickup at 1.
  repeat match goal with
    | |- context [if ?c then _ else _] => destruct c
    end; exact IH.
Qed.

Lemma delta_check_bounds_frame (p : t) :
  animation_frame (check_bounds p) = animation_frame p.
Proof.
  unfold check_bounds.
  repeat match goal with
    | |- context [if ?c then _ else _] => destruct c
    end; reflexivity.
Qed.

Lemma delta_move_horizontal_frame (dx : Q) (p : t) :
  0 <= animation_frame p -> animation_frame p < 2 ->
  0 <= animation_frame (move_horizontal dx p) /\
  animation_frame (move_horizontal dx p) < 2.
Proof.
  intros H0 H2. unfold move_horizontal. cbv zeta.
  destruct (negb (Qeq_bool dx 0)); [|split; assumption].
  cbn [animation_frame set_animation_frame set_direction set_x].
  match goal with
  | |- context [Qge_bool ?a ?b] => destruct (Qge_bool a b) eqn:E
  end; cbn [animation_frame set_animation_frame set_direction set_x].
  - split; lra.
  - unfold Qge_bool in E. apply Qle_bool_false_iff in E. split; lra.
Qed.

Lemma delta_move_frame (store : CoinStore) (p p1 : t) (dx : Q)
    (platforms : list Platform.t) (enemies es : list Enemy.t)
    (coins cs : list CoinRef) :
  move store p dx platforms enemies coins = Some (p1, es, cs) ->
  dying p = false ->
  0 <= animation_frame p -> animation_frame p < 2 ->
  0 <= animation_frame p1 /\ animation_frame p1 < 2.
Proof.
  intros Hm Hdy H0 H2.
  destruct (active p) eqn:Hact.
  - rewrite (delta_move_active _ _ _ _ _ _ Hact Hdy) in Hm. cbv zeta in Hm.
    injection Hm as <- _ _.
    rewrite delta_check_bounds_frame, delta_pickups_frame.
    unfold move_to_enemies.
    destruct (fold_left vertical_step platforms
                (move_to_gravity p dx platforms, false)) as [p2 b] eqn:Hv.
    rewrite delta_enemy_loop_frame.
    pose proof (delta_vertical_loop_frame platforms
                  (move_to_gravity p dx platforms) false) as Hf.
    rewrite Hv in Hf. cbn [fst] in Hf. rewrite Hf.
    unfold move_to_gravity, apply_gravity.
    cbn [animation_frame set_y set_vel_y].
    rewrite delta_horizontal_loop_frame.
    apply delta_move_horizontal_frame; assumption.
  - unfold move in Hm. rewrite Hact in Hm. cbn [negb] in Hm.
    injection Hm as <- _ _. split; assumption.
Qed.

Lemma delta_move_dying_stays (store : CoinStore) (p p1 : t) (dx : Q)
    (platforms : list Platform.t) (enemies es : list Enemy.t)
    (coins cs : list CoinRef) :
  move store p dx platforms enemies coins = Some (p1, es, cs) ->
  dying p = true -> dying p1 = true.
Proof.
  intros Hm Hdy. unfold move in Hm. rewrite Hdy in Hm.
  destruct (negb (active p)); injection Hm as <- _ _; [exact Hdy|].
  unfold move_dying. cbv zeta.
  match goal with
  | |- context [if ?c then _ else _] => destruct c
  end; exact Hdy.
Qed.

End DeltaFrames.


Lemma py_int_below_two (q : Q) :
  0 <= q -> q < 2 -> py_int q = 0%Z \/ py_int q = 1%Z.
Proof.
  destruct q as [n d]. unfold Qle, Qlt, py_int. cbn. intros H0 H2.
  rewrite Z.quot_div_nonneg by lia.
  assert (0 <= n / Z.pos d < 2)%Z.
  { split; [apply Z.div_pos; lia | apply Z.div_lt_upper_bound; lia]. }
  lia.
Qed.

Lemma sprite_pixels_some (animation_frame vel_y : Q) :
  0 <= animation_frame -> animation_frame < 2 ->
  exists pixels, sprite_pixels animation_frame vel_y = Some pixels.
Proof.
  intros H0 H2. unfold sprite_pixels, sprite_frame.
  destruct (Qlt_bool (Qabs vel_y) (1 # 10)).
  - destruct (py_int_below_two animation_frame H0 H2) as [-> | ->];
      eexists; reflexivity.
  - eexists. reflexivity.
Qed.

Lemma sml_in_order_length (unlocked : list bool) :
  SMLInv.in_order unlocked -> length unlocked = 3%nat.
Proof. intros [-> | [-> | ->]]; reflexivity. Qed.

Lemma delta_in_order_length (unlocked : list bool) :
  DeltaInv.in_order unlocked -> length unlocked = 5%nat.
Proof. intros [-> | [-> | [-> | [-> | ->]]]]; reflexivity. Qed.

Section SMLPlayerInvariant.
Import SML SMLRun SMLInv.
Variable P : Player.t -> Prop.
Hypothesis P_init : P (Player.init 20 100).
Hypothesis P_jump : forall p, P p -> P (Player.jump p).
Hypothesis P_move :
  forall store p dx platforms enemies coins p1 es cs,
    P p -> Player.move store p dx platforms enemies coins = Some (p1, es, cs) ->
    P p1.
Hypothesis P_draw : forall p, P p -> P (fst (Player.draw p)).

Let holds (g : Game.t) : Prop := forall p, Game.player g = Some p -> P p.

Lemma sml_keydown_player (key : Key) (g g' : Game.t) :
  keydown key g = Some g' -> holds g -> holds g'.
Proof.
  intros Hk Hg. rewrite sml_keydown_by_state in Hk.
  assert (Hset : forall s, holds (Game.set_state g s)) by (intros s; exact Hg).
  destruct (Game.state g).
  - destruct (Key_eqb key K_RETURN); injection Hk as <-; [apply Hset | exact Hg].
  - destruct (sml_select_level_cases key g g' Hk) as [-> | (n & _ & _ & ->)];
      [exact Hg|].
    intros p Hp.
    destruct (sml_start_level_fields g n) as (_ & _ & F3 & _).
    rewrite F3 in Hp. injection Hp as <-. exact P_init.
  - destruct (Key_eqb key K_ESCAPE); [injection Hk as <-; apply Hset|].
    destruct (Key_eqb key K_SPACE || Key_eqb key K_UP);
      [|injection Hk as <-; exact Hg].
    destruct (Game.player g) as [p|] eqn:Hp; [|discriminate Hk].
    injection Hk as <-. intros q Hq. cbn in Hq. injection Hq as <-.
    apply P_jump, Hg. exact Hp.
  - destruct (Key_eqb key K_RETURN); injection Hk as <-; [apply Hset | exact Hg].
  - destruct (Key_eqb key K_RETURN); injection Hk as <-; [apply Hset | exact Hg].
Qed.

Lemma sml_handle_events_player (events : list Key) (g g' : Game.t) :
  handle_events events g = Some g' -> holds g -> holds g'.
Proof.
  revert g. induction events as [|key rest IH]; intros g Hh Hg.
  - injection Hh as <-. exact Hg.
  - cbn [handle_events] in Hh.
    destruct (keydown key g) as [g1|] eqn:Hk; [|discriminate Hh].
    apply (IH g1 Hh). exact (sml_keydown_player key g g1 Hk Hg).
Qed.

Lemma sml_frame_player (left right : bool) (g g' : Game.t) :
  wf g -> frame left right g = Some g' -> holds g -> holds g'.
Proof.
  intros Hwf Hf Hg. unfold frame in Hf.
  assert (Hdraw :
            match Game.player g, Game.level g with
            | Some p, Some _ => Some (set_player g (Some (fst (Player.draw p))))
            | _, _ => None
            end = Some g' -> holds g').
  { destruct (Game.player g) as [p|] eqn:Hp; [|discriminate].
    destruct (Game.level g); [|discriminate].
    intros H. injection H as <-. intros q Hq. cbn in Hq. injection Hq as <-.
    apply P_draw, Hg. exact Hp. }
  destruct (Game.state g) eqn:Hst.
  - injection Hf as <-. exact Hg.
  - destruct (level_rows g); [injection Hf as <-; exact Hg | discriminate Hf].
  - destruct Hwf as (Hord & Hcl & _ & _ & Hlev).
    destruct Hlev as (p & lv & Hp & Hl & _); [left; exact Hst|].
    destruct (sml_frame_spec left right g p lv Hp Hl
                (sml_in_order_length _ Hord) Hcl)
      as (p1 & es & cs & g1 & Hm & Hf1 & _ & _ & Hp1 & _).
    rewrite Hf in Hf1. injection Hf1 as <-.
    intros q Hq. rewrite Hp1 in Hq. injection Hq as <-.
    apply P_draw. apply (P_move _ _ _ _ _ _ _ _ _ (Hg p Hp) Hm).
  - exact (Hdraw Hf).
  - exact (Hdraw Hf).
Qed.

Lemma sml_reachable_player (g : Game.t) :
  reachable g -> forall p, Game.player g = Some p -> P p.
Proof.
  induction 1 as [|g g' events left right Hr IH Hit].
  - intros p Hp. discriminate Hp.
  - unfold iteration in Hit.
    destruct (handle_events events g) as [g1|] eqn:Hh; [|discriminate Hit].
    pose proof (sml_reachable_wf g Hr) as Hwf.
    destruct (sml_handle_events_wf events g Hwf) as (g2 & Hh2 & Hwf2 & _).
    rewrite Hh in Hh2. injection Hh2 as <-.
    apply (sml_frame_player left right g1 g' Hwf2 Hit).
    exact (sml_handle_events_player events g g1 Hh IH).
Qed.

End SMLPlayerInvariant.

Section DeltaPlayerInvariant.
Import Delta DeltaRun DeltaInv.
Variable trig : Z -> Level.Layout.
Variable P : Player.t -> Prop.
Hypothesis P_init : P (Player.init 20 100).
Hypothesis P_jump : forall p, P p -> P (Player.jump p).
Hypothesis P_move :
  forall store p dx platforms enemies coins p1 es cs,
    P p -> Player.move store p dx platforms enemies coins = Some (p1, es, cs) ->
    P p1.
Hypothesis P_draw : forall p, P p -> P (fst (Player.draw p)).

Let holds (g : Game.t) : Prop := forall p, Game.player g = Some p -> P p.

Lemma delta_keydown_player (key : Key) (g g' : Game.t) :
  keydown trig key g = Some g' -> holds g -> holds g'.
Proof.
  intros Hk Hg. rewrite delta_keydown_by_state in Hk.
  assert (Hset : forall s, holds (Game.set_state g s)) by (intros s; exact Hg).
  destruct (Game.state g).
  - destruct (Key_eqb key K_RETURN); injection Hk as <-; [apply Hset | exact Hg].
  - destruct (delta_select_level_cases trig key g g' Hk) as [-> | (n & _ & _ & ->)];
      [exact Hg|].
    intros p Hp.
    destruct (delta_start_level_fields g n (trig n)) as (_ & _ & F3 & _).
    rewrite F3 in Hp. injection Hp as <-. exact P_init.
  - destruct (Key_eqb key K_ESCAPE); [injection Hk as <-; apply Hset|].
    destruct (Key_eqb key K_SPACE || Key_eqb key K_UP);
      [|injection Hk as <-; exact Hg].
    destruct (Game.player g) as [p|] eqn:Hp; [|discriminate Hk].
    injection Hk as <-. intros q Hq. cbn in Hq. injection Hq as <-.
    apply P_jump, Hg. exact Hp.
  - destruct (Key_eqb key K_RETURN); injection Hk as <-; [apply Hset | exact Hg].
  - destruct (Key_eqb key K_RETURN); injection Hk as <-; [apply Hset | exact Hg].
Qed.

Lemma delta_handle_events_player (events : list Key) (g g' : Game.t) :
  handle_events trig events g = Some g' -> holds g -> holds g'.
Proof.
  revert g. induction events as [|key rest IH]; intros g Hh Hg.
  - injection Hh as <-. exact Hg.
  - cbn [handle_events] in Hh.
    destruct (keydown trig key g) as [g1|] eqn:Hk; [|discriminate Hh].
    apply (IH g1 Hh). exact (delta_keydown_player key g g1 Hk Hg).
Qed.

Lemma delta_frame_player (left right : bool) (g g' : Game.t) :
  wf g -> frame left right g = Some g' -> holds g -> holds g'.
Proof.
  intros Hwf Hf Hg. unfold frame in Hf.
  assert (Hdraw :
            match Game.player g, Game.level g with
            | Some p, Some _ => Some (set_player g (Some (fst (Player.draw p))))
            | _, _ => None
            end = Some g' -> holds g').
  { destruct (Game.player g) as [p|] eqn:Hp; [|discriminate].
    destruct (Game.level g); [|discriminate].
    intros H. injection H as <-. intros q Hq. cbn in Hq. injection Hq as <-.
    apply P_draw, Hg. exact Hp. }
  destruct (Game.state g) eqn:Hst.
  - injection Hf as <-. exact Hg.
  - destruct (level_rows g); [injection Hf as <-; exact Hg | discriminate Hf].
  - destruct Hwf as (Hord & Hcl & _ & Hlev).
    destruct Hlev as (p & lv & Hp & Hl & _); [left; exact Hst|].
    destruct (delta_frame_spec left right g p lv Hp Hl
                (delta_in_order_length _ Hord) Hcl)
      as (p1 & es & cs & g1 & Hm & Hf1 & _ & _ & Hp1 & _).
    rewrite Hf in Hf1. injection Hf1 as <-.
    intros q Hq. rewrite Hp1 in Hq. injection Hq as <-.
    apply P_draw. apply (P_move _ _ _ _ _ _ _ _ _ (Hg p Hp) Hm).
  - exact (Hdraw Hf).
  - exact (Hdraw Hf).
Qed.

Lemma delta_reachable_player (g : Game.t) :
  reachable trig g -> forall p, Game.player g = Some p -> P p.
Proof.
  induction 1 as [|g g' events left right Hr IH Hit].
  - intros p Hp. discriminate Hp.
  - unfold iteration in Hit.
    destruct (handle_events trig events g) as [g1|] eqn:Hh; [|discriminate Hit].
    pose proof (delta_reachable_wf trig g Hr) as Hwf.
    destruct (delta_handle_events_wf trig events g Hwf) as (g2 & Hh2 & Hwf2 & _).
    rewrite Hh in Hh2. injection Hh2 as <-.
    apply (delta_frame_player left right g1 g' Hwf2 Hit).
    exact (delta_handle_events_player events g g1 Hh IH).
Qed.

End DeltaPlayerInvariant.

Lemma edge_loop_frame (platforms : list Platform.t) (e : Enemy.t) (b : bool) :
  Enemy.animation_frame (fst (fold_left Enemy.edge_step platforms (e, b)))
  = Enemy.animation_frame e.
Proof.
  revert e b. induction platforms as [|q rest IH]; intros e b; [reflexivity|].
  cbn [fold_left]. unfold Enemy.edge_step at 2.
  destruct (Enemy.on e q); [|apply IH].
  destruct (Enemy.at_edge e q); rewrite IH; reflexivity.
Qed.

Lemma enemy_move_frame (e : Enemy.t) (platforms : list Platform.t) :
  0 <= Enemy.animation_frame e -> Enemy.animation_frame e < 2 ->
  0 <= Enemy.animation_frame (Enemy.move e platforms) /\
  Enemy.animation_frame (Enemy.move e platforms) < 2.
Proof.
  intros H0 H2. unfold Enemy.move.
  destruct (negb (Enemy.active e)); [split; assumption|]. cbv zeta.
  pose proof (edge_loop_frame platforms (Enemy.animate (Enemy.advance e)) false)
    as Hf.
  destruct (fold_left Enemy.edge_step platforms
              (Enemy.animate (Enemy.advance e), false)) as [e1 b1].
  cbn [fst] in Hf.
  assert (Ha : 0 <= Enemy.animation_frame (Enemy.animate (Enemy.advance e)) /\
               Enemy.animation_frame (Enemy.animate (Enemy.advance e)) < 2).
  { unfold Enemy.animate, Enemy.advance. cbv zeta.
    cbn [Enemy.animation_frame Enemy.set_animation_frame Enemy.set_x].
    match goal with
    | |- context [Qge_bool ?a ?b] => destruct (Qge_bool a b) eqn:E
    end; cbn [Enemy.animation_frame Enemy.set_animation_frame Enemy.set_x].
    - split; lra.
    - unfold Qge_bool in E. apply Qle_bool_false_iff in E. split; lra. }
  destruct (negb b1); cbn [Enemy.animation_frame Enemy.set_direction];
    rewrite Hf; exact Ha.
Qed.

Lemma sml_player_frame_reachable (g : SML.Game.t) (p : SML.Player.t) :
  SMLRun.reachable g -> SML.Game.player g = Some p ->
  0 <= SML.Player.animation_frame p /\ SML.Player.animation_frame p < 2.
Proof.
  intros Hr Hp.
  apply (sml_reachable_player
           (fun p => 0 <= SML.Player.animation_frame p /\
                     SML.Player.animation_frame p < 2)) with (g := g);
    try assumption.
  - split; [apply Qle_refl | reflexivity].
  - intros q Hq. unfold SML.Player.jump.
    destruct (negb (SML.Player.jumping q)); exact Hq.
  - intros store q dx platforms enemies coins p1 es cs [H0 H2] Hm.
    exact (sml_move_frame store q p1 dx platforms enemies es coins cs Hm H0 H2).
  - intros q Hq. unfold SML.Player.draw.
    repeat match goal with
      | |- context [if ?c then _ else _] => destruct c
      end; exact Hq.
Qed.

Lemma delta_player_frame_reachable (trig : Z -> Delta.Level.Layout)
    (g : Delta.Game.t) (p : Delta.Player.t) :
  DeltaRun.reachable trig g -> Delta.Game.player g = Some p ->
  Delta.Player.dying p = true \/
  (0 <= Delta.Player.animation_frame p /\ Delta.Player.animation_frame p < 2).
Proof.
  intros Hr Hp.
  apply (delta_reachable_player trig
           (fun p => Delta.Player.dying p = true \/
                     (0 <= Delta.Player.animation_frame p /\
                      Delta.Player.animation_frame p < 2))) with (g := g);
    try assumption.
  - right. split; [apply Qle_refl | reflexivity].
  - intros q Hq. unfold Delta.Player.jump.
    destruct (negb (Delta.Player.jumping q) && negb (Delta.Player.dying q));
      exact Hq.
  - intros store q dx platforms enemies coins p1 es cs Hq Hm.
    destruct (Delta.Player.dying q) eqn:Hdy.
    + left. exact (delta_move_dying_stays store q p1 dx platforms enemies es
                     coins cs Hm Hdy).
    + right. destruct Hq as [Hq | [H0 H2]]; [discriminate Hq|].
      exact (delta_move_frame store q p1 dx platforms enemies es coins cs
               Hm Hdy H0 H2).
  - intros q Hq. unfold Delta.Player.draw.
    repeat match goal with
      | |- context [if ?c then _ else _] => destruct c
      end; exact Hq.
Qed.

(** Animation frames.  From [Game.__init__] on the player's
    [animation_frame] stays in [0, 2), so the frame that [Player.draw]
    selects is 0 or 1 and [mario_pixels[frame]] never raises; in the
    extended variant this holds while the player is not dying (a dying
    player's [animation_frame] grows by 0.5 a tick, and its sprite does not
    use it).  [Enemy.move] keeps an enemy's [animation_frame] in [0, 2). *)
Theorem animation_frames_stay_in_range :
  (forall (g : SML.Game.t) (p : SML.Player.t),
      SMLRun.reachable g -> SML.Game.player g = Some p ->
      0 <= SML.Player.animation_frame p /\ SML.Player.animation_frame p < 2 /\
      exists pixels,
        sprite_pixels (SML.Player.animation_frame p) (SML.Player.vel_y p)
        = Some pixels) /\
  (forall (trig : Z -> Delta.Level.Layout) (g : Delta.Game.t) (p : Delta.Player.t),
      DeltaRun.reachable trig g -> Delta.Game.player g = Some p ->
      Delta.Player.dying p = false ->
      0 <= Delta.Player.animation_frame p /\ Delta.Player.animation_frame p < 2 /\
      exists pixels,
        sprite_pixels (Delta.Player.animation_frame p) (Delta.Player.vel_y p)
        = Some pixels) /\
  (forall (e : Enemy.t) (platforms : list Platform.t),
      0 <= Enemy.animation_frame e -> Enemy.animation_frame e < 2 ->
      0 <= Enemy.animation_frame (Enemy.move e platforms) /\
      Enemy.animation_frame (Enemy.move e platforms) < 2).
Proof.
  split; [|split].
  - intros g p Hr Hp.
    destruct (sml_player_frame_reachable g p Hr Hp) as [H0 H2].
    split; [exact H0|]. split; [exact H2|].
    apply sprite_pixels_some; assumption.
  - intros trig g p Hr Hp Hdy.
    destruct (delta_player_frame_reachable trig g p Hr Hp) as [H | [H0 H2]];
      [congruence|].
    split; [exact H0|]. split; [exact H2|].
    apply sprite_pixels_some; assumption.
  - exact enemy_move_frame.
Qed.

Lemma animation_frames_stay_in_range_witness :
  (exists p,
     SML.Game.player ExRun.sml_started = Some p /\
     0 <= SML.Player.animation_frame p /\ SML.Player.animation_frame p < 2 /\
     exists pixels,
       sprite_pixels (SML.Player.animation_frame p) (SML.Player.vel_y p)
       = Some pixels) /\
  (exists p,
     Delta.Game.player ExRun.delta_started = Some p /\
     0 <= Delta.Player.animation_frame p /\ Delta.Player.animation_frame p < 2 /\
     exists pixels,
       sprite_pixels (Delta.Player.animation_frame p) (Delta.Player.vel_y p)
       = Some pixels) /\
  (0 <= Enemy.animation_frame (Enemy.move (Enemy.init 100 92 0) []) /\
   Enemy.animation_frame (Enemy.move (Enemy.init 100 92 0) []) < 2).
Proof.
  split; [|split].
  - destruct (SML.Game.player ExRun.sml_started) as [p|] eqn:Hp;
      [|vm_compute in Hp; discriminate Hp].
    exists p. split; [reflexivity|].
    exact (proj1 animation_frames_stay_in_range _ p sml_started_reachable Hp).
  - destruct (Delta.Game.player ExRun.delta_started) as [p|] eqn:Hp;
      [|vm_compute in Hp; discriminate Hp].
    exists p. split; [reflexivity|].
    apply (proj1 (proj2 animation_frames_stay_in_range) _ _ p
             delta_started_reachable Hp).
    vm_compute in Hp. injection Hp as <-. reflexivity.
  - apply (proj2 (proj2 animation_frames_stay_in_range)).
    + apply Qle_refl.
    + reflexivity.
Defined.

(** ** Lives *)

Section SMLHurt.
Import SML SML.Player SMLInv.

Lemma sml_enemy_contact_hurt (p : t) (e : Enemy.t) :
  hurt_at_most_once p -> hurt_at_most_once (fst (enemy_contact p e)).
Proof.
  intros H. unfold enemy_contact.
  destruct (Enemy.active e && collision p e); [|exact H].
  destruct (Qgt_bool (vel_y p) 0 && Qlt_bool (y p) (Enemy.y e)); [exact H|].
  destruct (invincible p <=? 0)%Z eqn:E; [|exact H].
  destruct H as [[Hl Hi] | [Hl Hi]].
  - right. unfold take_damage. cbn. rewrite Hl. cbn. split; reflexivity.
  - rewrite Hi in E. discriminate E.
Qed.

Lemma sml_enemy_loop_hurt (enemies : list Enemy.t) (p : t) :
  hurt_at_most_once p -> hurt_at_most_once (fst (enemy_loop p enemies)).
Proof.
  revert p. induction enemies as [|e rest IH]; intros p H; [exact H|].
  cbn [enemy_loop].
  pose proof (sml_enemy_contact_hurt p e H) as H1.
  destruct (enemy_contact p e) as [p1 e1]. cbn [fst] in H1.
  specialize (IH p1 H1). destruct (enemy_loop p1 rest) as [p2 es].
  exact IH.
Qed.

Lemma sml_move_hurt (store : CoinStore) (p p1 : t) (dx : Q)
    (platforms : list Platform.t) (enemies es : list Enemy.t)
    (coins cs : list CoinRef) :
  hurt_at_most_once p ->
  move store p dx platforms enemies coins = Some (p1, es, cs) ->
  hurt_at_most_once p1.
Proof.
  intros H Hm. destruct (active p) eqn:Hact.
  - rewrite (sml_move_active _ _ _ _ _ _ Hact) in Hm. cbv zeta in Hm.
    injection Hm as <- _ _.
    set (pe := fst (move_to_enemies p dx platforms enemies)).
    assert (Hpe : hurt_at_most_once pe).
    { subst pe. unfold move_to_enemies.
      destruct (sml_move_to_gravity_counters p dx platforms) as [Hi0 Hl0].
      destruct (sml_vertical_loop_counters platforms
                  (move_to_gravity p dx platforms) false) as [Hi1 Hl1].
      destruct (fold_left vertical_step platforms
                  (move_to_gravity p dx platforms, false)) as [pv b].
      cbn [fst] in *. apply sml_enemy_loop_hurt.
      unfold hurt_at_most_once. rewrite Hi1, Hl1, Hi0, Hl0. exact H. }
    clearbody pe.
    destruct (sml_pickups_place
                (List.length (filter (fun r => collision pe (store r)) coins)) pe)
      as (_ & _ & Hl & _ & Hi & _).
    unfold hurt_at_most_once, check_bounds.
    match goal with
    | |- context [if ?c then _ else _] => destruct c
    end; cbn [lives invincible set_active]; rewrite ?Hl, ?Hi; exact Hpe.
  - unfold move in Hm. rewrite Hact in Hm. cbn [negb] in Hm.
    injection Hm as <- _ _. exact H.
Qed.

Lemma sml_draw_hurt (p : t) :
  hurt_at_most_once p -> hurt_at_most_once (fst (draw p)).
Proof.
  intros H. unfold draw. destruct (negb (active p)); [exact H|].
  destruct H as [[Hl Hi] | [Hl Hi]]; rewrite Hi; cbn.
  - left. split; assumption.
  - right. split; assumption.
Qed.

Lemma sml_jump_hurt (p : t) :
  hurt_at_most_once p -> hurt_at_most_once (jump p).
Proof.
  intros H. destruct (sml_jump_counters p) as [Hi Hl].
  unfold hurt_at_most_once. rewrite Hi, Hl. exact H.
Qed.

End SMLHurt.

Section DeltaHurt.
Import Delta Delta.Player DeltaInv.

Lemma delta_enemy_contact_hurt (p : t) (e : Enemy.t) :
  hurt_at_most_once p -> hurt_at_most_once (fst (enemy_contact p e)).
Proof.
  intros H. unfold enemy_contact.
  destruct (Enemy.active e && collision p e); [|exact H].
  destruct (Qgt_bool (vel_y p) 0 && Qlt_bool (y p) (Enemy.y e)); [exact H|].
  destruct (invincible p <=? 0)%Z eqn:E; [|exact H].
  destruct H as [[Hl Hi] | [Hl Hi]].
  - right. unfold take_damage. cbn. rewrite Hl. cbn. split; reflexivity.
  - rewrite Hi in E. discriminate E.
Qed.

Lemma delta_enemy_loop_hurt (enemies : list Enemy.t) (p : t) :
  hurt_at_most_once p -> hurt_at_most_once (fst (enemy_loop p enemies)).
Proof.
  revert p. induction enemies as [|e rest IH]; intros p H; [exact H|].
  cbn [enemy_loop].
  pose proof (delta_enemy_contact_hurt p e H) as H1.
  destruct (enemy_contact p e) as [p1 e1]. cbn [fst] in H1.
  specialize (IH p1 H1). destruct (enemy_loop p1 rest) as [p2 es].
  exact IH.
Qed.

Lemma delta_move_hurt (store : CoinStore) (p p1 : t) (dx : Q)
    (platforms : list Platform.t) (enemies es : list Enemy.t)
    (coins cs : list CoinRef) :
  hurt_at_most_once p ->
  move store p dx platforms enemies coins = Some (p1, es, cs) ->
  hurt_at_most_once p1.
Proof.
  intros H Hm. destruct (active p) eqn:Hact; [destruct (dying p) eqn:Hdy|].
  - unfold move in Hm. rewrite Hact, Hdy in Hm. cbn [negb] in Hm.
    injection Hm as <- _ _. unfold hurt_at_most_once, move_dying. cbv zeta.
    match goal with
    | |- context [if ?c then _ else _] => destruct c
    end; exact H.
  - rewrite (delta_move_active _ _ _ _ _ _ Hact Hdy) in Hm. cbv zeta in Hm.
    injection Hm as <- _ _.
    set (pe := fst (move_to_enemies p dx platforms enemies)).
    assert (Hpe : hurt_at_most_once pe).
    { subst pe. unfold move_to_enemies.
      destruct (delta_move_to_gravity_counters p dx platforms) as [Hi0 Hl0].
      destruct (delta_vertical_loop_counters platforms
                  (move_to_gravity p dx platforms) false) as [Hi1 Hl1].
      destruct (fold_left vertical_step platforms
                  (move_to_gravity p dx platforms, false)) as [pv b].
      cbn [fst] in *. apply delta_enemy_loop_hurt.
      unfold hurt_at_most_once. rewrite Hi1, Hl1, Hi0, Hl0. exact H. }
    clearbody pe.
    destruct (delta_pickups_place
                (List.length (filter (fun r => collision pe (store r)) coins)) pe)
      as (_ & _ & Hl & _ & Hi & _).
    unfold hurt_at_most_once, check_bounds.
    repeat match goal with
      | |- context [if ?c then _ else _] => destruct c
      end; cbn [lives invincible set_dying]; rewrite ?Hl, ?Hi; exact Hpe.
  - unfold move in Hm. rewrite Hact in Hm. cbn [negb] in Hm.
    injection Hm as <- _ _. exact H.
Qed.

Lemma delta_draw_hurt (p : t) :
  hurt_at_most_once p -> hurt_at_most_once (fst (draw p)).
Proof.
  intros H. unfold draw.
  destruct (negb (active p) && negb (dying p)); [exact H|].
  destruct H as [[Hl Hi] | [Hl Hi]]; rewrite Hi; cbn.
  - left. split; assumption.
  - destruct (negb (dying p)); cbn; right; split; assumption.
Qed.

Lemma delta_jump_hurt (p : t) :
  hurt_at_most_once p -> hurt_at_most_once (jump p).
Proof.
  intros H. destruct (delta_jump_counters p) as [Hi Hl].
  unfold hurt_at_most_once. rewrite Hi, Hl. exact H.
Qed.

End DeltaHurt.

Lemma sml_reachable_hurt (g : SML.Game.t) (p : SML.Player.t) :
  SMLRun.reachable g -> SML.Game.player g = Some p ->
  SMLInv.hurt_at_most_once p.
Proof.
  intros Hr Hp.
  apply (sml_reachable_player SMLInv.hurt_at_most_once) with (g := g);
    try assumption.
  - left. split; reflexivity.
  - exact sml_jump_hurt.
  - intros store q dx platforms enemies coins p1 es cs Hq Hm.
    exact (sml_move_hurt store q p1 dx platforms enemies es coins cs Hq Hm).
  - exact sml_draw_hurt.
Qed.

Lemma delta_reachable_hurt (trig : Z -> Delta.Level.Layout) (g : Delta.Game.t)
    (p : Delta.Player.t) :
  DeltaRun.reachable trig g -> Delta.Game.player g = Some p ->
  DeltaInv.hurt_at_most_once p.
Proof.
  intros Hr Hp.
  apply (delta_reachable_player trig DeltaInv.hurt_at_most_once) with (g := g);
    try assumption.
  - left. split; reflexivity.
  - exact delta_jump_hurt.
  - intros store q dx platforms enemies coins p1 es cs Hq Hm.
    exact (delta_move_hurt store q p1 dx platforms enemies es coins cs Hq Hm).
  - exact delta_draw_hurt.
Qed.

(** Lives.  From [Game.__init__] on the player has its three lives and no
    invincibility countdown, or two lives and the countdown at 60: the
    first damage of a level sets the countdown to 60, where it stays
    ([Player.draw] returns before the decrement, 60 being a multiple of 6),
    so no second damage is ever taken.  In neither variant do the lives of
    a run reach 0; a player is lost only by falling below the screen. *)
Theorem lives_never_fall_below_two :
  (forall (g : SML.Game.t) (p : SML.Player.t),
      SMLRun.reachable g -> SML.Game.player g = Some p ->
      SMLInv.hurt_at_most_once p /\ (2 <= SML.Player.lives p <= 3)%Z) /\
  (forall (trig : Z -> Delta.Level.Layout) (g : Delta.Game.t) (p : Delta.Player.t),
      DeltaRun.reachable trig g -> Delta.Game.player g = Some p ->
      DeltaInv.hurt_at_most_once p /\ (2 <= Delta.Player.lives p <= 3)%Z).
Proof.
  split.
  - intros g p Hr Hp. pose proof (sml_reachable_hurt g p Hr Hp) as H.
    split; [exact H|]. destruct H as [[Hl _] | [Hl _]]; rewrite Hl; lia.
  - intros trig g p Hr Hp. pose proof (delta_reachable_hurt trig g p Hr Hp) as H.
    split; [exact H|]. destruct H as [[Hl _] | [Hl _]]; rewrite Hl; lia.
Qed.

Lemma lives_never_fall_below_two_witness :
  (exists p,
     SML.Game.player ExRun.sml_started = Some p /\
     SMLInv.hurt_at_most_once p /\ (2 <= SML.Player.lives p <= 3)%Z) /\
  (exists p,
     Delta.Game.player ExRun.delta_started = Some p /\
     DeltaInv.hurt_at_most_once p /\ (2 <= Delta.Player.lives p <= 3)%Z).
Proof.
  split.
  - destruct (SML.Game.player ExRun.sml_started) as [p|] eqn:Hp;
      [|vm_compute in Hp; discriminate Hp].
    exists p. split; [reflexivity|].
    exact (proj1 lives_never_fall_below_two _ p sml_started_reachable Hp).
  - destruct (Delta.Game.player ExRun.delta_started) as [p|] eqn:Hp;
      [|vm_compute in Hp; discriminate Hp].
    exists p. split; [reflexivity|].
    exact (proj2 lives_never_fall_below_two _ _ p delta_started_reachable Hp).
Defined.

(** ** Game over in the base variant *)

Section SMLGameOver.
Import SML SML.Player SMLInv.






End SMLGameOver.

Section SMLGoal.
Import SML SMLRun SMLInv.








End SMLGoal.



(** ** Text rendering *)

Section TextRendering.
Import Ascii String Text.

Lemma for_each_In {A : Type} (body : A -> option (list (Z * Z))) (l : list A)
    (calls : list (Z * Z)) (c : Z * Z) :
  for_each body l = Some calls -> In c calls ->
  exists a w, In a l /\ body a = Some w /\ In c w.
Proof.
  revert calls. induction l as [|a l IH]; intros calls H Hc.
  - injection H as <-. destruct Hc.
  - cbn [for_each] in H. destruct (body a) as [w|] eqn:Hb; [|discriminate H].
    destruct (for_each body l) as [more|]; [|discriminate H].
    injection H as <-. apply in_app_or in Hc. destruct Hc as [Hc | Hc].
    + exists a, w. split; [left; reflexivity | split; assumption].
    + destruct (IH more eq_refl Hc) as (a' & w' & Ha & Hb' & Hw).
      exists a', w'. split; [right; exact Ha | split; assumption].
Qed.

Lemma for_each_total {A : Type} (body : A -> option (list (Z * Z))) (l : list A) :
  (forall a, In a l -> exists w, body a = Some w) ->
  exists calls, for_each body l = Some calls.
Proof.
  induction l as [|a l IH]; intros H; [eexists; reflexivity|].
  cbn [for_each]. destruct (H a (or_introl eq_refl)) as [w ->].
  destruct IH as [more ->]; [intros b Hb; apply H; right; exact Hb|].
  eexists. reflexivity.
Qed.

Lemma draw_cell_In (pixels : Glyph) (x y i cy cx : Z) (w : list (Z * Z))
    (a b : Z) :
  draw_cell pixels x y i cy cx = Some w -> In (a, b) w ->
  (a = x + i * 4 + cx /\ b = y + cy /\
   0 <= a < GB_WIDTH /\ 0 <= b < GB_HEIGHT)%Z.
Proof.
  unfold draw_cell.
  destruct (list_getitem pixels cy) as [row|]; [|discriminate].
  destruct (list_getitem row cx) as [v|]; [|discriminate].
  intros H Hin. injection H as <-.
  destruct (v =? 1)%Z; [|destruct Hin].
  match type of Hin with
  | In _ (if ?c then _ else _) => destruct c eqn:E
  end; [|destruct Hin].
  destruct Hin as [Hin | []]. injection Hin as <- <-.
  repeat (apply andb_true_iff in E; destruct E as [E ?]).
  repeat match goal with
    | H : (_ <=? _)%Z = true |- _ => apply Z.leb_le in H
    | H : (_ <? _)%Z = true |- _ => apply Z.ltb_lt in H
    end.
  lia.
Qed.

Lemma draw_glyph_In (pixels : Glyph) (x y i : Z) (w : list (Z * Z)) (a b : Z) :
  draw_glyph pixels x y i = Some w -> In (a, b) w ->
  (x + i * 4 <= a < x + i * 4 + 3 /\ y <= b < y + 4 /\
   0 <= a < GB_WIDTH /\ 0 <= b < GB_HEIGHT)%Z.
Proof.
  unfold draw_glyph. intros H Hin.
  destruct (for_each_In _ _ _ _ H Hin) as (cy & w1 & Hcy & H1 & Hin1).
  destruct (for_each_In _ _ _ _ H1 Hin1) as (cx & w2 & Hcx & H2 & Hin2).
  destruct (draw_cell_In _ _ _ _ _ _ _ _ _ H2 Hin2) as (-> & -> & Ha & Hb).
  cbn in Hcy, Hcx. lia.
Qed.

Lemma draw_glyph_total (pixels : Glyph) (x y i : Z) :
  four_by_three pixels = true -> exists w, draw_glyph pixels x y i = Some w.
Proof.
  unfold four_by_three. intros H. apply andb_true_iff in H.
  destruct H as [H4 H3].
  destruct pixels as [|r0 [|r1 [|r2 [|r3 [|r4 rest]]]]]; try discriminate H4.
  cbn [forallb] in H3.
  repeat (apply andb_true_iff in H3; destruct H3 as [? H3]).
  destruct r0 as [|? [|? [|? [|? ?]]]]; try discriminate.
  destruct r1 as [|? [|? [|? [|? ?]]]]; try discriminate.
  destruct r2 as [|? [|? [|? [|? ?]]]]; try discriminate.
  destruct r3 as [|? [|? [|? [|? ?]]]]; try discriminate.
  unfold draw_glyph. apply for_each_total. intros cy Hcy.
  apply for_each_total. intros cx Hcx.
  cbn in Hcy, Hcx.
  destruct Hcy as [<- | [<- | [<- | [<- | []]]]];
    destruct Hcx as [<- | [<- | [<- | []]]];
    eexists; reflexivity.
Qed.

Lemma lookup_In (char_map : list (ascii * Glyph)) (c : ascii) (pixels : Glyph) :
  lookup char_map c = Some pixels -> In pixels (map snd char_map).
Proof.
  induction char_map as [|[k v] rest IH]; [discriminate|].
  cbn [lookup map snd]. destruct (Ascii.eqb c k).
  - intros H. injection H as <-. left. reflexivity.
  - intros H. right. apply IH. exact H.
Qed.

Lemma draw_chars_total (char_map : list (ascii * Glyph)) (chars : list ascii)
    (x y i : Z) :
  forallb four_by_three (map snd char_map) = true ->
  exists w, draw_chars char_map chars x y i = Some w.
Proof.
  intros Hok. rewrite forallb_forall in Hok.
  revert i. induction chars as [|c rest IH]; intros i; [eexists; reflexivity|].
  cbn [draw_chars].
  destruct (IH (i + 1)%Z) as [more ->].
  destruct (lookup char_map c) as [pixels|] eqn:Hl.
  - destruct (draw_glyph_total pixels x y i (Hok _ (lookup_In _ _ _ Hl))) as [w ->].
    eexists. reflexivity.
  - eexists. reflexivity.
Qed.

Lemma draw_chars_In (char_map : list (ascii * Glyph)) (chars : list ascii)
    (x y i : Z) (w : list (Z * Z)) (a b : Z) :
  draw_chars char_map chars x y i = Some w -> In (a, b) w ->
  (x + i * 4 <= a < x + (i + Z.of_nat (List.length chars)) * 4 /\
   y <= b < y + 4 /\ 0 <= a < GB_WIDTH /\ 0 <= b < GB_HEIGHT)%Z.
Proof.
  revert i w. induction chars as [|c rest IH]; intros i w H Hin.
  - injection H as <-. destruct Hin.
  - cbn [draw_chars] in H.
    destruct (match lookup char_map c with
              | Some pixels => draw_glyph pixels x y i
              | None => Some []
              end) as [w1|] eqn:H1; [|discriminate H].
    destruct (draw_chars char_map rest x y (i + 1)) as [more|] eqn:H2;
      [|discriminate H].
    injection H as <-. cbn [List.length]. apply in_app_or in Hin.
    destruct Hin as [Hin | Hin].
    + destruct (lookup char_map c) as [pixels|].
      * pose proof (draw_glyph_In _ _ _ _ _ _ _ H1 Hin). lia.
      * injection H1 as <-. destruct Hin.
    + pose proof (IH _ _ H2 Hin). lia.
Qed.

Lemma draw_chars_app (char_map : list (ascii * Glyph)) (front back : list ascii)
    (x y i : Z) :
  draw_chars char_map (front ++ back) x y i =
  match draw_chars char_map front x y i,
        draw_chars char_map back x y (i + Z.of_nat (List.length front)) with
  | Some w, Some w' => Some (w ++ w')
  | _, _ => None
  end.
Proof.
  revert i. induction front as [|c rest IH]; intros i.
  - cbn [app draw_chars List.length]. rewrite Z.add_0_r.
    destruct (draw_chars char_map back x y i); reflexivity.
  - cbn [app draw_chars List.length]. rewrite IH.
    replace (i + 1 + Z.of_nat (List.length rest))%Z
      with (i + Z.of_nat (S (List.length rest)))%Z by lia.
    destruct (match lookup char_map c with
              | Some pixels => draw_glyph pixels x y i
              | None => Some []
              end) as [w1|]; [|reflexivity].
    destruct (draw_chars char_map rest x y (i + 1)) as [w2|]; [|reflexivity].
    destruct (draw_chars char_map back x y
                (i + Z.of_nat (S (List.length rest)))) as [w3|]; [|reflexivity].
    rewrite app_assoc. reflexivity.
Qed.

Lemma list_ascii_length (text : string) :
  List.length (list_ascii_of_string text) = String.length text.
Proof. induction text as [|c text IH]; [reflexivity|]. cbn. rewrite IH. reflexivity. Qed.

Lemma list_ascii_append (front back : string) :
  list_ascii_of_string (front ++ back) =
  (list_ascii_of_string front ++ list_ascii_of_string back)%list.
Proof.
  induction front as [|c front IH]; [reflexivity|]. cbn. rewrite IH. reflexivity.
Qed.

Lemma draw_text_box (char_map : list (ascii * Glyph)) (text : string) (x y : Z) :
  forallb four_by_three (map snd char_map) = true ->
  exists calls,
    draw_text char_map text x y = Some calls /\
    forall a b : Z,
      In (a, b) calls ->
      (0 <= a < GB_WIDTH /\ 0 <= b < GB_HEIGHT /\
       x <= a < x + 4 * Z.of_nat (String.length text) /\ y <= b < y + 4)%Z.
Proof.
  intros Hok. unfold draw_text.
  destruct (draw_chars_total char_map (map upper (list_ascii_of_string text))
              x y 0 Hok) as [calls H].
  exists calls. split; [exact H|]. intros a b Hin.
  pose proof (draw_chars_In _ _ _ _ _ _ _ _ H Hin) as Hb.
  rewrite length_map, list_ascii_length in Hb. lia.
Qed.

Lemma draw_text_blank (char_map : list (ascii * Glyph)) (front back : string)
    (c : ascii) (x y : Z) :
  lookup char_map " "%char = Some [[0; 0; 0]; [0; 0; 0]; [0; 0; 0]; [0; 0; 0]]%Z ->
  lookup char_map (upper c) = None ->
  draw_text char_map (front ++ String c back) x y =
  draw_text char_map (front ++ String " " back) x y.
Proof.
  intros Hsp Hc. unfold draw_text.
  rewrite !list_ascii_append, !map_app, !draw_chars_app.
  cbn [list_ascii_of_string map draw_chars].
  change (upper " ") with " "%char. rewrite Hsp, Hc. reflexivity.
Qed.

End TextRendering.

Import Ascii String.

(** Text stays in its box.  [draw_text] never raises, whatever the text:
    every glyph of [char_map] has four rows of three cells.  Every pixel it
    sets is on the surface and inside the box of the text, four columns a
    character from [x] and four rows from [y]. *)
Theorem draw_text_stays_in_its_box :
  (forall (text : string) (x y : Z),
      exists calls,
        Text.draw_text Text.sml_char_map text x y = Some calls /\
        forall a b : Z,
          In (a, b) calls ->
          (0 <= a < GB_WIDTH /\ 0 <= b < GB_HEIGHT /\
           x <= a < x + 4 * Z.of_nat (String.length text) /\ y <= b < y + 4)%Z) /\
  (forall (text : string) (x y : Z),
      exists calls,
        Text.draw_text Text.delta_char_map text x y = Some calls /\
        forall a b : Z,
          In (a, b) calls ->
          (0 <= a < GB_WIDTH /\ 0 <= b < GB_HEIGHT /\
           x <= a < x + 4 * Z.of_nat (String.length text) /\ y <= b < y + 4)%Z).
Proof.
  split; intros text x y; apply draw_text_box; vm_compute; reflexivity.
Qed.

Lemma draw_text_stays_in_its_box_witness :
  exists calls,
    Text.draw_text Text.sml_char_map "GAME OVER" 50 60 = Some calls /\
    forall a b : Z,
      In (a, b) calls ->
      (0 <= a < GB_WIDTH /\ 0 <= b < GB_HEIGHT /\
       50 <= a < 50 + 4 * Z.of_nat (String.length "GAME OVER") /\
       60 <= b < 60 + 4)%Z.
Proof.
  exact (proj1 draw_text_stays_in_its_box "GAME OVER"%string 50%Z 60%Z).
Defined.

(** Characters without a glyph.  In an ASCII text, a character whose
    upper-case form is not a key of [char_map] is drawn as a blank:
    [draw_text] sets no pixel for it and moves on to the next cell.  The
    base variant has no glyph for the digits 4 to 9, the extended variant
    none for 7, 8 and 9, so the coin count of [draw_game] and
    [draw_victory] is shown without these digits. *)
Theorem draw_text_unknown_characters_blank :
  (forall (front back : string) (c : ascii) (x y : Z),
      Text.ascii_text front -> Text.ascii_text back -> Text.is_ascii c = true ->
      Text.lookup Text.sml_char_map (Text.upper c) = None ->
      Text.draw_text Text.sml_char_map (front ++ String c back) x y =
      Text.draw_text Text.sml_char_map (front ++ String " " back) x y) /\
  (forall (front back : string) (c : ascii) (x y : Z),
      Text.ascii_text front -> Text.ascii_text back -> Text.is_ascii c = true ->
      Text.lookup Text.delta_char_map (Text.upper c) = None ->
      Text.draw_text Text.delta_char_map (front ++ String c back) x y =
      Text.draw_text Text.delta_char_map (front ++ String " " back) x y) /\
  (forall c : ascii,
      In c ["4"; "5"; "6"; "7"; "8"; "9"]%char ->
      Text.is_ascii c = true /\
      Text.lookup Text.sml_char_map (Text.upper c) = None) /\
  (forall c : ascii,
      In c ["7"; "8"; "9"]%char ->
      Text.is_ascii c = true /\
      Text.lookup Text.delta_char_map (Text.upper c) = None).
Proof.
  split; [|split; [|split]].
  - intros front back c x y _ _ _ Hc.
    apply draw_text_blank; [reflexivity | exact Hc].
  - intros front back c x y _ _ _ Hc.
    apply draw_text_blank; [reflexivity | exact Hc].
  - intros c Hc. cbn in Hc.
    repeat (destruct Hc as [<- | Hc]; [split; reflexivity|]). destruct Hc.
  - intros c Hc. cbn in Hc.
    repeat (destruct Hc as [<- | Hc]; [split; reflexivity|]). destruct Hc.
Qed.

Lemma draw_text_unknown_characters_blank_witness :
  (Text.ascii_text "C:" /\ Text.ascii_text "" /\ Text.ascii_text "COINS: 1") /\
  Text.draw_text Text.sml_char_map ("C:" ++ String "7" "") 40 5 =
  Text.draw_text Text.sml_char_map ("C:" ++ String " " "") 40 5 /\
  Text.draw_text Text.delta_char_map ("COINS: 1" ++ String "9" "") 45 70 =
  Text.draw_text Text.delta_char_map ("COINS: 1" ++ String " " "") 45 70.
Proof.
  assert (H1 : Text.ascii_text "C:")
    by (unfold Text.ascii_text; cbn; repeat constructor).
  assert (H2 : Text.ascii_text "")
    by (unfold Text.ascii_text; cbn; repeat constructor).
  assert (H3 : Text.ascii_text "COINS: 1")
    by (unfold Text.ascii_text; cbn; repeat constructor).
  split; [repeat split; assumption|]. split.
  - destruct (proj1 (proj2 (proj2 draw_text_unknown_characters_blank)) "7"%char)
      as [Ha Hl]; [do 3 right; left; reflexivity|].
    exact (proj1 draw_text_unknown_characters_blank "C:"%string ""%string
             "7"%char 40%Z 5%Z H1 H2 Ha Hl).
  - destruct (proj2 (proj2 (proj2 draw_text_unknown_characters_blank)) "9"%char)
      as [Ha Hl]; [do 2 right; left; reflexivity|].
    exact (proj1 (proj2 draw_text_unknown_characters_blank)
             "COINS: 1"%string ""%string "9"%char 45%Z 70%Z H3 H2 Ha Hl).
Defined.
